(* ===== verification/_CoqProject ===== *)
-Q . S2P
Prelude.v
Mem.v
Pmm.v
Heap.v
Gzip.v
Uuid.v
Pointers.v
Storage.v
Vfs.v
Fat.v
FatVfs.v
Squashfs.v
Initramfs.v
Io.v
Interrupts.v
Acpi.v
Apic.v
Serial.v
Keyboard.v
Pci.v
Ide.v
Scan.v
DynFs.v
Handles.v
VnodeOps.v
Session.v
Kmain.v
Sync.v
GlobalAlloc.v
Video.v
Limine.v
Boot.v
Trace.v
Faults.v
Paging.v
Vmm.v
Start.v
