(* ===== verification/Prelude.v ===== *)
(** * A verification of the toto-os kernel

    toto-os is a small x86_64 kernel in Rust.  [_start] (src/src/main.rs) brings up
    the serial console, the descriptor tables, the physical page allocator, the
    kernel heap, ACPI and the interrupt controllers; [kmain] mounts the initramfs,
    enumerates PCI, probes the ATA disk, mounts the FAT file system of its EFI
    partition at [/mnt] and reads files through the virtual file system.  This
    library models those parts and proves them correct against specifications of
    their own; the file names below are relative to src/src/.

    ** The files

    - [Prelude]: what a call can do ([outcome]: a value, [Err(())], a panic,
      undefined behaviour, or out of fuel), the state monad [prog] whose state
      survives an error, machine integers as [Z] with their wrap-around, slices,
      little-endian fields, strings as code points, UTF-8 and UTF-16, and the
      tactics [pstep], [prun], [layout] and hint databases the proofs share.
    - [Mem] (mem/mod.rs): alignment, direct-map addresses, byte labels; [Pointers]:
      the typed pointers of the same file, over memory as bytes.
    - [Pmm] (mem/pmm.rs): the bitmap page allocator.  Its state is the struct, with
      the memory the bitmap lies in; an invariant ties the bitmap to a set of free
      pages.
    - [Paging] (arch/x86_64/paging.rs, [get_next_level] of mem/vmm.rs) and [Vmm]
      (mem/vmm.rs): page tables as words of frames, the mapper, and the boot address
      space.  [Frames] is what they need of memory; the specification is the
      processor's walk, and an invariant keeps the tables a tree.
    - [Start] (main.rs, mem/mod.rs): the page allocator, the heap and the page tables
      one after the other, as [_start] runs them.
    - [Heap] (mem/allocator.rs): the free-list allocator.  Nodes live in memory; an
      invariant reads the list off as sorted disjoint regions, and allocation and
      release refine operations on them.
    - [Gzip] (libs/gzip.rs): the DEFLATE decoder, its ring buffer, bit reader,
      Huffman tables and block decoders, with an encoder as the specification.
    - [Uuid] (libs/uuid.rs) and [Storage] (drivers/storage/mod.rs): identifiers, MBR
      and GPT parsing, reads bounded by a partition.  [BlockDevice] is the trait;
      [DiskSpec] is what a driver promises to the layers above it.
    - [Vfs] (drivers/fs/vfs.rs): the mount list (a doubly linked list of boxes in a
      store) and the node tree.  [FsOps] is the driver traits; [FsSpec] is the
      contract a driver keeps, under which paths resolve as the specification says.
    - [Fat] (drivers/fs/fat.rs): boot sector, table, clusters, directories, files.
    - [FatVfs]: the FAT driver keeps the contract of [Vfs], so a file read by path
      is the one on the disk.
    - [Squashfs] (drivers/fs/initramfs/): superblock, metadata blocks unpacked in
      place, inodes, directory listings, fragments; [Initramfs]: the archive in
      memory keeps the contract of [Vfs] too.
    - [Io] (arch/x86_64/io.rs): [IoPorts] and [Mmio], the interfaces to hardware,
      the string instructions and polling loops.
    - [Interrupts] (arch/x86_64/gdt.rs, interrupts/mod.rs, exceptions.rs): the
      descriptor tables, read back from their bytes as the processor does, and the
      system call stub.
    - [Acpi] (drivers/acpi.rs) and [Apic] (interrupts/apic.rs): firmware tables in
      memory, the MADT, the local and I/O APIC.
    - [Serial] (drivers/serial.rs, [print!] of main.rs), [Keyboard]
      (drivers/keyboard.rs), [Pci] (drivers/pci.rs): device drivers.
    - [Ide] (drivers/storage/ide.rs): the ATA driver; [AtaDisk] is the protocol the
      disk follows, and the driver implements [DiskSpec].
    - [Scan]: the part of ide.rs that reads the partition table of any [DiskSpec]
      and mounts the EFI system partition.
    - [DynFs]: [Box<dyn FsOps>], the sum of two drivers, keeps the contract if both
      do; [Handles]: open files, and paths through one file system.
    - [VnodeOps]: the rest of the two traits, which both drivers leave as [todo!()],
      and the methods of the VFS that pass such a call on; [Session]: programs of
      calls on paths, nodes and open files, with file systems mounted in between,
      typed as the borrow checker types them.
    - [Kmain] (main.rs): the file part of [kmain] over all of these.
    - [Sync] (libs/cell/once.rs, libs/sync/mutex.rs): the write-once cell, and the
      lock under every interleaving of its threads' accesses; [GlobalAlloc]
      (mem/allocator.rs): the heap behind that lock.
    - [Video] (drivers/video.rs, [draw_gradient] of main.rs): drawing into pages of
      [Pmm]; [Limine] (libs/limine.rs): the boot loader's responses.
    - [Boot] (main.rs): the banner, the command line, [log!], the processor's name.
    - [Trace] (arch/x86_64/stack_trace.rs): frame pointers in memory and the symbol
      file, read through [Vfs]; [Faults] (interrupts/exceptions.rs,
      [syscall_handler]): the handler stub on a stack, and the report; the panic
      handler and [hcf] of main.rs.

    ** How the parts meet

    The interfaces are classes.  [Pmm] proves [FramesSpec], on which [Vmm] builds the
    boot address space; [Start] proves it again for frames outside the heap, so that
    building the tables leaves the heap alone.  [Ide] proves [DiskSpec] from [AtaDisk]; [Storage] turns
    [DiskSpec] into [PartitionSpec]; [Fat] reads files from a partition that
    satisfies it; [FatVfs] turns that into [FsSpec], [Initramfs] proves [FsSpec]
    from an archive in memory, [DynFs] takes the sum of the two, and [Vfs] resolves
    paths over any [FsSpec].  [Kmain] puts them together: from the bytes in memory
    and on the disk to the bytes printed.  [Trace] and [Faults] read the symbol file
    over any [FsSpec], [Video] allocates from [Pmm], [Boot] keeps the features in a
    cell of [Sync].  [Keyboard] runs over [Uart] (the console) and [Apic]; [Apic] finds
    its table through [Acpi].  Hardware is the state type of [IoPorts]; each driver
    states what it relies on of its device as a class ([Uart], [Ps2], [PciHost],
    [AtaDisk]) and each class has a simulated device that satisfies it.

    ** What the theorems show

    - Allocators: what is returned was free, is marked used and zeroed, nothing else
      changes, and failure means there was no room; release undoes allocation;
      initialisation establishes the invariant from the boot memory map.
    - Paging: mapping a page changes exactly that page's translation, and after
      [vmm_init] the direct map and the kernel's image translate as intended; the
      heap and all free pages are mapped, and the heap's memory is untouched.
    - Decoding: decompression inverts encoding, always ends, and rejects what it
      does not handle; canonical codes are decoded symbol by symbol; MBR, GPT and
      UUID parsing inverts their layout.
    - File systems: the mount list is an ordered list of mounts; opening a path is
      resolving it in the specification; reads return the file's bytes; a directory
      search finds what its entries say; the cached and the on-disk allocation
      table agree; a GPT is read entry by entry.
    - Clients: a typed program of file system calls never goes wrong and gets what
      the mounted file systems say, and a node counts the files open on it.
    - Pointers: a pointer with room behind it is an array; a write changes one
      element, a copy makes the same array elsewhere.
    - The boot: what [kmain] prints is what the archive and the volume hold, up to
      the read after the unmount, which uses the dropped file system.
    - The lock: at most one holder, critical sections take effect one after the
      other, and under a fair schedule every thread gets through; so on the kernel
      heap every byte is free or in one block, whatever the threads ask for.
    - Reports: what the command line sets, what a symbol search finds, which frames
      a trace prints, which registers a fault shows, what the screen shows and what
      the copy to it overwrites.
    - Devices: a drive's reads are its disk's bytes, its writes replace them, and the
      calls that wait for ever are characterised; a stream of scancodes types what its
      events say; enumeration lists the functions that answer; ACPI lookups and the
      MADT loop find what the tables hold; every vector is gated to its handler through
      a valid code segment.
    - Errors: where the code departs from what it means to do, the theorem states
      what it does (the divergences are listed with the manifest's findings).

    ** Integers, fuel and loops

    Release builds wrap, so every arithmetic operation that can overflow is written
    with [u8] .. [u64].  A loop the source bounds is structural; a loop it does not
    bound takes fuel, and [NoFuel] is a result of its own that no theorem mistakes
    for success: the theorems give the fuel that is enough (a count of list nodes,
    clusters, directory entries, table records, or polls of a device that its
    contract bounds by [limit] or [polls]) and, where a loop can run for ever, say
    so for every fuel.  [decode] uses 16 because a code has at most 15 bits.

    ** Not modelled, and why

    - Concurrency beyond [Sync] and [GlobalAlloc]: the kernel runs one processor, and
      every other file treats a [Mutex], an atomic or a [Cell] as the value it holds.
    - How [{}] prints an argument, where a report is returned as data; the other
      methods of core and alloc are modelled where the code uses them.
    - [null_interrupt_handler], which logs and acknowledges, and the instructions
      that only change the processor's state (sti, pause).
    - That a BTreeMap moves its elements: a tree node is named by its path (see the
      findings).
    - The limine crate's responses are arguments; the other
      architectures are stubs; bin/hello.rs is a sample program. *)

From stdpp Require Export prelude gmap strings list.
From Stdlib Require Export ZArith Lia.

#[export] Set Default Goal Selector "!".
Global Open Scope Z_scope.

(** * Outcomes of Rust code *)

(** What a call can do: return a value, return [Err(())], panic, be undefined
    (a dangling raw pointer is dereferenced), or run past the fuel the model
    gives to a loop the source leaves unbounded. *)
Inductive outcome (A : Type) : Type :=
  | Ok (a : A)
  | Err
  | Panic
  | Undef
  | NoFuel.
Arguments Ok {A} a.
Arguments Err {A}.
Arguments Panic {A}.
Arguments Undef {A}.
Arguments NoFuel {A}.

#[export] Instance outcome_eq_dec {A} `{EqDecision A} : EqDecision (outcome A).
Proof. solve_decision. Defined.

#[export] Instance outcome_ret : MRet outcome := λ A a, Ok a.
#[export] Instance outcome_bind : MBind outcome := λ A B f o,
  match o with
  | Ok a => f a
  | Err => Err
  | Panic => Panic
  | Undef => Undef
  | NoFuel => NoFuel
  end.
#[export] Instance outcome_fmap : FMap outcome := λ A B f o,
  match o with
  | Ok a => Ok (f a)
  | Err => Err
  | Panic => Panic
  | Undef => Undef
  | NoFuel => NoFuel
  end.

(** The returned [Result] carries a value. *)
Definition is_ok {A} (o : outcome A) : bool :=
  match o with Ok _ => true | _ => false end.

Definition of_option {A} (e : outcome A) (o : option A) : outcome A :=
  match o with Some a => Ok a | None => e end.

(** [assert!] *)
Definition rassert (b : bool) : outcome unit := if b then Ok tt else Panic.

(** Division panics on zero. *)
Definition rdiv (x y : Z) : outcome Z := if y =? 0 then Panic else Ok (x / y).

(** [if b { return Err(()) }] *)
Definition reject_if (b : bool) : outcome unit := if b then Err else Ok tt.

(** [for x in l { acc = f(acc, x)? }], for code without [self]. *)
Fixpoint foldM {A B} (f : B → A → outcome B) (b : B) (l : list A) : outcome B :=
  match l with
  | [] => Ok b
  | x :: l' => b' ← f b x; foldM f b' l'
  end.

Lemma foldM_app {A B} (f : B → A → outcome B) b l k :
  foldM f b (l ++ k) = b' ← foldM f b l; foldM f b' k.
Proof.
  revert b. induction l as [|x l IH]; intros b; [done|]. cbn.
  destruct (f b x); cbn; auto.
Qed.

(** An invariant of the loop. *)
Lemma foldM_inv {A B} (P : list A → B → Prop) (f : B → A → outcome B) l b :
  P [] b → (∀ done x rest b, l = done ++ x :: rest → P done b →
    ∃ b', f b x = Ok b' ∧ P (done ++ [x]) b') →
  ∃ b', foldM f b l = Ok b' ∧ P l b'.
Proof.
  intros H0 Hs. assert (∀ dn rest b, l = dn ++ rest → P dn b →
    ∃ b', foldM f b rest = Ok b' ∧ P l b') as H; [|by apply (H [])].
  intros dn rest. revert dn. induction rest as [|x rest IH]; intros dn b' E Hp.
  - rewrite app_nil_r in E. subst. by exists b'.
  - destruct (Hs dn x rest b' E Hp) as (b2 & E2 & P2). cbn. rewrite E2. cbn.
    apply (IH (dn ++ [x])); [by rewrite <- app_assoc|done].
Qed.

(** * State and outcome: code that mutates [self] or a static *)

(** The state survives every outcome: a caller that inspects the returned
    [Result] sees the mutations made before the [Err]. *)
Definition prog (S A : Type) : Type := S → outcome A * S.

Section prog.
Context {S : Type}.

#[export] Instance prog_ret : MRet (prog S) := λ A a s, (Ok a, s).
#[export] Instance prog_bind : MBind (prog S) := λ A B f m s,
  match m s with
  | (Ok a, s') => f a s'
  | (Err, s') => (Err, s')
  | (Panic, s') => (Panic, s')
  | (Undef, s') => (Undef, s')
  | (NoFuel, s') => (NoFuel, s')
  end.

Definition get : prog S S := λ s, (Ok s, s).
Definition gets {A} (f : S → A) : prog S A := λ s, (Ok (f s), s).
Definition put (s : S) : prog S unit := λ _, (Ok tt, s).
Definition modify (f : S → S) : prog S unit := λ s, (Ok tt, f s).
Definition lift {A} (o : outcome A) : prog S A := λ s, (o, s).
Definition err {A} : prog S A := lift Err.
Definition panic {A} : prog S A := lift Panic.

(** The caller inspects the returned [Result] instead of propagating it. *)
Definition attempt {A} (m : prog S A) : prog S (option A) := λ s,
  match m s with
  | (Ok a, s') => (Ok (Some a), s')
  | (Err, s') => (Ok None, s')
  | (Panic, s') => (Panic, s')
  | (Undef, s') => (Undef, s')
  | (NoFuel, s') => (NoFuel, s')
  end.

(** [for _ in 0..n { body }] *)
Fixpoint repeat_n (n : nat) (body : prog S unit) : prog S unit :=
  match n with
  | O => mret tt
  | Datatypes.S n' => body ;; repeat_n n' body
  end.

(** [for x in l { body x }] *)
Fixpoint for_each {A} (l : list A) (body : A → prog S unit) : prog S unit :=
  match l with
  | [] => mret tt
  | x :: l' => body x ;; for_each l' body
  end.
End prog.

Arguments get {S} / _.
Arguments put {S} _ / _.
Arguments modify {S} _ / _.
Arguments gets {S A} _ / _.
Arguments lift {S A} _ / _.

(** Sequencing, once the outcome of the first part is known. *)
Lemma bind_Ok {S A B} (m : prog S A) (f : A → prog S B) s a s' :
  m s = (Ok a, s') → (m ≫= f) s = f a s'.
Proof. intros H. unfold mbind, prog_bind. by rewrite H. Qed.

Lemma bind_Err {S A B} (m : prog S A) (f : A → prog S B) s s' :
  m s = (Err, s') → (m ≫= f) s = (Err, s').
Proof. intros H. unfold mbind, prog_bind. by rewrite H. Qed.

Lemma bind_Ok_inv {S A B} (m : prog S A) (f : A → prog S B) s b s' :
  (m ≫= f) s = (Ok b, s') → ∃ a s1, m s = (Ok a, s1) ∧ f a s1 = (Ok b, s').
Proof.
  unfold mbind, prog_bind.
  destruct (m s) as [[a| | | |] s1] eqn:E; intros [=]; eauto.
Qed.

Lemma bind_assoc {S A B C} (m : prog S A) (f : A → prog S B) (g : B → prog S C) s :
  ((m ≫= f) ≫= g) s = (m ≫= (λ a, f a ≫= g)) s.
Proof. unfold mbind, prog_bind. by destruct (m s) as [[] ?]. Qed.

Lemma repeat_n_S {S} n (body : prog S unit) s :
  repeat_n (Datatypes.S n) body s = (body ;; repeat_n n body) s.
Proof. reflexivity. Qed.

Lemma for_each_fmap {S A B} (f : A → B) (l : list A) (body : B → prog S unit) s :
  for_each (f <$> l) body s = for_each l (λ x, body (f x)) s.
Proof.
  revert s. induction l as [|x l IH]; intros s; [done|]. cbn.
  unfold mbind, prog_bind. destruct (body (f x) s) as [[] ?]; auto.
Qed.

Lemma for_each_ext {S A} (l : list A) (f g : A → prog S unit) s :
  (∀ x t, x ∈ l → f x t = g x t) → for_each l f s = for_each l g s.
Proof.
  revert s. induction l as [|x l IH]; intros s H; [done|]. cbn.
  unfold mbind, prog_bind. rewrite H by constructor.
  destruct (g x s) as [[] ?]; auto. apply IH. intros y t Hy. apply H. by constructor.
Qed.

Lemma for_each_app {S A} (l k : list A) (body : A → prog S unit) s :
  for_each (l ++ k) body s = (for_each l body ;; for_each k body) s.
Proof.
  revert s. induction l as [|x l IH]; intros s; [done|]. cbn [for_each app].
  rewrite bind_assoc. unfold mbind at 1 2, prog_bind at 1 2.
  destruct (body x s) as [[] ?]; auto.
Qed.

(** An invariant of a counted loop. *)
Lemma for_each_seqZ {S} (Q : Z → S → Prop) (body : Z → prog S unit) n s : 0 ≤ n → Q 0 s →
  (∀ i s, 0 ≤ i < n → Q i s → ∃ s', body i s = (Ok tt, s') ∧ Q (i + 1) s') →
  ∃ s', for_each (seqZ 0 n) body s = (Ok tt, s') ∧ Q n s'.
Proof.
  intros Hn H0 Hs.
  assert (∀ k a s, Q a s → 0 ≤ a → a + Z.of_nat k ≤ n →
    ∃ s', for_each (seqZ a (Z.of_nat k)) body s = (Ok tt, s') ∧ Q (a + Z.of_nat k) s') as H.
  { intros k. induction k as [|k IH]; intros a s' Ha Hlo Hhi; [exists s'; by rewrite Z.add_0_r|].
    rewrite seqZ_cons by lia. cbn [for_each]. destruct (Hs a s') as (s1 & E1 & H1); [lia|done|].
    rewrite (bind_Ok _ _ _ _ _ E1). replace (Z.pred (Z.of_nat (Datatypes.S k))) with (Z.of_nat k) by lia.
    destruct (IH (Z.succ a) s1) as (s2 & E2 & H2); [by rewrite <- Z.add_1_r|lia|lia|]. exists s2. split; [done|].
    by replace (a + Z.of_nat (Datatypes.S k)) with (Z.succ a + Z.of_nat k) by lia. }
  destruct (H (Z.to_nat n) 0 s H0) as (s' & E & Hq); [done|lia|]. exists s'. by rewrite Z2Nat.id in * by done.
Qed.

(** Step a program whose next statement has a known result. *)
Ltac pstep H := erewrite (bind_Ok _ _ _ _ _ H).

(** Unfold the monad, to run straight-line code. *)
Ltac prun := unfold mbind, prog_bind, mret, prog_ret; cbn.

(** * Machine integers *)

(** A [w]-bit unsigned integer is a [Z] in [[0, 2^w)]; release builds (the
    Makefile's default mode) wrap on overflow. *)
Definition u8 (x : Z) : Z := x mod 2^8.
Definition u16 (x : Z) : Z := x mod 2^16.
Definition u32 (x : Z) : Z := x mod 2^32.
Definition u64 (x : Z) : Z := x mod 2^64.

Definition u8_max : Z := 2^8 - 1.
Definition u16_max : Z := 2^16 - 1.
Definition u32_max : Z := 2^32 - 1.
Definition u64_max : Z := 2^64 - 1.

Definition fits (w x : Z) : Prop := 0 ≤ x < 2^w.
Abbreviation is_byte := (fits 8).

#[export] Instance fits_dec w x : Decision (fits w x).
Proof. unfold fits. apply _. Defined.

(** [lia] on goals about machine words. *)
(** Closed facts, decided by computation. *)
Ltac computed := first [done | by vm_compute | apply Z.leb_le; by vm_compute | apply Nat.leb_le; by vm_compute].
Ltac rlia := unfold fits, u64_max, u32_max, u16_max, u8_max in *; lia.

Lemma u64_small x : 0 ≤ x < 2^64 → u64 x = x.
Proof. intros. by apply Z.mod_small. Qed.
Lemma u32_small x : 0 ≤ x < 2^32 → u32 x = x.
Proof. intros. by apply Z.mod_small. Qed.
Lemma u16_small x : 0 ≤ x < 2^16 → u16 x = x.
Proof. intros. by apply Z.mod_small. Qed.
Lemma u8_small x : 0 ≤ x < 2^8 → u8 x = x.
Proof. intros. by apply Z.mod_small. Qed.

Lemma u64_range x : 0 ≤ u64 x < 2^64.
Proof. by apply Z.mod_pos_bound. Qed.
Lemma u32_range x : 0 ≤ u32 x < 2^32.
Proof. by apply Z.mod_pos_bound. Qed.
Lemma u16_range x : 0 ≤ u16 x < 2^16.
Proof. by apply Z.mod_pos_bound. Qed.
Lemma u8_range x : 0 ≤ u8 x < 2^8.
Proof. by apply Z.mod_pos_bound. Qed.

Create HintDb rust.
#[export] Hint Resolve u64_range u32_range u16_range u8_range : rust.
Create Rewrite HintDb wrap.
#[export] Hint Rewrite u64_small u32_small u16_small u8_small using lia : wrap.

(** ** Bit-level reasoning *)

Create Rewrite HintDb bits.
#[export] Hint Rewrite Z.land_spec Z.lor_spec Z.lxor_spec Z.ldiff_spec
  Z.testbit_0_l Z.bits_m1 Z.shiftl_spec Z.shiftr_spec Z.lnot_spec
  Z.ones_spec_low Z.ones_spec_high Z.mod_pow2_bits_low Z.mod_pow2_bits_high
  andb_false_r andb_true_r orb_false_r orb_true_r using lia : bits.

Lemma testbit_above x w i : fits w x → w ≤ i → Z.testbit x i = false.
Proof.
  intros [H0 H1] Hi. destruct (decide (x = 0)) as [->|]; [apply Z.testbit_0_l|].
  apply Z.bits_above_log2; [done|]. apply Z.log2_lt_pow2; [lia|].
  apply Z.lt_le_trans with (2^w); [done|]. apply Z.pow_le_mono_r; lia.
Qed.

Lemma shiftl_or_add hi lo k : 0 ≤ k → fits k lo →
  Z.lor (Z.shiftl hi k) lo = hi * 2^k + lo.
Proof.
  intros Hk Hlo. rewrite Z.lor_comm, <- Z.shiftl_mul_pow2 by done.
  rewrite <- Z.lxor_lor, <- Z.add_nocarry_lxor.
  - lia.
  - apply Z.bits_inj'; intros i Hi. autorewrite with bits.
    destruct (decide (i < k)).
    + rewrite (Z.testbit_neg_r hi) by lia. apply andb_false_r.
    + by rewrite (testbit_above lo k) by (done || lia).
  - apply Z.bits_inj'; intros i Hi. autorewrite with bits.
    destruct (decide (i < k)).
    + rewrite (Z.testbit_neg_r hi) by lia. apply andb_false_r.
    + by rewrite (testbit_above lo k) by (done || lia).
Qed.

Lemma land_ones_mod x k : 0 ≤ k → Z.land x (2^k - 1) = x mod 2^k.
Proof. intros. rewrite <- Z.land_ones, Z.ones_equiv by done. f_equal. Qed.

(** Clearing the low [k] bits of a [w]-bit word rounds it down. *)
Lemma land_lnot_low x k w : 0 ≤ k ≤ w → fits w x →
  Z.land x (2^w - 1 - (2^k - 1)) = x - x mod 2^k.
Proof.
  intros Hk Hx. rewrite <- Z.land_ones by lia.
  assert (2^w - 1 - (2^k - 1) = Z.ldiff (Z.ones w) (Z.ones k)) as ->.
  { rewrite <- Z.sub_nocarry_ldiff; [rewrite !Z.ones_equiv; lia|].
    apply Z.bits_inj'; intros i Hi. autorewrite with bits.
    by destruct (decide (i < k)); autorewrite with bits. }
  rewrite Z.sub_nocarry_ldiff.
  - apply Z.bits_inj'; intros i Hi. autorewrite with bits.
    destruct (decide (i < w)).
    + rewrite (Z.ones_spec_low w) by lia.
      by destruct (Z.testbit x i), (Z.testbit (Z.ones k) i).
    + by rewrite (testbit_above x w) by (done || lia).
  - apply Z.bits_inj'; intros i Hi. autorewrite with bits.
    by destruct (Z.testbit x i), (Z.testbit (Z.ones k) i).
Qed.

(** * Slices and vectors *)

Definition len {A} (l : list A) : Z := Z.of_nat (length l).

(** [l[i]], which panics out of range. *)
Definition index {A} (l : list A) (i : Z) : outcome A :=
  if decide (0 ≤ i) then of_option Panic (l !! Z.to_nat i) else Panic.

(** [l[i] = x], which panics out of range. *)
Definition store {A} (l : list A) (i : Z) (x : A) : outcome (list A) :=
  if decide (0 ≤ i < len l) then Ok (<[Z.to_nat i := x]> l) else Panic.

(** [&l[a..b]], which panics unless [a <= b <= l.len()]. *)
Definition slice {A} (l : list A) (a b : Z) : outcome (list A) :=
  if decide (0 ≤ a ≤ b ∧ b ≤ len l)
  then Ok (take (Z.to_nat (b - a)) (drop (Z.to_nat a) l)) else Panic.

(** [&l[a..]] *)
Definition slice_from {A} (l : list A) (a : Z) : outcome (list A) :=
  slice l a (len l).

Lemma len_nonneg {A} (l : list A) : 0 ≤ len l.
Proof. unfold len. lia. Qed.
Lemma len_nil {A} : len (@nil A) = 0.
Proof. done. Qed.
Lemma len_cons {A} (x : A) l : len (x :: l) = 1 + len l.
Proof. unfold len. simpl. lia. Qed.
Lemma len_app {A} (l k : list A) : len (l ++ k) = len l + len k.
Proof. unfold len. rewrite length_app. lia. Qed.
Lemma len_insert {A} (l : list A) i x : len (<[i:=x]> l) = len l.
Proof. unfold len. by rewrite length_insert. Qed.
Lemma len_replicate {A} n (x : A) : len (replicate n x) = Z.of_nat n.
Proof. unfold len. by rewrite length_replicate. Qed.
Lemma to_nat_len {A} (l : list A) : Z.to_nat (len l) = length l.
Proof. unfold len. apply Nat2Z.id. Qed.
#[export] Hint Resolve len_nonneg : rust.
Create Rewrite HintDb len.
#[export] Hint Rewrite @len_nil @len_cons @len_app @len_insert @len_replicate : len.

Lemma index_Ok {A} (l : list A) i x :
  index l i = Ok x ↔ 0 ≤ i ∧ l !! Z.to_nat i = Some x.
Proof.
  unfold index. case_decide; [|naive_solver].
  destruct (l !! Z.to_nat i) eqn:E; simpl; naive_solver.
Qed.

Lemma index_Panic {A} (l : list A) i : index l i = Panic ↔ i < 0 ∨ len l ≤ i.
Proof.
  unfold index, len. case_decide; [|naive_solver lia].
  destruct (l !! Z.to_nat i) eqn:E; simpl.
  - apply lookup_lt_Some in E. split; [done|lia].
  - apply lookup_ge_None in E. split; [lia|done].
Qed.

Lemma index_in_range {A} (l : list A) i : 0 ≤ i < len l → ∃ x, index l i = Ok x.
Proof.
  intros [H0 H1]. destruct (lookup_lt_is_Some_2 l (Z.to_nat i)) as [x Hx].
  { unfold len in H1. lia. }
  exists x. by apply index_Ok.
Qed.

Lemma store_Ok {A} (l : list A) i x : 0 ≤ i < len l →
  store l i x = Ok (<[Z.to_nat i := x]> l).
Proof. intros. unfold store. by rewrite decide_True. Qed.

Lemma slice_Ok {A} (l : list A) a b : 0 ≤ a ≤ b → b ≤ len l →
  slice l a b = Ok (take (Z.to_nat (b - a)) (drop (Z.to_nat a) l)).
Proof. intros. unfold slice. by rewrite decide_True. Qed.

Lemma slice_Panic {A} (l : list A) a b :
  slice l a b = Panic ↔ ¬ (0 ≤ a ≤ b ∧ b ≤ len l).
Proof. unfold slice. case_decide; naive_solver. Qed.

Lemma slice_app_middle {A} (l1 l2 l3 : list A) a b :
  a = len l1 → b = len l1 + len l2 → slice (l1 ++ l2 ++ l3) a b = Ok l2.
Proof.
  intros -> ->. pose proof (len_nonneg l1). pose proof (len_nonneg l2).
  pose proof (len_nonneg l3).
  rewrite slice_Ok; [|lia|rewrite !len_app; lia].
  f_equal. replace (Z.to_nat (len l1)) with (length l1) by (unfold len; lia).
  rewrite drop_app_length.
  replace (Z.to_nat (len l1 + len l2 - len l1)) with (length l2) by (unfold len; lia).
  apply take_app_length.
Qed.

Lemma slice_len {A} (l r : list A) a b : slice l a b = Ok r → len r = b - a.
Proof.
  unfold slice, len. case_decide as H; [|done]. intros [= <-].
  rewrite length_take, length_drop. unfold len in H. lia.
Qed.

(** * Little-endian decoding: [uN::from_le_bytes] *)

Fixpoint le_value (bs : list Z) : Z :=
  match bs with
  | [] => 0
  | b :: bs' => b + 2^8 * le_value bs'
  end.

(** [uN::to_le_bytes] for [n = N/8]. *)
Fixpoint le_bytes (n : nat) (x : Z) : list Z :=
  match n with
  | O => []
  | S n' => x mod 2^8 :: le_bytes n' (x / 2^8)
  end.

(** [uN::from_le_bytes(bytes[a..b].try_into().unwrap())] *)
Definition read_le (bytes : list Z) (a b : Z) : outcome Z :=
  le_value <$> slice bytes a b.

Lemma length_le_bytes n x : length (le_bytes n x) = n.
Proof. revert x. induction n; intros; simpl; auto. Qed.

Lemma le_bytes_byte n x : Forall is_byte (le_bytes n x).
Proof.
  revert x. induction n; intros x; simpl; constructor; auto.
  by apply Z.mod_pos_bound.
Qed.

Lemma le_value_range bs : Forall is_byte bs → 0 ≤ le_value bs < 2 ^ (8 * len bs).
Proof.
  induction 1 as [|b bs Hb _ IH]; [done|].
  simpl. rewrite len_cons, Z.mul_add_distr_l, Z.pow_add_r by (pose proof (len_nonneg bs); lia).
  unfold fits in Hb. change (2^(8*1)) with (2^8). nia.
Qed.

Lemma le_value_bytes n x : le_value (le_bytes n x) = x mod 2 ^ (8 * Z.of_nat n).
Proof.
  revert x. induction n as [|n IH]; intros x; [by rewrite Z.mod_1_r|].
  cbn [le_value le_bytes]. rewrite IH.
  replace (8 * Z.of_nat (S n)) with (8 + 8 * Z.of_nat n) by lia.
  rewrite Z.pow_add_r by lia.
  by rewrite Z.rem_mul_r by (done || (apply Z.pow_pos_nonneg; lia)).
Qed.

Lemma le_bytes_value bs : Forall is_byte bs → le_bytes (length bs) (le_value bs) = bs.
Proof.
  induction 1 as [|b bs Hb _ IH]; [done|]. cbn [le_value le_bytes length].
  unfold fits in Hb. f_equal.
  - rewrite Z.mul_comm, Z_mod_plus_full. by apply Z.mod_small.
  - rewrite Z.mul_comm, Z_div_plus_full, Z.div_small by lia. done.
Qed.

Lemma le_value_inj l k : Forall is_byte l → Forall is_byte k → length l = length k →
  le_value l = le_value k → l = k.
Proof.
  intros Hl Hk E Ev. by rewrite <- (le_bytes_value l Hl), <- (le_bytes_value k Hk), E, Ev.
Qed.

Lemma le_value_app l k : le_value (l ++ k) = le_value l + 2 ^ (8 * len l) * le_value k.
Proof.
  induction l as [|b l IH]; [rewrite (@len_nil Z), Z.mul_0_r, Z.pow_0_r; simpl; lia|].
  pose proof (len_nonneg l). cbn [app le_value].
  rewrite IH, len_cons, (Z.mul_add_distr_l 8), (Z.pow_add_r 2) by lia.
  change (2^(8*1)) with (2^8). lia.
Qed.

Lemma read_le_app l1 l2 l3 a b :
  a = len l1 → b = len l1 + len l2 → read_le (l1 ++ l2 ++ l3) a b = Ok (le_value l2).
Proof. intros. unfold read_le. by rewrite slice_app_middle. Qed.


(** * Strings *)

(** A [str] is the list of its [char]s, as Unicode code points. *)
Definition str : Type := list Z.

Fixpoint chars (s : string) : str :=
  match s with
  | EmptyString => []
  | String a s' => Z.of_N (Ascii.N_of_ascii a) :: chars s'
  end.

(** [s.split(c)] *)
Fixpoint split_on (c : Z) (s : str) : list str :=
  match s with
  | [] => [[]]
  | x :: s' =>
      if x =? c then [] :: split_on c s'
      else match split_on c s' with
           | part :: rest => (x :: part) :: rest
           | [] => [[x]]
           end
  end.

(** [char::is_whitespace] *)
Definition is_whitespace (c : Z) : bool :=
  ((9 <=? c) && (c <=? 13)) || (c =? 32) || (c =? 0x85) || (c =? 0xA0) || (c =? 0x1680) ||
  ((0x2000 <=? c) && (c <=? 0x200A)) || (c =? 0x2028) || (c =? 0x2029) || (c =? 0x202F) ||
  (c =? 0x205F) || (c =? 0x3000).

Fixpoint trim_start (s : str) : str :=
  match s with
  | [] => []
  | c :: s' => if is_whitespace c then trim_start s' else s
  end.
Definition trim_end (s : str) : str := rev (trim_start (rev s)).
Definition trim (s : str) : str := trim_end (trim_start s).

(** [chunks(2)] *)
Fixpoint chunks2 {A} (l : list A) : list (list A) :=
  match l with
  | x :: y :: l' => [x; y] :: chunks2 l'
  | [x] => [[x]]
  | [] => []
  end.

Lemma split_on_none c s : Forall (λ x, x ≠ c) s → split_on c s = [s].
Proof.
  induction 1 as [|x s Hx _ IH]; [done|]. cbn. rewrite (proj2 (Z.eqb_neq _ _)) by done. by rewrite IH.
Qed.
Lemma split_on_app c s t : Forall (λ x, x ≠ c) s → split_on c (s ++ c :: t) = s :: split_on c t.
Proof.
  induction 1 as [|x s Hx _ IH]; cbn; [by rewrite Z.eqb_refl|].
  rewrite (proj2 (Z.eqb_neq _ _)) by done. by rewrite IH.
Qed.

Lemma trim_start_none s : Forall (λ c, is_whitespace c = false) s → trim_start s = s.
Proof. destruct 1 as [|c s Hc _]; cbn; [done|]. by rewrite Hc. Qed.
Lemma trim_end_none s : Forall (λ c, is_whitespace c = false) s → trim_end s = s.
Proof.
  intros H. unfold trim_end. rewrite trim_start_none by (by apply Forall_rev). apply rev_involutive.
Qed.
Lemma trim_none s : Forall (λ c, is_whitespace c = false) s → trim s = s.
Proof. intros H. unfold trim. by rewrite trim_start_none, trim_end_none. Qed.

(** * Parsing fixed layouts *)

Lemma len_le_bytes n x : len (le_bytes n x) = Z.of_nat n.
Proof. unfold len. by rewrite length_le_bytes. Qed.

Lemma slice_skip {A} (l1 l2 : list A) a b k a' b' : len l1 = k → k ≤ a → a' = a - k → b' = b - k →
  slice (l1 ++ l2) a b = slice l2 a' b'.
Proof.
  intros <- Ha -> ->. unfold slice. rewrite len_app. pose proof (len_nonneg l1).
  destruct (decide (0 ≤ a ≤ b ∧ b ≤ len l1 + len l2)).
  - rewrite decide_True by lia. f_equal.
    replace (Z.to_nat a) with (length l1 + Z.to_nat (a - len l1))%nat by (unfold len in *; lia).
    rewrite drop_app_add. f_equal. f_equal. lia.
  - by rewrite decide_False by lia.
Qed.
Lemma slice_here {A} (l1 l2 : list A) b : len l1 = b → slice (l1 ++ l2) 0 b = Ok l1.
Proof. intros <-. apply (slice_app_middle [] l1 l2); [done|]. cbn. by rewrite len_nil. Qed.

Lemma le_value_le_bytes n x : fits (8 * Z.of_nat n) x → le_value (le_bytes n x) = x.
Proof. intros [? ?]. rewrite le_value_bytes. by apply Z.mod_small. Qed.

(** Evaluate one slice of a concatenation of fields of known lengths. *)
Ltac layout_step :=
  match goal with
  | |- context [slice (?l1 ++ ?l2) ?a ?b] =>
      first
        [ rewrite (slice_here l1 l2 b) by (first [assumption|apply len_le_bytes])
        | match goal with H : len l1 = ?k |- _ =>
            let a' := eval compute in (a - k) in let b' := eval compute in (b - k) in
            rewrite (slice_skip l1 l2 a b k a' b' H) by (reflexivity || lia) end
        | match l1 with le_bytes ?n ?x =>
            let k := eval compute in (Z.of_nat n) in
            let a' := eval compute in (a - k) in let b' := eval compute in (b - k) in
            rewrite (slice_skip l1 l2 a b k a' b' (len_le_bytes n x)) by (reflexivity || lia) end ]
  end.
(** Run a parser over such a concatenation. *)
Ltac layout :=
  unfold read_le; repeat layout_step; cbn [fmap outcome_fmap mbind outcome_bind];
  rewrite ?le_value_le_bytes by assumption.

(** * UTF-8, UTF-16, substrings *)

Definition between (lo hi x : Z) : bool := (lo <=? x) && (x <=? hi).

(** [core::str::from_utf8]: the decoded text, unless the bytes are ill formed. *)
Fixpoint from_utf8 (bytes : list Z) : option str :=
  match bytes with
  | [] => Some []
  | b0 :: l1 =>
      if b0 <? 0x80 then cons b0 <$> from_utf8 l1
      else match l1 with
      | [] => None
      | b1 :: l2 =>
          if between 0xC2 0xDF b0 && between 0x80 0xBF b1
          then cons ((b0 - 0xC0) * 2^6 + (b1 - 0x80)) <$> from_utf8 l2
          else match l2 with
          | [] => None
          | b2 :: l3 =>
              if between 0x80 0xBF b2 &&
                 (((b0 =? 0xE0) && between 0xA0 0xBF b1) ||
                  ((between 0xE1 0xEC b0 || between 0xEE 0xEF b0) && between 0x80 0xBF b1) ||
                  ((b0 =? 0xED) && between 0x80 0x9F b1))
              then cons ((b0 - 0xE0) * 2^12 + (b1 - 0x80) * 2^6 + (b2 - 0x80)) <$> from_utf8 l3
              else match l3 with
              | [] => None
              | b3 :: l4 =>
                  if between 0x80 0xBF b2 && between 0x80 0xBF b3 &&
                     (((b0 =? 0xF0) && between 0x90 0xBF b1) ||
                      (between 0xF1 0xF3 b0 && between 0x80 0xBF b1) ||
                      ((b0 =? 0xF4) && between 0x80 0x8F b1))
                  then cons ((b0 - 0xF0) * 2^18 + (b1 - 0x80) * 2^12 + (b2 - 0x80) * 2^6 + (b3 - 0x80))
                         <$> from_utf8 l4
                  else None
              end
          end
      end
  end.

(** [String::from_utf16]: an unpaired surrogate is an error. *)
Fixpoint from_utf16 (units : list Z) : option str :=
  match units with
  | [] => Some []
  | u0 :: l1 =>
      if between 0xD800 0xDBFF u0 then
        match l1 with
        | u1 :: l2 =>
            if between 0xDC00 0xDFFF u1
            then cons (0x10000 + (u0 - 0xD800) * 2^10 + (u1 - 0xDC00)) <$> from_utf16 l2 else None
        | [] => None
        end
      else if between 0xDC00 0xDFFF u0 then None
      else cons u0 <$> from_utf16 l1
  end.

(** [s.starts_with(t)] and [s.contains(t)] *)
Fixpoint starts_with (t s : str) : bool :=
  match t, s with
  | [], _ => true
  | x :: t', y :: s' => (x =? y) && starts_with t' s'
  | _, [] => false
  end.
Fixpoint contains (t s : str) : bool :=
  starts_with t s || match s with [] => false | _ :: s' => contains t s' end.

Definition is_ascii (c : Z) : Prop := 0 ≤ c < 128.

Lemma from_utf8_ascii bytes : Forall is_ascii bytes → from_utf8 bytes = Some bytes.
Proof.
  induction 1 as [|b bytes Hb _ IH]; [done|]. unfold is_ascii in Hb. cbn.
  rewrite (proj2 (Z.ltb_lt _ _)) by lia. by rewrite IH.
Qed.

Lemma starts_with_app t s : starts_with t (t ++ s) = true.
Proof. induction t; cbn; [done|]. by rewrite Z.eqb_refl. Qed.

Lemma starts_with_true t s : starts_with t s = true ↔ ∃ r, s = t ++ r.
Proof.
  split; [|intros [r ->]; apply starts_with_app].
  revert s. induction t as [|x t IH]; intros s; cbn; [by exists s|].
  destruct s as [|y s]; [done|]. intros [->%Z.eqb_eq H]%andb_true_iff.
  destruct (IH _ H) as [r ->]. by exists r.
Qed.

(** A slice of a prefix-suffix cut is a slice of the whole. *)
Lemma slice_of_slice {A} (l m : list A) a b c d : slice l a b = Ok m → 0 ≤ c ≤ d → d ≤ b - a →
  slice m c d = slice l (a + c) (a + d).
Proof.
  intros Hm Hc Hd. pose proof (slice_len _ _ _ _ Hm) as Hl. unfold slice in Hm.
  case_decide as H; [|done]. injection Hm as <-.
  rewrite !slice_Ok by lia. f_equal.
  rewrite (take_drop_commute (take _ _)), take_take, Nat.min_l, <- take_drop_commute, drop_drop by lia.
  f_equal; [lia|f_equal; lia].
Qed.

Lemma index_app_l {A} (l k : list A) i : i < len l → index (l ++ k) i = index l i.
Proof.
  intros Hi. unfold index. destruct (decide (0 ≤ i)); [|done].
  rewrite lookup_app_l; [done|]. unfold len in Hi. lia.
Qed.
Lemma index_app_r {A} (l k : list A) i : len l ≤ i → index (l ++ k) i = index k (i - len l).
Proof.
  intros Hi. pose proof (len_nonneg l). unfold index.
  rewrite (decide_True (P:=0 ≤ i)), (decide_True (P:=0 ≤ i - len l)) by lia.
  rewrite lookup_app_r by (unfold len in *; lia). do 2 f_equal. unfold len in *. lia.
Qed.
Lemma index_singleton {A} (x : A) i : i = 0 → index [x] i = Ok x.
Proof. by intros ->. Qed.
Lemma foldM_seqZ {B} (P : Z → B → Prop) (f : B → Z → outcome B) n b :
  P 0 b → (∀ i b, 0 ≤ i < n → P i b → ∃ b', f b i = Ok b' ∧ P (i + 1) b') → 0 ≤ n →
  ∃ b', foldM f b (seqZ 0 n) = Ok b' ∧ P n b'.
Proof.
  intros H0 Hs Hn. destruct (foldM_inv (λ dn b, P (len dn) b) f (seqZ 0 n) b H0) as (b' & E & Hp).
  - intros dn x rest b1 E Hp. assert (seqZ 0 n !! length dn = Some x) as Hx
      by (rewrite E, lookup_app_r, Nat.sub_diag by lia; done).
    apply lookup_seqZ in Hx as [Hx ?]. assert (x = len dn) as -> by (unfold len; lia).
    rewrite len_app. apply Hs; [unfold len; lia|done].
  - exists b'. split; [done|]. unfold len in Hp. rewrite length_seqZ, Z2Nat.id in Hp by done. done.
Qed.

(** Tables of fixed-size records. *)
Lemma len_concat {A} (ll : list (list A)) k : Forall (λ l, len l = k) ll → len (concat ll) = k * len ll.
Proof.
  induction 1 as [|x ll Hx _ IH]; cbn [concat]; [unfold len; cbn; lia|].
  rewrite len_app, len_cons. lia.
Qed.
Lemma slice_concat {A} (ll : list (list A)) k (i : nat) l :
  Forall (λ l, len l = k) ll → ll !! i = Some l →
  slice (concat ll) (k * Z.of_nat i) (k * Z.of_nat i + k) = Ok l.
Proof.
  intros Hk Hi. pose proof (lookup_lt_Some _ _ _ Hi) as Hlt.
  rewrite <- (take_drop_middle ll i l Hi), concat_app. cbn [concat].
  assert (len (concat (take i ll)) = k * Z.of_nat i) as E.
  { rewrite (len_concat _ k) by (by apply Forall_take). unfold len. rewrite length_take. lia. }
  apply slice_app_middle; rewrite E; [done|].
  by rewrite (Forall_lookup_1 _ _ _ _ Hk Hi).
Qed.
