(* ===== verification/Mem.v ===== *)
(** src/src/mem/mod.rs: alignment, the higher-half direct map and byte labels.

    [align_up], [align_down] and the pointer conversions are used by every
    memory component; [label_bytes] and its [Display] print sizes in the log. *)

From stdpp Require Import pretty.
From S2P Require Import Prelude.

Definition PAGE_SIZE : Z := 4096.

(** ** Alignment *)

(** [usize::is_power_of_two] *)
Definition is_power_of_two (n : Z) : bool := (0 <? n) && (Z.land n (n - 1) =? 0).

(** [!x] on [usize] *)
Definition not64 (x : Z) : Z := u64_max - x.

Definition align_up (val align : Z) : outcome Z :=
  rassert (is_power_of_two align) ;;
  mret (Z.land (u64 (u64 (val + align) - 1)) (not64 (align - 1))).

Definition align_down (val align : Z) : outcome Z :=
  rassert (is_power_of_two align) ;;
  mret (Z.land val (not64 (align - 1))).

(** ** Pointers: an address, with the direct-map offset of the boot loader *)

Section pointers.
Context (hhdm : Z).

Definition to_higher_half (addr : Z) : Z := u64 (addr + hhdm).
Definition to_lower_half (addr : Z) : Z := u64 (addr - hhdm).
End pointers.

Definition is_null (addr : Z) : bool := addr =? 0.

(** ** Byte labels *)

Inductive ByteLabelKind := BYTE | KIB | MIB | GIB.

Record ByteLabel := { byte_label : ByteLabelKind; count : Z }.

Definition label_bytes (bytes : Z) : ByteLabel :=
  if 0 <? Z.shiftr bytes 30 then {| byte_label := GIB; count := Z.shiftr bytes 30 |}
  else if 0 <? Z.shiftr bytes 20 then {| byte_label := MIB; count := Z.shiftr bytes 20 |}
  else if 0 <? Z.shiftr bytes 10 then {| byte_label := KIB; count := Z.shiftr bytes 10 |}
  else {| byte_label := BYTE; count := bytes |}.

(** [Display for ByteLabel] *)
Definition label_fmt (l : ByteLabel) : string :=
  pretty (count l) +:+
  match byte_label l with
  | BYTE => " Byte"
  | KIB => " KiB"
  | MIB => " MiB"
  | GIB => " GiB"
  end +:+
  (if count l =? 1 then "" else "s").

(** Bytes per unit of a label. *)
Definition label_unit (k : ByteLabelKind) : Z :=
  match k with BYTE => 1 | KIB => 2^10 | MIB => 2^20 | GIB => 2^30 end.

(** * Theorems *)

Lemma is_power_of_two_pow k : 0 ≤ k → is_power_of_two (2^k) = true.
Proof.
  intros. unfold is_power_of_two. apply andb_true_iff. split; [by apply Z.ltb_lt, Z.pow_pos_nonneg|].
  apply Z.eqb_eq. rewrite land_ones_mod by done. apply Z_mod_same_full.
Qed.

Lemma is_power_of_two_inv n : is_power_of_two n = true → ∃ k, 0 ≤ k ∧ n = 2^k.
Proof.
  unfold is_power_of_two. intros [Hpos%Z.ltb_lt Hland%Z.eqb_eq]%andb_true_iff.
  exists (Z.log2 n). split; [apply Z.log2_nonneg|].
  pose proof (Z.log2_spec n Hpos) as [Hlo Hhi].
  assert (0 < 2 ^ Z.log2 n) by (apply Z.pow_pos_nonneg; [lia|apply Z.log2_nonneg]).
  destruct (decide (n = 2 ^ Z.log2 n)) as [|Hne]; [done|exfalso].
  (* the top bit survives in [n - 1] *)
  assert (Z.testbit (Z.land n (n - 1)) (Z.log2 n) = true) as Hbit.
  { rewrite Z.land_spec, Z.bit_log2 by done.
    replace (Z.log2 n) with (Z.log2 (n - 1)).
    - apply Z.bit_log2. lia.
    - apply Z.log2_unique; [apply Z.log2_nonneg|]. lia. }
  by rewrite Hland, Z.testbit_0_l in Hbit.
Qed.

Lemma align_down_Ok val k : 0 ≤ k < 64 → fits 64 val →
  align_down val (2^k) = Ok (val - val mod 2^k).
Proof.
  intros Hk Hval. unfold align_down. rewrite is_power_of_two_pow by lia.
  cbn. unfold not64, u64_max. by rewrite (land_lnot_low val k 64) by rlia.
Qed.

Lemma align_up_Ok val k : 0 ≤ k < 64 → 0 ≤ val → val + 2^k - 1 < 2^64 →
  align_up val (2^k) = Ok ((val + 2^k - 1) / 2^k * 2^k).
Proof.
  intros Hk Hval Hlt. unfold align_up. rewrite is_power_of_two_pow by lia. cbn.
  assert (0 < 2^k) by (apply Z.pow_pos_nonneg; lia).
  assert (u64 (u64 (val + 2^k) - 1) = val + 2^k - 1) as ->.
  { unfold u64. rewrite Zminus_mod_idemp_l. apply Z.mod_small. lia. }
  unfold not64, u64_max. rewrite (land_lnot_low _ k 64) by rlia.
  f_equal. pose proof (Z_div_mod_eq_full (val + 2^k - 1) (2^k)). lia.
Qed.

Lemma align_up_bounds val k : 0 ≤ k →
  val ≤ (val + 2^k - 1) / 2^k * 2^k < val + 2^k ∧ (2^k | (val + 2^k - 1) / 2^k * 2^k).
Proof.
  intros Hk. assert (0 < 2^k) by (apply Z.pow_pos_nonneg; lia).
  pose proof (Z_div_mod_eq_full (val + 2^k - 1) (2^k)).
  pose proof (Z.mod_pos_bound (val + 2^k - 1) (2^k)).
  split; [lia|]. by apply Z.divide_factor_r.
Qed.

Lemma align_up_id val k : 0 ≤ k → (2^k | val) → (val + 2^k - 1) / 2^k * 2^k = val.
Proof.
  intros Hk [m ->]. assert (0 < 2^k) by (apply Z.pow_pos_nonneg; lia).
  f_equal. replace (m * 2^k + 2^k - 1) with (2^k - 1 + m * 2^k) by lia.
  rewrite Z.div_add, Z.div_small by lia. lia.
Qed.

(** [align_up] accepts exactly the powers of two, and then returns the
    least multiple of the alignment that is not below the value, whenever the
    sum does not overflow; any other alignment panics. *)
Lemma align_up_least val align :
  0 ≤ val → 0 ≤ align < 2^64 → val + align - 1 < 2^64 →
  if is_power_of_two align then
    ∃ r, align_up val align = Ok r ∧ (align | r) ∧ val ≤ r ∧
      ∀ m, (align | m) → val ≤ m → r ≤ m
  else align_up val align = Panic.
Proof.
  intros Hval Halign Hsum. destruct (is_power_of_two align) eqn:Hp.
  2: { unfold align_up. by rewrite Hp. }
  apply is_power_of_two_inv in Hp as (k & Hk & ->).
  assert (k < 64) by (apply (Z.pow_lt_mono_r_iff 2); lia).
  rewrite align_up_Ok by lia. eexists; split; [done|].
  assert (0 < 2^k) by (apply Z.pow_pos_nonneg; lia).
  destruct (align_up_bounds val k Hk) as [Hb Hd]. split; [done|]. split; [apply Hb|].
  intros m [p ->] Hle. revert Hb. generalize ((val + 2^k - 1) / 2^k). intros q Hb.
  apply Z.mul_le_mono_nonneg_r; [lia|]. apply Z.lt_succ_r.
  apply (Z.mul_lt_mono_pos_r (2^k)); lia.
Qed.

Lemma align_up_least_witness :
  ∃ r, align_up 4097 4096 = Ok r ∧ (4096 | r) ∧ 4097 ≤ r ∧
    ∀ m, (4096 | m) → 4097 ≤ m → r ≤ m.
Proof. exact (align_up_least 4097 4096 ltac:(lia) ltac:(lia) ltac:(lia)). Defined.

(** A label keeps the size: the count is the number of whole units, and
    below GiB it stays under 1024. *)
Lemma label_bytes_bounds bytes :
  0 ≤ bytes < 2^64 →
  let l := label_bytes bytes in
  count l * label_unit (byte_label l) ≤ bytes < (count l + 1) * label_unit (byte_label l) ∧
  (byte_label l ≠ GIB → 0 ≤ count l < 1024) ∧
  (byte_label l ≠ BYTE → 1 ≤ count l).
Proof.
  intros Hb l. subst l. unfold label_bytes.
  rewrite !Z.shiftr_div_pow2 by done.
  pose proof (Z_div_mod_eq_full bytes (2^30)); pose proof (Z.mod_pos_bound bytes (2^30)).
  pose proof (Z_div_mod_eq_full bytes (2^20)); pose proof (Z.mod_pos_bound bytes (2^20)).
  pose proof (Z_div_mod_eq_full bytes (2^10)); pose proof (Z.mod_pos_bound bytes (2^10)).
  repeat case_match; cbn [byte_label count label_unit]; repeat split; intros; try done; lia.
Qed.

Lemma label_bytes_bounds_witness :
  label_fmt (label_bytes 1048576) = "1 MiB" ∧
  count (label_bytes 5000) * label_unit (byte_label (label_bytes 5000)) ≤ 5000.
Proof.
  split; [vm_compute; reflexivity|].
  exact (proj1 (proj1 (label_bytes_bounds 5000 ltac:(lia)))).
Defined.

Lemma higher_lower hhdm addr : fits 64 addr →
  to_lower_half hhdm (to_higher_half hhdm addr) = addr.
Proof.
  intros. unfold to_lower_half, to_higher_half, u64.
  rewrite Zminus_mod_idemp_l, Z.add_simpl_r. by apply Z.mod_small.
Qed.

(** * Memory, by virtual address *)

(** [ptr.cast::<uN>().read_unaligned()], little endian. *)
Definition read_bytes (ram : Z → Z) (addr : Z) (n : nat) : list Z :=
  (λ i, ram (addr + i)) <$> seqZ 0 (Z.of_nat n).
Definition read_mem (ram : Z → Z) (addr : Z) (n : nat) : Z := le_value (read_bytes ram addr n).

(** ** Memory that holds given bytes *)

Definition holds (ram : Z → Z) (addr : Z) (bytes : list Z) : Prop :=
  read_bytes ram addr (Datatypes.length bytes) = bytes.

Lemma read_bytes_app ram addr n m :
  read_bytes ram addr (n + m) = read_bytes ram addr n ++ read_bytes ram (addr + Z.of_nat n) m.
Proof.
  unfold read_bytes. rewrite Nat2Z.inj_add, seqZ_app, fmap_app by lia. f_equal.
  rewrite (Z.add_comm 0), <- (fmap_add_seqZ (Z.of_nat n) 0 (Z.of_nat m)), <- list_fmap_compose.
  apply list_fmap_ext. intros i x _. cbn. f_equal. lia.
Qed.
Lemma length_read_bytes ram addr n : Datatypes.length (read_bytes ram addr n) = n.
Proof. unfold read_bytes. rewrite length_fmap, length_seqZ. lia. Qed.

Lemma holds_app ram addr l k : holds ram addr (l ++ k) ↔ holds ram addr l ∧ holds ram (addr + len l) k.
Proof.
  unfold holds. rewrite length_app, read_bytes_app. split.
  - intros E. apply app_inj_1 in E; [done|]. apply length_read_bytes.
  - intros [E1 E2]. unfold len in *. by rewrite E1, E2.
Qed.
Lemma holds_cons ram addr b l : holds ram addr (b :: l) ↔ ram addr = b ∧ holds ram (addr + 1) l.
Proof.
  change (b :: l) with ([b] ++ l). rewrite holds_app. unfold holds at 1, read_bytes.
  change (seqZ 0 _) with [0]. cbn [fmap list_fmap]. change (len [b]) with 1.
  rewrite Z.add_0_r. naive_solver.
Qed.
Lemma holds_le ram addr n x : fits (8 * Z.of_nat n) x → holds ram addr (le_bytes n x) → read_mem ram addr n = x.
Proof.
  unfold holds, read_mem. rewrite length_le_bytes. intros Hx ->. by apply le_value_le_bytes.
Qed.
