(* ===== verification/Pmm.v ===== *)
(** src/src/mem/pmm.rs: the physical memory manager.

    The state is the static [PHYSICAL_MEMORY_MANAGER] (its atomics are the
    record's fields) and the memory behind the higher-half direct map, in which
    the bitmap itself lives: the bitmap is reached through the virtual pointer
    [bitmap], so a stray bit write would land in somebody else's page, and
    [pmm_alloc]'s zeroing could destroy the bitmap.  Bit [i] of the bitmap is
    set when page [i] is not free. *)

From S2P Require Import Prelude Mem.

(** ** State *)

Record PhysicalMemoryManager := mk_pmm {
  bitmap : Z;                (* virtual address, 0 when null *)
  highest_page_idx : Z;
  last_used_page_idx : Z;
  usable_pages : Z;
  used_pages : Z;
  ram : Z → Z;               (* the byte at each virtual address of the direct map *)
}.

Definition set_bitmap v s := mk_pmm v (highest_page_idx s) (last_used_page_idx s)
  (usable_pages s) (used_pages s) (ram s).
Definition set_highest v s := mk_pmm (bitmap s) v (last_used_page_idx s)
  (usable_pages s) (used_pages s) (ram s).
Definition set_last v s := mk_pmm (bitmap s) (highest_page_idx s) v
  (usable_pages s) (used_pages s) (ram s).
Definition set_usable v s := mk_pmm (bitmap s) (highest_page_idx s)
  (last_used_page_idx s) v (used_pages s) (ram s).
Definition set_used v s := mk_pmm (bitmap s) (highest_page_idx s)
  (last_used_page_idx s) (usable_pages s) v (ram s).
Definition set_ram v s := mk_pmm (bitmap s) (highest_page_idx s)
  (last_used_page_idx s) (usable_pages s) (used_pages s) v.

(** [PhysicalMemoryManager::new], over the memory the boot loader leaves. *)
Definition pmm_new (memory : Z → Z) : PhysicalMemoryManager :=
  mk_pmm 0 0 0 0 0 memory.

(** One byte written, and [write_bytes(val, count)]. *)
Definition write_byte (a v : Z) (m : Z → Z) : Z → Z :=
  λ x, if decide (x = a) then v else m x.
Definition write_bytes (a v count : Z) (m : Z → Z) : Z → Z :=
  λ x, if decide (a ≤ x < a + count) then v else m x.

(** ** Bitmap accesses *)

(** Dereferencing the null bitmap pointer is undefined. *)
Definition bitmap_load (byte_index : Z) : prog PhysicalMemoryManager Z := λ s,
  if is_null (bitmap s) then (Undef, s)
  else (Ok (ram s (bitmap s + byte_index)), s).
Definition bitmap_store (byte_index v : Z) : prog PhysicalMemoryManager unit := λ s,
  if is_null (bitmap s) then (Undef, s)
  else (Ok tt, set_ram (write_byte (bitmap s + byte_index) v (ram s)) s).

Definition bitmap_test (bit : Z) : prog PhysicalMemoryManager bool :=
  byte ← bitmap_load (bit / 8);
  mret (negb (Z.land byte (Z.shiftl 1 (bit mod 8)) =? 0)).

Definition bitmap_set (bit : Z) : prog PhysicalMemoryManager unit :=
  byte ← bitmap_load (bit / 8);
  bitmap_store (bit / 8) (Z.lor byte (Z.shiftl 1 (bit mod 8))).

Definition bitmap_reset (bit : Z) : prog PhysicalMemoryManager unit :=
  byte ← bitmap_load (bit / 8);
  bitmap_store (bit / 8) (Z.land byte (u8_max - Z.shiftl 1 (bit mod 8))).

(** ** Allocation *)

(** The [while] loop of [pmm_inner_alloc]; one unit of fuel per test of the
    loop condition. *)
Fixpoint inner_alloc_loop (fuel : nat) (pages limit p : Z)
    : prog PhysicalMemoryManager Z :=
  match fuel with
  | O => lift NoFuel
  | S fuel' =>
      last ← gets last_used_page_idx;
      if last <? limit then
        modify (set_last (u64 (last + 1))) ;;
        used ← bitmap_test last;
        if used : bool then inner_alloc_loop fuel' pages limit 0
        else
          let p := u64 (p + 1) in
          if p =? pages then
            last ← gets last_used_page_idx;
            let page := u64 (last - pages) in
            for_each (seqZ page (last - page)) bitmap_set ;;
            mret (u64 (page * PAGE_SIZE))
          else inner_alloc_loop fuel' pages limit p
      else mret 0
  end.

(** The index grows by one per iteration, so [limit - last + 1] tests do. *)
Definition pmm_inner_alloc (pages limit : Z) : prog PhysicalMemoryManager Z :=
  last ← gets last_used_page_idx;
  inner_alloc_loop (S (Z.to_nat (limit - last))) pages limit 0.

Definition pmm_alloc_nozero (pages : Z) : prog PhysicalMemoryManager Z :=
  highest ← gets highest_page_idx;
  page_addr ← pmm_inner_alloc pages highest;
  page_addr ←
    (if is_null page_addr then
       last ← gets last_used_page_idx;
       modify (set_last 0) ;;
       pmm_inner_alloc pages last
     else mret page_addr);
  if is_null page_addr then mret 0
  else
    modify (λ s, set_used (u64 (used_pages s + pages)) s) ;;
    mret page_addr.

Section hhdm.
(** The direct-map offset, a value the boot loader hands over. *)
Context (hhdm : Z).

Definition pmm_alloc (pages : Z) : prog PhysicalMemoryManager Z :=
  ret ← pmm_alloc_nozero pages;
  if is_null ret then mret ret
  else
    modify (λ s, set_ram
      (write_bytes (to_higher_half hhdm ret) 0 (u64 (pages * PAGE_SIZE)) (ram s)) s) ;;
    mret ret.
End hhdm.

Definition pmm_dealloc (ptr pages : Z) : prog PhysicalMemoryManager unit :=
  let page := ptr / PAGE_SIZE in
  for_each (seqZ page (u64 (page + pages) - page)) bitmap_reset ;;
  modify (λ s, set_used (u64 (used_pages s - pages)) s).

Definition total_memory (s : PhysicalMemoryManager) : Z := u64 (usable_pages s * 4096).
Definition usable_memory (s : PhysicalMemoryManager) : Z :=
  u64 (u64 (usable_pages s * 4096) - u64 (used_pages s * 4096)).
Definition used_memory (s : PhysicalMemoryManager) : Z := u64 (used_pages s * 4096).

(** ** Initialisation from the boot loader's memory map *)

Record MemmapEntry := { entry_base : Z; entry_length : Z; entry_usable : bool }.

(** First loop: count the usable pages and find the highest usable address. *)
Fixpoint scan_memmap (memmap : list MemmapEntry) (highest_addr : Z)
    : prog PhysicalMemoryManager Z :=
  match memmap with
  | [] => mret highest_addr
  | entry :: rest =>
      if entry_usable entry then
        modify (λ s, set_usable (u64 (usable_pages s + entry_length entry / PAGE_SIZE)) s) ;;
        scan_memmap rest
          (if highest_addr <? u64 (entry_base entry + entry_length entry)
           then u64 (entry_base entry + entry_length entry) else highest_addr)
      else scan_memmap rest highest_addr
  end.

Section init.
Context (hhdm : Z).

(** Second loop: the bitmap takes the front of the first entry_usable entry that is
    large enough; the entry shrinks in place. *)
Fixpoint place_bitmap (memmap : list MemmapEntry) (bitmap_size : Z)
    : prog PhysicalMemoryManager (list MemmapEntry) :=
  match memmap with
  | [] => mret []
  | entry :: rest =>
      if entry_usable entry && (bitmap_size <=? entry_length entry) then
        let ptr := u64 (entry_base entry + hhdm) in
        modify (set_bitmap ptr) ;;
        modify (λ s, set_ram (write_bytes ptr 255 bitmap_size (ram s)) s) ;;
        mret ({| entry_base := u64 (entry_base entry + bitmap_size);
                 entry_length := entry_length entry - bitmap_size; entry_usable := true |} :: rest)
      else
        rest ← place_bitmap rest bitmap_size;
        mret (entry :: rest)
  end.

(** Third loop: every page of a entry_usable entry becomes free. *)
Definition free_entry (entry : MemmapEntry) : prog PhysicalMemoryManager unit :=
  if entry_usable entry then
    for_each (seqZ 0 (entry_length entry / PAGE_SIZE)) (λ i,
      bitmap_reset (u64 (entry_base entry + u64 (i * PAGE_SIZE)) / PAGE_SIZE))
  else mret tt.

Definition bitmap_bytes (highest : Z) : Z :=
  Z.land (u64 (u64 (highest / 8 + PAGE_SIZE) - 1)) (not64 (PAGE_SIZE - 1)).

(** Returns the memory map it leaves behind, which [vmm_init] reads later. *)
Definition pmm_init (memmap : list MemmapEntry)
    : prog PhysicalMemoryManager (list MemmapEntry) :=
  highest_addr ← scan_memmap memmap 0;
  modify (set_highest (highest_addr / PAGE_SIZE)) ;;
  highest ← gets highest_page_idx;
  memmap ← place_bitmap memmap (bitmap_bytes highest);
  for_each memmap free_entry ;;
  mret memmap.
End init.

(** * What the bitmap says *)

(** Page [i] is free: its bit is clear. *)
Definition page_free (s : PhysicalMemoryManager) (i : Z) : bool :=
  negb (Z.testbit (ram s (bitmap s + i / 8)) (i mod 8)).

Definition free_run (s : PhysicalMemoryManager) (a n : Z) : Prop :=
  ∀ i, a ≤ i < a + n → page_free s i = true.

(** [s'] differs from [s] at most inside the [n] bitmap bytes and in the search
    position. *)
Record frame (n : Z) (s s' : PhysicalMemoryManager) : Prop := {
  frame_bitmap : bitmap s' = bitmap s;
  frame_highest : highest_page_idx s' = highest_page_idx s;
  frame_usable : usable_pages s' = usable_pages s;
  frame_used : used_pages s' = used_pages s;
  frame_ram : ∀ a, ¬ (bitmap s ≤ a < bitmap s + n) → ram s' a = ram s a;
}.

#[export] Instance frame_preorder n : PreOrder (frame n).
Proof.
  split; [by constructor|]. intros s1 s2 s3 [] []. constructor; try congruence.
  intros a Ha. transitivity (ram s2 a); [|auto].
  match goal with H : ∀ a, _ → ram s3 a = ram s2 a |- _ => apply H end. congruence.
Qed.

(** A page operation [op] writes [v] at bit [i] and nothing else. *)
Definition sets_page (n : Z) (v : bool) (op : Z → prog PhysicalMemoryManager unit) : Prop :=
  ∀ i s, bitmap s ≠ 0 → 0 ≤ i < 8 * n →
    ∃ s', op i s = (Ok tt, s') ∧ frame n s s' ∧
      last_used_page_idx s' = last_used_page_idx s ∧
      ∀ j, 0 ≤ j → page_free s' j = if decide (j = i) then v else page_free s j.

Lemma is_null_false a : a ≠ 0 → is_null a = false.
Proof. apply Z.eqb_neq. Qed.

Lemma bitmap_test_Ok i s : bitmap s ≠ 0 → 0 ≤ i →
  bitmap_test i s = (Ok (negb (page_free s i)), s).
Proof.
  intros Hb Hi. unfold bitmap_test, bitmap_load. prun.
  rewrite is_null_false by done. do 2 f_equal. unfold page_free.
  pose proof (Z.mod_pos_bound i 8 eq_refl). rewrite Z.shiftl_1_l, negb_involutive.
  set (x := ram s _). set (k := i mod 8) in *.
  destruct (Z.testbit x k) eqn:E.
  - apply negb_true_iff, Z.eqb_neq. intros Hz.
    assert (Z.testbit (Z.land x (2^k)) k = true) as Ht
      by (by rewrite Z.land_spec, E, Z.pow2_bits_true by lia).
    by rewrite Hz, Z.testbit_0_l in Ht.
  - apply negb_false_iff, Z.eqb_eq. apply Z.bits_inj'; intros j Hj.
    rewrite Z.land_spec, Z.testbit_0_l.
    destruct (decide (j = k)) as [->|]; [by rewrite E|].
    by rewrite Z.pow2_bits_false, andb_false_r.
Qed.

Lemma byte_mask_bits k j : 0 ≤ k < 8 → 0 ≤ j < 8 →
  Z.testbit (u8_max - Z.shiftl 1 k) j = negb (k =? j).
Proof.
  intros Hk Hj.
  assert (k = 0 ∨ k = 1 ∨ k = 2 ∨ k = 3 ∨ k = 4 ∨ k = 5 ∨ k = 6 ∨ k = 7) as Ck by lia.
  assert (j = 0 ∨ j = 1 ∨ j = 2 ∨ j = 3 ∨ j = 4 ∨ j = 5 ∨ j = 6 ∨ j = 7) as Cj by lia.
  destruct_or! Ck; destruct_or! Cj; subst; reflexivity.
Qed.

(** Writing one byte of the bitmap changes the eight pages it describes. *)
Lemma page_free_write s i v j : 0 ≤ i → 0 ≤ j →
  page_free (set_ram (write_byte (bitmap s + i / 8) v (ram s)) s) j =
    if decide (j / 8 = i / 8) then negb (Z.testbit v (j mod 8)) else page_free s j.
Proof.
  intros. unfold page_free, write_byte; cbn.
  repeat case_decide; auto; lia.
Qed.

Lemma frame_write n s i v : 0 ≤ i < 8 * n →
  frame n s (set_ram (write_byte (bitmap s + i / 8) v (ram s)) s).
Proof.
  intros. constructor; try done. intros a Ha. cbn. unfold write_byte.
  rewrite decide_False; [done|]. intros ->. apply Ha.
  pose proof (Z.div_pos i 8). pose proof (Z.div_lt_upper_bound i 8 n). lia.
Qed.

Lemma bitmap_set_sets n : sets_page n false bitmap_set.
Proof.
  intros i s Hb Hi. unfold bitmap_set, bitmap_load, bitmap_store. prun.
  rewrite is_null_false by done. cbn. rewrite is_null_false by done.
  eexists; split; [done|]. split; [by apply frame_write|]. split; [done|].
  intros j Hj. rewrite page_free_write by lia. unfold page_free.
  rewrite Z.lor_spec, Z.shiftl_1_l.
  pose proof (Z.mod_pos_bound i 8 eq_refl). rewrite Z.pow2_bits_eqb by lia.
  pose proof (Z_div_mod_eq_full i 8). pose proof (Z_div_mod_eq_full j 8).
  repeat case_decide; subst; try done; try lia.
  replace (j / 8) with (i / 8).
  rewrite (proj2 (Z.eqb_neq (i mod 8) (j mod 8))) by lia. by rewrite orb_false_r.
Qed.

Lemma bitmap_reset_sets n : sets_page n true bitmap_reset.
Proof.
  intros i s Hb Hi. unfold bitmap_reset, bitmap_load, bitmap_store. prun.
  rewrite is_null_false by done. cbn. rewrite is_null_false by done.
  eexists; split; [done|]. split; [by apply frame_write|]. split; [done|].
  intros j Hj. rewrite page_free_write by lia. unfold page_free.
  pose proof (Z.mod_pos_bound i 8 eq_refl). pose proof (Z.mod_pos_bound j 8 eq_refl).
  rewrite Z.land_spec, byte_mask_bits by done.
  pose proof (Z_div_mod_eq_full i 8). pose proof (Z_div_mod_eq_full j 8).
  repeat case_decide; subst; try done; try lia.
  replace (j / 8) with (i / 8).
  rewrite (proj2 (Z.eqb_neq (i mod 8) (j mod 8))) by lia. by rewrite andb_true_r.
Qed.

(** A loop of page operations writes [v] over the whole range. *)
Lemma for_range_sets n v op a k s : sets_page n v op →
  bitmap s ≠ 0 → 0 ≤ a → a + k ≤ 8 * n →
  ∃ s', for_each (seqZ a k) op s = (Ok tt, s') ∧ frame n s s' ∧
    last_used_page_idx s' = last_used_page_idx s ∧
    ∀ j, 0 ≤ j → page_free s' j = if decide (a ≤ j < a + k) then v else page_free s j.
Proof.
  intros Hop Hb Ha Hk. destruct (decide (0 ≤ k)) as [Hk0|].
  2: { rewrite seqZ_nil by lia. exists s. split; [done|]. split; [done|]. split; [done|].
       intros j Hj. by rewrite decide_False by lia. }
  revert a s Hb Ha Hk. pattern k. apply natlike_ind; [|clear k Hk0; intros k Hk0 IH|done].
  - intros a s Hb Ha _. exists s. split; [done|]. split; [done|]. split; [done|].
    intros j Hj. by rewrite decide_False by lia.
  - intros a s Hb Ha Hk. rewrite seqZ_cons by lia. cbn [for_each].
    destruct (Hop a s) as (s1 & E1 & F1 & L1 & P1); [done|lia|].
    pstep E1. replace (Z.pred (Z.succ k)) with k by lia.
    destruct (IH (Z.succ a) s1) as (s2 & E2 & F2 & L2 & P2);
      [by rewrite (frame_bitmap _ _ _ F1)|lia|lia|].
    exists s2. split; [done|]. split; [by etrans|]. split; [congruence|].
    intros j Hj. rewrite P2, P1 by done. repeat case_decide; auto; lia.
Qed.

(** * Allocation *)

(** The result of a search over pages [[lo, limit)]: the first fit taken, or no
    run there and nothing marked. *)
Definition search_result (n lo limit pages : Z) (s : PhysicalMemoryManager)
    (r : Z) (s' : PhysicalMemoryManager) : Prop :=
  (∃ page, r = page * PAGE_SIZE ∧ lo ≤ page ∧ page + pages ≤ limit ∧
     free_run s page pages ∧ frame n s s' ∧ last_used_page_idx s' = page + pages ∧
     ∀ j, 0 ≤ j → page_free s' j =
       if decide (page ≤ j < page + pages) then false else page_free s j) ∨
  (r = 0 ∧ s' = set_last limit s ∧
     ∀ a, lo ≤ a → a + pages ≤ limit → ¬ free_run s a pages).

Lemma frame_set_last n v s s' : frame n (set_last v s) s' → frame n s s'.
Proof. intros []. by constructor. Qed.

(** A search that goes on after testing page [last] is one from [lo], when no run
    starts in between. *)
Lemma search_result_later n lo lo' limit pages v s r s' : search_result n lo' limit pages (set_last v s) r s' → lo ≤ lo' →
  (∀ a, lo ≤ a < lo' → a + pages ≤ limit → ¬ free_run s a pages) → search_result n lo limit pages s r s'.
Proof.
  intros [(page & -> & ? & ? & ? & F & ? & ?)|(-> & -> & Hno)] Hle Hbetween.
  - left. exists page. cbn in *. repeat split_and; auto; [lia|by eapply frame_set_last].
  - right. split; [done|]. split; [done|]. intros a Ha Hend Hall.
    destruct (decide (a < lo')); [by apply (Hbetween a)|by apply (Hno a); [lia|..]].
Qed.

Lemma inner_alloc_loop_spec n fuel pages limit p s :
  bitmap s ≠ 0 → 1 ≤ pages < 2^52 → 0 ≤ p < pages →
  p ≤ last_used_page_idx s ≤ limit → limit ≤ 8 * n → limit < 2^52 →
  free_run s (last_used_page_idx s - p) p →
  limit - last_used_page_idx s < Z.of_nat fuel →
  ∃ r s', inner_alloc_loop fuel pages limit p s = (Ok r, s') ∧
    search_result n (last_used_page_idx s - p) limit pages s r s'.
Proof.
  revert p s. induction fuel as [|fuel IH];
    intros p s Hb Hpg Hp Hlast Hn Hlim Hrun Hfuel; [lia|].
  cbn [inner_alloc_loop]. set (last := last_used_page_idx s) in *.
  rewrite (bind_Ok _ _ _ last s) by done.
  destruct (last <? limit) eqn:Hlt.
  2: { exists 0, s. split; [done|]. right. assert (last = limit) as El by lia.
       split; [done|]. split; [by destruct s; unfold set_last; cbn in *; subst|].
       intros a Ha1 Ha2. lia. }
  set (s1 := set_last (last + 1) s).
  rewrite (bind_Ok _ _ _ tt s1) by (cbn; by rewrite u64_small by lia).
  assert (bitmap_test last s1 = (Ok (negb (page_free s last)), s1)) as Et
    by exact (bitmap_test_Ok last s1 Hb ltac:(lia)).
  pstep Et. destruct (page_free s last) eqn:Hfree; cbn [negb].
  - rewrite u64_small by lia. destruct (p + 1 =? pages) eqn:Hdone.
    + (* the run is complete *)
      apply Z.eqb_eq in Hdone. rewrite (bind_Ok _ _ _ (last + 1) s1) by done.
      rewrite (u64_small (last + 1 - pages)) by lia.
      destruct (for_range_sets n false bitmap_set (last + 1 - pages) pages s1)
        as (s2 & E2 & F2 & L2 & P2); [apply bitmap_set_sets|done|lia|lia|].
      replace (last + 1 - (last + 1 - pages)) with pages by lia. pstep E2.
      exists ((last + 1 - pages) * PAGE_SIZE), s2. split.
      { unfold PAGE_SIZE. rewrite u64_small by lia. done. }
      left. exists (last + 1 - pages). split; [done|]. split; [lia|]. split; [lia|].
      split.
      { intros i Hi. destruct (decide (i = last)) as [->|]; [done|]. apply Hrun. lia. }
      split; [by eapply frame_set_last|]. split; [rewrite L2; cbn; lia|].
      intros j Hj. by rewrite P2.
    + (* the run grows *)
      destruct (IH (p + 1) s1) as (r & s' & E & R); [done|lia|lia|cbn; lia|lia|lia| |cbn; lia|].
      { intros i Hi. cbn in Hi. change (page_free s i = true).
        destruct (decide (i = last)) as [->|]; [done|]. apply Hrun. lia. }
      exists r, s'. split; [done|]. apply (search_result_later _ _ _ _ _ _ _ _ _ R); cbn; lia.
  - (* a used page restarts the run *)
    destruct (IH 0 s1) as (r & s' & E & R); [done|lia|lia|cbn; lia|lia|lia| |cbn; lia|].
    { intros i Hi. lia. }
    exists r, s'. split; [done|]. apply (search_result_later _ _ _ _ _ _ _ _ _ R); cbn; [lia|].
    intros a Ha _ Hall. specialize (Hall last ltac:(lia)). congruence.
Qed.

Lemma pmm_inner_alloc_spec n pages limit s :
  bitmap s ≠ 0 → 1 ≤ pages < 2^52 → 0 ≤ last_used_page_idx s ≤ limit →
  limit ≤ 8 * n → limit < 2^52 →
  ∃ r s', pmm_inner_alloc pages limit s = (Ok r, s') ∧
    search_result n (last_used_page_idx s) limit pages s r s'.
Proof.
  intros Hb Hpg Hlast Hn Hlim. unfold pmm_inner_alloc.
  rewrite (bind_Ok _ _ _ (last_used_page_idx s) s) by done.
  destruct (inner_alloc_loop_spec n (S (Z.to_nat (limit - last_used_page_idx s)))
    pages limit 0 s) as (r & s' & E & R); try done; try lia.
  { intros i Hi. lia. }
  rewrite Z.sub_0_r in R. eauto.
Qed.

(** What the rest of the kernel relies on: the bitmap exists, covers every page
    up to the highest one, and page 0 (whose address is the null pointer the
    allocator uses for failure) is never free. *)
Record pmm_inv (n : Z) (s : PhysicalMemoryManager) : Prop := {
  inv_bitmap : bitmap s ≠ 0;
  inv_highest : 0 ≤ highest_page_idx s < 2^52;
  inv_covers : highest_page_idx s ≤ 8 * n;
  inv_last : 0 ≤ last_used_page_idx s ≤ highest_page_idx s;
  inv_zero : page_free s 0 = false;
}.

(** A successful allocation of [pages] pages at page [page]. *)
Record allocated (n page pages : Z) (s s' : PhysicalMemoryManager) : Prop := {
  al_bounds : 0 < page ∧ page + pages ≤ highest_page_idx s;
  al_was_free : free_run s page pages;
  al_pages : ∀ j, 0 ≤ j < 8 * n → page_free s' j =
    if decide (page ≤ j < page + pages) then false else page_free s j;
  al_used : used_pages s' = u64 (used_pages s + pages);
  al_highest : highest_page_idx s' = highest_page_idx s;
  al_bitmap : bitmap s' = bitmap s;
}.

(** No [pages] consecutive free pages exist, and nothing was taken. *)
Record exhausted (pages : Z) (s s' : PhysicalMemoryManager) : Prop := {
  ex_no_run : ∀ a, 0 ≤ a → a + pages ≤ highest_page_idx s → ¬ free_run s a pages;
  ex_pages : ∀ j, page_free s' j = page_free s j;
  ex_used : used_pages s' = used_pages s;
  ex_highest : highest_page_idx s' = highest_page_idx s;
  ex_bitmap : bitmap s' = bitmap s;
}.

(** Both searches succeed the same way. *)
Lemma finish_alloc n lo limit pages s0 s r s1 :
  pmm_inv n s0 → 1 ≤ pages → limit ≤ highest_page_idx s0 →
  s = set_last lo s0 → 0 ≤ lo → r ≠ 0 →
  search_result n lo limit pages s r s1 →
  ∃ page, r = page * PAGE_SIZE ∧
    allocated n page pages s0 (set_used (u64 (used_pages s1 + pages)) s1) ∧
    frame n s0 (set_used (used_pages s0) s1) ∧
    pmm_inv n (set_used (u64 (used_pages s1 + pages)) s1).
Proof.
  intros Hinv Hpg Hlim -> Hlo Hr [(page & -> & ? & ? & Hrun & F & L & P)|(-> & _)]; [|done].
  destruct Hinv as [? ? ? ? Hz], F as [Fb Fh Fu Fus Fr]. cbn in *.
  assert (page ≠ 0). { intros ->. unfold PAGE_SIZE in Hr. lia. }
  exists page. split; [done|]. split; [|split].
  - constructor; cbn; try done; try lia; [|by rewrite Fus].
    intros j Hj. apply P. lia.
  - constructor; cbn; auto.
  - constructor; cbn; rewrite ?Fh, ?L; try congruence; try lia.
    change (page_free s1 0 = false). rewrite P by lia. by rewrite decide_False by lia.
Qed.

Lemma pmm_alloc_nozero_spec n pages s : pmm_inv n s → 1 ≤ pages < 2^52 →
  ∃ r s', pmm_alloc_nozero pages s = (Ok r, s') ∧ pmm_inv n s' ∧
    ((∃ page, r = page * PAGE_SIZE ∧ allocated n page pages s s' ∧
        frame n s (set_used (used_pages s) s')) ∨
     (r = 0 ∧ exhausted pages s s')).
Proof.
  intros Hinv Hpg. pose proof Hinv as [Hb Hhi Hcov Hlast Hz].
  unfold pmm_alloc_nozero. rewrite (bind_Ok _ _ _ (highest_page_idx s) s) by done.
  destruct (pmm_inner_alloc_spec n pages (highest_page_idx s) s)
    as (r1 & s1 & E1 & R1); [done|done|lia|done|lia|]. pstep E1.
  destruct (is_null r1) eqn:Hr1.
  - apply Z.eqb_eq in Hr1 as ->. destruct R1 as [(page & Hpage & ? & ? & Hrun & ?)|(_ & -> & Hno)].
    { exfalso. assert (page = 0) as -> by (unfold PAGE_SIZE in *; lia).
      specialize (Hrun 0 ltac:(lia)). congruence. }
    set (s1 := set_last 0 s).
    destruct (pmm_inner_alloc_spec n pages (highest_page_idx s) s1)
      as (r2 & s2 & E2 & R2); [done|done|cbn; lia|cbn; lia|lia|].
    rewrite (bind_Ok _ _ _ r2 s2) by exact E2.
    destruct (is_null r2) eqn:Hr2.
    + apply Z.eqb_eq in Hr2 as ->. destruct R2 as [(page & Hpage & ? & ? & Hrun & ?)|(_ & -> & Hno2)].
      { exfalso. assert (page = 0) as -> by (unfold PAGE_SIZE in *; lia).
        specialize (Hrun 0 ltac:(lia)). change (page_free s 0 = true) in Hrun. congruence. }
      eexists 0, _. split; [done|]. split; [by constructor; cbn; try lia|].
      right. split; [done|]. by constructor.
    + apply Z.eqb_neq in Hr2.
      destruct (finish_alloc n 0 (highest_page_idx s) pages s s1 r2 s2) as (page & ? & ? & ? & ?);
        try done; try lia.
      eexists _, _. split; [done|]. split; [done|]. left. eauto.
  - rewrite (bind_Ok _ _ _ r1 s1) by done. rewrite Hr1. apply Z.eqb_neq in Hr1.
    destruct (finish_alloc n (last_used_page_idx s) (highest_page_idx s) pages s s r1 s1)
      as (page & ? & ? & ? & ?); try done; try lia; try by destruct s.
    eexists _, _. split; [done|]. split; [done|]. left. eauto.
Qed.

(** Every free page keeps clear of the bitmap. *)
Definition bitmap_safe (hhdm n : Z) (s : PhysicalMemoryManager) : Prop :=
  ∀ i, 0 ≤ i < highest_page_idx s → page_free s i = true →
    hhdm + (i + 1) * PAGE_SIZE ≤ bitmap s ∨ bitmap s + n ≤ hhdm + i * PAGE_SIZE.

(** Zeroing free pages leaves every bitmap byte as it was. *)
Lemma zeroing_keeps_bitmap hhdm n s page pages k :
  bitmap_safe hhdm n s → 0 ≤ page → page + pages ≤ highest_page_idx s →
  free_run s page pages → 0 ≤ k < n →
  ¬ (hhdm + page * PAGE_SIZE ≤ bitmap s + k < hhdm + page * PAGE_SIZE + pages * PAGE_SIZE).
Proof.
  intros Hsafe Hpage Hend Hrun Hk Hin. unfold PAGE_SIZE in *.
  set (i := (bitmap s + k - hhdm) / 4096).
  pose proof (Z_div_mod_eq_full (bitmap s + k - hhdm) 4096).
  pose proof (Z.mod_pos_bound (bitmap s + k - hhdm) 4096 eq_refl). fold i in H.
  assert (page ≤ i < page + pages) as Hi by lia.
  destruct (Hsafe i ltac:(lia) (Hrun i Hi)); unfold PAGE_SIZE in *; lia.
Qed.

(** The allocation, and what it leaves alone. *)
Lemma pmm_alloc_Ok hhdm n s pages :
  pmm_inv n s → bitmap_safe hhdm n s →
  0 ≤ hhdm → hhdm + highest_page_idx s * PAGE_SIZE ≤ 2^64 → 1 ≤ pages < 2^52 →
  ∃ r s', pmm_alloc hhdm pages s = (Ok r, s') ∧
    pmm_inv n s' ∧ bitmap_safe hhdm n s' ∧
    ((∃ page, r = page * PAGE_SIZE ∧ allocated n page pages s s' ∧
        (∀ a, 0 ≤ a < pages * PAGE_SIZE → ram s' (hhdm + r + a) = 0) ∧
        ∀ a, ¬ (bitmap s ≤ a < bitmap s + n) → ¬ (hhdm + r ≤ a < hhdm + r + pages * PAGE_SIZE) →
          ram s' a = ram s a) ∨
     (r = 0 ∧ exhausted pages s s')).
Proof.
  intros Hinv Hsafe Hh Htop Hpg. unfold pmm_alloc.
  destruct (pmm_alloc_nozero_spec n pages s) as (r & s1 & E & Hinv1 & R); [done|done|].
  pstep E. destruct R as [(page & -> & Hal & Hfr)|(-> & Hex)].
  2: { exists 0, s1. split; [done|]. split; [done|]. split; [|by right].
       destruct Hex as [_ Hp _ Hhi Hbm]. intros i. rewrite Hp, Hhi, Hbm. apply Hsafe. }
  pose proof (inv_highest _ _ Hinv). pose proof (al_bounds _ _ _ _ _ Hal) as [??].
  rewrite is_null_false by (unfold PAGE_SIZE; lia).
  unfold to_higher_half. unfold PAGE_SIZE in Htop.
  rewrite !u64_small by (unfold PAGE_SIZE; lia).
  eexists _, _. split; [done|]. set (s2 := set_ram _ s1).
  assert (∀ j, 0 ≤ j < 8 * n → page_free s2 j = page_free s1 j) as Hkeep.
  { intros j Hj. unfold page_free, s2; cbn. unfold write_bytes.
    rewrite decide_False; [done|]. rewrite (al_bitmap _ _ _ _ _ Hal).
    pose proof (Z.div_pos j 8). pose proof (Z.div_lt_upper_bound j 8 n).
    rewrite (Z.add_comm (page * _) hhdm).
    apply (zeroing_keeps_bitmap hhdm n s page pages); try done; [lia|apply Hal|lia]. }
  assert (∀ j, 0 ≤ j < 8 * n → page_free s2 j =
    if decide (page ≤ j < page + pages) then false else page_free s j) as Hpages.
  { intros j Hj. rewrite Hkeep by done. by apply Hal. }
  pose proof (inv_covers _ _ Hinv). split; [|split].
  - destruct Hinv1. constructor; try done. rewrite Hkeep; [done|lia].
  - intros i Hi. change (highest_page_idx s2) with (highest_page_idx s1) in Hi.
    rewrite (al_highest _ _ _ _ _ Hal) in Hi. rewrite Hpages by lia.
    change (bitmap s2) with (bitmap s1). rewrite (al_bitmap _ _ _ _ _ Hal).
    case_decide; [done|]. by apply Hsafe.
  - left. exists page. split; [done|]. split; [by destruct Hal; constructor|].
    split; intros a Ha; unfold s2; cbn; unfold write_bytes; [rewrite decide_True; [done|lia]|].
    intros Ho. rewrite decide_False by lia. by apply (frame_ram _ _ _ Hfr).
Qed.


(** A four-page machine: the bitmap at page 1, page 2 free. *)
Definition demo_ram : Z → Z := λ a, if decide (a = 4096) then 251 else 0.
Definition demo_pmm : PhysicalMemoryManager := mk_pmm 4096 4 0 1 0 demo_ram.

Lemma demo_inv : pmm_inv 1 demo_pmm ∧ bitmap_safe 0 1 demo_pmm.
Proof.
  split; [by constructor|]. intros i Hi Hf. cbn in Hi.
  assert (i = 0 ∨ i = 1 ∨ i = 2 ∨ i = 3) as C by lia. unfold PAGE_SIZE; cbn [bitmap demo_pmm].
  destruct_or! C; subst; try done; lia.
Qed.


(** * Deallocation *)

Lemma pmm_dealloc_spec n s page pages :
  pmm_inv n s → 0 < page → 0 ≤ pages → page + pages ≤ highest_page_idx s →
  ∃ s', pmm_dealloc (page * PAGE_SIZE) pages s = (Ok tt, s') ∧ pmm_inv n s' ∧
    used_pages s' = u64 (used_pages s - pages) ∧
    frame n s (set_used (used_pages s) s') ∧
    ∀ j, 0 ≤ j → page_free s' j =
      if decide (page ≤ j < page + pages) then true else page_free s j.
Proof.
  intros Hinv Hpage Hpages Hend. pose proof Hinv as [Hb Hhi Hcov Hlast Hz].
  unfold pmm_dealloc, PAGE_SIZE. rewrite Z.div_mul by lia.
  rewrite u64_small by lia. replace (page + pages - page) with pages by lia.
  destruct (for_range_sets n true bitmap_reset page pages s) as (s1 & E & F & L & P);
    [apply bitmap_reset_sets|done|lia|lia|].
  pstep E. eexists; split; [done|]. destruct F as [Fb Fh Fu Fus Fr]. split; [|split; [|split]].
  - constructor; cbn; rewrite ?Fb, ?Fh, ?L; try done.
    change (page_free s1 0 = false). rewrite P by lia. by rewrite decide_False by lia.
  - cbn. by rewrite Fus.
  - constructor; cbn; auto.
  - exact P.
Qed.

(** C10: giving an allocation back restores the page map and the usage count, so
    an allocate/free pair is invisible to later allocations. *)
Theorem pmm_dealloc_undoes_alloc n s page pages s' :
  pmm_inv n s' → allocated n page pages s s' → 0 ≤ pages → fits 64 (used_pages s) →
  ∃ s'', pmm_dealloc (page * PAGE_SIZE) pages s' = (Ok tt, s'') ∧ pmm_inv n s'' ∧
    used_pages s'' = used_pages s ∧
    ∀ j, 0 ≤ j < 8 * n → page_free s'' j = page_free s j.
Proof.
  intros Hinv [[Hpos Hend] Hrun Hpages Hused Hhi Hbm] Hpg Hfit.
  destruct (pmm_dealloc_spec n s' page pages) as (s'' & E & I & U & _ & P);
    [done|lia|lia|congruence|].
  exists s''. split; [done|]. split; [done|]. split.
  - rewrite U, Hused. unfold u64. rewrite Zminus_mod_idemp_l, Z.add_simpl_r.
    by apply Z.mod_small.
  - intros j Hj. rewrite P, Hpages by lia. repeat case_decide; auto.
    symmetry. auto.
Qed.

Definition demo_pmm_full : PhysicalMemoryManager := snd (pmm_alloc 0 1 demo_pmm).

Lemma pmm_dealloc_undoes_alloc_witness :
  ∃ s'', pmm_dealloc (2 * PAGE_SIZE) 1 demo_pmm_full = (Ok tt, s'') ∧ pmm_inv 1 s'' ∧
    used_pages s'' = used_pages demo_pmm ∧
    ∀ j, 0 ≤ j < 8 * 1 → page_free s'' j = page_free demo_pmm j.
Proof.
  apply (pmm_dealloc_undoes_alloc 1 demo_pmm 2 1 demo_pmm_full); [by constructor| |lia|done].
  constructor; try done.
  - intros i Hi. assert (i = 2) as -> by lia. reflexivity.
  - intros j Hj. assert (j = 0 ∨ j = 1 ∨ j = 2 ∨ j = 3 ∨ j = 4 ∨ j = 5 ∨ j = 6 ∨ j = 7) as C by lia.
    destruct_or! C; subst; reflexivity.
Defined.

(** * Initialisation *)

Lemma bitmap_bytes_eq highest : 0 ≤ highest < 2^52 →
  bitmap_bytes highest = (highest / 8 + 4095) / 4096 * 4096.
Proof.
  intros H. unfold bitmap_bytes, PAGE_SIZE.
  pose proof (Z.div_pos highest 8). pose proof (Z.div_le_upper_bound highest 8 highest).
  assert (u64 (u64 (highest / 8 + 4096) - 1) = highest / 8 + 4095) as ->.
  { rewrite !u64_small by (rewrite ?u64_small by lia; lia). lia. }
  unfold not64, u64_max. change 4096 with (2^12).
  rewrite (land_lnot_low _ 12 64) by rlia.
  pose proof (Z_div_mod_eq_full (highest / 8 + 4095) (2^12)). lia.
Qed.

(** When the bitmap really covers the memory.  The size is computed from
    [highest_page_idx / 8], which drops the remainder, and rounding up to a
    page hides that unless the quotient is itself a whole number of pages: then
    the last (up to seven) pages have no bit in the bitmap. *)
Lemma bitmap_covers_iff highest : 0 ≤ highest < 2^52 →
  highest ≤ 8 * bitmap_bytes highest ↔
  (highest / 8) mod PAGE_SIZE ≠ 0 ∨ highest mod 8 = 0.
Proof.
  intros H. rewrite bitmap_bytes_eq by done. unfold PAGE_SIZE.
  pose proof (Z_div_mod_eq_full highest 8). pose proof (Z.mod_pos_bound highest 8 eq_refl).
  set (q := highest / 8) in *.
  pose proof (Z_div_mod_eq_full q 4096). pose proof (Z.mod_pos_bound q 4096 eq_refl).
  pose proof (Z_div_mod_eq_full (q + 4095) 4096).
  pose proof (Z.mod_pos_bound (q + 4095) 4096 eq_refl). lia.
Qed.

Lemma bitmap_covers_iff_witness :
  ¬ 32769 ≤ 8 * bitmap_bytes 32769 ∧ (32768 / 8) mod PAGE_SIZE = 0 ∧
  (262000 ≤ 8 * bitmap_bytes 262000).
Proof.
  split; [|split; [done|]].
  - intros H. destruct (proj1 (bitmap_covers_iff 32769 ltac:(lia)) H); done.
  - apply (bitmap_covers_iff 262000); [lia|]. by left.
Defined.

(** The address the first loop of [pmm_init] ends with. *)
Fixpoint top_address (h : Z) (m : list MemmapEntry) : Z :=
  match m with
  | [] => h
  | e :: m' =>
      top_address (if entry_usable e then Z.max h (entry_base e + entry_length e) else h) m'
  end.

Definition entry_wf (hhdm : Z) (e : MemmapEntry) : Prop :=
  entry_usable e = true →
    PAGE_SIZE ≤ entry_base e ∧ 0 ≤ entry_length e ∧
    (PAGE_SIZE | entry_base e) ∧ (PAGE_SIZE | entry_length e) ∧
    hhdm + entry_base e + entry_length e < 2^64.

Definition entries_apart (e1 e2 : MemmapEntry) : Prop :=
  entry_usable e1 = true → entry_usable e2 = true →
    entry_base e1 + entry_length e1 ≤ entry_base e2 ∨
    entry_base e2 + entry_length e2 ≤ entry_base e1.

(** Page [j] lies in a usable entry. *)
Definition page_in (j : Z) (e : MemmapEntry) : bool :=
  entry_usable e && (entry_base e <=? j * PAGE_SIZE) &&
  ((j + 1) * PAGE_SIZE <=? entry_base e + entry_length e).

(** The entry the bitmap was carved from. *)
Definition carve (n : Z) (e : MemmapEntry) : MemmapEntry :=
  {| entry_base := entry_base e + n; entry_length := entry_length e - n;
     entry_usable := true |}.

Lemma scan_memmap_spec hhdm m h s : 0 ≤ hhdm → 0 ≤ h → Forall (entry_wf hhdm) m →
  ∃ u, scan_memmap m h s = (Ok (top_address h m), set_usable u s).
Proof.
  intros Hh Hh0 Hwf. revert h Hh0 s.
  induction Hwf as [|e m He _ IH]; intros h Hh0 s; cbn [scan_memmap top_address].
  { exists (usable_pages s). by destruct s. }
  destruct (entry_usable e) eqn:Hu; [|by apply IH].
  destruct (He Hu) as (? & ? & _ & _ & ?). unfold PAGE_SIZE in *.
  erewrite bind_Ok by done. rewrite u64_small by lia.
  replace (if h <? _ then _ else h) with (Z.max h (entry_base e + entry_length e))
    by (case_match; lia).
  edestruct IH as (u & E); [|rewrite E]; [lia|]. by exists u.
Qed.

Lemma top_address_le m h : h ≤ top_address h m ∧
  ∀ e, e ∈ m → entry_usable e = true → entry_base e + entry_length e ≤ top_address h m.
Proof.
  revert h. induction m as [|e m IH]; intros h; cbn [top_address].
  { split; [done|]. intros e He. by apply not_elem_of_nil in He. }
  destruct (IH (if entry_usable e then Z.max h (entry_base e + entry_length e) else h))
    as [IH1 IH2].
  split; [destruct (entry_usable e); lia|].
  intros e' [->|He']%elem_of_cons Hu; [|by apply IH2]. rewrite Hu in *. lia.
Qed.

Lemma top_address_lt hhdm m h : 0 ≤ hhdm → Forall (entry_wf hhdm) m → h < 2^64 →
  top_address h m < 2^64.
Proof.
  intros Hh Hwf. revert h. induction Hwf as [|e m He _ IH]; intros h Hlt; [done|].
  cbn [top_address]. apply IH. destruct (entry_usable e) eqn:Hu; [|done].
  destruct (He Hu) as (? & ? & _ & _ & ?). lia.
Qed.

Lemma place_bitmap_spec hhdm n m s : 0 ≤ hhdm → 0 ≤ n → Forall (entry_wf hhdm) m →
  Exists (λ e, entry_usable e = true ∧ n ≤ entry_length e) m →
  ∃ l1 e l2, m = l1 ++ e :: l2 ∧ entry_usable e = true ∧ n ≤ entry_length e ∧
    place_bitmap hhdm m n s =
      (Ok (l1 ++ carve n e :: l2),
       set_ram (write_bytes (entry_base e + hhdm) 255 n (ram s))
         (set_bitmap (entry_base e + hhdm) s)).
Proof.
  intros Hh Hn Hwf. induction Hwf as [|e m He _ IH]; intros Hex.
  { by apply Exists_nil in Hex. }
  cbn [place_bitmap]. destruct (entry_usable e && (n <=? entry_length e)) eqn:Hfit.
  - apply andb_true_iff in Hfit as [Hu Hle]. apply Z.leb_le in Hle.
    destruct (He Hu) as (? & ? & _ & _ & ?). unfold PAGE_SIZE in *.
    exists [], e, m. split; [done|]. split; [done|]. split; [done|].
    rewrite !u64_small by lia. done.
  - apply Exists_cons in Hex as [[Hu Hle]|Hex].
    { rewrite Hu in Hfit. cbn in Hfit. lia. }
    destruct (IH Hex) as (l1 & e' & l2 & -> & ? & ? & E).
    exists (e :: l1), e', l2. split; [done|]. split; [done|]. split; [done|].
    by pstep E.
Qed.

Lemma free_entry_spec n e s : bitmap s ≠ 0 →
  (entry_usable e = true → 0 ≤ entry_base e ∧ 0 ≤ entry_length e ∧
    (PAGE_SIZE | entry_base e) ∧ (PAGE_SIZE | entry_length e) ∧
    entry_base e + entry_length e ≤ 8 * n * PAGE_SIZE ∧
    entry_base e + entry_length e < 2^64) →
  ∃ s', free_entry e s = (Ok tt, s') ∧ frame n s s' ∧
    last_used_page_idx s' = last_used_page_idx s ∧
    ∀ j, 0 ≤ j → page_free s' j = page_in j e || page_free s j.
Proof.
  intros Hb He. unfold free_entry, page_in. destruct (entry_usable e).
  2: { exists s. done. }
  destruct He as (H0 & H1 & [b Hbase] & [l Hlen] & Htop & Hbig); [done|].
  rewrite Hbase, Hlen in *. unfold PAGE_SIZE in *. rewrite Z.div_mul by lia.
  destruct (for_range_sets n true bitmap_reset b l s) as (s' & E & F & L & P);
    [apply bitmap_reset_sets|done|lia|lia|].
  exists s'. split.
  { rewrite <- E. replace (seqZ b l) with (Z.add b <$> seqZ 0 l)
      by (rewrite fmap_add_seqZ; f_equal; lia).
    rewrite for_each_fmap. apply for_each_ext. intros i t Hi%elem_of_seqZ.
    f_equal. rewrite !u64_small by (rewrite ?u64_small by lia; lia).
    replace (b * 4096 + i * 4096) with ((b + i) * 4096) by lia. by rewrite Z.div_mul by lia. }
  split; [done|]. split; [done|]. intros j Hj. rewrite P by done.
  case_decide; [|destruct (page_free s j); lia].
  symmetry. apply orb_true_iff. left. lia.
Qed.

Lemma free_entries_spec n m s : bitmap s ≠ 0 →
  (∀ e, e ∈ m → entry_usable e = true → 0 ≤ entry_base e ∧ 0 ≤ entry_length e ∧
    (PAGE_SIZE | entry_base e) ∧ (PAGE_SIZE | entry_length e) ∧
    entry_base e + entry_length e ≤ 8 * n * PAGE_SIZE ∧
    entry_base e + entry_length e < 2^64) →
  ∃ s', for_each m free_entry s = (Ok tt, s') ∧ frame n s s' ∧
    last_used_page_idx s' = last_used_page_idx s ∧
    ∀ j, 0 ≤ j → page_free s' j = existsb (page_in j) m || page_free s j.
Proof.
  revert s. induction m as [|e m IH]; intros s Hb Hm; cbn [for_each existsb].
  { exists s. done. }
  destruct (free_entry_spec n e s) as (s1 & E1 & F1 & L1 & P1);
    [done|apply Hm; by left|].
  pstep E1. destruct (IH s1) as (s2 & E2 & F2 & L2 & P2).
  { by rewrite (frame_bitmap _ _ _ F1). }
  { intros e' He'. apply Hm. by right. }
  exists s2. split; [done|]. split; [by etrans|]. split; [congruence|].
  intros j Hj. rewrite P2, P1 by done. by destruct (page_in j e), (existsb _ _).
Qed.

Lemma PAGE_SIZE_pos : 0 < PAGE_SIZE.
Proof. done. Qed.

Lemma all_ones_used s n a j : 0 ≤ j < 8 * n →
  page_free (set_ram (write_bytes a 255 n (ram s)) (set_bitmap a s)) j = false.
Proof.
  intros Hj. unfold page_free; cbn. unfold write_bytes.
  pose proof (Z.div_pos j 8). pose proof (Z.div_lt_upper_bound j 8 n).
  pose proof (Z.mod_pos_bound j 8 eq_refl).
  rewrite decide_True by lia. change 255 with (Z.ones 8).
  by rewrite Z.ones_spec_low by lia.
Qed.

(** What the boot loader's map must look like: usable entries page aligned,
    above page 0, apart from each other and reachable through the direct map;
    one of them can hold the bitmap. *)
Record memmap_wf (hhdm n : Z) (m : list MemmapEntry) : Prop := {
  mw_hhdm : 0 ≤ hhdm;
  mw_entries : Forall (entry_wf hhdm) m;
  mw_apart : ∀ l1 e l2, m = l1 ++ e :: l2 → Forall (entries_apart e) (l1 ++ l2);
  mw_fits : Exists (λ e, entry_usable e = true ∧ n ≤ entry_length e) m;
}.

Lemma carved_entries hhdm n l1 e l2 e' : 0 ≤ n → (PAGE_SIZE | n) →
  Forall (entry_wf hhdm) (l1 ++ e :: l2) → 0 ≤ hhdm →
  entry_usable e = true → n ≤ entry_length e →
  e' ∈ l1 ++ carve n e :: l2 → entry_usable e' = true →
  (PAGE_SIZE ≤ entry_base e' ∧ 0 ≤ entry_length e' ∧
    (PAGE_SIZE | entry_base e') ∧ (PAGE_SIZE | entry_length e') ∧
    entry_base e' + entry_length e' < 2^64) ∧
  entry_base e' + entry_length e' ≤ top_address 0 (l1 ++ e :: l2).
Proof.
  intros Hn Hdiv Hwf Hh Hu Hle He' Hu'. rewrite Forall_forall in Hwf.
  destruct (top_address_le (l1 ++ e :: l2) 0) as [_ Htop].
  apply elem_of_app in He' as [He'|[->|He']%elem_of_cons].
  2: { destruct (Hwf e ltac:(set_solver) Hu) as (? & ? & ? & ? & ?).
       specialize (Htop e ltac:(set_solver) Hu). unfold carve; cbn.
       split; [|lia]. split; [lia|]. split; [lia|].
       split; [by apply Z.divide_add_r|]. split; [by apply Z.divide_sub_r|]. lia. }
  all: destruct (Hwf e' ltac:(set_solver) Hu') as (? & ? & ? & ? & ?).
  all: specialize (Htop e' ltac:(set_solver) Hu'); repeat split_and; auto; lia.
Qed.

(** The sizes [pmm_init] computes on such a map. *)
Lemma init_sizes hhdm m : 0 ≤ hhdm → Forall (entry_wf hhdm) m →
  let highest := top_address 0 m / PAGE_SIZE in
  let n := bitmap_bytes highest in
  0 ≤ highest < 2^52 ∧ 0 ≤ n ∧ (PAGE_SIZE | n).
Proof.
  intros Hh Hwf highest n. destruct (top_address_le m 0) as [Htop0 _].
  pose proof (top_address_lt hhdm m 0 Hh Hwf eq_refl) as Htop64.
  assert (0 ≤ highest < 2^52) as Hhi
    by (split; [by apply Z.div_pos|apply Z.div_lt_upper_bound; [done|unfold PAGE_SIZE; lia]]).
  split; [done|]. unfold n. rewrite bitmap_bytes_eq by done.
  pose proof (Z.div_pos (highest / 8 + 4095) 4096).
  pose proof (Z.div_pos highest 8). split; [lia|]. apply Z.divide_factor_r.
Qed.

(** Running the four phases. *)
Lemma pmm_init_run hhdm memory m :
  let highest := top_address 0 m / PAGE_SIZE in
  let n := bitmap_bytes highest in
  memmap_wf hhdm n m → highest ≤ 8 * n →
  ∃ l1 e l2 s', m = l1 ++ e :: l2 ∧ entry_usable e = true ∧ n ≤ entry_length e ∧
    pmm_init hhdm m (pmm_new memory) = (Ok (l1 ++ carve n e :: l2), s') ∧
    highest_page_idx s' = highest ∧ last_used_page_idx s' = 0 ∧
    bitmap s' = entry_base e + hhdm ∧
    (∀ j, 0 ≤ j < 8 * n →
      page_free s' j = existsb (page_in j) (l1 ++ carve n e :: l2)) ∧
    (∀ a, ¬ (bitmap s' ≤ a < bitmap s' + n) → ram s' a = memory a).
Proof.
  intros highest n [Hh Hwf _ Hfits] Hcov. unfold pmm_init.
  destruct (init_sizes hhdm m Hh Hwf) as (Hhi & Hn & Hdiv).
  destruct (scan_memmap_spec hhdm m 0 (pmm_new memory)) as (u & Escan); [done|done|done|].
  pstep Escan. set (s1 := set_usable u (pmm_new memory)).
  erewrite bind_Ok by done. erewrite bind_Ok by done. cbn [highest_page_idx set_highest].
  fold highest. fold n. set (s2 := set_highest highest s1).
  destruct (place_bitmap_spec hhdm n m s2) as (l1 & e & l2 & Em & Hu & Hle & Eplace);
    [done|done|done|done|].
  pstep Eplace. set (s3 := set_ram _ _).
  pose proof (λ e', carved_entries hhdm n l1 e l2 e' Hn Hdiv ltac:(by rewrite <- Em) Hh Hu Hle)
    as Hcarved. rewrite <- Em in Hcarved.
  assert (PAGE_SIZE ≤ entry_base e)
    by (rewrite Forall_forall in Hwf; by destruct (Hwf e ltac:(set_solver) Hu)).
  destruct (free_entries_spec n (l1 ++ carve n e :: l2) s3) as (s4 & E4 & F4 & L4 & P4).
  { cbn. unfold PAGE_SIZE in *; lia. }
  { intros e' He' Hu'. destruct (Hcarved e' He' Hu') as ((? & ? & Hb & Hl & ?) & Ht).
    pose proof PAGE_SIZE_pos. repeat split_and; auto; [lia|].
    destruct Hb as [b Hb], Hl as [l Hl].
    assert (b + l ≤ highest) by (apply Z.div_le_lower_bound; lia). nia. }
  pstep E4. exists l1, e, l2, s4. destruct F4 as [Fb Fh _ _ Fr]. cbn in Fb, Fh, L4.
  repeat (split; [done|]). split.
  - intros j Hj. rewrite P4 by lia. replace (page_free s3 j) with false; [apply orb_false_r|].
    symmetry. by apply all_ones_used.
  - intros a Ha. rewrite Fb in Ha. rewrite Fr by done. cbn in Ha |- *.
    unfold write_bytes. by rewrite decide_False by lia.
Qed.

(** The whole of [pmm_init]. *)
Lemma pmm_init_Ok hhdm memory m :
  let highest := top_address 0 m / PAGE_SIZE in
  let n := bitmap_bytes highest in
  memmap_wf hhdm n m → highest ≤ 8 * n →
  ∃ l1 e l2 s', m = l1 ++ e :: l2 ∧ entry_usable e = true ∧ n ≤ entry_length e ∧
    pmm_init hhdm m (pmm_new memory) = (Ok (l1 ++ carve n e :: l2), s') ∧
    highest_page_idx s' = highest ∧
    pmm_inv n s' ∧ bitmap_safe hhdm n s' ∧
    (∀ j, 0 ≤ j < 8 * n →
      page_free s' j = existsb (page_in j) (l1 ++ carve n e :: l2)) ∧
    (∀ a, ¬ (bitmap s' ≤ a < bitmap s' + n) → ram s' a = memory a).
Proof.
  intros highest n Hmap Hcov. pose proof Hmap as [Hh Hwf Hapart _].
  destruct (pmm_init_run hhdm memory m Hmap Hcov)
    as (l1 & e & l2 & s' & Em & Hu & Hle & Erun & Fh & Fl & Fb & P & Fr).
  destruct (init_sizes hhdm m Hh Hwf) as (Hhi & Hn & Hdiv). fold highest n in Hle, Erun, Fh, P, Fr.
  exists l1, e, l2, s'. do 5 (split; [done|]).
  assert (∀ j e', e' ∈ l1 ++ carve n e :: l2 → page_in j e' = true →
    PAGE_SIZE ≤ entry_base e' ≤ j * PAGE_SIZE ∧ entry_usable e' = true ∧
    (j + 1) * PAGE_SIZE ≤ entry_base e' + entry_length e') as Hin.
  { intros j e' He'. unfold page_in. destruct (entry_usable e') eqn:Hu'; [|done]. cbn.
    intros [Hlo%Z.leb_le Hhi'%Z.leb_le]%andb_true_iff.
    rewrite Em in Hwf.
    by destruct (carved_entries hhdm n l1 e l2 e' Hn Hdiv Hwf Hh Hu Hle He' Hu') as ((? & _) & _). }
  assert (∀ j, 0 ≤ j < 8 * n → page_free s' j = true →
    ∃ e', e' ∈ l1 ++ carve n e :: l2 ∧ page_in j e' = true) as Pin.
  { intros j Hj. rewrite P by done. intros (e' & He' & ?)%existsb_exists.
    exists e'. split; [by apply list_elem_of_In|done]. }
  assert (PAGE_SIZE ≤ entry_base e ∧ entry_base e + entry_length e ≤ top_address 0 m) as [He0 He1].
  { rewrite Forall_forall in Hwf. split; [|apply top_address_le; set_solver].
    by destruct (Hwf e ltac:(set_solver) Hu). }
  assert (1 ≤ highest) by (unfold highest, PAGE_SIZE in *; apply Z.div_le_lower_bound; lia).
  split; [|split; [|by split]].
  - constructor; rewrite ?Fb, ?Fh, ?Fl; try lia; [unfold PAGE_SIZE in *; lia|].
    destruct (page_free s' 0) eqn:E0; [|done].
    destruct (Pin 0 ltac:(lia) E0) as (e' & He' & Hp). destruct (Hin 0 e' He' Hp).
    unfold PAGE_SIZE in *; lia.
  - intros j Hj Hf. rewrite Fh in Hj. rewrite Fb.
    destruct (Pin j ltac:(lia) Hf) as (e' & He' & Hp).
    destruct (Hin j e' He' Hp) as (? & Hu' & ?).
    apply elem_of_app in He' as [He'|[->|He']%elem_of_cons].
    2: { cbn in *. lia. }
    all: specialize (Hapart l1 e l2 Em); rewrite Forall_forall in Hapart;
      destruct (Hapart e' ltac:(set_solver) Hu Hu'); lia.
Qed.

(** C12: [pmm_init] on a well-formed memory map terminates without touching
    memory outside the bitmap, and establishes the allocator's invariant: a page
    is free exactly when it lies in a usable entry of the map it leaves behind
    (the input map with the bitmap carved off one entry), so in particular the
    bitmap is clear of every free page. *)
Theorem pmm_init_correct hhdm memory m :
  let highest := top_address 0 m / PAGE_SIZE in
  let n := bitmap_bytes highest in
  memmap_wf hhdm n m → highest ≤ 8 * n →
  ∃ l1 e l2 s', m = l1 ++ e :: l2 ∧
    pmm_init hhdm m (pmm_new memory) = (Ok (l1 ++ carve n e :: l2), s') ∧
    highest_page_idx s' = highest ∧
    pmm_inv n s' ∧ bitmap_safe hhdm n s' ∧
    (∀ j, 0 ≤ j < 8 * n →
      page_free s' j = existsb (page_in j) (l1 ++ carve n e :: l2)) ∧
    (∀ a, ¬ (bitmap s' ≤ a < bitmap s' + n) → ram s' a = memory a).
Proof.
  intros highest n Hmap Hcov. destruct (pmm_init_Ok hhdm memory m Hmap Hcov) as (l1 & e & l2 & s' & Em & _ & _ & H).
  by exists l1, e, l2, s'.
Qed.

(** A machine with 16 usable pages from page 1 on, above a reserved page. *)
Definition demo_memmap : list MemmapEntry :=
  [ {| entry_base := 0; entry_length := 4096; entry_usable := false |};
    {| entry_base := 4096; entry_length := 65536; entry_usable := true |} ].

Lemma pmm_init_correct_witness :
  ∃ m' s', pmm_init 4096 demo_memmap (pmm_new (λ _, 0)) = (Ok m', s') ∧
    pmm_inv 4096 s' ∧ page_free s' 1 = false ∧ page_free s' 2 = true.
Proof.
  destruct (pmm_init_correct 4096 (λ _, 0) demo_memmap)
    as (l1 & e & l2 & s' & Em & E & _ & I & _ & P & _).
  - constructor; [lia| | |].
    + repeat constructor; intros; cbn in *; try done; try lia; by apply Z.mod_divide.
    + intros l1 e l2 Em. destruct l1 as [|x [|y [|]]]; inversion Em; subst;
        repeat constructor; intros; done.
    + right. left. split; [done|]. vm_compute. done.
  - vm_compute. done.
  - eexists _, s'. split; [exact E|]. split; [exact I|].
    assert (∀ j, page_free s' j = page_free (snd (pmm_init 4096 demo_memmap (pmm_new (λ _, 0)))) j) as Hs.
    { intros j. by rewrite E. }
    rewrite !Hs. split; vm_compute; reflexivity.
Defined.
