(* ===== verification/Heap.v ===== *)
(** src/src/mem/allocator.rs: the kernel heap, an address-ordered free list.

    A [MemNode] is written at the start of every free region, so the list lives
    in the memory it manages: [nodes] is that memory, by address, and a pointer
    to a node that is not there is a dangling one.  The list's head is a node of
    its own inside the static [ALLOCATOR], at [head_addr].  The first half
    translates the code over this store; the second half relates it to a plain
    list of regions and proves what the allocator promises. *)

From S2P Require Import Prelude Mem.

(** ** Data *)

Record MemNode := { next : option Z; size : Z }.
Definition MemNode_new (size : Z) : MemNode := {| next := None; size := size |}.

(** [size_of::<MemNode>()] and [align_of::<MemNode>()]: a niche-optimised
    pointer and a [usize]. *)
Definition NODE_SIZE : Z := 16.
Definition NODE_ALIGN : Z := 8.

Record LinkedListAllocator := { head : MemNode; nodes : gmap Z MemNode }.
Definition LinkedListAllocator_new : LinkedListAllocator :=
  {| head := MemNode_new 0; nodes := ∅ |}.

(** A [&mut MemNode]: the head, or a node in the heap. *)
Inductive node_ref := Head | Node (a : Z).

#[export] Instance node_ref_eq_dec : EqDecision node_ref.
Proof. solve_decision. Defined.

Definition read (h : LinkedListAllocator) (r : node_ref) : option MemNode :=
  match r with Head => Some (head h) | Node a => nodes h !! a end.
Definition write (h : LinkedListAllocator) (r : node_ref) (n : MemNode) : LinkedListAllocator :=
  match r with
  | Head => {| head := n; nodes := nodes h |}
  | Node a => {| head := head h; nodes := <[a := n]> (nodes h) |}
  end.

Definition load (r : node_ref) : prog LinkedListAllocator MemNode :=
  λ h, (of_option Undef (read h r), h).
Definition save (r : node_ref) (n : MemNode) : prog LinkedListAllocator unit :=
  modify (λ h, write h r n).
Definition set_next (r : node_ref) (p : option Z) : prog LinkedListAllocator unit :=
  node ← load r; save r {| next := p; size := size node |}.

(** [core::alloc::Layout]: what its constructors accept ([isize::MAX] bounds
    the size rounded up to the alignment). *)
Record Layout := { l_size : Z; l_align : Z }.
Definition isize_max : Z := 2^63 - 1.
Definition layout_ok (size align : Z) : bool :=
  is_power_of_two align && (size <=? isize_max - (align - 1)).

Definition layout_from_size_align (size align : Z) : outcome Layout :=
  if layout_ok size align then Ok {| l_size := size; l_align := align |} else Panic.
Definition layout_align_to (l : Layout) (align : Z) : outcome Layout :=
  layout_from_size_align (l_size l) (Z.max (l_align l) align).
Definition pad_to_align (l : Layout) : Layout :=
  {| l_size := Z.land (u64 (u64 (l_size l + l_align l) - 1)) (not64 (l_align l - 1));
     l_align := l_align l |}.

Definition size_align (layout : Layout) : outcome Layout :=
  layout ← layout_align_to layout NODE_ALIGN;
  let layout := pad_to_align layout in
  layout_from_size_align (Z.max (l_size layout) NODE_SIZE) (l_align layout).

Section allocator.
(** Where the head node is. *)
Context (head_addr : Z).

Definition addr (r : node_ref) : Z := match r with Head => head_addr | Node a => a end.
Definition end_addr (r : node_ref) (n : MemNode) : Z := u64 (addr r + size n).

(** Every loop follows [next] pointers; this many steps reach the end of any
    list without a cycle. *)
Definition list_fuel (h : LinkedListAllocator) : nat := S (S (base.size (nodes h))).

(** The [while let] of [add_free_region]. *)
Fixpoint find_target (fuel : nat) (target : node_ref) (ptr : Z)
    : prog LinkedListAllocator node_ref :=
  match fuel with
  | O => lift NoFuel
  | S fuel' =>
      node ← load target;
      match next node with
      | Some next_node =>
          if ptr <? next_node then mret target
          else find_target fuel' (Node next_node) ptr
      | None => mret target
      end
  end.

Definition add_free_region (ptr sz : Z) : prog LinkedListAllocator unit :=
  aligned ← lift (align_up ptr NODE_ALIGN);
  lift (rassert (aligned =? ptr)) ;;
  lift (rassert (NODE_SIZE <=? sz)) ;;
  fuel ← gets list_fuel;
  target_node ← find_target fuel Head ptr;
  target ← load target_node;
  set_next target_node None ;;
  save (Node ptr) {| next := next target; size := sz |} ;;
  set_next target_node (Some ptr).

Fixpoint coalesce_loop (fuel : nat) (current_node : node_ref)
    : prog LinkedListAllocator unit :=
  match fuel with
  | O => lift NoFuel
  | S fuel' =>
      current ← load current_node;
      match next current with
      | None => mret tt
      | Some next_addr =>
          nxt ← load (Node next_addr);
          if end_addr current_node current =? next_addr then
            set_next (Node next_addr) None ;;
            save current_node
              {| next := next nxt; size := u64 (size current + size nxt) |} ;;
            coalesce_loop fuel' current_node
          else coalesce_loop fuel' (Node next_addr)
      end
  end.

Definition coalesce_memory : prog LinkedListAllocator unit :=
  fuel ← gets list_fuel;
  coalesce_loop fuel Head.

(** Null when the layout does not fit this node. *)
Definition alloc_from_node (r : node_ref) (node : MemNode) (layout : Layout) : outcome Z :=
  start ← align_up (addr r) (l_align layout);
  let end_ := u64 (start + l_size layout) in
  if end_addr r node <? end_ then mret 0
  else
    let extra := end_addr r node - end_ in
    if (0 <? extra) && (extra <? NODE_SIZE) then mret 0 else mret start.

Fixpoint find_region_loop (fuel : nat) (current_node : node_ref) (layout : Layout)
    : prog LinkedListAllocator (option Z) :=
  match fuel with
  | O => lift NoFuel
  | S fuel' =>
      current ← load current_node;
      match next current with
      | None => mret None
      | Some node_addr =>
          node ← load (Node node_addr);
          start ← lift (alloc_from_node (Node node_addr) node layout);
          if is_null start then find_region_loop fuel' (Node node_addr) layout
          else
            set_next (Node node_addr) None ;;
            set_next current_node (next node) ;;
            mret (Some node_addr)
      end
  end.

Definition find_region (layout : Layout) : prog LinkedListAllocator (option Z) :=
  fuel ← gets list_fuel;
  find_region_loop fuel Head layout.

Definition inner_alloc (layout : Layout) : prog LinkedListAllocator Z :=
  layout ← lift (size_align layout);
  region ← find_region layout;
  match region with
  | Some region =>
      node ← load (Node region);
      let end_ := u64 (region + l_size layout) in
      let extra := u64 (end_addr (Node region) node - end_) in
      (if 0 <? extra then add_free_region end_ extra else mret tt) ;;
      mret region
  | None => mret 0
  end.

Definition inner_dealloc (ptr : Z) (layout : Layout) : prog LinkedListAllocator unit :=
  layout ← lift (size_align layout);
  add_free_region ptr (l_size layout) ;;
  coalesce_memory.

(** [init], over the direct-map address [pmm_alloc] gave. *)
Definition init (ptr pages : Z) : prog LinkedListAllocator unit :=
  add_free_region ptr (u64 (PAGE_SIZE * pages)).

(** [count_reginos] *)
Fixpoint count_regions_loop (fuel : nat) (cur_region : node_ref) (region_count : Z)
    : prog LinkedListAllocator Z :=
  match fuel with
  | O => lift NoFuel
  | S fuel' =>
      cur ← load cur_region;
      match next cur with
      | None => mret region_count
      | Some next => count_regions_loop fuel' (Node next) (u64 (region_count + 1))
      end
  end.
Definition count_reginos : prog LinkedListAllocator Z :=
  fuel ← gets list_fuel;
  count_regions_loop fuel Head 0.

(** [debug_regions]: the bounds of the head and of each region into a buffer, which
    must have room for them. *)
Fixpoint debug_regions_loop (fuel : nat) (cur_region : node_ref) (buf : list (Z * Z)) (i : Z) :
    prog LinkedListAllocator (list (Z * Z)) :=
  match fuel with
  | O => lift NoFuel
  | S fuel' =>
      cur ← load cur_region;
      buf ← lift (store buf i (addr cur_region, end_addr cur_region cur));
      match next cur with
      | None => mret buf
      | Some next => debug_regions_loop fuel' (Node next) buf (i + 1)
      end
  end.
Definition debug_regions (buf : list (Z * Z)) : prog LinkedListAllocator (list (Z * Z)) :=
  fuel ← gets list_fuel;
  debug_regions_loop fuel Head buf 0.
End allocator.

(** * The free list as a list of regions *)

(** A region is its address and its size, in address order, disjoint, inside
    [[lo, hi)], aligned and large enough for a node. *)
Definition region : Type := Z * Z.

Fixpoint regions_wf (lo hi : Z) (l : list region) : Prop :=
  match l with
  | [] => True
  | (a, s) :: l' =>
      lo ≤ a ∧ (NODE_ALIGN | a) ∧ NODE_SIZE ≤ s ∧ a + s ≤ hi ∧ regions_wf (a + s) hi l'
  end.

(** No region touches the next one. *)
Fixpoint regions_apart (lo : Z) (l : list region) : Prop :=
  match l with
  | [] => True
  | (a, s) :: l' => lo < a ∧ regions_apart (a + s) l'
  end.

Definition in_region (x : Z) (r : region) : Prop := r.1 ≤ x < r.1 + r.2.
Definition free_byte (l : list region) (x : Z) : Prop := Exists (in_region x) l.
Definition disjoint_region (r r' : region) : Prop := r.1 + r.2 ≤ r'.1 ∨ r'.1 + r'.2 ≤ r.1.

Fixpoint insert_region (r : region) (l : list region) : list region :=
  match l with
  | [] => [r]
  | r' :: l' => if r.1 <? r'.1 then r :: r' :: l' else r' :: insert_region r l'
  end.

Fixpoint coalesce_from (r : region) (l : list region) : list region :=
  match l with
  | [] => [r]
  | r' :: l' =>
      if r.1 + r.2 =? r'.1 then coalesce_from (r.1, r.2 + r'.2) l'
      else r :: coalesce_from r' l'
  end.
Definition coalesce (l : list region) : list region :=
  match l with [] => [] | r :: l' => coalesce_from r l' end.

(** What [alloc_from_node] accepts: the layout fits after alignment, and the
    rest is empty or can hold a node. *)
Definition suits (align sz : Z) (r : region) : bool :=
  let end_ := (r.1 + align - 1) / align * align + sz in
  let extra := r.1 + r.2 - end_ in
  (end_ <=? r.1 + r.2) && ((extra =? 0) || (NODE_SIZE <=? extra)).

(** The first suitable region, and the list without it. *)
Fixpoint take_region (p : region → bool) (l : list region) : option (region * list region) :=
  match l with
  | [] => None
  | r :: l' =>
      if p r then Some (r, l')
      else match take_region p l' with
           | Some (r', l'') => Some (r', r :: l'')
           | None => None
           end
  end.

Lemma regions_wf_weaken lo lo' hi l : lo' ≤ lo → regions_wf lo hi l → regions_wf lo' hi l.
Proof. destruct l as [|[]]; cbn; intuition lia. Qed.

Lemma regions_wf_free lo hi l x : regions_wf lo hi l → free_byte l x → lo ≤ x < hi.
Proof.
  revert lo. induction l as [|[a s] l IH]; intros lo; cbn.
  { intros _ H. by apply Exists_nil in H. }
  intros (? & _ & ? & ? & Hl) [Hx|Hx]%Exists_cons; [unfold in_region in Hx; cbn in Hx; lia|].
  unfold NODE_SIZE in *. pose proof (IH _ Hl Hx). lia.
Qed.

Lemma regions_apart_free lo l x :
  regions_apart lo l → Forall (λ r : region, 0 ≤ r.2) l → free_byte l x → lo < x.
Proof.
  revert lo. induction l as [|[a s] l IH]; intros lo; cbn.
  { intros _ _ H. by apply Exists_nil in H. }
  intros [? Hl] [? Hs]%Forall_cons [Hx|Hx]%Exists_cons; [unfold in_region in Hx; cbn in *; lia|].
  pose proof (IH _ Hl Hs Hx). cbn in *; lia.
Qed.

Lemma regions_wf_sizes lo hi l : regions_wf lo hi l → Forall (λ r : region, 0 ≤ r.2) l.
Proof.
  revert lo. induction l as [|[a s] l IH]; intros lo; cbn; [constructor|].
  intros (? & ? & ? & ? & Hl). constructor; [unfold NODE_SIZE in *; cbn; lia|eauto].
Qed.

(** Ordering and separation make the list canonical: it is determined by the
    set of bytes it holds. *)
Lemma regions_canonical lo hi l l' :
  regions_wf lo hi l → regions_wf lo hi l' → regions_apart (lo - 1) l → regions_apart (lo - 1) l' →
  (∀ x, free_byte l x ↔ free_byte l' x) → l = l'.
Proof.
  revert lo l'. induction l as [|[a s] l IH]; intros lo [|[a' s'] l'] W W' A A' E.
  - done.
  - exfalso. cbn in W'. unfold NODE_SIZE in W'.
    assert (free_byte [] a') as H by (apply E; left; unfold in_region; cbn; lia).
    by apply Exists_nil in H.
  - exfalso. cbn in W. unfold NODE_SIZE in W.
    assert (free_byte [] a) as H by (apply E; left; unfold in_region; cbn; lia).
    by apply Exists_nil in H.
  - pose proof (regions_wf_sizes _ _ _ W) as [_ Z]%Forall_cons.
    pose proof (regions_wf_sizes _ _ _ W') as [_ Z']%Forall_cons.
    destruct W as (L & _ & S & H & W), W' as (L' & _ & S' & H' & W'). unfold NODE_SIZE in *.
    cbn in A, A'. destruct A as [_ A], A' as [_ A'].
    assert (∀ b t k x, free_byte ((b, t) :: k) x ↔ b ≤ x < b + t ∨ free_byte k x) as Econs
      by (intros; unfold free_byte; by rewrite Exists_cons).
    setoid_rewrite Econs in E.
    assert (∀ x, free_byte l x → a + s < x) as F by (intros; by eapply regions_apart_free).
    assert (∀ x, free_byte l' x → a' + s' < x) as F' by (intros; by eapply regions_apart_free).
    assert (a = a') as <-.
    { destruct (proj1 (E a) ltac:(lia)) as [|?%F'], (proj2 (E a') ltac:(lia)) as [|?%F]; lia. }
    assert (s = s') as <-.
    { destruct (Z.lt_trichotomy s s') as [|[|]]; [|done|]; exfalso.
      - destruct (proj2 (E (a + s)) ltac:(lia)) as [|?%F]; lia.
      - destruct (proj1 (E (a + s')) ltac:(lia)) as [|?%F']; lia. }
    f_equal. apply (IH (a + s + 1)).
    + destruct l as [|[b t] l]; cbn in *; [done|intuition lia].
    + destruct l' as [|[b t] l']; cbn in *; [done|intuition lia].
    + replace (a + s + 1 - 1) with (a + s) by lia. done.
    + replace (a + s + 1 - 1) with (a + s) by lia. done.
    + intros x. split; intros Hx.
      * destruct (proj1 (E x) (or_intror Hx)) as [|]; [|done]. apply F in Hx. lia.
      * destruct (proj2 (E x) (or_intror Hx)) as [|]; [|done]. apply F' in Hx. lia.
Qed.

(** ** Insertion *)

Lemma insert_region_wf lo hi r l :
  regions_wf lo hi l → regions_wf lo hi [r] → Forall (disjoint_region r) l →
  regions_wf lo hi (insert_region r l).
Proof.
  destruct r as [p z]. revert lo. induction l as [|[a s] l IH]; intros lo Hl Hr Hd; [done|].
  apply Forall_cons in Hd as [Hd Hds]. cbn in *. destruct Hl as (? & ? & ? & ? & Hl).
  unfold disjoint_region in Hd; cbn in Hd. unfold NODE_SIZE in *.
  case_match; cbn; repeat split_and; try (intuition lia).
  apply IH; [done| |done]. intuition lia.
Qed.

Lemma insert_region_Permutation r l : insert_region r l ≡ₚ r :: l.
Proof.
  induction l as [|r' l IH]; cbn; [done|]. case_match; [done|].
  rewrite IH. constructor.
Qed.

Lemma free_byte_insert r l x : free_byte (insert_region r l) x ↔ in_region x r ∨ free_byte l x.
Proof. unfold free_byte. by rewrite insert_region_Permutation, Exists_cons. Qed.

(** ** Coalescing *)

Lemma coalesce_from_free r l x :
  0 ≤ r.2 → Forall (λ r : region, 0 ≤ r.2) l →
  free_byte (coalesce_from r l) x ↔ free_byte (r :: l) x.
Proof.
  revert r. induction l as [|[b t] l IH]; intros [a s] Hr Hs; [done|].
  apply Forall_cons in Hs as [Ht Hs]. cbn in *. unfold free_byte in *.
  case_match eqn:E.
  - rewrite IH, !Exists_cons by (done || cbn; lia). unfold in_region; cbn. intuition lia.
  - rewrite Exists_cons, IH, !Exists_cons by (done || cbn; lia). done.
Qed.

Lemma coalesce_from_wf lo hi r l :
  regions_wf lo hi (r :: l) → regions_wf lo hi (coalesce_from r l) ∧
  ∀ k, k < r.1 → regions_apart k (coalesce_from r l).
Proof.
  revert lo r. induction l as [|[b t] l IH]; intros lo [a s] W; [by cbn in *|].
  cbn [coalesce_from fst snd]. cbn in W. destruct W as (? & ? & ? & ? & ? & ? & ? & ? & W).
  unfold NODE_SIZE in *. case_match eqn:E.
  - apply IH. cbn. replace (a + (s + t)) with (b + t) by lia. unfold NODE_SIZE. intuition lia.
  - destruct (IH (a + s) (b, t)) as [W' A']; [by cbn|]. split.
    + cbn. unfold NODE_SIZE. intuition lia.
    + intros k Hk. cbn. split; [done|]. apply A'. cbn. lia.
Qed.

Lemma coalesce_spec lo hi l : regions_wf lo hi l →
  regions_wf lo hi (coalesce l) ∧ regions_apart (lo - 1) (coalesce l) ∧
  ∀ x, free_byte (coalesce l) x ↔ free_byte l x.
Proof.
  destruct l as [|[a s] l]; [done|]. intros W. cbn [coalesce].
  destruct (coalesce_from_wf lo hi (a, s) l W) as [W' A'].
  pose proof (regions_wf_sizes _ _ _ W) as [? ?]%Forall_cons.
  split; [done|]. split; [apply A'; cbn in *; lia|]. intros x. by apply coalesce_from_free.
Qed.

(** ** Taking a region out *)

Lemma take_region_Some p l r l' : take_region p l = Some (r, l') →
  ∃ l1 l2, l = l1 ++ r :: l2 ∧ l' = l1 ++ l2 ∧ p r = true ∧ Forall (λ r, p r = false) l1.
Proof.
  revert l'. induction l as [|r0 l IH]; intros l'; cbn; [done|].
  destruct (p r0) eqn:Hp.
  { intros [= <- <-]. by exists [], l. }
  destruct (take_region p l) as [[r1 l1]|]; [|done]. intros [= <- <-].
  destruct (IH _ eq_refl) as (k1 & k2 & -> & -> & ? & ?). exists (r0 :: k1), k2. auto.
Qed.

Lemma take_region_None p l : take_region p l = None → Forall (λ r, p r = false) l.
Proof.
  induction l as [|r l IH]; cbn; [constructor|]. destruct (p r) eqn:?; [done|].
  destruct (take_region p l) as [[]|]; [done|]. auto.
Qed.

Lemma regions_wf_remove lo hi l1 r l2 :
  regions_wf lo hi (l1 ++ r :: l2) →
  regions_wf lo hi (l1 ++ l2) ∧ regions_wf lo hi [r] ∧ Forall (disjoint_region r) (l1 ++ l2).
Proof.
  destruct r as [p z]. revert lo. induction l1 as [|[a s] l1 IH]; intros lo; cbn.
  - intros (? & ? & ? & ? & W). unfold NODE_SIZE in *. split; [|split; [done|]].
    + eapply regions_wf_weaken; [|exact W]. lia.
    + clear -W. assert (p + z ≤ p + z) as L by lia. revert L W. generalize (p + z) at 2 3.
      intros lo. revert lo. induction l2 as [|[a s] l IH]; intros lo Hlo; cbn; [constructor|].
      intros (? & ? & ? & ? & W). unfold NODE_SIZE in *. constructor; [left; cbn; lia|].
      apply (IH (a + s)); [lia|done].
  - intros (? & ? & ? & ? & W). unfold NODE_SIZE in *.
    destruct (IH _ W) as (W1 & W2 & D). cbn in W2. split; [done|].
    split; [intuition lia|]. constructor; [right; cbn; lia|done].
Qed.

(** * The heap holds a list of regions *)

Definition next_of (h : LinkedListAllocator) (r : node_ref) : option (option Z) := next <$> read h r.
Definition size_of (h : LinkedListAllocator) (r : node_ref) : option Z := size <$> read h r.

Arguments next_of : simpl never.
Arguments size_of : simpl never.
Arguments read : simpl never.
Arguments write : simpl never.

(** Following [next] from [r] visits exactly [l]. *)
Fixpoint list_at (h : LinkedListAllocator) (r : node_ref) (l : list region) : Prop :=
  match l with
  | [] => next_of h r = Some None
  | (a, s) :: l' =>
      next_of h r = Some (Some a) ∧ size_of h (Node a) = Some s ∧ list_at h (Node a) l'
  end.

Definition refs (l : list region) : list node_ref := (λ r : region, Node r.1) <$> l.

(** [r] is the head or lies below [lo]. *)
Definition before (r : node_ref) (lo : Z) : Prop :=
  match r with Head => True | Node a => a < lo end.

Lemma read_write h r n x : read (write h r n) x = if decide (x = r) then Some n else read h x.
Proof.
  destruct r as [|a], x as [|b]; unfold read, write; cbn; try (by case_decide).
  case_decide as E; [injection E as ->; by rewrite lookup_insert_eq|].
  rewrite lookup_insert_ne by congruence. done.
Qed.
Lemma read_write_eq h r n : read (write h r n) r = Some n.
Proof. rewrite read_write. by rewrite decide_True. Qed.
Lemma read_write_ne h r n x : x ≠ r → read (write h r n) x = read h x.
Proof. intros. rewrite read_write. by rewrite decide_False. Qed.

Lemma load_run h r n : read h r = Some n → load r h = (Ok n, h).
Proof. intros E. unfold load. by rewrite E. Qed.
Lemma set_next_run h r p n : read h r = Some n →
  set_next r p h = (Ok tt, write h r {| next := p; size := size n |}).
Proof. intros E. unfold set_next. by pstep (load_run _ _ _ E). Qed.

Lemma next_of_Some h r p : next_of h r = Some p → ∃ n, read h r = Some n ∧ next n = p.
Proof. unfold next_of. destruct (read h r); [|done]. intros [= <-]. eauto. Qed.
Lemma size_of_Some h r s : size_of h r = Some s → ∃ n, read h r = Some n ∧ size n = s.
Proof. unfold size_of. destruct (read h r); [|done]. intros [= <-]. eauto. Qed.

Lemma node_read h a p s : next_of h (Node a) = Some p → size_of h (Node a) = Some s →
  read h (Node a) = Some {| next := p; size := s |}.
Proof.
  intros (n & E & <-)%next_of_Some (m & E' & <-)%size_of_Some.
  rewrite E in E'. injection E' as <-. rewrite E. by destruct n.
Qed.


Lemma list_at_frame h h' r r' l : list_at h r l → next_of h' r' = next_of h r →
  (∀ x, x ∈ refs l → read h' x = read h x) → list_at h' r' l.
Proof.
  revert r r'. induction l as [|[a s] l IH]; intros r r'; cbn; intros H E F; [congruence|].
  destruct H as (? & ? & ?). assert (read h' (Node a) = read h (Node a)) as Ea by (apply F; left).
  unfold size_of. rewrite Ea. split; [congruence|]. split; [done|].
  apply (IH (Node a)); [done| |].
  - unfold next_of. by rewrite Ea.
  - intros x Hx. apply F. by right.
Qed.

Lemma refs_wf lo hi l a : regions_wf lo hi l → Node a ∈ refs l → lo ≤ a.
Proof.
  revert lo. induction l as [|[b s] l IH]; intros lo; cbn.
  { intros _ H. by apply not_elem_of_nil in H. }
  unfold NODE_SIZE. intros (? & ? & ? & ? & W) [[= ->]|Hl]%elem_of_cons; [done|].
  specialize (IH _ W Hl). lia.
Qed.
Lemma before_refs r lo hi l : before r lo → regions_wf lo hi l → r ∉ refs l.
Proof.
  intros Hb Hw Hr. destruct r as [|a].
  - unfold refs in Hr. by apply list_elem_of_fmap in Hr as (? & ? & _).
  - apply (refs_wf _ _ _ _ Hw) in Hr. cbn in Hb. lia.
Qed.
Lemma disjoint_refs lo hi p z l : 0 < z → regions_wf lo hi l →
  Forall (disjoint_region (p, z)) l → Node p ∉ refs l.
Proof.
  intros Hz. revert lo. induction l as [|[b s] l IH]; intros lo; cbn.
  { intros _ _ H. by apply not_elem_of_nil in H. }
  unfold NODE_SIZE. intros (? & ? & ? & ? & W) [D Ds]%Forall_cons [[= ->]|Hl]%elem_of_cons.
  - unfold disjoint_region in D; cbn in D. lia.
  - by eapply IH.
Qed.
Lemma refs_NoDup lo hi l : regions_wf lo hi l → NoDup (refs l).
Proof.
  revert lo. induction l as [|[b s] l IH]; intros lo; cbn; [constructor|].
  unfold NODE_SIZE. intros (? & ? & ? & ? & W). constructor; [|eauto].
  apply (before_refs _ (b + s) hi); [cbn; lia|done].
Qed.

Lemma list_at_mapped h r l x : list_at h r l → x ∈ refs l →
  ∃ a, x = Node a ∧ is_Some (nodes h !! a).
Proof.
  revert r. induction l as [|[a s] l IH]; intros r; cbn.
  { intros _ H. by apply not_elem_of_nil in H. }
  intros (_ & (n & E & _)%size_of_Some & L) [->|Hl]%elem_of_cons; [|eauto].
  exists a. split; [done|]. by exists n.
Qed.

(** Enough fuel for every loop. *)
Lemma list_fuel_enough lo hi h r l : list_at h r l → regions_wf lo hi l →
  (length l < list_fuel h)%nat.
Proof.
  intros L W. unfold list_fuel.
  assert (length l ≤ base.size (nodes h))%nat; [|lia].
  assert (NoDup (fst <$> l)) as Hnd.
  { apply (NoDup_fmap_1 Node). rewrite <- list_fmap_compose. by eapply refs_NoDup. }
  replace (length l) with (length (fst <$> l)) by apply length_fmap.
  rewrite <- size_dom, <- (size_list_to_set (C:=gset Z)) by done.
  apply subseteq_size. intros a Ha%elem_of_list_to_set. apply elem_of_dom.
  destruct (list_at_mapped h r l (Node a) L) as (b & [= <-] & ?); [|done].
  apply list_elem_of_fmap in Ha as ([b t] & -> & Hb). apply list_elem_of_fmap.
  by exists (b, t).
Qed.

(** ** Adding a region *)

(** The three stores of [add_free_region], once the target is found. *)
Definition link (h : LinkedListAllocator) (r : node_ref) (n : MemNode) (ptr sz : Z)
    : LinkedListAllocator :=
  write (write (write h r {| next := None; size := size n |})
    (Node ptr) {| next := next n; size := sz |}) r {| next := Some ptr; size := size n |}.

Lemma read_link h r n ptr sz x : r ≠ Node ptr →
  read (link h r n ptr sz) x =
    if decide (x = r) then Some {| next := Some ptr; size := size n |}
    else if decide (x = Node ptr) then Some {| next := next n; size := sz |}
    else read h x.
Proof. intros. unfold link. rewrite !read_write. repeat case_decide; congruence. Qed.

Lemma link_list_at h r n ptr sz l : read h r = Some n → r ≠ Node ptr →
  r ∉ refs l → Node ptr ∉ refs l → list_at h r l →
  list_at (link h r n ptr sz) r ((ptr, sz) :: l).
Proof.
  intros E Hne Hr Hp L. cbn. split; [|split].
  - unfold next_of. by rewrite read_link, decide_True.
  - unfold size_of. by rewrite read_link, decide_False, decide_True.
  - apply (list_at_frame h _ r); [done| |].
    + unfold next_of. by rewrite read_link, decide_False, decide_True, E.
    + intros x Hx. by rewrite read_link, !decide_False by congruence.
Qed.

Lemma before_ne r ptr : before r ptr → r ≠ Node ptr.
Proof. destruct r; cbn; [done|]. intros ? [= ->]. lia. Qed.

Lemma find_target_spec lo hi ptr sz fuel r l h :
  list_at h r l → regions_wf lo hi l → before r lo → before r ptr → 0 < sz →
  Forall (disjoint_region (ptr, sz)) l → (length l < fuel)%nat →
  ∃ r' n, find_target fuel r ptr h = (Ok r', h) ∧ read h r' = Some n ∧ r' ≠ Node ptr ∧
    list_at (link h r' n ptr sz) r (insert_region (ptr, sz) l) ∧
    size_of (link h r' n ptr sz) r = size_of h r ∧
    ∀ x, x ≠ r → x ≠ Node ptr → x ∉ refs l → read (link h r' n ptr sz) x = read h x.
Proof.
  revert lo fuel r. induction l as [|[a s] l IH]; intros lo fuel r L W B Bp Hz D F;
    (destruct fuel as [|fuel]; [cbn in F; lia|]).
  all: pose proof (before_ne _ _ Bp) as Hne; pose proof L as L0.
  all: cbn in L; cbn [find_target insert_region fst].
  - destruct (next_of_Some _ _ _ L) as (n & E & N). exists r, n.
    pstep (load_run _ _ _ E). rewrite N. split; [done|]. split; [done|]. split; [done|].
    split; [apply link_list_at; [done|done|exact (before_refs _ _ _ _ B W)|apply not_elem_of_nil|done]|].
    split.
    + unfold size_of. by rewrite read_link, decide_True, E.
    + intros x ???. by rewrite read_link, !decide_False.
  - destruct L as (Ln & Ls & L). destruct (next_of_Some _ _ _ Ln) as (n & E & N).
    pstep (load_run _ _ _ E). rewrite N. cbn [fst].
    destruct (ptr <? a) eqn:C.
    + exists r, n. split; [done|]. split; [done|]. split; [done|].
      split; [apply link_list_at; [done|done|exact (before_refs _ _ _ _ B W)| |done]|].
      { exact (disjoint_refs _ _ _ _ _ Hz W D). }
      split.
      * unfold size_of. by rewrite read_link, decide_True, E.
      * intros x ???. by rewrite read_link, !decide_False.
    + pose proof (before_refs _ _ _ _ B W) as Hr. cbn in W.
      destruct W as (? & ? & ? & ? & W). unfold NODE_SIZE in *.
      apply Forall_cons in D as [Da D]. unfold disjoint_region in Da; cbn in Da.
      destruct (IH (a + s) fuel (Node a)) as (r' & n' & Ef & En & Hn & Ll & Sz & Fr);
        [done|done|cbn; lia|cbn; lia|done|done|cbn in F; lia|].
      exists r', n'. split; [done|]. split; [done|]. split; [done|]. apply not_elem_of_cons in Hr as [Hra Hr].
      assert (read (link h r' n' ptr sz) r = read h r) as Er by (by apply Fr).
      split; [|split].
      * cbn. unfold next_of. by rewrite Er, E, Sz; cbn; rewrite N.
      * unfold size_of. by rewrite Er.
      * intros x ?? [? ?]%not_elem_of_cons. by apply Fr.
Qed.

Lemma align_up_node ptr : (NODE_ALIGN | ptr) → 0 ≤ ptr → ptr + NODE_SIZE ≤ 2^64 →
  align_up ptr NODE_ALIGN = Ok ptr.
Proof.
  unfold NODE_ALIGN, NODE_SIZE. intros Hd ? ?. change 8 with (2^3).
  rewrite align_up_Ok by lia. f_equal. by apply align_up_id.
Qed.

(** The invariant: the head is an empty node outside the regions. *)
Record heap_inv (head_addr lo hi : Z) (h : LinkedListAllocator) (l : list region) : Prop := {
  hi_list : list_at h Head l;
  hi_wf : regions_wf lo hi l;
  hi_head : size_of h Head = Some 0;
  hi_out : 0 ≤ head_addr < 2^64 ∧ (head_addr < lo ∨ hi ≤ head_addr);
  hi_bounds : 0 < lo ∧ hi < 2^64;
}.

(** A block that may be given back: aligned, large enough for a node, inside
    the heap's bounds, and holding no byte that is free already. *)
Record block_ok (lo hi ptr sz : Z) (l : list region) : Prop := {
  bo_region : regions_wf lo hi [(ptr, sz)];
  bo_disjoint : Forall (disjoint_region (ptr, sz)) l;
}.

Lemma add_free_region_spec head_addr lo hi h l ptr sz :
  heap_inv head_addr lo hi h l → block_ok lo hi ptr sz l →
  ∃ h', add_free_region ptr sz h = (Ok tt, h') ∧
    heap_inv head_addr lo hi h' (insert_region (ptr, sz) l).
Proof.
  intros [L W Hs O [Blo Bhi]] [R D]. pose proof R as R0. cbn in R. destruct R as (? & ? & ? & ? & _).
  assert (0 < sz) by (unfold NODE_SIZE in *; lia).
  unfold add_free_region. rewrite align_up_node by (done || unfold NODE_SIZE in *; lia).
  rewrite (bind_Ok _ _ _ ptr h), Z.eqb_refl by done. rewrite (bind_Ok _ _ _ tt h) by done.
  rewrite (proj2 (Z.leb_le _ _)) by done. rewrite (bind_Ok _ _ _ tt h) by done.
  rewrite (bind_Ok _ _ _ (list_fuel h) h) by done.
  destruct (find_target_spec lo hi ptr sz (list_fuel h) Head l h)
    as (r & n & E & En & Hne & L' & S' & _); [done|done|done|done|done|done|by eapply list_fuel_enough|].
  pstep E. pstep (load_run _ _ _ En). pstep (set_next_run _ _ None _ En).
  rewrite (bind_Ok _ _ _ tt _) by done.
  exists (link h r n ptr sz). split; [|constructor; try done; [by apply insert_region_wf|congruence]].
  rewrite (set_next_run _ r (Some ptr) {| next := None; size := size n |}); [done|].
  rewrite read_write_ne by done. apply read_write_eq.
Qed.

(** ** Merging neighbours *)

Lemma list_at_next h r l : list_at h r l → ∃ p, next_of h r = Some p.
Proof. destruct l as [|[a s] l]; cbn; [eauto|]. intros [? _]. eauto. Qed.

Lemma coalesce_loop_spec head_addr lo hi fuel a s l h : 0 < lo → hi < 2^64 →
  list_at h (Node a) l → size_of h (Node a) = Some s → regions_wf lo hi ((a, s) :: l) →
  (length l < fuel)%nat →
  ∃ h' s' l', coalesce_loop head_addr fuel (Node a) h = (Ok tt, h') ∧
    coalesce_from (a, s) l = (a, s') :: l' ∧
    size_of h' (Node a) = Some s' ∧ list_at h' (Node a) l' ∧
    ∀ x, x ≠ Node a → x ∉ refs l → read h' x = read h x.
Proof.
  intros Hlo Hhi. revert lo fuel a s h Hlo. induction l as [|[b t] l IH];
    intros lo fuel a s h Hlo L S W F; (destruct fuel as [|fuel]; [cbn in F; lia|]);
    cbn [coalesce_loop coalesce_from fst snd].
  - cbn in L. pstep (load_run _ _ _ (node_read _ _ _ _ L S)). by exists h, s, [].
  - pose proof W as W0. cbn in L, W. destruct L as (Ln & Ls & L).
    destruct W as (? & ? & ? & ? & ? & ? & ? & ? & W). unfold NODE_SIZE in *.
    destruct (list_at_next _ _ _ L) as [p Np].
    pstep (load_run _ _ _ (node_read _ _ _ _ Ln S)). cbn [next].
    pose proof (node_read _ _ _ _ Np Ls) as Eb. pstep (load_run _ _ _ Eb).
    unfold end_addr; cbn [addr next size]. rewrite u64_small by lia.
    destruct (a + s =? b) eqn:C.
    + pstep (set_next_run _ _ None _ Eb). cbn [size]. rewrite (bind_Ok _ _ _ tt _) by done.
      rewrite (u64_small (s + t)) by lia.
      set (h1 := write _ _ _). assert (∀ x, x ≠ Node a → x ≠ Node b → read h1 x = read h x) as F1
        by (intros; unfold h1; by rewrite !read_write_ne).
      assert (read h1 (Node a) = Some {| next := p; size := s + t |}) as Ea
        by apply read_write_eq.
      assert ((Node a ∉ refs l) ∧ (Node b ∉ refs l)) as [Na Nb].
      { split; apply (before_refs _ (b + t) hi); try done; cbn; lia. }
      destruct (IH lo fuel a (s + t) h1) as (h' & s' & l' & R & E & S' & L' & Fr); [done| | | | |].
      * apply (list_at_frame h h1 (Node b)); [done| |].
        -- unfold next_of. rewrite Ea. cbn. by rewrite <- Np.
        -- intros x Hx. apply F1; congruence.
      * unfold size_of. by rewrite Ea.
      * cbn. replace (a + (s + t)) with (b + t) by lia. unfold NODE_SIZE. repeat split_and; try done; lia.
      * cbn in F. lia.
      * exists h', s', l'. split; [done|]. split; [done|]. split; [done|]. split; [done|].
        intros x ? [? ?]%not_elem_of_cons. rewrite Fr by done. by apply F1.
    + destruct (IH (a + s) fuel b t h) as (h' & s' & l' & R & E & S' & L' & Fr);
        [lia|done|done|by cbn|cbn in F; lia|].
      assert (read h' (Node a) = read h (Node a)) as Ea.
      { apply Fr; [intros [= ->]; lia|]. apply (before_refs _ (b + t) hi); [cbn; lia|done]. }
      exists h', s, ((b, s') :: l'). split; [done|]. split; [by rewrite E|].
      split; [unfold size_of; by rewrite Ea|]. split.
      * cbn. split; [|done]. unfold next_of. by rewrite Ea.
      * intros x ? [? ?]%not_elem_of_cons. by apply Fr.
Qed.

Lemma coalesce_memory_spec head_addr lo hi h l : heap_inv head_addr lo hi h l →
  ∃ h', coalesce_memory head_addr h = (Ok tt, h') ∧ heap_inv head_addr lo hi h' (coalesce l).
Proof.
  intros [L W Hs O [Blo Bhi]]. unfold coalesce_memory.
  rewrite (bind_Ok _ _ _ (list_fuel h) h) by done.
  pose proof (list_fuel_enough _ _ _ _ _ L W) as F.
  destruct (list_fuel h) as [|fuel]; [lia|]. cbn [coalesce_loop].
  destruct (list_at_next _ _ _ L) as [p Np]. pose proof Hs as Hs'.
  apply next_of_Some in Np as (n & En & <-). unfold size_of in Hs'. rewrite En in Hs'.
  injection Hs' as Hsn. pstep (load_run _ _ _ En).
  destruct l as [|[a s] l]; cbn in L.
  { pose proof L as L0. unfold next_of in L. rewrite En in L. injection L as ->. exists h.
    split; [done|]. by constructor. }
  destruct L as (Ln & Ls & L). unfold next_of in Ln. rewrite En in Ln. injection Ln as Ln.
  rewrite Ln. destruct (list_at_next _ _ _ L) as [q Nq].
  pstep (load_run _ _ _ (node_read _ _ _ _ Nq Ls)).
  pose proof W as W0. cbn in W. destruct W as (? & ? & ? & ? & W).
  unfold end_addr; cbn [addr]. rewrite Hsn, u64_small by lia.
  rewrite (proj2 (Z.eqb_neq _ _)) by (unfold NODE_SIZE in *; lia).
  destruct (coalesce_loop_spec head_addr lo hi fuel a s l h)
    as (h' & s' & l' & R & E & S' & L' & Fr); [done|done|done|done|done|cbn in F; lia|].
  exists h'. split; [done|].
  assert (read h' Head = read h Head) as Eh.
  { apply Fr; [done|]. by apply (before_refs _ (a + s) hi). }
  constructor; try done.
  - cbn. rewrite E. split; [|done]. unfold next_of. rewrite Eh, En. cbn. by rewrite Ln.
  - exact (proj1 (coalesce_spec _ _ _ W0)).
  - unfold size_of. rewrite Eh. exact Hs.
Qed.

(** ** Taking a region *)

Lemma alloc_from_node_spec head_addr hi a s n layout k :
  l_align layout = 2^k → 0 ≤ k < 64 → 0 ≤ l_size layout → 0 < a → 0 ≤ s → a + s ≤ hi →
  hi + l_size layout + 2^k ≤ 2^64 → size n = s →
  ∃ start, alloc_from_node head_addr (Node a) n layout = Ok start ∧
    is_null start = negb (suits (2^k) (l_size layout) (a, s)).
Proof.
  intros Hal Hk Hsz Ha Hs Hhi Htop Hn. unfold alloc_from_node, suits, end_addr; cbn [addr fst snd].
  assert (0 < 2^k) by (apply Z.pow_pos_nonneg; lia). pose proof (align_up_bounds a k ltac:(lia)) as [? _].
  rewrite Hal, align_up_Ok, Hn by lia. revert H0. generalize ((a + 2^k - 1) / 2^k * 2^k).
  intros start Hst. cbn. unfold NODE_SIZE.
  rewrite (u64_small (a + s)), (u64_small (start + _)) by lia.
  destruct (a + s <? start + l_size layout) eqn:C1.
  { exists 0. split; [done|]. rewrite (proj2 (Z.leb_gt _ _)) by lia. done. }
  rewrite (proj2 (Z.leb_le (start + _) _)) by lia.
  destruct ((0 <? _) && _) eqn:C2; eexists; (split; [done|]); unfold is_null; lia.
Qed.

Lemma find_region_loop_spec head_addr lo hi layout k fuel r l h :
  l_align layout = 2^k → 0 ≤ k < 64 → 0 ≤ l_size layout → 0 < lo →
  hi + l_size layout + 2^k ≤ 2^64 →
  list_at h r l → regions_wf lo hi l → before r lo → (length l < fuel)%nat →
  match take_region (suits (2^k) (l_size layout)) l with
  | None => find_region_loop head_addr fuel r layout h = (Ok None, h)
  | Some ((a, s), l') =>
      ∃ h', find_region_loop head_addr fuel r layout h = (Ok (Some a), h') ∧
        size_of h' (Node a) = Some s ∧ list_at h' r l' ∧ size_of h' r = size_of h r ∧
        ∀ x, x ≠ r → x ∉ refs l → read h' x = read h x
  end.
Proof.
  intros Hal Hk Hsz Hlo Htop. revert lo fuel r Hlo. induction l as [|[a s] l IH];
    intros lo fuel r Hlo L W B F; (destruct fuel as [|fuel]; [cbn in F; lia|]);
    cbn [find_region_loop take_region].
  - cbn in L. destruct (next_of_Some _ _ _ L) as (n & E & N). pstep (load_run _ _ _ E). by rewrite N.
  - pose proof (before_refs _ _ _ _ B W) as [Hra Hr]%not_elem_of_cons.
    cbn in L, W, Hra.
    destruct L as (Ln & Ls & L), W as (? & ? & ? & ? & W). unfold NODE_SIZE in *.
    destruct (next_of_Some _ _ _ Ln) as (n & E & N). pstep (load_run _ _ _ E). rewrite N.
    destruct (list_at_next _ _ _ L) as [q Nq]. pose proof (node_read _ _ _ _ Nq Ls) as Ea.
    pstep (load_run _ _ _ Ea).
    destruct (alloc_from_node_spec head_addr hi a s {| next := q; size := s |} layout k)
      as (start & Es & Hnull); [done|done|done|lia|lia|lia|done|done|].
    rewrite Es, (bind_Ok _ _ _ start h), Hnull by done.
    destruct (suits _ _ _) eqn:Hsuit; cbn [negb].
    + pstep (set_next_run _ _ None _ Ea). cbn [size].
      rewrite (bind_Ok _ _ _ tt (write (write h (Node a) {| next := None; size := s |}) r
        {| next := q; size := size n |})).
      2: { apply set_next_run. by rewrite read_write_ne by congruence. }
      eexists. split; [done|]. split; [|split; [|split]].
      * unfold size_of. rewrite read_write_ne by congruence. by rewrite read_write_eq.
      * apply (list_at_frame h _ (Node a)); [done| |].
        -- unfold next_of at 1. by rewrite read_write_eq.
        -- intros x Hx. rewrite read_write_ne by (by intros ->). rewrite read_write_ne; [done|].
           intros ->. by apply (before_refs (Node a) (a + s) hi l); [cbn; lia| |].
      * unfold size_of. by rewrite read_write_eq, E.
      * intros x ? [? ?]%not_elem_of_cons. by rewrite !read_write_ne.
    + specialize (IH (a + s) fuel (Node a) ltac:(lia) L W ltac:(cbn; lia) ltac:(cbn in F; lia)).
      destruct (take_region _ l) as [[[b t] l']|]; [|done].
      destruct IH as (h' & R & Sb & L' & Sa & Fr). exists h'. split; [done|]. split; [done|].
      assert (read h' r = read h r) as Er by (by apply Fr).
      split; [|split].
      * cbn. split; [unfold next_of; by rewrite Er, E; cbn; rewrite N|]. by rewrite Sa.
      * unfold size_of. by rewrite Er.
      * intros x ? [? ?]%not_elem_of_cons. by apply Fr.
Qed.

(** ** Layouts *)

(** What [size_align] turns a layout into. *)
Definition block_align (l : Layout) : Z := Z.max (l_align l) NODE_ALIGN.
Definition block_size (l : Layout) : Z :=
  Z.max NODE_SIZE ((l_size l + block_align l - 1) / block_align l * block_align l).

Record layout_valid (l : Layout) : Prop := {
  lv_align : ∃ k, 0 ≤ k ≤ 62 ∧ l_align l = 2^k;
  lv_size : 0 ≤ l_size l ∧ l_size l + block_align l ≤ 2^63;
}.

Lemma block_align_pow l : layout_valid l → ∃ k, 3 ≤ k ≤ 62 ∧ block_align l = 2^k.
Proof.
  intros [(k & Hk & E) _]. unfold block_align, NODE_ALIGN. rewrite E.
  destruct (decide (k ≤ 3)).
  - exists 3. split; [lia|]. assert (2^k ≤ 2^3) by (apply Z.pow_le_mono_r; lia). lia.
  - exists k. split; [lia|]. assert (2^3 ≤ 2^k) by (apply Z.pow_le_mono_r; lia). lia.
Qed.

Lemma block_size_bounds l : layout_valid l →
  NODE_SIZE ≤ block_size l ∧ l_size l ≤ block_size l ≤ Z.max NODE_SIZE (2^63 - block_align l) ∧
  (NODE_ALIGN | block_size l).
Proof.
  intros H. destruct (block_align_pow l H) as (k & Hk & E). destruct H as [_ [H0 H1]].
  unfold block_size. rewrite E in *.
  destruct (align_up_bounds (l_size l) k ltac:(lia)) as [Hb [m Hm]].
  assert (2^63 = 2^(63-k) * 2^k) as E63 by (rewrite <- Z.pow_add_r by lia; f_equal; lia).
  assert (NODE_ALIGN | 2^k) as Hdk.
  { exists (2^(k-3)). unfold NODE_ALIGN. change 8 with (2^3). rewrite <- Z.pow_add_r by lia. f_equal. lia. }
  rewrite Hm in *. assert (0 < 2^k) by (apply Z.pow_pos_nonneg; lia).
  assert (m * 2^k ≤ 2^63 - 2^k).
  { assert (m < 2^(63-k)); [|nia]. apply (Z.mul_lt_mono_pos_r (2^k)); lia. }
  split; [lia|]. split; [lia|].
  destruct (Z.max_spec NODE_SIZE (m * 2^k)) as [[_ ->]|[_ ->]].
  - by apply Z.divide_mul_r.
  - by exists 2.
Qed.

Lemma size_align_Ok l : layout_valid l →
  size_align l = Ok {| l_size := block_size l; l_align := block_align l |}.
Proof.
  intros H. destruct (block_align_pow l H) as (k & Hk & E).
  destruct (block_size_bounds l H) as (Hb0 & Hb1 & _). destruct H as [_ [H0 H1]].
  assert (0 < 2^k ≤ 2^62) by (split; [apply Z.pow_pos_nonneg; lia|apply Z.pow_le_mono_r; lia]).
  unfold size_align, layout_align_to, layout_from_size_align, layout_ok.
  fold (block_align l). rewrite E in *. rewrite is_power_of_two_pow by lia.
  rewrite (proj2 (Z.leb_le (l_size l) _)) by (unfold isize_max; lia). cbn [andb mbind outcome_bind].
  unfold pad_to_align; cbn [l_size l_align].
  pose proof (align_up_Ok (l_size l) k ltac:(lia) ltac:(lia) ltac:(lia)) as Hup.
  unfold align_up in Hup. rewrite is_power_of_two_pow in Hup by lia. cbn in Hup. injection Hup as ->.
  unfold block_size in Hb1 |- *. rewrite E, Z.max_comm in *.
  rewrite is_power_of_two_pow by lia. rewrite (proj2 (Z.leb_le (Z.max _ _) _)); [done|].
  unfold isize_max, NODE_SIZE in *. lia.
Qed.

(** * What the allocator promises *)

Lemma regions_wf_hi lo hi l r : regions_wf lo hi l → r ∈ l →
  lo ≤ r.1 ∧ NODE_SIZE ≤ r.2 ∧ r.1 + r.2 ≤ hi ∧ (NODE_ALIGN | r.1).
Proof.
  revert lo. induction l as [|[a s] l IH]; intros lo; cbn; [intros _ H; by apply not_elem_of_nil in H|].
  unfold NODE_SIZE. intros (? & ? & ? & ? & W) [->|Hr]%elem_of_cons; [done|].
  destruct (IH _ W Hr) as (? & ? & ? & ?). split; [lia|]. done.
Qed.

Lemma find_region_spec head_addr lo hi h l layout k :
  heap_inv head_addr lo hi h l → l_align layout = 2^k → 0 ≤ k < 64 → 0 ≤ l_size layout →
  hi + l_size layout + 2^k ≤ 2^64 →
  match take_region (suits (2^k) (l_size layout)) l with
  | None => find_region head_addr layout h = (Ok None, h)
  | Some ((a, s), l') =>
      ∃ h', find_region head_addr layout h = (Ok (Some a), h') ∧
        size_of h' (Node a) = Some s ∧ heap_inv head_addr lo hi h' l'
  end.
Proof.
  intros [L W Hs O [Blo Bhi]] Hal Hk Hsz Htop. unfold find_region.
  rewrite (bind_Ok _ _ _ (list_fuel h) h) by done.
  pose proof (find_region_loop_spec head_addr lo hi layout k (list_fuel h) Head l h
    Hal Hk Hsz Blo Htop L W I (list_fuel_enough _ _ _ _ _ L W)) as H.
  destruct (take_region _ l) as [[[a s] l']|] eqn:T; [|done].
  destruct H as (h' & R & S & L' & Hd & _). exists h'. split; [done|]. split; [done|].
  destruct (take_region_Some _ _ _ _ T) as (l1 & l2 & -> & -> & _).
  destruct (regions_wf_remove _ _ _ _ _ W) as (? & _). constructor; try done. congruence.
Qed.

(** The pieces of a suitable region: the block in front and what remains. *)
Lemma take_block lo hi l l' a s sz p : 0 < lo → NODE_SIZE ≤ sz ≤ s → (NODE_ALIGN | sz) →
  regions_wf lo hi l → take_region p l = Some ((a, s), l') →
  regions_wf lo hi [(a, sz)] ∧ regions_wf lo hi l' ∧ Forall (disjoint_region (a, s)) l' ∧
  (NODE_SIZE ≤ s - sz → block_ok lo hi (a + sz) (s - sz) l').
Proof.
  intros Hlo Hsz Hd W (l1 & l2 & -> & -> & _)%take_region_Some.
  destruct (regions_wf_remove _ _ _ _ _ W) as (W' & R & D). cbn in R.
  destruct R as (? & ? & ? & ? & _). unfold NODE_SIZE in *.
  split; [cbn; unfold NODE_SIZE; intuition lia|]. split; [done|]. split; [done|].
  intros Hex. constructor.
  - cbn. split; [lia|]. split; [by apply Z.divide_add_r|]. unfold NODE_SIZE. intuition lia.
  - eapply Forall_impl; [exact D|]. unfold disjoint_region; cbn. intros; lia.
Qed.

Lemma suits_size k sz a s : 0 ≤ k → suits (2^k) sz (a, s) = true → sz ≤ s.
Proof.
  unfold suits; cbn. intros Hk [H%Z.leb_le _]%andb_true_iff.
  pose proof (align_up_bounds a k Hk) as [? _]. revert H H0.
  generalize ((a + 2^k - 1) / 2^k * 2^k). lia.
Qed.

(** The whole of [inner_alloc], every branch. *)
Lemma inner_alloc_run head_addr lo hi h l layout :
  heap_inv head_addr lo hi h l → layout_valid layout →
  hi + block_size layout + block_align layout ≤ 2^64 →
  let sz := block_size layout in
  match take_region (suits (block_align layout) sz) l with
  | None => inner_alloc head_addr layout h = (Ok 0, h)
  | Some ((a, s), l') =>
      if (0 <? s - sz) && (s - sz <? NODE_SIZE)
      then ∃ h', inner_alloc head_addr layout h = (Panic, h')
      else ∃ h', inner_alloc head_addr layout h = (Ok a, h') ∧
        heap_inv head_addr lo hi h'
          (if 0 <? s - sz then insert_region (a + sz, s - sz) l' else l')
  end.
Proof.
  intros H V Htop sz. destruct (block_align_pow _ V) as (k & Hk & E).
  destruct (block_size_bounds _ V) as (Hz & _ & Hd). fold sz in Hz, Hd, Htop.
  unfold inner_alloc. rewrite (size_align_Ok _ V).
  rewrite (bind_Ok _ _ _ {| l_size := sz; l_align := block_align layout |} h) by done.
  pose proof (find_region_spec head_addr lo hi h l {| l_size := sz; l_align := block_align layout |}
    k H E ltac:(lia) ltac:(unfold NODE_SIZE in *; cbn; lia) ltac:(cbn [l_size]; lia)) as R.
  cbn [l_size] in R. rewrite E in R |- *. destruct (take_region _ l) as [[[a s] l']|] eqn:T.
  2: { by pstep R. }
  destruct R as (h' & R & S & I). pstep R. destruct (size_of_Some _ _ _ S) as (n & En & Sn).
  pstep (load_run _ _ _ En). cbn [l_size]. unfold end_addr; cbn [addr]. rewrite Sn.
  pose proof H as [_ W _ _ [Blo Bhi]].
  assert (sz ≤ s) by (apply take_region_Some in T as (? & ? & _ & _ & ? & _); apply (suits_size k sz a); [lia|done]).
  destruct (take_block lo hi l l' a s sz _ Blo ltac:(lia) Hd W T) as (Rb & Wl & D & Hex).
  assert (a + s ≤ hi).
  { apply take_region_Some in T as (l1 & l2 & -> & _).
    assert ((a, s) ∈ l1 ++ (a, s) :: l2) as Hin by (apply elem_of_app; right; left).
    by destruct (regions_wf_hi _ _ _ _ W Hin) as (_ & _ & ? & _). }
  cbn in Rb. destruct Rb as (? & ? & ? & ? & _). unfold NODE_SIZE in *.
  rewrite (u64_small (a + s)), (u64_small (a + sz)) by lia.
  replace (a + s - (a + sz)) with (s - sz) by lia. rewrite u64_small by lia.
  destruct (0 <? s - sz) eqn:C; cbn [andb].
  2: { exists h'. done. }
  destruct (s - sz <? 16) eqn:C2.
  - exists h'. unfold add_free_region. rewrite align_up_node.
    2: { by apply Z.divide_add_r. }
    2: { lia. }
    2: { unfold NODE_SIZE. lia. }
    prun. rewrite Z.eqb_refl. cbn. unfold NODE_SIZE. by rewrite (proj2 (Z.leb_gt _ _)) by lia.
  - destruct (add_free_region_spec head_addr lo hi h' l' (a + sz) (s - sz))
      as (h2 & R2 & I2); [done|apply Hex; lia|].
    exists h2. by pstep R2.
Qed.

Lemma suits_node_align sz lo hi l a s : regions_wf lo hi l → (a, s) ∈ l →
  suits NODE_ALIGN sz (a, s) = (sz =? s) || (sz + NODE_SIZE <=? s).
Proof.
  intros W Hin. destruct (regions_wf_hi _ _ _ _ W Hin) as (_ & _ & _ & Hd). cbn in Hd.
  unfold suits; cbn [fst snd]. unfold NODE_ALIGN in *. change 8 with (2^3) in *.
  rewrite align_up_id by (done || lia). unfold NODE_SIZE. lia.
Qed.

Lemma regions_apart_take k l1 (a s sz : Z) l2 : Forall (λ r : region, 0 ≤ r.2) (l1 ++ (a, s) :: l2) →
  0 < sz ≤ s → regions_apart k (l1 ++ (a, s) :: l2) →
  regions_apart k (l1 ++ l2) ∧ regions_apart k (l1 ++ (a + sz, s - sz) :: l2).
Proof.
  intros F Hsz. revert k F. induction l1 as [|[b t] l1 IH]; intros k; cbn.
  - intros [_ F]%Forall_cons [? A]. replace (a + sz + (s - sz)) with (a + s) by lia.
    split; [|split; [lia|done]]. destruct l2 as [|[c u] l2]; cbn in *; [done|]. intuition lia.
  - intros [? F]%Forall_cons [? A]. destruct (IH _ F A). auto.
Qed.

Lemma insert_after_take lo hi l1 a s sz l2 : regions_wf lo hi (l1 ++ (a, s) :: l2) → 0 < sz < s →
  insert_region (a + sz, s - sz) (l1 ++ l2) = l1 ++ (a + sz, s - sz) :: l2.
Proof.
  revert lo. induction l1 as [|[b t] l1 IH]; intros lo; cbn; intros (? & ? & ? & ? & W) Hsz.
  - destruct l2 as [|[c u] l2]; [done|]. cbn in *. by rewrite (proj2 (Z.ltb_lt _ _)) by lia.
  - assert (b + t ≤ a).
    { destruct (regions_wf_hi _ _ _ (a, s) W); [|done]. apply elem_of_app. right; left. }
    unfold NODE_SIZE in *. rewrite (proj2 (Z.ltb_ge _ _)) by lia. by rewrite (IH _ W Hsz).
Qed.

(** The successful branch, for layouts no stricter than a node's alignment. *)
Lemma inner_alloc_block head_addr lo hi h l layout a s l' :
  heap_inv head_addr lo hi h l → layout_valid layout → block_align layout = NODE_ALIGN →
  hi + block_size layout + NODE_ALIGN ≤ 2^64 →
  let sz := block_size layout in
  take_region (suits NODE_ALIGN sz) l = Some ((a, s), l') →
  ∃ h' l'', inner_alloc head_addr layout h = (Ok a, h') ∧ heap_inv head_addr lo hi h' l'' ∧
    (∀ k, regions_apart k l → regions_apart k l'') ∧
    block_ok lo hi a sz l'' ∧
    ∀ x, free_byte l x ↔ in_region x (a, sz) ∨ free_byte l'' x.
Proof.
  intros H V Eal Htop sz T.
  pose proof (inner_alloc_run head_addr lo hi h l layout H V ltac:(by rewrite Eal)) as R.
  cbv zeta in R; fold sz in R, Htop; rewrite Eal, T in R.
  destruct (block_size_bounds _ V) as (Hz & _ & Hd). fold sz in Hz, Hd.
  pose proof H as [_ W _ _ [Blo _]]. pose proof (regions_wf_sizes _ _ _ W) as Hsizes.
  pose proof T as T0. apply take_region_Some in T0 as (l1 & l2 & El & El' & Hs & _).
  assert ((a, s) ∈ l) as Hin by (rewrite El; apply elem_of_app; right; left).
  rewrite (suits_node_align _ _ _ _ _ _ W Hin) in Hs. unfold NODE_SIZE in *.
  destruct (take_block lo hi l l' a s sz _ Blo ltac:(unfold NODE_SIZE; lia) Hd W T)
    as (Rb & Wl & D & Hex).
  replace ((0 <? s - sz) && (s - sz <? 16)) with false in R by lia.
  destruct R as (h' & R & I). eexists h', _. split; [done|]. split; [done|]. split.
  { intros k A. rewrite El in A, Hsizes, W. rewrite El'.
    destruct (regions_apart_take k l1 a s sz l2 Hsizes ltac:(lia) A).
    case_match; [|done]. by rewrite (insert_after_take lo hi _ _ _ _ _ W) by lia. }
  assert (∀ x, free_byte l x ↔ in_region x (a, s) ∨ free_byte l' x) as Hfree.
  { intros x. rewrite El, El'. unfold free_byte. rewrite !Exists_app, Exists_cons. tauto. }
  assert (Forall (disjoint_region (a, sz)) l') as Dl.
  { eapply Forall_impl; [exact D|]. unfold disjoint_region; cbn; intros; lia. }
  case_match; (split; [constructor|]); try done.
  - rewrite Forall_forall in *. intros r.
    rewrite insert_region_Permutation. intros [->|?]%elem_of_cons; [left; cbn; lia|auto].
  - intros x. rewrite free_byte_insert, Hfree. unfold in_region; cbn. intuition lia.
  - intros x. rewrite Hfree. unfold in_region; cbn. intuition lia.
Qed.

Lemma inner_dealloc_run head_addr lo hi h l ptr layout :
  heap_inv head_addr lo hi h l → layout_valid layout →
  block_ok lo hi ptr (block_size layout) l →
  ∃ h' l', inner_dealloc head_addr ptr layout h = (Ok tt, h') ∧
    heap_inv head_addr lo hi h' l' ∧ regions_apart (lo - 1) l' ∧
    ∀ x, free_byte l' x ↔ in_region x (ptr, block_size layout) ∨ free_byte l x.
Proof.
  intros H V B. unfold inner_dealloc.
  rewrite (size_align_Ok _ V), (bind_Ok _ _ _ _ h) by done. cbn [l_size].
  destruct (add_free_region_spec _ _ _ _ _ _ _ H B) as (h1 & R1 & I1). pstep R1.
  destruct (coalesce_memory_spec _ _ _ _ _ I1) as (h2 & R2 & I2).
  exists h2, (coalesce (insert_region (ptr, block_size layout) l)).
  destruct (coalesce_spec _ _ _ (hi_wf _ _ _ _ _ I1)) as (_ & A & F).
  split; [done|]. split; [done|]. split; [done|].
  intros x. by rewrite F, free_byte_insert.
Qed.

Lemma block_align_small layout : layout_valid layout → l_align layout ≤ NODE_ALIGN →
  block_align layout = NODE_ALIGN.
Proof. unfold block_align. lia. Qed.

(** C4: [inner_alloc], for layouts no stricter than a node's alignment, keeps the
    heap well formed and either returns a non-null, aligned block of the padded
    size, taken out of the free bytes exactly, or returns null without changing
    the heap, and then no free region has the right size. *)
Theorem inner_alloc_correct head_addr lo hi h l layout :
  heap_inv head_addr lo hi h l → layout_valid layout → l_align layout ≤ NODE_ALIGN →
  hi + block_size layout + NODE_ALIGN ≤ 2^64 →
  let sz := block_size layout in
  ∃ p h' l', inner_alloc head_addr layout h = (Ok p, h') ∧ heap_inv head_addr lo hi h' l' ∧
    (∀ k, regions_apart k l → regions_apart k l') ∧
    ((p = 0 ∧ h' = h ∧ l' = l ∧
        ∀ a s, (a, s) ∈ l → s ≠ sz ∧ s < sz + NODE_SIZE) ∨
     (p ≠ 0 ∧ (NODE_ALIGN | p) ∧ block_ok lo hi p sz l' ∧
        ∀ x, free_byte l x ↔ in_region x (p, sz) ∨ free_byte l' x)).
Proof.
  intros H V Hal Htop sz. pose proof (block_align_small _ V Hal) as Eal.
  destruct (take_region (suits NODE_ALIGN sz) l) as [[[a s] l0]|] eqn:T.
  - destruct (inner_alloc_block head_addr lo hi h l layout a s l0 H V Eal Htop T)
      as (h' & l' & R & I & A & B & F).
    exists a, h', l'. split; [done|]. split; [done|]. split; [done|]. right.
    pose proof (bo_region _ _ _ _ _ B) as (? & ? & _). pose proof (hi_bounds _ _ _ _ _ H).
    split; [lia|]. done.
  - pose proof (inner_alloc_run head_addr lo hi h l layout H V ltac:(by rewrite Eal)) as R.
    cbv zeta in R; fold sz in R; rewrite Eal, T in R. exists 0, h, l.
    split; [done|]. split; [done|]. split; [done|]. left.
    split; [done|]. split; [done|]. split; [done|]. intros a s Hin.
    apply take_region_None in T. rewrite Forall_forall in T. specialize (T _ Hin). cbn in T.
    rewrite (suits_node_align _ _ _ _ _ _ (hi_wf _ _ _ _ _ H) Hin) in T. lia.
Qed.


(** What [inner_alloc] returns for any alignment.  [alloc_from_node] looks
    for room at the aligned address, but the block is cut at the region's start:
    the returned pointer is the start of the region, aligned or not, and when
    8 bytes would remain the allocator panics. *)
Lemma inner_alloc_any_alignment head_addr lo hi h l layout :
  heap_inv head_addr lo hi h l → layout_valid layout →
  hi + block_size layout + block_align layout ≤ 2^64 →
  let sz := block_size layout in
  (inner_alloc head_addr layout h).1 =
    match take_region (suits (block_align layout) sz) l with
    | None => Ok 0
    | Some ((a, s), _) =>
        if (0 <? s - sz) && (s - sz <? NODE_SIZE) then Panic else Ok a
    end.
Proof.
  intros H V Htop sz. pose proof (inner_alloc_run head_addr lo hi h l layout H V Htop) as R.
  cbv zeta in R; fold sz in R. destruct (take_region _ l) as [[[a s] l']|]; [|by rewrite R].
  case_match; destruct R as [h' R]; [by rewrite R|]. destruct R as [R _]. by rewrite R.
Qed.

(** The end of the block is computed modulo 2^64: for a node high in the
    address space (where the direct map puts the heap), a layout that wraps past
    the top is accepted although it is larger than the node. *)
Lemma alloc_from_node_wraps head_addr a n layout k :
  0 ≤ k < 64 → l_align layout = 2^k → (2^k | a) → 0 < a → a + 2^k ≤ 2^64 → 0 ≤ size n →
  a + size n < 2^64 → l_size layout < 2^64 →
  2^64 ≤ a + l_size layout → a + l_size layout - 2^64 + NODE_SIZE ≤ a + size n →
  alloc_from_node head_addr (Node a) n layout = Ok a ∧ size n < l_size layout.
Proof.
  intros Hk Hal Hd Ha Hup Hn Hend Hsz Hwrap Hfit. split; [|lia].
  unfold alloc_from_node, end_addr; cbn [addr]. unfold NODE_SIZE in *.
  rewrite Hal, align_up_Ok, align_up_id by (done || lia). cbn.
  rewrite (u64_small (a + size n)) by lia.
  assert (u64 (a + l_size layout) = a + l_size layout - 2^64) as ->.
  { unfold u64. symmetry. apply Z.mod_unique with 1; [left|]; lia. }
  rewrite (proj2 (Z.ltb_ge _ _)) by lia.
  replace ((0 <? _) && _) with false by lia. done.
Qed.

Lemma alloc_from_node_wraps_witness :
  alloc_from_node 0 (Node 0xffff800000001000) {| next := None; size := 4096 |}
    {| l_size := 2^48; l_align := 8 |} = Ok 0xffff800000001000 ∧ 4096 < 2^48.
Proof.
  apply (alloc_from_node_wraps 0 0xffff800000001000 {| next := None; size := 4096 |}
    {| l_size := 2^48; l_align := 8 |} 3); try (cbn; lia); try done.
  apply Z.mod_divide; done.
Defined.

(** ** A first heap: [init] *)

Lemma heap_inv_new head_addr lo hi : 0 ≤ head_addr < 2^64 → head_addr < lo ∨ hi ≤ head_addr →
  0 < lo → hi < 2^64 → heap_inv head_addr lo hi LinkedListAllocator_new [].
Proof. by constructor. Qed.

Lemma init_spec head_addr ptr pages : 0 ≤ head_addr < 2^64 →
  head_addr < ptr ∨ ptr + PAGE_SIZE * pages ≤ head_addr →
  0 < ptr → (NODE_ALIGN | ptr) → 0 < pages → ptr + PAGE_SIZE * pages < 2^64 →
  ∃ h, init ptr pages LinkedListAllocator_new = (Ok tt, h) ∧
    heap_inv head_addr ptr (ptr + PAGE_SIZE * pages) h [(ptr, PAGE_SIZE * pages)].
Proof.
  intros. unfold init, PAGE_SIZE in *. rewrite u64_small by lia.
  apply (add_free_region_spec head_addr _ _ _ [] ptr (4096 * pages)).
  - by apply heap_inv_new.
  - constructor; [|constructor]. cbn. unfold NODE_SIZE. repeat split_and; try done; lia.
Qed.

(** The heap [init] builds, one page at 4096. *)
Definition demo_heap : LinkedListAllocator := (init 4096 1 LinkedListAllocator_new).2.
Lemma demo_heap_inv : heap_inv 64 4096 8192 demo_heap [(4096, 4096)].
Proof.
  destruct (init_spec 64 4096 1) as (h & R & I); try (unfold PAGE_SIZE; lia); [by exists 512|].
  unfold demo_heap. by rewrite R.
Qed.

(** The same heap with the first 8 bytes cut off. *)
Definition odd_heap : LinkedListAllocator :=
  (add_free_region 4104 4088 LinkedListAllocator_new).2.
Lemma odd_heap_inv : heap_inv 64 4096 8192 odd_heap [(4104, 4088)].
Proof.
  destruct (add_free_region_spec 64 4096 8192 LinkedListAllocator_new [] 4104 4088) as (h & R & I).
  - apply heap_inv_new; lia.
  - constructor; [|constructor]. cbn. unfold NODE_SIZE. repeat split_and; try done; try lia. by exists 513.
  - unfold odd_heap. by rewrite R.
Qed.

Lemma demo_layout k sz : 0 ≤ k ≤ 6 → 0 ≤ sz ≤ 4096 → layout_valid {| l_size := sz; l_align := 2^k |}.
Proof.
  intros Hk Hsz. constructor; [exists k; split; [lia|done]|]. unfold block_align, NODE_ALIGN; cbn.
  assert (2^k ≤ 2^6) by (apply Z.pow_le_mono_r; lia). lia.
Qed.

Lemma inner_alloc_correct_witness :
  ∃ p h' l', inner_alloc 64 {| l_size := 100; l_align := 8 |} demo_heap = (Ok p, h') ∧
    heap_inv 64 4096 8192 h' l' ∧ p = 4096.
Proof.
  destruct (inner_alloc_correct 64 4096 8192 demo_heap [(4096, 4096)] {| l_size := 100; l_align := 2^3 |})
    as (p & h' & l' & R & I & _); [apply demo_heap_inv|by apply demo_layout|done|done|].
  exists p, h', l'. split; [exact R|]. split; [exact I|].
  assert ((inner_alloc 64 {| l_size := 100; l_align := 2^3 |} demo_heap).1 = Ok 4096) as E
    by (vm_compute; reflexivity).
  rewrite R in E. by injection E.
Defined.


Lemma inner_alloc_any_alignment_witness :
  (inner_alloc 64 {| l_size := 64; l_align := 64 |} odd_heap).1 = Ok 4104 ∧ ¬ (64 | 4104).
Proof.
  split; [|intros H; apply Z.mod_divide in H; [|done]; by vm_compute in H].
  etransitivity; [apply (inner_alloc_any_alignment 64 4096 8192 odd_heap [(4104, 4088)]
    {| l_size := 64; l_align := 2^6 |} odd_heap_inv (demo_layout 6 64 ltac:(lia) ltac:(lia)))|].
  - vm_compute. done.
  - vm_compute. reflexivity.
Defined.

(** ** Counting *)

Lemma count_regions_loop_spec fuel r l h c : list_at h r l → (length l < fuel)%nat →
  0 ≤ c → c + len l < 2^64 → count_regions_loop fuel r c h = (Ok (c + len l), h).
Proof.
  revert fuel r c. induction l as [|[a s] l IH]; intros fuel r c L F Hc Hm;
    (destruct fuel as [|fuel]; [cbn in F; lia|]); cbn [count_regions_loop]; cbn in L.
  - destruct (next_of_Some _ _ _ L) as (n & E & N). pstep (load_run _ _ _ E). rewrite N.
    by rewrite len_nil, Z.add_0_r.
  - destruct L as (Ln & _ & L). destruct (next_of_Some _ _ _ Ln) as (n & E & N).
    pstep (load_run _ _ _ E). rewrite N. rewrite len_cons in *. pose proof (len_nonneg l).
    rewrite (u64_small (c + 1)) by lia. rewrite IH; [|done|cbn in F; lia|lia|lia].
    by replace (c + 1 + len l) with (c + (1 + len l)) by lia.
Qed.

Lemma count_reginos_spec head_addr lo hi h l : heap_inv head_addr lo hi h l → len l < 2^64 →
  count_reginos h = (Ok (len l), h).
Proof.
  intros [L W _ _ _] Hl. unfold count_reginos. rewrite (bind_Ok _ _ _ (list_fuel h) h) by done.
  apply (count_regions_loop_spec _ _ l h 0); [done|by eapply list_fuel_enough|lia|lia].
Qed.

(** ** The dump *)

Definition bounds_of (r : region) : Z * Z := (r.1, r.1 + r.2).

Lemma debug_regions_loop_spec head_addr fuel r n l h buf i : list_at h r l → (length l < fuel)%nat → read h r = Some n →
  Forall (λ x : region, fits 64 (x.1 + x.2)) l → 0 ≤ i → i + 1 + len l ≤ len buf →
  debug_regions_loop head_addr fuel r buf i h =
    (Ok (take (Z.to_nat i) buf ++ (addr head_addr r, end_addr head_addr r n) :: (bounds_of <$> l) ++
      drop (Z.to_nat (i + 1 + len l)) buf), h).
Proof.
  revert fuel r n buf i. induction l as [|[a s] l IH]; intros fuel r n buf i L F En Hf Hi Hb;
    (destruct fuel as [|fuel]; [cbn in F; lia|]); cbn [debug_regions_loop]; cbn [list_at] in L;
    rewrite (bind_Ok _ _ _ _ _ (load_run _ _ _ En)); rewrite ?len_nil, ?len_cons in *.
  - rewrite (bind_Ok (lift (store _ _ _)) _ h (<[Z.to_nat i := _]> buf) h) by (unfold lift; rewrite store_Ok by lia; done).
    destruct (next_of_Some _ _ _ L) as (n' & E & N). rewrite En in E. injection E as <-. rewrite N.
    unfold mret, prog_ret. do 2 f_equal. rewrite insert_take_drop by (unfold len in *; lia).
    by replace (S (Z.to_nat i)) with (Z.to_nat (i + 1 + 0)) by lia.
  - rewrite (bind_Ok (lift (store _ _ _)) _ h (<[Z.to_nat i := _]> buf) h) by (unfold lift; rewrite store_Ok by (pose proof (len_nonneg l); lia); done).
    pose proof (len_nonneg l). destruct L as (Ln & Hs & L). destruct (next_of_Some _ _ _ Ln) as (n' & E & N). rewrite En in E. injection E as <-. rewrite N.
    unfold size_of in Hs. apply fmap_Some in Hs as (m & Em & Hm). apply Forall_cons in Hf as [Hfa Hf]. cbn in Hfa.
    rewrite (IH fuel (Node a) m) by (done || (cbn in F; lia) || (rewrite ?len_insert; lia)). do 2 f_equal.
    unfold end_addr at 2. cbn [addr fst snd bounds_of fmap list_fmap]. rewrite <- Hm, u64_small by (unfold fits in Hfa; lia).
    rewrite insert_take_drop by (unfold len in *; lia).
    assert (length (take (Z.to_nat i) buf) = Z.to_nat i) as Hl by (rewrite length_take; unfold len in *; lia).
    rewrite take_app, drop_app, Hl. replace (Z.to_nat (i + 1) - Z.to_nat i)%nat with 1%nat by lia.
    rewrite take_ge by lia. rewrite (drop_ge (take _ _)) by lia. cbn [take app].
    replace (Z.to_nat (i + 1 + 1 + len l) - Z.to_nat i)%nat with (S (S (length l))) by (unfold len; lia).
    cbn [drop]. rewrite take_0, drop_drop, <- app_assoc. cbn [app].
    by replace (S (Z.to_nat i) + S (length l))%nat with (Z.to_nat (i + 1 + (1 + len l))) by (unfold len; lia).
Qed.

(** The dump is the head, then the free list in order. *)
Lemma debug_regions_spec head_addr lo hi h l buf : heap_inv head_addr lo hi h l → 1 + len l ≤ len buf →
  debug_regions head_addr buf h =
    (Ok ((head_addr, head_addr) :: (bounds_of <$> l) ++ drop (Z.to_nat (1 + len l)) buf), h).
Proof.
  intros [L W Hh Ho Hb] Hl. unfold debug_regions. rewrite (bind_Ok _ _ _ (list_fuel h) h) by done.
  unfold size_of in Hh. apply fmap_Some in Hh as (n & En & Hn).
  rewrite (debug_regions_loop_spec head_addr (list_fuel h) Head n l h buf 0 L); [| |done| |lia|lia].
  - cbn [addr]. unfold end_addr. cbn [addr]. rewrite <- Hn, Z.add_0_r, u64_small by lia. done.
  - by eapply list_fuel_enough.
  - apply Forall_forall. intros x Hx. destruct (regions_wf_hi lo hi l x W Hx) as (? & ? & ? & _). unfold fits, NODE_SIZE in *. lia.
Qed.
