(* ===== verification/Gzip.v ===== *)
(** src/src/libs/gzip.rs: the zlib (RFC 1950) and DEFLATE (RFC 1951) decoder.

    The first half translates the decoder: the bit reader, canonical Huffman
    tables, the 32 KiB ring of past output and the three kinds of blocks.  The
    second half relates the reader to a list of bits, the tables to canonical
    codes and the ring to the output so far, and proves that the decoder inverts
    a reference encoder. *)

From S2P Require Import Prelude.

(** ** Data *)

Record Huff := { counts : list Z; symbols : list Z }.
Definition Huff_new : Huff := {| counts := replicate 16 0; symbols := replicate 288 0 |}.

(** The ring's [Vec] never changes length: it is a function on [0, RING_SIZE). *)
Definition RING_SIZE : Z := 32 * 1024.
Record HuffRing := { pointer : Z; data : Z → Z }.
Definition HuffRing_new : HuffRing := {| pointer := 0; data := λ _, 0 |}.

Record InflateContext := mk_ctx {
  input_buf : list Z;
  bit_index : Z;
  output_buf : list Z;
  ring : HuffRing;
}.
Definition InflateContext_new (bytes : list Z) : InflateContext :=
  mk_ctx bytes 0 [] HuffRing_new.

Definition set_input buf i (c : InflateContext) := mk_ctx buf i (output_buf c) (ring c).
Definition set_output out r (c : InflateContext) := mk_ctx (input_buf c) (bit_index c) out r.

(** ** Bits *)

Definition get_bit : prog InflateContext bool :=
  i ← gets bit_index;
  (if i =? 8 then
     buf ← gets input_buf;
     rest ← lift (match buf with [] => Panic | _ :: rest => Ok rest end);
     modify (set_input rest i) ;;
     lift (rassert (negb (bool_decide (rest = [])))) ;;
     modify (set_input rest 0)
   else mret tt) ;;
  buf ← gets input_buf;
  i ← gets bit_index;
  first ← lift (index buf 0);
  modify (set_input buf (i + 1)) ;;
  mret (negb (Z.land first (Z.shiftl 1 i) =? 0)).

(** [for bit in bit..bit+num_bits]; a shift of a [u32] takes its amount modulo 32. *)
Fixpoint get_bits_from (num_bits : nat) (bit byte : Z) : prog InflateContext Z :=
  match num_bits with
  | O => mret byte
  | S n =>
      b ← get_bit;
      get_bits_from n (bit + 1) (Z.lor byte (u32 (Z.shiftl (Z.b2z b) (bit mod 32))))
  end.
Definition get_bits (num_bits : Z) : prog InflateContext Z :=
  get_bits_from (Z.to_nat num_bits) 0 0.

Definition get_bits_base (num base : Z) : prog InflateContext Z :=
  bits ← (if negb (num =? 0) then get_bits num else mret 0);
  mret (u32 (base + bits)).

(** ** Huffman tables *)

Definition count_length (counts : list Z) (length : Z) : outcome (list Z) :=
  rassert (length <=? 15) ;;
  n ← index counts length;
  store counts length (n + 1).

Definition next_offset (counts : list Z) (acc : list Z * Z) (i : Z) : outcome (list Z * Z) :=
  offsets ← store acc.1 i acc.2;
  n ← index counts i;
  mret (offsets, u32 (acc.2 + n)).

Definition place_symbol (lengths : list Z) (acc : list Z * list Z) (i : Z)
    : outcome (list Z * list Z) :=
  length ← index lengths i;
  if negb (length =? 0) then
    offset ← index acc.1 length;
    symbols ← store acc.2 offset i;
    offsets ← store acc.1 length (offset + 1);
    mret (offsets, symbols)
  else mret acc.

(** The table is written over [out]: symbols past the new ones keep their value. *)
Definition build_huffman (lengths : list Z) (size : Z) (out : Huff) : outcome Huff :=
  rassert (size <=? 288) ;;
  counts ← foldM (λ c i, store c i 0) (counts out) (seqZ 0 16);
  counts ← foldM count_length counts (take (Z.to_nat size) lengths);
  counts ← store counts 0 0;
  '(offsets, _) ← foldM (next_offset counts) (replicate 16 0, 0) (seqZ 0 16);
  '(_, symbols) ← foldM (place_symbol lengths) (offsets, symbols out) (seqZ 0 size);
  mret {| counts := counts; symbols := symbols |}.

Definition fixed_lengths : list Z :=
  replicate 144 8 ++ replicate 112 9 ++ replicate 24 7 ++ replicate 8 8.
(** The first 30 entries overwritten with 5. *)
Definition fixed_dist_lengths : list Z := replicate 30 5 ++ drop 30 fixed_lengths.

Definition build_fixed (out_length out_dist : Huff) : outcome (Huff * Huff) :=
  out_length ← build_huffman fixed_lengths 288 out_length;
  out_dist ← build_huffman fixed_dist_lengths 30 out_dist;
  mret (out_length, out_dist).

(** [loop]: the assertion ends it after 15 bits. *)
Fixpoint decode_loop (fuel : nat) (huff : Huff) (base offs i : Z) : prog InflateContext Z :=
  match fuel with
  | O => lift NoFuel
  | S fuel' =>
      bit ← get_bit;
      let offs := 2 * offs + Z.b2z bit in
      lift (rassert (i <=? 15)) ;;
      n ← lift (index (counts huff) i);
      if offs <? n then
        lift (rassert ((0 <=? base + offs) && (base + offs <? 288))) ;;
        lift (index (symbols huff) (base + offs))
      else decode_loop fuel' huff (base + n) (offs - n) (i + 1)
  end.
Definition decode (huff : Huff) : prog InflateContext Z := decode_loop 16 huff 0 0 1.

(** ** Output *)

Definition emit (byte : Z) : prog InflateContext unit :=
  r ← gets ring;
  let p := if pointer r =? RING_SIZE then 0 else pointer r in
  lift (rassert ((0 <=? p) && (p <? RING_SIZE))) ;;
  modify (λ c, set_output (output_buf c ++ [byte])
    {| pointer := p + 1; data := λ x, if decide (x = p) then byte else data r x |} c).

Definition peek (offset : Z) : prog InflateContext Z :=
  r ← gets ring;
  mret (data r (u64 (pointer r - offset) mod RING_SIZE)).

Definition copy (offset : Z) : prog InflateContext unit :=
  b ← peek offset; emit b.

(** ** Blocks *)

Definition uncompressed : prog InflateContext unit :=
  len ← get_bits 16;
  lift (rassert (len <=? u16_max)) ;;
  nlen ← get_bits 16;
  lift (rassert (nlen <=? u16_max)) ;;
  lift (reject_if (negb (nlen =? u16_max - len))) ;;
  repeat_n (Z.to_nat len) (byte ← get_bits 8; emit (u8 byte)).

Definition length_bits : list Z :=
  [0; 0; 0; 0; 0; 0; 0; 0; 1; 1; 1; 1; 2; 2; 2; 2; 3; 3; 3; 3; 4; 4; 4; 4; 5; 5; 5; 5; 0; 127].
Definition length_base : list Z :=
  [3; 4; 5; 6; 7; 8; 9; 10; 11; 13; 15; 17; 19; 23; 27; 31; 35; 43; 51; 59; 67; 83; 99;
   115; 131; 163; 195; 227; 258; 0].
Definition dist_bits : list Z :=
  [0; 0; 0; 0; 1; 1; 2; 2; 3; 3; 4; 4; 5; 5; 6; 6; 7; 7; 8; 8; 9; 9; 10; 10; 11; 11; 12;
   12; 13; 13].
Definition dist_base : list Z :=
  [1; 2; 3; 4; 5; 7; 9; 13; 17; 25; 33; 49; 65; 97; 129; 193; 257; 385; 513; 769; 1025;
   1537; 2049; 3073; 4097; 6145; 8193; 12289; 16385; 24577].

(** The input left bounds the iterations of every loop that reads a bit. *)
Definition bit_fuel (c : InflateContext) : nat := S (8 * length (input_buf c)).

Definition inflate_match (huff_dist : Huff) (symbol : Z) : prog InflateContext unit :=
  lbits ← lift (index length_bits symbol);
  lbase ← lift (index length_base symbol);
  length ← get_bits_base lbits lbase;
  distance ← decode huff_dist;
  dbits ← lift (index dist_bits distance);
  dbase ← lift (index dist_base distance);
  offset ← get_bits_base dbits dbase;
  repeat_n (Z.to_nat length) (copy offset).

Fixpoint inflate_loop (fuel : nat) (huff_len huff_dist : Huff) : prog InflateContext unit :=
  match fuel with
  | O => lift NoFuel
  | S fuel' =>
      symbol ← decode huff_len;
      if symbol <? 256 then emit (u8 symbol) ;; inflate_loop fuel' huff_len huff_dist
      else if symbol =? 256 then mret tt
      else inflate_match huff_dist (symbol - 257) ;; inflate_loop fuel' huff_len huff_dist
  end.
Definition inflate (huff_len huff_dist : Huff) : prog InflateContext unit :=
  fuel ← gets bit_fuel;
  inflate_loop fuel huff_len huff_dist.

(** ** Dynamic tables *)

Definition clens : list Z := [16; 17; 18; 0; 8; 7; 9; 6; 10; 5; 11; 4; 12; 3; 13; 2; 14; 1; 15].

(** [for i in i..i+n { lengths[clens[i]] = get_bits(3) }] *)
Fixpoint read_clens (n : nat) (i : Z) (lengths : list Z) : prog InflateContext (list Z) :=
  match n with
  | O => mret lengths
  | S n' =>
      slot ← lift (index clens i);
      v ← get_bits 3;
      lengths ← lift (store lengths slot (u8 v));
      read_clens n' (i + 1) lengths
  end.

(** [while length != 0] *)
Fixpoint fill_lengths (n : nat) (rep count : Z) (lengths : list Z) : outcome (list Z * Z) :=
  match n with
  | O => mret (lengths, count)
  | S n' =>
      lengths ← store lengths count rep;
      fill_lengths n' rep (u32 (count + 1)) lengths
  end.

Fixpoint read_lengths (fuel : nat) (codes : Huff) (total : Z) (lengths : list Z) (count : Z)
    : prog InflateContext (list Z) :=
  match fuel with
  | O => lift NoFuel
  | S fuel' =>
      if count <? total then
        symbol ← decode codes;
        if symbol <? 16 then
          lengths ← lift (store lengths count (u8 symbol));
          read_lengths fuel' codes total lengths (u32 (count + 1))
        else if symbol <? 19 then
          '(rep, length) ←
            (if symbol =? 16 then
               rep ← lift (index lengths (u64 (count - 1)));
               length ← get_bits_base 2 3;
               mret (rep, length)
             else if symbol =? 17 then
               length ← get_bits_base 3 3; mret (0, length)
             else
               length ← get_bits_base 7 11; mret (0, length));
          '(lengths, count) ← lift (fill_lengths (Z.to_nat length) (u8 rep) count lengths);
          read_lengths fuel' codes total lengths count
        else mret lengths
      else mret lengths
  end.

Definition decode_huffman : prog InflateContext unit :=
  literals ← get_bits_base 5 257;
  distances ← get_bits_base 5 1;
  clengths ← get_bits_base 4 4;
  lengths ← read_clens (Z.to_nat clengths) 0 (replicate 320 0);
  codes ← lift (build_huffman lengths 19 Huff_new);
  fuel ← gets bit_fuel;
  lengths ← read_lengths fuel codes (u32 (literals + distances)) lengths 0;
  huff_len ← lift (build_huffman lengths literals Huff_new);
  dist_lengths ← lift (slice_from lengths literals);
  huff_dist ← lift (build_huffman dist_lengths distances Huff_new);
  inflate huff_len huff_dist.

Fixpoint decompress_loop (fuel : nat) (lengths dists : Huff) : prog InflateContext unit :=
  match fuel with
  | O => lift NoFuel
  | S fuel' =>
      is_final ← get_bit;
      block_type ← get_bits 2;
      (if block_type =? 0 then uncompressed
       else if block_type =? 1 then inflate lengths dists
       else if block_type =? 2 then decode_huffman
       else err) ;;
      if is_final : bool then mret tt else decompress_loop fuel' lengths dists
  end.

Definition decompress : prog InflateContext (list Z) :=
  '(lengths, dists) ← lift (build_fixed Huff_new Huff_new);
  fuel ← gets bit_fuel;
  decompress_loop fuel lengths dists ;;
  gets output_buf.

(** ** zlib *)

Definition adler32_step (acc : Z * Z) (byte : Z) : Z * Z :=
  let a := u32 (acc.1 + byte) mod 65521 in
  (a, u32 (acc.2 + a) mod 65521).
(** [u32::from_be] on a little-endian machine. *)
Definition swap_bytes (x : Z) : Z := le_value (rev (le_bytes 4 x)).
Definition adler32 (bytes : list Z) : Z :=
  let '(a, b) := foldl adler32_step (1, 0) bytes in
  swap_bytes (Z.lor (u32 (Z.shiftl b 16)) a).

Definition uncompress_data (bytes : list Z) : outcome (list Z) :=
  rassert (2 <? len bytes) ;;
  cmf ← index bytes 0;
  reject_if (negb (Z.land cmf 0x0F =? 0x08)) ;;
  reject_if (0x07 <? Z.land (Z.shiftr cmf 4) 0x0F) ;;
  flags ← index bytes 1;
  reject_if (negb ((cmf * 256 + flags) mod 31 =? 0)) ;;
  let present_dictionary := negb (Z.land (Z.shiftr flags 5) 0x01 =? 0) in
  reject_if present_dictionary ;;
  body ← slice bytes 2 (u64 (len bytes - 4));
  data ← (decompress (InflateContext_new body)).1;
  checksum ← (le_value <$> slice_from bytes (u64 (len bytes - 4)));
  reject_if (negb (adler32 data =? checksum)) ;;
  mret data.

(** * The input as a list of bits *)

(** The [n] low bits, lowest first: the order of the bits of a byte, and of
    every DEFLATE field but the Huffman codes. *)
Fixpoint le_bits (n : nat) (v : Z) : list bool :=
  match n with O => [] | S n' => Z.odd v :: le_bits n' (v / 2) end.
(** The [n] low bits, highest first: the order of a Huffman code. *)
Fixpoint code_bits (n : nat) (v : Z) : list bool :=
  match n with O => [] | S n' => Z.testbit v (Z.of_nat n') :: code_bits n' v end.
Fixpoint bits_value (bs : list bool) : Z :=
  match bs with [] => 0 | b :: bs' => Z.b2z b + 2 * bits_value bs' end.

Definition bytes_bits (bytes : list Z) : list bool := concat (le_bits 8 <$> bytes).
Definition bits_of (c : InflateContext) : list bool :=
  drop (Z.to_nat (bit_index c)) (bytes_bits (input_buf c)).

Definition ctx_wf (c : InflateContext) : Prop := 0 ≤ bit_index c ≤ 8.

Lemma length_le_bits n v : length (le_bits n v) = n.
Proof. revert v. induction n; intros; cbn; auto. Qed.

Lemma le_bits_lookup n v i : (i < n)%nat → le_bits n v !! i = Some (Z.testbit v (Z.of_nat i)).
Proof.
  revert v i. induction n as [|n IH]; intros v i Hi; [lia|]. destruct i as [|i]; cbn [le_bits].
  - cbn. by rewrite Z.bit0_odd.
  - change ((Z.odd v :: le_bits n (v / 2)) !! S i) with (le_bits n (v / 2) !! i).
    rewrite IH by lia. f_equal. rewrite Z.div2_bits by lia. f_equal. lia.
Qed.

Lemma bits_value_le_bits n v : bits_value (le_bits n v) = v mod 2 ^ Z.of_nat n.
Proof.
  revert v. induction n as [|n IH]; intros v; [by rewrite Z.mod_1_r|].
  cbn [le_bits bits_value]. rewrite IH, Nat2Z.inj_succ, Z.pow_succ_r by lia.
  assert (0 < 2 ^ Z.of_nat n) by (apply Z.pow_pos_nonneg; lia).
  rewrite Z.rem_mul_r by lia. rewrite Zmod_odd. by destruct (Z.odd v).
Qed.

Lemma bits_value_range bs : 0 ≤ bits_value bs < 2 ^ len bs.
Proof.
  induction bs as [|b bs IH]; [done|]. cbn [bits_value].
  rewrite len_cons, Z.pow_add_r by (pose proof (len_nonneg bs); lia).
  destruct b; cbn [Z.b2z]; lia.
Qed.

Lemma length_code_bits n v : length (code_bits n v) = n.
Proof. induction n; cbn; auto. Qed.

(** ** The reader takes bits off the front *)

(** What an operation that only reads leaves alone. *)
Definition same_output (c c' : InflateContext) : Prop :=
  output_buf c' = output_buf c ∧ ring c' = ring c.

#[export] Instance same_output_preorder : PreOrder same_output.
Proof. split; [by split|]. intros x y z [? ?] [? ?]. split; congruence. Qed.

Lemma get_bit_current c : 0 ≤ bit_index c < 8 →
  (bits_of c = [] ∧ get_bit c = (Panic, c)) ∨
  (∃ b rest c', bits_of c = b :: rest ∧ get_bit c = (Ok b, c') ∧ bits_of c' = rest ∧
    ctx_wf c' ∧ same_output c c' ∧ input_buf c' = input_buf c).
Proof.
  intros Hi. unfold get_bit. prun. rewrite (proj2 (Z.eqb_neq _ _)) by lia.
  destruct c as [[|byte buf] i out r]; cbn [bit_index input_buf] in *.
  - left. unfold bits_of; cbn. by rewrite drop_nil.
  - right. exists (Z.testbit byte i), (bits_of (mk_ctx (byte :: buf) (i + 1) out r)), (mk_ctx (byte :: buf) (i + 1) out r).
    split; [|split; [|split; [done|split; [unfold ctx_wf; cbn; lia|done]]]].
    + unfold bits_of; cbn [bit_index input_buf].
      replace (Z.to_nat (i + 1)) with (S (Z.to_nat i)) by lia. apply drop_S.
      unfold bytes_bits; cbn [fmap list_fmap concat].
      rewrite lookup_app_l by (rewrite length_le_bits; lia).
      rewrite le_bits_lookup by lia. by rewrite Z2Nat.id by lia.
    + unfold index, set_input; cbn. f_equal. f_equal.
      rewrite Z.shiftl_1_l. destruct (Z.testbit byte i) eqn:Ht.
      * apply negb_true_iff, Z.eqb_neq. intros H.
        assert (Z.testbit (Z.land byte (2 ^ i)) i = true) as H1
          by (rewrite Z.land_spec, Ht, Z.pow2_bits_true by lia; done).
        by rewrite H, Z.testbit_0_l in H1.
      * apply negb_false_iff, Z.eqb_eq, Z.bits_inj'. intros j Hj. rewrite Z.land_spec, Z.testbit_0_l.
        destruct (decide (j = i)) as [->|]; [by rewrite Ht|].
        by rewrite Z.pow2_bits_false, andb_false_r by lia.
Qed.

Lemma get_bit_spec c : ctx_wf c →
  match bits_of c with
  | [] => ∃ c', get_bit c = (Panic, c')
  | b :: rest => ∃ c', get_bit c = (Ok b, c') ∧ bits_of c' = rest ∧ ctx_wf c' ∧ same_output c c'
  end.
Proof.
  intros Hw. destruct (decide (bit_index c = 8)) as [E|].
  2: { destruct (get_bit_current c) as [[-> ?]|(b & rest & c' & -> & R & ? & ? & ? & _)];
         [unfold ctx_wf in Hw; lia|eauto|]. exists c'. auto. }
  destruct c as [[|byte buf] i out r]; cbn in E; subst i.
  { by eexists. }
  set (c1 := mk_ctx buf 0 out r).
  assert (bits_of (mk_ctx (byte :: buf) 8 out r) = bits_of c1) as ->.
  { unfold bits_of, bytes_bits. cbn [bit_index input_buf fmap list_fmap concat c1].
    change (Z.to_nat 8) with (length (le_bits 8 byte)) at 1. by rewrite drop_app_length. }
  assert (∀ o c', buf ≠ [] → get_bit c1 = (o, c') →
    get_bit (mk_ctx (byte :: buf) 8 out r) = (o, c')) as Hstep.
  { intros o c' Hne <-. unfold get_bit. prun. by rewrite bool_decide_false by done. }
  destruct buf as [|byte' buf].
  { eexists. unfold get_bit. prun. reflexivity. }
  destruct (get_bit_current c1) as [[-> R]|(b & rest & c' & -> & R & ? & ? & ? & _)]; [done| |];
    (eexists; first [split; [by apply Hstep|done]|by apply Hstep]).
Qed.

Lemma get_bits_from_spec n bs rest bit byte c : ctx_wf c → bits_of c = bs ++ rest →
  length bs = n → 0 ≤ bit → bit + len bs ≤ 32 → fits bit byte →
  ∃ c', get_bits_from n bit byte c = (Ok (byte + 2^bit * bits_value bs), c') ∧
    bits_of c' = rest ∧ ctx_wf c' ∧ same_output c c'.
Proof.
  revert bs bit byte c. induction n as [|n IH]; intros bs bit byte c Hw E Hn Hbit Hm Hf;
    (destruct bs as [|b bs]; [|]); try done; cbn [get_bits_from].
  { exists c. rewrite Z.mul_0_r, Z.add_0_r. done. }
  pose proof (get_bit_spec c Hw) as R. rewrite E in R. destruct R as (c1 & R & E1 & W1 & S1).
  pstep R. rewrite len_cons in Hm. pose proof (len_nonneg bs).
  assert (0 < 2^bit) by (apply Z.pow_pos_nonneg; lia).
  assert (2^bit ≤ 2^31) by (apply Z.pow_le_mono_r; lia).
  assert (2^(bit+1) = 2 * 2^bit) as Hpow by (rewrite Z.pow_add_r by lia; lia).
  assert (Z.lor byte (u32 (Z.shiftl (Z.b2z b) (bit mod 32))) = byte + 2^bit * Z.b2z b) as ->.
  { rewrite Z.mod_small by lia. rewrite u32_small.
    - rewrite Z.lor_comm, shiftl_or_add by done. lia.
    - rewrite Z.shiftl_mul_pow2 by lia. destruct b; cbn [Z.b2z]; lia. }
  destruct (IH bs (bit + 1) (byte + 2^bit * Z.b2z b) c1) as (c2 & R2 & E2 & W2 & S2);
    [done|done|by injection Hn|lia|lia| |].
  { unfold fits in *. rewrite Hpow. destruct b; cbn [Z.b2z]; lia. }
  exists c2. rewrite R2. split; [|split; [done|split; [done|by etrans]]].
  do 2 f_equal. rewrite Hpow. cbn [bits_value]. lia.
Qed.

Lemma get_bits_spec bs rest c : ctx_wf c → bits_of c = bs ++ rest → len bs ≤ 32 →
  ∃ c', get_bits (len bs) c = (Ok (bits_value bs), c') ∧
    bits_of c' = rest ∧ ctx_wf c' ∧ same_output c c'.
Proof.
  intros Hw E Hl. unfold get_bits.
  destruct (get_bits_from_spec (Z.to_nat (len bs)) bs rest 0 0 c) as (c' & R & ?);
    try done; [unfold len; lia|].
  exists c'. rewrite R. split; [|done]. do 2 f_equal. lia.
Qed.

(** * Canonical Huffman codes (RFC 1951, 3.2.2) *)

(** [lens] gives the code length of every symbol, 0 for an unused one. *)
Definition count_of (lens : list Z) (l : Z) : Z := len (filter (λ x, x = l) lens).
Definition bl_count (lens : list Z) (l : nat) : Z :=
  match l with O => 0 | _ => count_of lens (Z.of_nat l) end.
Fixpoint first_code (lens : list Z) (l : nat) : Z :=
  match l with O => 0 | S l' => 2 * (first_code lens l' + bl_count lens l') end.
(** Symbols with a shorter code. *)
Fixpoint base_of (lens : list Z) (l : nat) : Z :=
  match l with O => 0 | S l' => base_of lens l' + bl_count lens l' end.
(** Earlier symbols with a code of the same length. *)
Definition rank (lens : list Z) (s : nat) (l : nat) : Z := count_of (take s lens) (Z.of_nat l).
Definition huff_code (lens : list Z) (s l : nat) : Z := first_code lens l + rank lens s l.

Definition code_lengths (lens : list Z) : Prop := Forall (λ x, 0 ≤ x ≤ 15) lens ∧ len lens ≤ 288.

(** What the tables built from [lens] hold. *)
Record table_ok (lens : list Z) (h : Huff) : Prop := {
  to_counts : ∀ l, (l < 16)%nat → counts h !! l = Some (bl_count lens l);
  to_symbols : ∀ s l, lens !! s = Some (Z.of_nat l) → l ≠ 0%nat →
    symbols h !! Z.to_nat (base_of lens l + rank lens s l) = Some (Z.of_nat s);
}.

Lemma count_of_nonneg lens l : 0 ≤ count_of lens l.
Proof. apply len_nonneg. Qed.
Lemma bl_count_nonneg lens l : 0 ≤ bl_count lens l.
Proof. destruct l; [done|]. apply count_of_nonneg. Qed.
Lemma first_code_nonneg lens l : 0 ≤ first_code lens l.
Proof. induction l; cbn; [done|]. pose proof (bl_count_nonneg lens l). lia. Qed.
Lemma base_of_nonneg lens l : 0 ≤ base_of lens l.
Proof. induction l; cbn; [done|]. pose proof (bl_count_nonneg lens l). lia. Qed.

Lemma count_of_app l k x : count_of (l ++ k) x = count_of l x + count_of k x.
Proof. unfold count_of. by rewrite filter_app, len_app. Qed.
Lemma count_of_singleton y x : count_of [y] x = if decide (y = x) then 1 else 0.
Proof. unfold count_of. cbn. by case_decide. Qed.

Lemma rank_bounds lens s l : lens !! s = Some (Z.of_nat l) → l ≠ 0%nat →
  0 ≤ rank lens s l < bl_count lens l.
Proof.
  intros Hs Hl. split; [apply count_of_nonneg|]. unfold rank, bl_count. destruct l as [|l]; [done|].
  rewrite <- (take_drop_middle lens s _ Hs) at 2. change (?x :: ?k) with ([x] ++ k).
  rewrite !count_of_app, count_of_singleton, decide_True by done.
  pose proof (count_of_nonneg (drop (S s) lens) (Z.of_nat (S l))). lia.
Qed.

Lemma rank_S lens s l x : lens !! s = Some x →
  count_of (take (S s) lens) l = count_of (take s lens) l + if decide (x = l) then 1 else 0.
Proof. intros Hs. by rewrite (take_S_r _ _ _ Hs), count_of_app, count_of_singleton. Qed.

Lemma rank_mono lens s s' l : lens !! s = Some (Z.of_nat l) → (s < s')%nat →
  rank lens s l < rank lens s' l.
Proof.
  intros Hs Hlt. unfold rank.
  replace s' with (S s + (s' - S s))%nat by lia.
  rewrite <- take_take_drop, count_of_app, (rank_S _ _ _ _ Hs), decide_True by done.
  pose proof (count_of_nonneg (take (s' - S s) (drop (S s) lens)) (Z.of_nat l)). lia.
Qed.

Lemma base_of_cons x lens l :
  base_of (x :: lens) l = base_of lens l + if decide (1 ≤ x < Z.of_nat l) then 1 else 0.
Proof.
  induction l as [|l IH]; cbn [base_of].
  { by rewrite decide_False by lia. }
  rewrite IH. destruct l as [|l]; cbn [bl_count].
  { rewrite !decide_False by lia. lia. }
  change (x :: lens) with ([x] ++ lens). rewrite count_of_app, count_of_singleton.
  repeat case_decide; lia.
Qed.

Lemma base_of_total lens l : base_of lens l ≤ len lens.
Proof.
  induction lens as [|x lens IH].
  - induction l as [|l IH]; [done|]. cbn [base_of].
    assert (bl_count [] l = 0) as -> by (by destruct l). lia.
  - rewrite base_of_cons, len_cons. case_decide; lia.
Qed.

Lemma base_of_mono lens l l' : (l < l')%nat → base_of lens l + bl_count lens l ≤ base_of lens l'.
Proof.
  induction 1 as [|l' H IH]; [done|]. cbn [base_of]. pose proof (bl_count_nonneg lens l'). lia.
Qed.

Lemma first_code_mono lens l n :
  (first_code lens l + bl_count lens l) * 2 ^ (Z.of_nat n + 1) ≤ first_code lens (l + S n).
Proof.
  induction n as [|n IH].
  - rewrite Nat.add_1_r. cbn [first_code]. lia.
  - rewrite Nat.add_succ_r. cbn [first_code]. pose proof (bl_count_nonneg lens (l + S n)).
    replace (Z.of_nat (S n) + 1) with (1 + (Z.of_nat n + 1)) by lia.
    rewrite (Z.pow_add_r 2 1) by lia. lia.
Qed.

(** ** Decoding *)

Lemma code_bits_cons n v : 0 ≤ v →
  code_bits (S n) v = Z.testbit v (Z.of_nat n) :: code_bits n v ∧
  v / 2 ^ Z.of_nat n = 2 * (v / 2 ^ Z.of_nat (S n)) + Z.b2z (Z.testbit v (Z.of_nat n)).
Proof.
  intros Hv. split; [done|].
  rewrite Z.testbit_spec' by lia. assert (0 < 2 ^ Z.of_nat n) by (apply Z.pow_pos_nonneg; lia).
  assert (v / 2 ^ Z.of_nat (S n) = v / 2 ^ Z.of_nat n / 2) as ->.
  { rewrite Z.div_div, Nat2Z.inj_succ, Z.pow_succ_r by lia. f_equal. lia. }
  pose proof (Z_div_mod_eq_full (v / 2 ^ Z.of_nat n) 2). lia.
Qed.

Lemma decode_loop_spec lens h s l n fuel rest c :
  table_ok lens h → code_lengths lens → lens !! s = Some (Z.of_nat l) → (1 ≤ l ≤ 15)%nat →
  let code := huff_code lens s l in
  (n < l)%nat → (S n ≤ fuel)%nat → ctx_wf c → bits_of c = code_bits (S n) code ++ rest →
  let i := (l - S n)%nat in
  ∃ c', decode_loop fuel h (base_of lens (S i))
      (code / 2 ^ Z.of_nat (S n) - (first_code lens i + bl_count lens i)) (Z.of_nat (S i)) c
    = (Ok (Z.of_nat s), c') ∧ bits_of c' = rest ∧ ctx_wf c' ∧ same_output c c'.
Proof.
  intros Ht [Hl Hlen] Hs Hll code. revert fuel c.
  pose proof (rank_bounds lens s l Hs ltac:(lia)) as Hr.
  pose proof (first_code_nonneg lens l) as Hf.
  assert (0 ≤ code) as Hcode by (unfold code, huff_code; lia).
  induction n as [|n IH]; intros fuel c Hn Hfuel Hw E i; (destruct fuel as [|fuel]; [lia|]);
    cbn [decode_loop].
  all: match type of E with bits_of _ = code_bits (S ?m) _ ++ _ =>
    destruct (code_bits_cons m code Hcode) as [Ec Ed] end.
  all: pose proof (get_bit_spec c Hw) as R; rewrite E, Ec in R; cbn [app] in R;
    destruct R as (c1 & R & E1 & W1 & S1); pstep R.
  all: set (bit := Z.testbit code _) in *; assert (i < l)%nat by (unfold i; lia).
  all: rewrite (proj2 (Z.leb_le (Z.of_nat (S i)) 15)), (bind_Ok _ _ _ tt c1) by (done || lia).
  all: rewrite (bind_Ok _ _ _ (bl_count lens (S i)) c1) by
    (unfold lift; f_equal; apply index_Ok; split; [lia|]; rewrite Nat2Z.id; apply (to_counts _ _ Ht); lia).
  - assert (S i = l) as Ei by (unfold i; lia).
    replace (2 * _ + Z.b2z bit) with (rank lens s l).
    2: { change (Z.of_nat 0) with 0 in *. rewrite Z.pow_0_r, Z.div_1_r in Ed.
         assert (code = 2 * (first_code lens i + bl_count lens i) + rank lens s l) as Ec'
           by (unfold code, huff_code; rewrite <- Ei at 1; reflexivity). lia. }
    rewrite Ei, (proj2 (Z.ltb_lt _ _)) by lia.
    pose proof (base_of_nonneg lens l). pose proof (base_of_mono lens l (S l) ltac:(lia)).
    pose proof (base_of_total lens (S l)).
    rewrite (bind_Ok _ _ _ tt c1) by (unfold lift; by replace (_ && _) with true by lia).
    exists c1. split; [|done]. unfold lift. f_equal. apply index_Ok. split; [lia|].
    by apply (to_symbols _ _ Ht); [|lia].
  - pose proof (first_code_mono lens (S i) n) as Hmono. replace (S i + S n)%nat with l in Hmono by (unfold i; lia).
    assert (first_code lens (S i) + bl_count lens (S i) ≤ code / 2 ^ Z.of_nat (S n)) as Hge.
    { apply Z.div_le_lower_bound; [apply Z.pow_pos_nonneg; lia|].
      replace (Z.of_nat (S n)) with (Z.of_nat n + 1) by lia. unfold code, huff_code. lia. }
    replace (2 * _ + Z.b2z bit) with (code / 2 ^ Z.of_nat (S n) - first_code lens (S i))
      by (cbn [first_code]; lia).
    rewrite (proj2 (Z.ltb_ge _ _)) by lia.
    destruct (IH fuel c1) as (c2 & R2 & E2 & W2 & S2); [lia|lia|done|done|].
    exists c2. split; [|split; [done|split; [done|by etrans]]]. rewrite <- R2.
    replace (l - S n)%nat with (S i) by (unfold i; lia). cbn [base_of]. f_equal; lia.
Qed.

Definition encode_symbol (lens : list Z) (s l : nat) : list bool := code_bits l (huff_code lens s l).

Lemma decode_spec lens h s l rest c :
  table_ok lens h → code_lengths lens → lens !! s = Some (Z.of_nat l) → (1 ≤ l ≤ 15)%nat →
  huff_code lens s l < 2 ^ Z.of_nat l →
  ctx_wf c → bits_of c = encode_symbol lens s l ++ rest →
  ∃ c', decode h c = (Ok (Z.of_nat s), c') ∧ bits_of c' = rest ∧ ctx_wf c' ∧ same_output c c'.
Proof.
  intros Ht Hc Hs Hl Hk Hw E. unfold decode, encode_symbol in *. destruct l as [|l]; [lia|].
  destruct (decode_loop_spec lens h s (S l) l 16 rest c) as (c' & R & ?); try done; try lia.
  rewrite Nat.sub_diag, Z.div_small in R; [by exists c'|].
  split; [|done]. pose proof (rank_bounds lens s (S l) Hs ltac:(lia)).
  unfold huff_code. pose proof (first_code_nonneg lens (S l)). lia.
Qed.

(** ** Building the tables *)

Lemma store_lookup {A} (l : list A) i x : 0 ≤ i < len l →
  ∃ l', store l i x = Ok l' ∧ length l' = length l ∧ l' !! Z.to_nat i = Some x ∧
    ∀ j, j ≠ Z.to_nat i → l' !! j = l !! j.
Proof.
  intros Hi. exists (<[Z.to_nat i := x]> l). rewrite store_Ok, length_insert by done.
  split; [done|]. split; [done|]. unfold len in Hi. split; [apply list_lookup_insert_eq; lia|].
  intros j Hj. by apply list_lookup_insert_ne.
Qed.

Lemma seqZ_split n dn x rest : seqZ 0 n = dn ++ x :: rest → x = len dn ∧ 0 ≤ x < n.
Proof.
  intros E. assert (seqZ 0 n !! length dn = Some x) as Hx
    by (rewrite E, lookup_app_r, Nat.sub_diag by lia; done).
  apply lookup_seqZ in Hx as [-> Hx]. unfold len. lia.
Qed.

Lemma zero_counts_spec c : length c = 16%nat →
  ∃ c', foldM (λ c i, store c i 0) c (seqZ 0 16) = Ok c' ∧ length c' = 16%nat ∧
    ∀ l, (l < 16)%nat → c' !! l = Some 0.
Proof.
  intros Hc. destruct (foldM_inv (λ dn c, length c = 16%nat ∧ ∀ l, (l < length dn)%nat → c !! l = Some 0)
    (λ c i, store c i 0) (seqZ 0 16) c) as (c' & E & ? & H); [split; [done|intros; cbn in *; lia]| |].
  - intros dn x rest b E%seqZ_split [Hb H]. destruct E as [-> Hx].
    destruct (store_lookup b (len dn) 0) as (b' & Es & El & Eq & Ne); [unfold len in *; lia|].
    exists b'. split; [done|]. split; [lia|]. intros l Hl. rewrite length_app in Hl. cbn in Hl.
    unfold len in Eq, Ne. destruct (decide (l = length dn)) as [->|]; [by rewrite Nat2Z.id in Eq|].
    rewrite Ne by lia. apply H. lia.
  - exists c'. split; [done|]. split; [done|]. intros l Hl. by apply H.
Qed.

Lemma count_lengths_spec lens c : Forall (λ x, 0 ≤ x ≤ 15) lens → length c = 16%nat →
  (∀ l, (l < 16)%nat → c !! l = Some 0) →
  ∃ c', foldM count_length c lens = Ok c' ∧ length c' = 16%nat ∧
    ∀ l, (l < 16)%nat → c' !! l = Some (count_of lens (Z.of_nat l)).
Proof.
  intros Hl Hc H0. rewrite Forall_forall in Hl.
  apply (foldM_inv (λ dn c, length c = 16%nat ∧
    ∀ l, (l < 16)%nat → c !! l = Some (count_of dn (Z.of_nat l)))); [by split|].
  intros dn x rest b E [Hb H].
  assert (0 ≤ x ≤ 15) as Hx by (apply Hl; rewrite E; apply elem_of_app; right; left).
  unfold count_length. rewrite (proj2 (Z.leb_le _ _)) by lia. cbn [rassert mbind outcome_bind].
  assert (index b x = Ok (count_of dn x)) as ->.
  { apply index_Ok. split; [lia|]. rewrite H, Z2Nat.id by lia. done. }
  cbn [mbind outcome_bind].
  destruct (store_lookup b x (count_of dn x + 1)) as (b' & Es & El & Eq & Ne); [unfold len; lia|].
  exists b'. split; [done|]. split; [lia|]. intros l Hll. rewrite count_of_app, count_of_singleton.
  case_decide as C; [subst x; by rewrite Nat2Z.id in Eq|].
  rewrite Ne, H, Z.add_0_r by lia. done.
Qed.

Lemma offsets_spec lens counts : code_lengths lens → 
  (∀ l, (l < 16)%nat → counts !! l = Some (bl_count lens l)) →
  ∃ offs acc, foldM (next_offset counts) (replicate 16 0, 0) (seqZ 0 16) = Ok (offs, acc) ∧
    length offs = 16%nat ∧ ∀ l, (l < 16)%nat → offs !! l = Some (base_of lens l).
Proof.
  intros [_ Hlen] Hc.
  destruct (foldM_inv (λ dn acc, length acc.1 = 16%nat ∧ acc.2 = base_of lens (length dn) ∧
    ∀ l, (l < length dn)%nat → acc.1 !! l = Some (base_of lens l)) (next_offset counts) (seqZ 0 16)
    (replicate 16 0, 0)) as ([offs acc] & E & ? & _ & H); [split; [done|split; [done|intros; cbn in *; lia]]| |].
  - intros dn x rest [offs acc] E%seqZ_split (Hb & Ha & H). cbn [fst snd] in *. destruct E as [-> Hx].
    unfold next_offset; cbn [fst snd].
    destruct (store_lookup offs (len dn) acc) as (b' & Es & El & Eq & Ne); [unfold len in *; lia|].
    rewrite Es. cbn [mbind outcome_bind].
    assert (index counts (len dn) = Ok (bl_count lens (length dn))) as ->.
    { apply index_Ok. split; [lia|]. unfold len in *. rewrite Nat2Z.id. apply Hc. lia. }
    eexists. split; [done|]. cbn [fst snd]. split; [lia|]. rewrite length_app, Nat.add_1_r. split.
    + rewrite Ha. cbn [base_of]. apply u32_small.
      pose proof (base_of_nonneg lens (length dn)). pose proof (bl_count_nonneg lens (length dn)).
      pose proof (base_of_mono lens (length dn) (S (length dn)) ltac:(lia)).
      pose proof (base_of_total lens (S (length dn))). lia.
    + intros l Hl. unfold len in Eq, Ne. rewrite Nat2Z.id in *.
      destruct (decide (l = length dn)) as [->|]; [congruence|]. rewrite Ne by lia. apply H. lia.
  - exists offs, acc. split; [done|]. split; [done|]. intros l Hl. by apply H.
Qed.

(** Different symbols get different slots. *)
Lemma slots_distinct lens s s' l l' :
  lens !! s = Some (Z.of_nat l) → lens !! s' = Some (Z.of_nat l') → l ≠ 0%nat → l' ≠ 0%nat →
  s ≠ s' → base_of lens l + rank lens s l ≠ base_of lens l' + rank lens s' l'.
Proof.
  intros Hs Hs' Hl Hl' Hne.
  pose proof (rank_bounds lens s l Hs Hl). pose proof (rank_bounds lens s' l' Hs' Hl').
  destruct (Nat.lt_trichotomy l l') as [H1|[->|H1]].
  - pose proof (base_of_mono lens l l' H1). lia.
  - destruct (decide (s < s')%nat).
    + pose proof (rank_mono lens s s' l' Hs ltac:(lia)). lia.
    + pose proof (rank_mono lens s' s l' Hs' ltac:(lia)). lia.
  - pose proof (base_of_mono lens l' l H1). lia.
Qed.

(** After the first [n] symbols: the next slot of each length, and the symbols so far. *)
Record placed (lens : list Z) (n : nat) (acc : list Z * list Z) : Prop := {
  pl_lengths : length acc.1 = 16%nat ∧ length acc.2 = 288%nat;
  pl_offs : ∀ l, (0 < l < 16)%nat → acc.1 !! l = Some (base_of lens l + rank lens n l);
  pl_syms : ∀ s l, (s < n)%nat → lens !! s = Some (Z.of_nat l) → l ≠ 0%nat →
    acc.2 !! Z.to_nat (base_of lens l + rank lens s l) = Some (Z.of_nat s);
}.

(** One symbol more. *)
Lemma place_symbol_step lens extra n acc y : placed lens n acc → lens !! n = Some y → 0 ≤ y < 16 → (length lens ≤ 288)%nat →
  ∃ acc', place_symbol (lens ++ extra) acc (Z.of_nat n) = Ok acc' ∧ placed lens (S n) acc'.
Proof.
  destruct acc as [o sy]. intros [[Ho1 Hs1] Hoff Hsym] Hy Hyr Hlen. cbn [fst snd] in *. set (ly := Z.to_nat y).
  assert (y = Z.of_nat ly) as Ey by lia. unfold place_symbol; cbn [fst snd].
  assert (index (lens ++ extra) (Z.of_nat n) = Ok y) as ->.
  { apply index_Ok. split; [lia|]. rewrite Nat2Z.id. by apply lookup_app_l_Some. }
  cbn [mbind outcome_bind].
  assert (∀ l, rank lens (S n) l = rank lens n l + if decide (y = Z.of_nat l) then 1 else 0)
    as HS by (intros; by apply rank_S).
  destruct (y =? 0) eqn:C; cbn [negb].
  - eexists. split; [done|]. split; cbn [fst snd]; [done| |].
    + intros l Hll. rewrite HS, decide_False, Z.add_0_r by lia. by apply Hoff.
    + intros s l Hs Hsl Hnz. apply Hsym; [|done|done].
      destruct (decide (s = n)) as [->|]; [|lia]. rewrite Hy in Hsl. injection Hsl. lia.
  - rewrite Ey in Hy. pose proof (rank_bounds lens n ly Hy ltac:(lia)) as Hr. pose proof (lookup_lt_Some _ _ _ Hy).
    set (slot := base_of lens ly + rank lens n ly).
    assert (index o y = Ok slot) as ->.
    { apply index_Ok. split; [lia|]. fold ly. apply Hoff. lia. }
    cbn [mbind outcome_bind]. pose proof (base_of_nonneg lens ly).
    pose proof (base_of_mono lens ly (S ly) ltac:(lia)). pose proof (base_of_total lens (S ly)).
    destruct (store_lookup sy slot (Z.of_nat n)) as (sy' & -> & El & Eq & Ne); [unfold len, slot in *; lia|].
    cbn [mbind outcome_bind].
    destruct (store_lookup o y (slot + 1)) as (o' & -> & El2 & Eq2 & Ne2); [unfold len; lia|].
    eexists. split; [done|]. fold ly in Eq2, Ne2. split; cbn [fst snd]; [split; congruence| |].
    + intros l Hll. rewrite HS. case_decide as C2.
      * assert (l = ly) as -> by lia. rewrite Eq2. unfold slot. f_equal. lia.
      * rewrite Ne2, Z.add_0_r by lia. by apply Hoff.
    + intros s l Hs Hsl Hnz. destruct (decide (s = n)) as [->|].
      * assert (l = ly) as -> by (rewrite Hy in Hsl; injection Hsl; lia). exact Eq.
      * rewrite Ne; [apply Hsym; [lia|done|done]|].
        pose proof (slots_distinct lens s n l ly Hsl Hy Hnz ltac:(lia) ltac:(done)).
        pose proof (rank_bounds lens s l Hsl Hnz). pose proof (base_of_nonneg lens l).
        unfold slot. lia.
Qed.

Lemma place_symbols_spec lens extra offs syms : code_lengths lens → length offs = 16%nat →
  (∀ l, (l < 16)%nat → offs !! l = Some (base_of lens l)) → length syms = 288%nat →
  ∃ offs' syms', foldM (place_symbol (lens ++ extra)) (offs, syms) (seqZ 0 (len lens)) = Ok (offs', syms') ∧
    ∀ s l, lens !! s = Some (Z.of_nat l) → l ≠ 0%nat →
      syms' !! Z.to_nat (base_of lens l + rank lens s l) = Some (Z.of_nat s).
Proof.
  intros [Hl Hlen] Ho H0 Hsy. rewrite Forall_forall in Hl.
  destruct (foldM_inv (λ dn, placed lens (length dn)) (place_symbol (lens ++ extra)) (seqZ 0 (len lens)) (offs, syms))
    as ([offs' syms'] & E & H).
  - split; cbn [fst snd length]; [done| |intros; lia]. intros l Hll. rewrite H0 by lia. by rewrite Z.add_0_r.
  - intros dn x rest acc [-> Hx]%seqZ_split Hpl. destruct (lookup_lt_is_Some_2 lens (length dn)) as [y Hy]; [unfold len in Hx; lia|].
    rewrite length_app, Nat.add_1_r. pose proof (Hl y (list_elem_of_lookup_2 _ _ _ Hy)).
    apply (place_symbol_step lens extra (length dn) acc y); [done|done|lia|unfold len in Hlen; lia].
  - exists offs', syms'. split; [done|]. intros s l Hs. apply (pl_syms _ _ _ H); [|done].
    apply lookup_lt_Some in Hs. rewrite length_seqZ. unfold len. lia.
Qed.

(** Whatever the output table held before. *)
Definition huff_shape (h : Huff) : Prop := length (counts h) = 16%nat ∧ length (symbols h) = 288%nat.

Lemma build_huffman_spec lens extra out : code_lengths lens → huff_shape out →
  ∃ h, build_huffman (lens ++ extra) (len lens) out = Ok h ∧ table_ok lens h.
Proof.
  intros Hl [Hc Hs]. pose proof Hl as [Hr Hlen]. unfold build_huffman.
  rewrite (proj2 (Z.leb_le _ _)) by done. cbn [rassert mbind outcome_bind].
  destruct (zero_counts_spec _ Hc) as (c1 & -> & Hc1 & H1). cbn [mbind outcome_bind].
  replace (take (Z.to_nat (len lens)) (lens ++ extra)) with lens
    by (unfold len; by rewrite Nat2Z.id, take_app_length).
  destruct (count_lengths_spec lens c1 Hr Hc1 H1) as (c2 & -> & Hc2 & H2). cbn [mbind outcome_bind].
  destruct (store_lookup c2 0 0) as (c3 & -> & Hc3 & Eq & Ne); [unfold len; lia|].
  cbn [mbind outcome_bind].
  assert (∀ l, (l < 16)%nat → c3 !! l = Some (bl_count lens l)) as H3.
  { intros [|l] ?; [done|]. by rewrite Ne, H2 by done. }
  destruct (offsets_spec lens c3 Hl H3) as (offs & acc & -> & Ho & H4). cbn [mbind outcome_bind].
  destruct (place_symbols_spec lens extra offs (symbols out) Hl Ho H4 Hs) as (o' & s' & -> & H5).
  eexists. split; [done|]. by constructor.
Qed.

(** * The ring holds the last 32 KiB of the output *)

Record ring_holds (out : list Z) (r : HuffRing) : Prop := {
  rh_pointer : 0 ≤ pointer r ≤ RING_SIZE;
  rh_mod : pointer r mod RING_SIZE = len out mod RING_SIZE;
  rh_data : ∀ k, 0 ≤ k < len out → len out - RING_SIZE ≤ k →
    data r (k mod RING_SIZE) = nth (Z.to_nat k) out 0;
}.

(** The decoder's state, as the bits left and the output so far. *)
Record ctx_at (bits : list bool) (out : list Z) (c : InflateContext) : Prop := {
  ca_wf : ctx_wf c;
  ca_bits : bits_of c = bits;
  ca_out : output_buf c = out;
  ca_ring : ring_holds out (ring c);
}.

Lemma ctx_at_read bits out bits' c c' : ctx_at bits out c →
  ctx_wf c' → bits_of c' = bits' → same_output c c' → ctx_at bits' out c'.
Proof. intros [? ? ? ?] ? ? [Eo Er]. constructor; try done; [congruence|by rewrite Er]. Qed.

Lemma ctx_at_new bytes : ctx_at (bytes_bits bytes) [] (InflateContext_new bytes).
Proof.
  constructor; [by unfold ctx_wf|by unfold bits_of; cbn|done|]. constructor; [done|done|].
  cbn. unfold len; cbn. lia.
Qed.

Lemma emit_spec bits out c byte : ctx_at bits out c →
  ∃ c', emit byte c = (Ok tt, c') ∧ ctx_at bits (out ++ [byte]) c'.
Proof.
  intros [Hw Hb Ho [Hp Hm Hd]]. unfold emit. prun.
  set (p := if _ =? _ then 0 else _).
  assert (0 ≤ p < RING_SIZE ∧ p = len out mod RING_SIZE) as [Hp' Ep].
  { unfold p. rewrite <- Hm. unfold RING_SIZE in *. case_match eqn:C.
    - apply Z.eqb_eq in C. rewrite C. done.
    - rewrite Z.mod_small; lia. }
  replace (_ && _) with true by lia. cbn [rassert].
  eexists. split; [done|]. constructor; [done|done|cbn; by rewrite Ho|]. cbn.
  pose proof (len_nonneg out). assert (len [byte] = 1) as E1 by done. unfold RING_SIZE in *.
  constructor; cbn [pointer data]; rewrite ?len_app, ?E1; unfold RING_SIZE.
  - lia.
  - rewrite Ep. by rewrite Zplus_mod_idemp_l.
  - intros k Hk Hk2. destruct (decide (k = len out)) as [->|].
    + rewrite decide_True by done. unfold len. rewrite Nat2Z.id.
      by rewrite app_nth2, Nat.sub_diag by lia.
    + rewrite decide_False.
      * rewrite Hd by lia. symmetry. apply app_nth1. unfold len in *. lia.
      * rewrite Ep. intros E.
        pose proof (Z_div_mod_eq_full k (32 * 1024)). pose proof (Z_div_mod_eq_full (len out) (32 * 1024)).
        lia.
Qed.

Lemma peek_spec bits out c d : ctx_at bits out c → 1 ≤ d ≤ len out → d ≤ RING_SIZE →
  peek d c = (Ok (nth (Z.to_nat (len out - d)) out 0), c).
Proof.
  intros [_ _ _ [Hp Hm Hd]] H1 H2. unfold peek. prun. do 2 f_equal.
  rewrite <- Hd by (pose proof (len_nonneg out); lia). f_equal.
  unfold u64. rewrite Z.mod_mod_divide by (by exists (2^49)).
  by rewrite Zminus_mod, Hm, <- Zminus_mod.
Qed.

(** [n] bytes copied from [d] bytes back, one at a time. *)
Fixpoint expand_match (n : nat) (d : Z) (out : list Z) : list Z :=
  match n with
  | O => out
  | S n' => expand_match n' d (out ++ [nth (Z.to_nat (len out - d)) out 0])
  end.

Lemma copy_spec n bits out c d : ctx_at bits out c → 1 ≤ d ≤ len out → d ≤ RING_SIZE →
  ∃ c', repeat_n n (copy d) c = (Ok tt, c') ∧ ctx_at bits (expand_match n d out) c'.
Proof.
  revert out c. induction n as [|n IH]; intros out c Hc H1 H2; [by exists c|].
  destruct (emit_spec bits out c (nth (Z.to_nat (len out - d)) out 0) Hc) as (c1 & R & Hc1).
  destruct (IH _ c1 Hc1) as (c2 & R2 & Hc2); [rewrite len_app, len_cons, len_nil; lia|done|].
  exists c2. split; [|done]. rewrite repeat_n_S.
  rewrite (bind_Ok _ _ _ tt c1); [done|]. unfold copy.
  by rewrite (bind_Ok _ _ _ _ _ (peek_spec _ _ _ _ Hc H1 H2)).
Qed.

(** ** The reader, on a context *)

Lemma read_bit bits out b c : ctx_at (b :: bits) out c →
  ∃ c', get_bit c = (Ok b, c') ∧ ctx_at bits out c'.
Proof.
  intros H. pose proof (get_bit_spec c (ca_wf _ _ _ H)) as R. rewrite (ca_bits _ _ _ H) in R.
  destruct R as (c' & R & ? & ? & ?). exists c'. split; [done|]. by eapply ctx_at_read.
Qed.

Lemma read_bits n v bits out c : ctx_at (le_bits n v ++ bits) out c →
  (n ≤ 32)%nat → 0 ≤ v < 2 ^ Z.of_nat n →
  ∃ c', get_bits (Z.of_nat n) c = (Ok v, c') ∧ ctx_at bits out c'.
Proof.
  intros H Hn Hv. assert (len (le_bits n v) = Z.of_nat n) as El
    by (unfold len; by rewrite length_le_bits).
  destruct (get_bits_spec (le_bits n v) bits c) as (c' & R & ? & ? & ?);
    [apply H|apply H|lia|].
  exists c'. split; [|by eapply ctx_at_read].
  rewrite El, bits_value_le_bits, Z.mod_small in R by done. done.
Qed.

Lemma read_bits_base num base v bits out c : ctx_at (le_bits (Z.to_nat num) v ++ bits) out c →
  0 ≤ num ≤ 16 → 0 ≤ v < 2 ^ num → 0 ≤ base < 2^16 →
  ∃ c', get_bits_base num base c = (Ok (base + v), c') ∧ ctx_at bits out c'.
Proof.
  intros H Hn Hv Hb. unfold get_bits_base.
  assert (2^num ≤ 2^16) by (apply Z.pow_le_mono_r; lia).
  destruct (decide (num = 0)) as [->|Hne].
  - change (2^0) with 1 in Hv. exists c. cbn. prun. rewrite u32_small by lia.
    split; [|done]. do 2 f_equal. lia.
  - rewrite (proj2 (Z.eqb_neq _ _)) by done. cbn [negb].
    destruct (read_bits (Z.to_nat num) v bits out c H) as (c' & R & H'); [lia|by rewrite Z2Nat.id by lia|].
    rewrite Z2Nat.id in R by lia. exists c'. pstep R. rewrite u32_small by lia. done.
Qed.

(** ** A reference encoder for symbols *)

(** Code lengths that are not over-subscribed (the Kraft inequality, length by
    length): every code fits its length. *)
Definition valid_code (lens : list Z) : Prop :=
  code_lengths lens ∧
  Forall (λ l, first_code lens l + bl_count lens l ≤ 2 ^ Z.of_nat l) (seq 0 16).

#[export] Instance valid_code_dec lens : Decision (valid_code lens).
Proof. unfold valid_code, code_lengths. apply _. Defined.

Definition sym_len (lens : list Z) (s : nat) : nat := Z.to_nat (nth s lens 0).
Definition has_code (lens : list Z) (s : nat) : Prop := 0 < nth s lens 0.
Definition encode (lens : list Z) (s : nat) : list bool := encode_symbol lens s (sym_len lens s).

Lemma has_code_spec lens s : valid_code lens → has_code lens s →
  lens !! s = Some (Z.of_nat (sym_len lens s)) ∧ (1 ≤ sym_len lens s ≤ 15)%nat ∧
  huff_code lens s (sym_len lens s) < 2 ^ Z.of_nat (sym_len lens s).
Proof.
  intros [[Hr Hlen] Hk] Hs. unfold has_code, sym_len in *.
  destruct (lens !! s) as [x|] eqn:E.
  2: { apply lookup_ge_None in E. rewrite nth_overflow in Hs by done. lia. }
  rewrite (nth_lookup_Some _ _ _ _ E) in *. rewrite Forall_forall in Hr. rewrite Forall_forall in Hk.
  pose proof (Hr x (list_elem_of_lookup_2 _ _ _ E)).
  assert (lens !! s = Some (Z.of_nat (Z.to_nat x))) as E' by (rewrite E; f_equal; lia).
  split; [by rewrite <- E'|]. split; [lia|].
  pose proof (rank_bounds lens s (Z.to_nat x) E' ltac:(lia)).
  pose proof (Hk (Z.to_nat x) ltac:(apply elem_of_seq; lia)) as Hkx. unfold huff_code. lia.
Qed.

Lemma read_symbol lens h s bits out c :
  table_ok lens h → valid_code lens → has_code lens s →
  ctx_at (encode lens s ++ bits) out c →
  ∃ c', decode h c = (Ok (Z.of_nat s), c') ∧ ctx_at bits out c'.
Proof.
  intros Ht Hl Hs H. destruct (has_code_spec lens s Hl Hs) as (Hx & Hr & Hk).
  destruct (decode_spec lens h s _ bits c Ht (proj1 Hl) Hx Hr Hk (ca_wf _ _ _ H) (ca_bits _ _ _ H))
    as (c' & R & ? & ? & ?).
  exists c'. split; [done|]. by eapply ctx_at_read.
Qed.

Lemma length_encode lens s : valid_code lens → has_code lens s → (1 ≤ length (encode lens s))%nat.
Proof.
  intros Hl Hs. unfold encode, encode_symbol. rewrite length_code_bits.
  by apply (has_code_spec lens s Hl Hs).
Qed.

(** ** LZ77 tokens *)

(** A literal, or a length code with its extra bits and a distance code with its. *)
Inductive token := Lit (b : Z) | Match (i : nat) (e : Z) (j : nat) (f : Z).

Definition match_length (i : nat) (e : Z) : Z := nth i length_base 0 + e.
Definition match_distance (j : nat) (f : Z) : Z := nth j dist_base 0 + f.

Definition expand_token (t : token) (out : list Z) : list Z :=
  match t with
  | Lit b => out ++ [b]
  | Match i e j f => expand_match (Z.to_nat (match_length i e)) (match_distance j f) out
  end.
Fixpoint expand_tokens (ts : list token) (out : list Z) : list Z :=
  match ts with [] => out | t :: ts' => expand_tokens ts' (expand_token t out) end.

Definition encode_token (lens dlens : list Z) (t : token) : list bool :=
  match t with
  | Lit b => encode lens (Z.to_nat b)
  | Match i e j f =>
      encode lens (257 + i) ++ le_bits (Z.to_nat (nth i length_bits 0)) e ++
      encode dlens j ++ le_bits (Z.to_nat (nth j dist_bits 0)) f
  end.
(** The tokens and the end-of-block symbol. *)
Definition encode_tokens (lens dlens : list Z) (ts : list token) : list bool :=
  concat (encode_token lens dlens <$> ts) ++ encode lens 256.

Definition token_ok (lens dlens : list Z) (out : list Z) (t : token) : Prop :=
  match t with
  | Lit b => 0 ≤ b < 256 ∧ has_code lens (Z.to_nat b)
  | Match i e j f =>
      (i < 29)%nat ∧ 0 ≤ e < 2 ^ nth i length_bits 0 ∧ has_code lens (257 + i) ∧
      (j < 30)%nat ∧ 0 ≤ f < 2 ^ nth j dist_bits 0 ∧ has_code dlens j ∧
      match_distance j f ≤ len out
  end.
Fixpoint tokens_ok (lens dlens : list Z) (out : list Z) (ts : list token) : Prop :=
  match ts with
  | [] => True
  | t :: ts' => token_ok lens dlens out t ∧ tokens_ok lens dlens (expand_token t out) ts'
  end.

#[export] Instance token_ok_dec lens dlens out t : Decision (token_ok lens dlens out t).
Proof. destruct t; cbn; unfold has_code; apply _. Defined.
#[export] Instance tokens_ok_dec lens dlens out ts : Decision (tokens_ok lens dlens out ts).
Proof. revert out. induction ts; intros; cbn; apply _. Defined.

Lemma length_codes_ok i : (i < 29)%nat → ∃ n b, length_bits !! i = Some n ∧ length_base !! i = Some b ∧
  0 ≤ n ≤ 16 ∧ 3 ≤ b < 2^16.
Proof.
  intros Hi. do 29 (destruct i as [|i]; [eexists _, _; cbn; repeat split_and; try done|]). lia.
Qed.
Lemma dist_codes_ok j : (j < 30)%nat → ∃ n b, dist_bits !! j = Some n ∧ dist_base !! j = Some b ∧
  0 ≤ n ≤ 16 ∧ 1 ≤ b ∧ b + 2^n ≤ RING_SIZE + 1.
Proof.
  intros Hj. do 30 (destruct j as [|j]; [eexists _, _; cbn; repeat split_and; try done|]). lia.
Qed.

Lemma index_nat {A} (l : list A) (i : nat) x : l !! i = Some x → index l (Z.of_nat i) = Ok x.
Proof. intros E. apply index_Ok. split; [lia|]. by rewrite Nat2Z.id. Qed.

Lemma inflate_match_spec lens dlens hd i e j f bits out c :
  table_ok dlens hd → valid_code dlens → token_ok lens dlens out (Match i e j f) →
  ctx_at (le_bits (Z.to_nat (nth i length_bits 0)) e ++ encode dlens j ++
    le_bits (Z.to_nat (nth j dist_bits 0)) f ++ bits) out c →
  ∃ c', inflate_match hd (Z.of_nat i) c = (Ok tt, c') ∧
    ctx_at bits (expand_token (Match i e j f) out) c'.
Proof.
  intros Ht Hv (Hi & He & _ & Hj & Hf & Hd & Hdist) H.
  destruct (length_codes_ok i Hi) as (lb & lbase & E1 & E2 & Hlb & Hlbase).
  destruct (dist_codes_ok j Hj) as (db & dbase & E3 & E4 & Hdb & Hdbase & Hring).
  rewrite (nth_lookup_Some _ _ _ _ E1) in *. rewrite (nth_lookup_Some _ _ _ _ E3) in *.
  unfold expand_token, match_length, match_distance in *.
  rewrite (nth_lookup_Some _ _ _ _ E2), (nth_lookup_Some _ _ _ _ E4) in *.
  unfold inflate_match.
  rewrite (bind_Ok _ _ _ lb c) by (unfold lift; by rewrite (index_nat _ _ _ E1)).
  rewrite (bind_Ok _ _ _ lbase c) by (unfold lift; by rewrite (index_nat _ _ _ E2)).
  destruct (read_bits_base _ lbase _ _ _ _ H) as (c1 & R1 & H1); [done|done|lia|]. pstep R1.
  destruct (read_symbol _ _ _ _ _ _ Ht Hv Hd H1) as (c2 & R2 & H2). pstep R2.
  rewrite (bind_Ok _ _ _ db c2) by (unfold lift; by rewrite (index_nat _ _ _ E3)).
  rewrite (bind_Ok _ _ _ dbase c2) by (unfold lift; by rewrite (index_nat _ _ _ E4)).
  assert (dbase < 2^16) by (unfold RING_SIZE in *; lia).
  destruct (read_bits_base _ dbase _ _ _ _ H2) as (c3 & R3 & H3); [done|done|lia|]. pstep R3.
  apply copy_spec; [done|lia|unfold RING_SIZE in *; lia].
Qed.

Lemma inflate_loop_spec lens dlens hl hd ts fuel bits out c :
  table_ok lens hl → valid_code lens → table_ok dlens hd → valid_code dlens →
  has_code lens 256 → tokens_ok lens dlens out ts → (length ts < fuel)%nat →
  ctx_at (encode_tokens lens dlens ts ++ bits) out c →
  ∃ c', inflate_loop fuel hl hd c = (Ok tt, c') ∧ ctx_at bits (expand_tokens ts out) c'.
Proof.
  intros Hl Vl Hd Vd Hend. revert fuel out c. induction ts as [|t ts IH]; intros fuel out c Ho Hf H;
    (destruct fuel as [|fuel]; [cbn in Hf; lia|]); cbn [inflate_loop expand_tokens].
  - unfold encode_tokens in H. cbn [fmap list_fmap concat app] in H.
    destruct (read_symbol _ _ _ _ _ _ Hl Vl Hend H) as (c1 & R1 & H1). pstep R1.
    exists c1. done.
  - destruct Ho as [Hto Ho]. unfold encode_tokens in H. cbn [fmap list_fmap concat] in H.
    rewrite <- !app_assoc in H. rewrite (app_assoc (concat _)) in H.
    change (concat _ ++ encode lens 256) with (encode_tokens lens dlens ts) in H.
    destruct t as [b|i e j f]; cbn [encode_token] in H.
    + destruct Hto as [Hb Hc]. destruct (read_symbol _ _ _ _ _ _ Hl Vl Hc H) as (c1 & R1 & H1).
      pstep R1. rewrite Z2Nat.id, (proj2 (Z.ltb_lt _ _)) by lia.
      destruct (emit_spec _ _ _ b H1) as (c2 & R2 & H2). rewrite u8_small by lia. pstep R2.
      apply (IH fuel (out ++ [b])); [done|cbn in Hf; lia|done].
    + rewrite <- !app_assoc in H. pose proof Hto as (Hi & _ & Hc & _).
      destruct (read_symbol _ _ _ _ _ _ Hl Vl Hc H) as (c1 & R1 & H1). pstep R1.
      rewrite (proj2 (Z.ltb_ge _ _)), (proj2 (Z.eqb_neq _ _)) by lia.
      replace (Z.of_nat (257 + i) - 257) with (Z.of_nat i) by lia.
      destruct (inflate_match_spec lens dlens hd i e j f _ out c1 Hd Vd Hto H1) as (c2 & R2 & H2).
      pstep R2. apply (IH fuel _ _ Ho); [cbn in Hf; lia|done].
Qed.

Lemma bit_fuel_enough bits out c : ctx_at bits out c → (length bits < bit_fuel c)%nat.
Proof.
  intros [_ <- _ _]. unfold bits_of, bit_fuel. rewrite length_drop.
  assert (length (bytes_bits (input_buf c)) = 8 * length (input_buf c))%nat as ->; [|lia].
  unfold bytes_bits. induction (input_buf c) as [|b l IH]; [done|].
  cbn [fmap list_fmap concat length]. rewrite length_app, length_le_bits. change (concat _) with (concat (le_bits 8 <$> l)). lia.
Qed.

Lemma length_encode_tokens lens dlens ts out : valid_code lens → tokens_ok lens dlens out ts →
  (length ts ≤ length (encode_tokens lens dlens ts))%nat.
Proof.
  intros Hl. unfold encode_tokens. rewrite length_app. revert out.
  induction ts as [|t ts IH]; intros out; [cbn; lia|]. intros [Ht Hts].
  specialize (IH _ Hts). cbn [fmap list_fmap concat length]. rewrite length_app.
  change (concat _) with (concat (encode_token lens dlens <$> ts)).
  enough (1 ≤ length (encode_token lens dlens t))%nat by lia. destruct t; cbn [encode_token].
  - destruct Ht as [_ Ht]. by apply length_encode.
  - destruct Ht as (_ & _ & Ht & _). rewrite length_app. pose proof (length_encode _ _ Hl Ht). lia.
Qed.

Lemma inflate_spec lens dlens hl hd ts bits out c :
  table_ok lens hl → valid_code lens → table_ok dlens hd → valid_code dlens →
  has_code lens 256 → tokens_ok lens dlens out ts →
  ctx_at (encode_tokens lens dlens ts ++ bits) out c →
  ∃ c', inflate hl hd c = (Ok tt, c') ∧ ctx_at bits (expand_tokens ts out) c'.
Proof.
  intros Hl Vl Hd Vd Hend Ho H. unfold inflate. rewrite (bind_Ok _ _ _ (bit_fuel c) c) by done.
  apply (inflate_loop_spec lens dlens); try done.
  pose proof (bit_fuel_enough _ _ _ H) as Hf. rewrite length_app in Hf.
  pose proof (length_encode_tokens lens dlens ts out Vl Ho). lia.
Qed.

(** ** Stored blocks *)

Definition encode_stored (data : list Z) : list bool :=
  le_bits 16 (len data) ++ le_bits 16 (u16_max - len data) ++ bytes_bits data.

Lemma read_aligned_bytes data bits out c : Forall is_byte data →
  ctx_at (bytes_bits data ++ bits) out c →
  ∃ c', repeat_n (length data) (byte ← get_bits 8; emit (u8 byte)) c = (Ok tt, c') ∧
    ctx_at bits (out ++ data) c'.
Proof.
  intros Hd. revert out c. induction Hd as [|b data Hb _ IH]; intros out c H.
  { exists c. rewrite app_nil_r. done. }
  unfold bytes_bits in H. cbn [fmap list_fmap concat] in H. rewrite <- app_assoc in H.
  destruct (read_bits 8 b _ out c H) as (c1 & R1 & H1); [lia|done|].
  destruct (emit_spec _ _ _ b H1) as (c2 & R2 & H2).
  destruct (IH _ _ H2) as (c3 & R3 & H3). exists c3.
  rewrite <- app_assoc in H3. split; [|done].
  cbn [length]. rewrite repeat_n_S. rewrite (bind_Ok _ _ _ tt c2); [done|].
  change 8 with (Z.of_nat 8). pstep R1. rewrite u8_small by (unfold fits in Hb; lia). done.
Qed.

Lemma uncompressed_spec data bits out c : Forall is_byte data → len data ≤ u16_max →
  ctx_at (encode_stored data ++ bits) out c →
  ∃ c', uncompressed c = (Ok tt, c') ∧ ctx_at bits (out ++ data) c'.
Proof.
  intros Hd Hlen H. unfold encode_stored in H. rewrite <- !app_assoc in H.
  pose proof (len_nonneg data). unfold u16_max in *. unfold uncompressed, u16_max.
  destruct (read_bits 16 (len data) _ out c H) as (c1 & R1 & H1); [lia|cbn; lia|].
  change (Z.of_nat 16) with 16 in R1. pstep R1.
  rewrite (proj2 (Z.leb_le (len data) _)), (bind_Ok _ _ _ tt c1) by (done || lia).
  destruct (read_bits 16 _ _ out c1 H1) as (c2 & R2 & H2); [lia|cbn; lia|].
  change (Z.of_nat 16) with 16 in R2. pstep R2.
  rewrite (proj2 (Z.leb_le (2^16 - 1 - len data) _)), (bind_Ok _ _ _ tt c2) by (done || lia).
  rewrite Z.eqb_refl, (bind_Ok _ _ _ tt c2) by done.
  rewrite to_nat_len. by apply read_aligned_bytes.
Qed.

(** ** Dynamic tables *)

(** The instructions that spell out the code lengths (symbols 0 to 18). *)
Inductive instr := ILen (v : Z) | IRepeat (n : Z) | IZeros (n : Z) | IManyZeros (n : Z).

Definition expand_instr (i : instr) (acc : list Z) : list Z :=
  match i with
  | ILen v => acc ++ [v]
  | IRepeat n => acc ++ replicate (Z.to_nat (3 + n)) (List.last acc 0)
  | IZeros n => acc ++ replicate (Z.to_nat (3 + n)) 0
  | IManyZeros n => acc ++ replicate (Z.to_nat (11 + n)) 0
  end.
Fixpoint expand_instrs (p : list instr) (acc : list Z) : list Z :=
  match p with [] => acc | i :: p' => expand_instrs p' (expand_instr i acc) end.

Definition encode_instr (cl : list Z) (i : instr) : list bool :=
  match i with
  | ILen v => encode cl (Z.to_nat v)
  | IRepeat n => encode cl 16 ++ le_bits 2 n
  | IZeros n => encode cl 17 ++ le_bits 3 n
  | IManyZeros n => encode cl 18 ++ le_bits 7 n
  end.
Definition instr_ok (cl : list Z) (i : instr) (acc : list Z) : Prop :=
  match i with
  | ILen v => 0 ≤ v < 16 ∧ has_code cl (Z.to_nat v)
  | IRepeat n => 0 ≤ n < 2^2 ∧ has_code cl 16 ∧ acc ≠ []
  | IZeros n => 0 ≤ n < 2^3 ∧ has_code cl 17
  | IManyZeros n => 0 ≤ n < 2^7 ∧ has_code cl 18
  end.
Fixpoint instrs_ok (cl : list Z) (p : list instr) (acc : list Z) : Prop :=
  match p with
  | [] => True
  | i :: p' => instr_ok cl i acc ∧ instrs_ok cl p' (expand_instr i acc)
  end.

#[export] Instance instr_ok_dec cl i acc : Decision (instr_ok cl i acc).
Proof. destruct i; cbn; unfold has_code; apply _. Defined.
#[export] Instance instrs_ok_dec cl p acc : Decision (instrs_ok cl p acc).
Proof. revert acc. induction p; intros; cbn; apply _. Defined.

Lemma fill_lengths_spec n rep acc (stale : list Z) : (n ≤ length stale)%nat →
  len acc + len stale < 2^32 →
  fill_lengths n rep (len acc) (acc ++ stale) =
    Ok (acc ++ replicate n rep ++ drop n stale, len acc + Z.of_nat n).
Proof.
  revert acc stale. induction n as [|n IH]; intros acc stale Hn Hm.
  { cbn. rewrite Z.add_0_r. done. }
  destruct stale as [|x stale]; [cbn in Hn; lia|]. cbn [fill_lengths].
  pose proof (len_nonneg acc). pose proof (len_nonneg stale). rewrite len_cons in Hm.
  rewrite store_Ok by (rewrite len_app, len_cons; lia). cbn [mbind outcome_bind].
  rewrite to_nat_len, insert_app_r_alt, Nat.sub_diag by lia. cbn [list_insert].
  rewrite u32_small by lia.
  specialize (IH (acc ++ [rep]) stale ltac:(cbn in Hn; lia)).
  rewrite len_app, len_cons, len_nil in IH. change (<[0%nat:=rep]> (x :: stale)) with (rep :: stale).
  rewrite <- !app_assoc in IH. cbn [app] in IH.
  replace (len acc + 1) with (len acc + (1 + 0)) by lia. rewrite IH by lia. cbn [replicate app drop].
  do 2 f_equal. lia.
Qed.

Lemma last_lookup (acc : list Z) : acc ≠ [] →
  acc !! (length acc - 1)%nat = Some (List.last acc 0).
Proof.
  intros H. destruct (exists_last H) as (l & x & ->). rewrite length_app; cbn.
  rewrite lookup_app_r by lia. replace (length l + 1 - 1 - length l)%nat with 0%nat by lia.
  by rewrite last_last.
Qed.

(** The end of an iteration of [read_lengths]: a run of one length written over
    the stale slots. *)
Lemma fill_run fuel h total acc stale n rep c : Forall (λ x, 0 ≤ x < 16) acc → 0 ≤ rep < 16 →
  len acc + len stale = 320 → len (acc ++ replicate n rep) ≤ 320 →
  ∃ stale', ('(lengths, count) ← lift (fill_lengths n (u8 rep) (len acc) (acc ++ stale));
      read_lengths fuel h total lengths count) c =
    read_lengths fuel h total ((acc ++ replicate n rep) ++ stale') (len (acc ++ replicate n rep)) c ∧
    len (acc ++ replicate n rep) + len stale' = 320 ∧ Forall (λ x, 0 ≤ x < 16) (acc ++ replicate n rep).
Proof.
  intros Ha Hr H320 Hn. rewrite len_app, len_replicate in *. exists (drop n stale).
  assert (n ≤ length stale)%nat by (unfold len in *; lia).
  rewrite u8_small, fill_lengths_spec by lia. rewrite (bind_Ok _ _ _ _ c) by done.
  rewrite <- app_assoc. split; [done|]. split; [unfold len in *; rewrite length_drop; lia|].
  apply Forall_app. split; [done|]. by apply Forall_replicate.
Qed.

(** One instruction read by [read_lengths]: [acc] is what is known, over 320
    slots whose rest is stale. *)
Lemma read_instr cl h fuel total i acc stale bits out c :
  table_ok cl h → valid_code cl → instr_ok cl i acc → Forall (λ x, 0 ≤ x < 16) acc →
  len acc < total → len acc + len stale = 320 → len (expand_instr i acc) ≤ 320 →
  ctx_at (encode_instr cl i ++ bits) out c →
  ∃ c' stale', read_lengths (S fuel) h total (acc ++ stale) (len acc) c =
      read_lengths fuel h total (expand_instr i acc ++ stale') (len (expand_instr i acc)) c' ∧
    ctx_at bits out c' ∧ len (expand_instr i acc) + len stale' = 320 ∧
    Forall (λ x, 0 ≤ x < 16) (expand_instr i acc).
Proof.
  intros Ht Hv Hi Hacc Htot H320 Hmax H. cbn [read_lengths]. rewrite (proj2 (Z.ltb_lt _ _)) by done.
  pose proof (len_nonneg acc) as Hna. pose proof (len_nonneg stale) as Hns.
  assert (∀ s bits', has_code cl s → ctx_at (encode cl s ++ bits') out c →
    ∃ c', decode h c = (Ok (Z.of_nat s), c') ∧ ctx_at bits' out c') as Hsym
    by (intros; by apply (read_symbol cl)).
  destruct i as [v|n|n|n]; cbn [encode_instr expand_instr instr_ok] in *; rewrite <- ?app_assoc in H.
  - destruct Hi as [Hr Hc]. destruct (Hsym _ _ Hc H) as (c1 & R1 & H1).
    pstep R1. rewrite Z2Nat.id, (proj2 (Z.ltb_lt v 16)) by lia.
    destruct (fill_run fuel h total acc stale 1 v c1) as (stale' & E & Hs & Ha); [done|lia|done|done|].
    exists c1, stale'. split; [|done]. etransitivity; [|exact E]. cbn [fill_lengths].
    by destruct (store _ _ _).
  - destruct Hi as [Hr [Hc Hne]]. destruct (Hsym _ _ Hc H) as (c1 & R1 & H1). pstep R1.
    change (Z.of_nat 16) with 16. cbn [Z.ltb Z.compare Pos.compare Pos.compare_cont Z.eqb Pos.eqb].
    assert (1 ≤ len acc) by (destruct acc; [done|rewrite len_cons; pose proof (len_nonneg acc); lia]).
    assert (index (acc ++ stale) (len acc - 1) = Ok (List.last acc 0)) as E.
    { apply index_Ok. split; [lia|]. apply lookup_app_l_Some. rewrite <- (last_lookup _ Hne).
      f_equal. unfold len. lia. }
    rewrite u64_small, bind_assoc, E, (bind_Ok _ _ _ (List.last acc 0) c1), bind_assoc by (done || lia).
    destruct (read_bits_base 2 3 n _ _ _ H1) as (c2 & R2 & H2); [done|done|done|]. pstep R2.
    rewrite (bind_Ok _ _ _ (List.last acc 0, 3 + n) c2) by done.
    destruct (fill_run fuel h total acc stale (Z.to_nat (3 + n)) (List.last acc 0) c2)
      as (stale' & -> & ? & ?); [done| |done|done|by exists c2, stale'].
    rewrite Forall_forall in Hacc. apply Hacc. eapply list_elem_of_lookup_2, last_lookup, Hne.
  - destruct Hi as [Hr Hc]. destruct (Hsym _ _ Hc H) as (c1 & R1 & H1). pstep R1.
    change (Z.of_nat 17) with 17. cbn [Z.ltb Z.compare Pos.compare Pos.compare_cont Z.eqb Pos.eqb].
    rewrite bind_assoc. destruct (read_bits_base 3 3 n _ _ _ H1) as (c2 & R2 & H2); [done|done|done|].
    pstep R2. rewrite (bind_Ok _ _ _ (0, 3 + n) c2) by done.
    destruct (fill_run fuel h total acc stale (Z.to_nat (3 + n)) 0 c2)
      as (stale' & -> & ? & ?); [done|lia|done|done|by exists c2, stale'].
  - destruct Hi as [Hr Hc]. destruct (Hsym _ _ Hc H) as (c1 & R1 & H1). pstep R1.
    change (Z.of_nat 18) with 18. cbn [Z.ltb Z.compare Pos.compare Pos.compare_cont Z.eqb Pos.eqb].
    rewrite bind_assoc. destruct (read_bits_base 7 11 n _ _ _ H1) as (c2 & R2 & H2); [done|done|done|].
    pstep R2. rewrite (bind_Ok _ _ _ (0, 11 + n) c2) by done.
    destruct (fill_run fuel h total acc stale (Z.to_nat (11 + n)) 0 c2)
      as (stale' & -> & ? & ?); [done|lia|done|done|by exists c2, stale'].
Qed.

Lemma expand_instr_longer i acc cl : instr_ok cl i acc → len acc < len (expand_instr i acc).
Proof.
  destruct i; cbn; intros H; rewrite len_app, ?len_replicate, ?len_cons, ?len_nil; lia.
Qed.
Lemma expand_instrs_longer p acc cl : instrs_ok cl p acc →
  len acc + len p ≤ len (expand_instrs p acc).
Proof.
  revert acc. induction p as [|i p IH]; intros acc; [cbn; rewrite len_nil; lia|].
  intros [Hi Hp]. cbn [expand_instrs]. rewrite len_cons.
  pose proof (expand_instr_longer _ _ _ Hi). specialize (IH _ Hp). lia.
Qed.

Lemma read_lengths_spec cl h fuel p acc stale bits out c :
  table_ok cl h → valid_code cl → instrs_ok cl p acc → Forall (λ x, 0 ≤ x < 16) acc →
  len acc + len stale = 320 → len (expand_instrs p acc) ≤ 320 → (length p < fuel)%nat →
  ctx_at (concat (encode_instr cl <$> p) ++ bits) out c →
  ∃ c' stale', read_lengths fuel h (len (expand_instrs p acc)) (acc ++ stale) (len acc) c =
      (Ok (expand_instrs p acc ++ stale'), c') ∧ ctx_at bits out c'.
Proof.
  intros Ht Hv. revert fuel acc stale c. induction p as [|i p IH];
    intros fuel acc stale c Hp Hacc H320 Hmax Hf H; (destruct fuel as [|fuel]; [cbn in Hf; lia|]).
  - exists c, stale. cbn [expand_instrs read_lengths]. rewrite Z.ltb_irrefl. done.
  - destruct Hp as [Hi Hp]. cbn [expand_instrs] in *. cbn [fmap list_fmap concat] in H.
    rewrite <- app_assoc in H.
    pose proof (expand_instr_longer _ _ _ Hi). pose proof (expand_instrs_longer _ _ _ Hp).
    pose proof (len_nonneg p).
    destruct (read_instr cl h fuel (len (expand_instrs p (expand_instr i acc))) i acc stale
      (concat (encode_instr cl <$> p) ++ bits) out c)
      as (c1 & stale1 & E & Hc1 & ? & ?); try done; try lia.
    destruct (IH fuel (expand_instr i acc) stale1 c1) as (c2 & stale2 & E2 & Hc2);
      try done; [cbn in Hf; lia|].
    exists c2, stale2. by rewrite E.
Qed.

(** The code-length code: 3 bits per slot, in the order of [clens]. *)
Definition encode_clens (cl : list Z) (slots : list Z) : list bool :=
  concat ((λ slot, le_bits 3 (nth (Z.to_nat slot) cl 0)) <$> slots).
Definition set_slot (cl : list Z) (lengths : list Z) (slot : Z) : list Z :=
  <[Z.to_nat slot := nth (Z.to_nat slot) cl 0]> lengths.

Lemma clens_range : Forall (λ x, 0 ≤ x < 19) clens.
Proof. unfold clens. repeat constructor; done. Qed.

Lemma read_clens_spec cl dn todo rest lengths bits out c : clens = dn ++ todo ++ rest →
  Forall (λ x, 0 ≤ x < 8) cl → length lengths = 320%nat →
  ctx_at (encode_clens cl todo ++ bits) out c →
  ∃ c', read_clens (length todo) (len dn) lengths c =
    (Ok (foldl (set_slot cl) lengths todo), c') ∧ ctx_at bits out c'.
Proof.
  intros E Hcl. revert dn lengths c E. induction todo as [|slot todo IH]; intros dn lengths c E Hl H.
  { exists c. done. }
  cbn [length read_clens foldl]. unfold encode_clens in H. cbn [fmap list_fmap concat] in H.
  rewrite <- app_assoc in H.
  pose proof clens_range as Hr. rewrite E, !Forall_app, Forall_cons in Hr. destruct Hr as (_ & [Hs _] & _).
  assert (index clens (len dn) = Ok slot) as ->.
  { apply index_Ok. split; [apply len_nonneg|]. by rewrite E, to_nat_len, lookup_app_r, Nat.sub_diag by lia. }
  rewrite (bind_Ok _ _ _ slot c) by done. set (v := nth (Z.to_nat slot) cl 0) in *.
  assert (0 ≤ v < 8) as Hv.
  { unfold v. destruct (nth_in_or_default (Z.to_nat slot) cl 0) as [Hin| ->]; [|lia].
    rewrite Forall_forall in Hcl. by apply Hcl, list_elem_of_In. }
  destruct (read_bits 3 v _ out c H) as (c1 & R1 & H1); [lia|done|]. change (Z.of_nat 3) with 3 in R1.
  pstep R1. rewrite u8_small by lia.
  rewrite store_Ok by (unfold len; lia). rewrite (bind_Ok _ _ _ (set_slot cl lengths slot) c1) by done.
  destruct (IH (dn ++ [slot]) (set_slot cl lengths slot) c1) as (c2 & R2 & H2).
  - by rewrite E, <- app_assoc.
  - unfold set_slot. by rewrite length_insert.
  - done.
  - exists c2. split; [|done]. rewrite len_app, len_cons, len_nil in R2.
    by replace (len dn + 1) with (len dn + (1 + 0)) by lia.
Qed.

Lemma set_slots_lookup cl slots lengths j : Forall (λ x, 0 ≤ x < 19) slots → (19 ≤ length lengths)%nat →
  (j < length lengths)%nat →
  foldl (set_slot cl) lengths slots !! j =
    if decide (Z.of_nat j ∈ slots) then Some (nth j cl 0) else lengths !! j.
Proof.
  revert lengths. induction slots as [|s slots IH]; intros lengths Hr Hl Hj; cbn [foldl].
  { by rewrite decide_False by apply not_elem_of_nil. }
  apply Forall_cons in Hr as [Hs Hr]. unfold set_slot at 2.
  rewrite IH by (done || by rewrite length_insert).
  destruct (decide (Z.of_nat j ∈ slots)) as [Hin|Hin].
  { rewrite decide_True; [done|]. by right. }
  destruct (decide (j = Z.to_nat s)) as [->|Hne].
  - rewrite list_lookup_insert_eq by lia. rewrite decide_True; [done|]. apply elem_of_cons. left. lia.
  - rewrite list_lookup_insert_ne by done. rewrite decide_False; [done|].
    intros [Ej|]%elem_of_cons; [lia|done].
Qed.

Lemma clens_cover j : (j < 19)%nat → Z.of_nat j ∈ clens.
Proof.
  intros Hj. assert (Forall (λ j, Z.of_nat j ∈ clens) (seq 0 19)) as H
    by (apply (bool_decide_unpack _); reflexivity).
  rewrite Forall_forall in H. apply H, elem_of_seq. lia.
Qed.

Lemma set_clens cl n : length cl = 19%nat → Forall (λ s, nth (Z.to_nat s) cl 0 = 0) (drop n clens) →
  foldl (set_slot cl) (replicate 320 0) (take n clens) = cl ++ replicate 301 0.
Proof.
  intros Hcl Hz. apply list_eq_same_length with 320%nat.
  - by rewrite length_app, length_replicate, Hcl.
  - assert (∀ l ls, length (foldl (set_slot cl) ls l) = length ls) as Hlen; [|by rewrite Hlen, length_replicate].
    induction l as [|s l IH]; intros ls; cbn; [done|]. rewrite IH. apply length_insert.
  - intros j x y Hj. rewrite set_slots_lookup.
    2: { apply Forall_take, clens_range. }
    2,3: rewrite length_replicate; lia.
    destruct (decide (j < 19)%nat).
    + rewrite lookup_app_l by lia. intros Hx Hy.
      assert (nth j cl 0 = y) as <- by (by apply nth_lookup_Some).
      case_decide as C; [congruence|].
      pose proof (clens_cover j ltac:(lia)) as Hin. rewrite <- (take_drop n clens) in Hin.
      apply elem_of_app in Hin as [|Hin]; [done|]. rewrite Forall_forall in Hz. specialize (Hz _ Hin).
      cbn in Hz. rewrite Nat2Z.id in Hz. rewrite Hz. rewrite lookup_replicate_2 in Hx by lia. congruence.
    + rewrite lookup_app_r, lookup_replicate by lia. rewrite decide_False.
      * rewrite lookup_replicate. intros [-> _] [-> _]. done.
      * intros Hin. pose proof clens_range as Hr. rewrite <- (take_drop n clens), Forall_app, !Forall_forall in Hr.
        destruct Hr as [Hr _]. specialize (Hr _ Hin). lia.
Qed.

(** The header of a dynamic block. *)
Record dynamic := mk_dynamic {
  d_lits : list Z;          (* code lengths of the literal/length alphabet *)
  d_dists : list Z;         (* code lengths of the distance alphabet *)
  d_hclen : nat;            (* how many code-length-code lengths are sent *)
  d_cl : list Z;            (* all 19 of them *)
  d_instrs : list instr;    (* how [d_lits ++ d_dists] is spelled *)
}.

Record dynamic_ok (d : dynamic) : Prop := {
  do_hclen : (4 ≤ d_hclen d ≤ 19)%nat;
  do_cl : length (d_cl d) = 19%nat ∧ Forall (λ x, 0 ≤ x < 8) (d_cl d) ∧ valid_code (d_cl d);
  do_unsent : Forall (λ s, nth (Z.to_nat s) (d_cl d) 0 = 0) (drop (d_hclen d) clens);
  do_instrs : instrs_ok (d_cl d) (d_instrs d) [];
  do_expand : expand_instrs (d_instrs d) [] = d_lits d ++ d_dists d;
  do_lits : 257 ≤ len (d_lits d) ∧ valid_code (d_lits d) ∧ has_code (d_lits d) 256;
  do_dists : 1 ≤ len (d_dists d) ≤ 32 ∧ valid_code (d_dists d);
}.

Definition encode_header (d : dynamic) : list bool :=
  le_bits 5 (len (d_lits d) - 257) ++ le_bits 5 (len (d_dists d) - 1) ++
  le_bits 4 (Z.of_nat (d_hclen d) - 4) ++ encode_clens (d_cl d) (take (d_hclen d) clens) ++
  concat (encode_instr (d_cl d) <$> d_instrs d).

Lemma huff_new_shape : huff_shape Huff_new.
Proof. by split. Qed.

Lemma length_encode_instrs cl p acc : valid_code cl → instrs_ok cl p acc →
  (length p ≤ length (concat (encode_instr cl <$> p)))%nat.
Proof.
  intros Hv. revert acc. induction p as [|i p IH]; intros acc; [cbn; lia|]. intros [Hi Hp].
  specialize (IH _ Hp). cbn [fmap list_fmap concat length]. rewrite length_app.
  change (concat _) with (concat (encode_instr cl <$> p)).
  assert (∀ s, has_code cl s → 1 ≤ length (encode cl s))%nat as Hs by (intros; by apply length_encode).
  enough (1 ≤ length (encode_instr cl i))%nat by lia.
  destruct i; cbn [encode_instr]; rewrite ?length_app; cbn in Hi.
  - apply Hs. naive_solver.
  - specialize (Hs 16%nat). naive_solver lia.
  - specialize (Hs 17%nat). naive_solver lia.
  - specialize (Hs 18%nat). naive_solver lia.
Qed.

Lemma decode_huffman_spec d ts bits out c : dynamic_ok d → tokens_ok (d_lits d) (d_dists d) out ts →
  ctx_at (encode_header d ++ encode_tokens (d_lits d) (d_dists d) ts ++ bits) out c →
  ∃ c', decode_huffman c = (Ok tt, c') ∧ ctx_at bits (expand_tokens ts out) c'.
Proof.
  intros [Hn (Hcl & Hcl8 & Vcl) Huns Hp He (Hl & Vl & Hend) (Hd & Vd)] Hts H.
  unfold encode_header in H. rewrite <- !app_assoc in H.
  set (b5 := encode_tokens _ _ _ ++ bits) in H. set (b4 := concat _ ++ b5) in H.
  pose proof Vl as [[_ Hl288] _]. unfold decode_huffman.
  destruct (read_bits_base 5 257 _ _ _ _ H) as (c1 & R1 & H1); [done|lia|done|]. pstep R1.
  destruct (read_bits_base 5 1 _ _ _ _ H1) as (c2 & R2 & H2); [done|lia|done|]. pstep R2.
  destruct (read_bits_base 4 4 _ _ _ _ H2) as (c3 & R3 & H3); [done|lia|done|]. pstep R3.
  replace (257 + (len (d_lits d) - 257)) with (len (d_lits d)) by lia.
  replace (1 + (len (d_dists d) - 1)) with (len (d_dists d)) by lia.
  destruct (read_clens_spec (d_cl d) [] (take (d_hclen d) clens) (drop (d_hclen d) clens)
    (replicate 320 0) b4 out c3) as (c4 & R4 & H4); [by rewrite app_nil_l, take_drop|done|done|exact H3|].
  rewrite set_clens in R4 by done. rewrite length_take_le in R4 by (unfold clens; cbn; lia).
  replace (Z.to_nat (4 + (Z.of_nat (d_hclen d) - 4))) with (d_hclen d) by lia.
  rewrite len_nil in R4. pstep R4.
  destruct (build_huffman_spec (d_cl d) (replicate 301 0) Huff_new (proj1 Vcl) huff_new_shape)
    as (hc & Bc & Tc). unfold len in Bc. rewrite Hcl in Bc.
  rewrite (bind_Ok _ _ _ hc c4) by (unfold lift; by rewrite <- Bc).
  rewrite (bind_Ok _ _ _ (bit_fuel c4) c4) by done.
  destruct (read_lengths_spec (d_cl d) hc (bit_fuel c4) (d_instrs d) [] (d_cl d ++ replicate 301 0) b5 out c4)
    as (c5 & stale & R5 & H5); try done.
  { rewrite len_nil, len_app, len_replicate. unfold len. rewrite Hcl. lia. }
  { rewrite He, len_app. lia. }
  { pose proof (bit_fuel_enough _ _ _ H4) as Hf. unfold b4 in Hf. rewrite length_app in Hf.
    pose proof (length_encode_instrs _ _ _ Vcl Hp). lia. }
  rewrite He, len_app in R5. cbn [app] in R5. change (len []) with 0 in R5. rewrite u32_small by lia. pstep R5.
  rewrite <- app_assoc.
  destruct (build_huffman_spec (d_lits d) (d_dists d ++ stale) Huff_new (proj1 Vl) huff_new_shape)
    as (hl & Bl & Tl). rewrite (bind_Ok _ _ _ hl c5) by (unfold lift; by rewrite Bl).
  assert (slice_from (d_lits d ++ d_dists d ++ stale) (len (d_lits d)) = Ok (d_dists d ++ stale)) as Es.
  { unfold slice_from. rewrite <- (app_nil_r (_ ++ stale)) at 1.
    apply (slice_app_middle (d_lits d) (d_dists d ++ stale) []); [done|]. by rewrite !len_app. }
  rewrite (bind_Ok _ _ _ (d_dists d ++ stale) c5) by (unfold lift; by rewrite Es).
  destruct (build_huffman_spec (d_dists d) stale Huff_new (proj1 Vd) huff_new_shape)
    as (hd & Bd & Td). rewrite (bind_Ok _ _ _ hd c5) by (unfold lift; by rewrite Bd).
  by apply (inflate_spec (d_lits d) (d_dists d)).
Qed.

(** * Whole streams *)

Inductive block :=
  | Stored (data : list Z)
  | Fixed (ts : list token)
  | Dynamic (d : dynamic) (ts : list token).

Definition fixed_dists : list Z := replicate 30 5.

Definition block_ok (out : list Z) (b : block) : Prop :=
  match b with
  | Stored data => Forall is_byte data ∧ len data ≤ u16_max
  | Fixed ts => tokens_ok fixed_lengths fixed_dists out ts
  | Dynamic d ts => dynamic_ok d ∧ tokens_ok (d_lits d) (d_dists d) out ts
  end.
Definition expand_block (b : block) (out : list Z) : list Z :=
  match b with
  | Stored data => out ++ data
  | Fixed ts | Dynamic _ ts => expand_tokens ts out
  end.
(** Stored data follows its header directly, where the decoder reads it. *)
Definition encode_block (b : block) : list bool :=
  match b with
  | Stored data => le_bits 2 0 ++ encode_stored data
  | Fixed ts => le_bits 2 1 ++ encode_tokens fixed_lengths fixed_dists ts
  | Dynamic d ts => le_bits 2 2 ++ encode_header d ++ encode_tokens (d_lits d) (d_dists d) ts
  end.

Fixpoint blocks_ok (out : list Z) (bs : list block) : Prop :=
  match bs with
  | [] => True
  | b :: bs' => block_ok out b ∧ blocks_ok (expand_block b out) bs'
  end.
Fixpoint expand_blocks (bs : list block) (out : list Z) : list Z :=
  match bs with [] => out | b :: bs' => expand_blocks bs' (expand_block b out) end.
Fixpoint encode_blocks (bs : list block) : list bool :=
  match bs with
  | [] => []
  | [b] => true :: encode_block b
  | b :: bs' => false :: encode_block b ++ encode_blocks bs'
  end.

Lemma fixed_lengths_valid : valid_code fixed_lengths.
Proof. apply (bool_decide_unpack _). vm_compute. exact I. Qed.
Lemma fixed_dists_valid : valid_code fixed_dists.
Proof. apply (bool_decide_unpack _). vm_compute. exact I. Qed.

Lemma build_fixed_spec : ∃ hl hd, build_fixed Huff_new Huff_new = Ok (hl, hd) ∧
  table_ok fixed_lengths hl ∧ table_ok fixed_dists hd.
Proof.
  destruct (build_huffman_spec fixed_lengths [] Huff_new (proj1 fixed_lengths_valid) huff_new_shape)
    as (hl & Bl & Tl).
  destruct (build_huffman_spec fixed_dists (drop 30 fixed_lengths) Huff_new
    (proj1 fixed_dists_valid) huff_new_shape) as (hd & Bd & Td).
  exists hl, hd. split; [|exact (conj Tl Td)]. unfold build_fixed. rewrite app_nil_r in Bl.
  change (len fixed_lengths) with 288 in Bl. change (len fixed_dists) with 30 in Bd.
  rewrite Bl. cbn [mbind outcome_bind]. unfold fixed_dist_lengths.
  change (replicate 30 5) with fixed_dists. by rewrite Bd.
Qed.

Lemma decode_block b hl hd bits out c :
  table_ok fixed_lengths hl → table_ok fixed_dists hd → block_ok out b →
  ctx_at (encode_block b ++ bits) out c →
  ∃ c', (block_type ← get_bits 2;
      if block_type =? 0 then uncompressed
      else if block_type =? 1 then inflate hl hd
      else if block_type =? 2 then decode_huffman else err) c = (Ok tt, c') ∧
    ctx_at bits (expand_block b out) c'.
Proof.
  intros Hl Hd Hb H. destruct b as [data|ts|d ts]; cbn [encode_block] in H; rewrite <- ?app_assoc in H.
  - destruct (read_bits 2 0 _ out c H) as (c1 & R1 & H1); [lia|done|]. change (Z.of_nat 2) with 2 in R1.
    pstep R1. destruct Hb. by apply uncompressed_spec.
  - destruct (read_bits 2 1 _ out c H) as (c1 & R1 & H1); [lia|done|]. change (Z.of_nat 2) with 2 in R1.
    pstep R1. by apply (inflate_spec fixed_lengths fixed_dists);
      [done|apply fixed_lengths_valid|done|apply fixed_dists_valid| | |].
  - destruct (read_bits 2 2 _ out c H) as (c1 & R1 & H1); [lia|done|]. change (Z.of_nat 2) with 2 in R1.
    pstep R1. destruct Hb as [Hd' Hts]. exact (decode_huffman_spec d ts bits out c1 Hd' Hts H1).
Qed.

Lemma decompress_loop_spec bs hl hd fuel pad out c :
  table_ok fixed_lengths hl → table_ok fixed_dists hd → bs ≠ [] → blocks_ok out bs →
  (length bs ≤ fuel)%nat → ctx_at (encode_blocks bs ++ pad) out c →
  ∃ c', decompress_loop fuel hl hd c = (Ok tt, c') ∧ ctx_at pad (expand_blocks bs out) c'.
Proof.
  intros Hl Hd. revert fuel out c. induction bs as [|b bs IH]; intros fuel out c Hne Hok Hf H; [done|].
  destruct fuel as [|fuel]; [cbn in Hf; lia|]. cbn [decompress_loop expand_blocks].
  destruct Hok as [Hb Hok].
  assert (encode_blocks (b :: bs) = bool_decide (bs = []) :: encode_block b ++ encode_blocks bs) as E.
  { destruct bs; [|done]. cbn [encode_blocks]. by rewrite app_nil_r. }
  rewrite E in H. cbn [app] in H. rewrite <- app_assoc in H.
  destruct (read_bit _ _ _ _ H) as (c1 & R1 & H1). pstep R1.
  destruct (decode_block b hl hd _ out c1 Hl Hd Hb H1) as (c2 & R2 & H2).
  rewrite <- bind_assoc. cbv beta. pstep R2.
  destruct bs as [|b' bs].
  - rewrite bool_decide_true by done. exists c2. done.
  - rewrite bool_decide_false by done. apply IH; [done|done|cbn in *; lia|done].
Qed.

Lemma length_encode_blocks bs : (length bs ≤ length (encode_blocks bs))%nat.
Proof.
  induction bs as [|b [|b' bs] IH]; cbn [encode_blocks length] in *; [lia|lia|].
  rewrite length_app. lia.
Qed.

Lemma decompress_spec bs pad bytes : bytes_bits bytes = encode_blocks bs ++ pad →
  bs ≠ [] → blocks_ok [] bs → (decompress (InflateContext_new bytes)).1 = Ok (expand_blocks bs []).
Proof.
  intros E Hne Hok. pose proof (ctx_at_new bytes) as H. rewrite E in H.
  unfold decompress. destruct build_fixed_spec as (hl & hd & B & Tl & Td).
  rewrite (bind_Ok _ _ _ (hl, hd) (InflateContext_new bytes)) by (unfold lift; by rewrite B).
  rewrite (bind_Ok _ _ _ (bit_fuel (InflateContext_new bytes)) (InflateContext_new bytes)) by done.
  destruct (decompress_loop_spec bs hl hd (bit_fuel (InflateContext_new bytes)) pad [] (InflateContext_new bytes))
    as (c' & R & H'); [exact Tl|exact Td|exact Hne|exact Hok| |exact H|].
  { pose proof (bit_fuel_enough _ _ _ H) as Hf. rewrite length_app in Hf.
    pose proof (length_encode_blocks bs). lia. }
  pstep R. cbn. by rewrite (ca_out _ _ _ H').
Qed.

(** ** Every run ends *)

Definition remaining (c : InflateContext) : nat := length (bits_of c).

(** From a well-formed context, [m] does not run out of fuel, and when it
    returns it has taken at least [k] bits. *)
Definition consumes {A} (k : nat) (m : prog InflateContext A) (c : InflateContext) : Prop :=
  match m c with
  | (Ok _, c') => ctx_wf c' ∧ (remaining c' + k ≤ remaining c)%nat
  | (NoFuel, _) => False
  | _ => True
  end.

Lemma consumes_bind {A B} k j (m : prog InflateContext A) (f : A → prog InflateContext B) c :
  consumes k m c →
  (∀ a c', ctx_wf c' → (remaining c' + k ≤ remaining c)%nat → consumes j (f a) c') →
  consumes (k + j) (m ≫= f) c.
Proof.
  unfold consumes, mbind, prog_bind. intros Hm Hf.
  destruct (m c) as [[a| | | |] c1]; try done. destruct Hm as [W L]. specialize (Hf a c1 W L).
  destruct (f a c1) as [[b| | | |] c2]; try done. destruct Hf. split; [done|lia].
Qed.
Lemma consumes_weaken {A} k j (m : prog InflateContext A) c : (j ≤ k)%nat → consumes k m c → consumes j m c.
Proof. unfold consumes. intros ?. destruct (m c) as [[a| | | |] ?]; try done. intros [? ?]. split; [done|lia]. Qed.
Lemma consumes_lift {A} (o : outcome A) c : ctx_wf c → o ≠ NoFuel → consumes 0 (lift o) c.
Proof. unfold consumes, lift. destruct o; try done. intros. split; [done|lia]. Qed.
Lemma consumes_ret {A} (a : A) c : ctx_wf c → consumes 0 (mret a) c.
Proof. intros. split; [done|lia]. Qed.
Lemma consumes_gets {A} (f : InflateContext → A) c : ctx_wf c → consumes 0 (gets f) c.
Proof. intros. split; [done|lia]. Qed.

(** Sequencing, when the first part may take nothing. *)
Lemma consumes_seq {A B} j (m : prog InflateContext A) (f : A → prog InflateContext B) c :
  consumes 0 m c →
  (∀ a c', ctx_wf c' → (remaining c' ≤ remaining c)%nat → consumes j (f a) c') →
  consumes j (m ≫= f) c.
Proof. intros Hm Hf. apply (consumes_bind 0 j); [done|]. intros. apply Hf; [done|lia]. Qed.

Lemma index_fuel {A} (l : list A) i : index l i ≠ NoFuel.
Proof. unfold index. case_decide; [|done]. by destruct (_ !! _). Qed.
Lemma store_fuel {A} (l : list A) i x : store l i x ≠ NoFuel.
Proof. unfold store. by case_decide. Qed.
Lemma slice_fuel {A} (l : list A) a b : slice l a b ≠ NoFuel.
Proof. unfold slice. by case_decide. Qed.
Lemma rassert_fuel b : rassert b ≠ NoFuel.
Proof. by destruct b. Qed.
Lemma reject_fuel b : reject_if b ≠ NoFuel.
Proof. by destruct b. Qed.
Lemma bind_fuel {A B} (o : outcome A) (f : A → outcome B) :
  o ≠ NoFuel → (∀ a, f a ≠ NoFuel) → (o ≫= f) ≠ NoFuel.
Proof. destruct o; cbn; auto; done. Qed.
Lemma foldM_fuel {A B} (f : B → A → outcome B) b l : (∀ b x, f b x ≠ NoFuel) → foldM f b l ≠ NoFuel.
Proof. intros Hf. revert b. induction l; intros; cbn; [done|]. by apply bind_fuel. Qed.
Create HintDb fuel.
#[local] Hint Resolve index_fuel store_fuel slice_fuel rassert_fuel reject_fuel : fuel.

Lemma build_huffman_fuel lengths size out : build_huffman lengths size out ≠ NoFuel.
Proof.
  unfold build_huffman.
  repeat first [apply bind_fuel; [solve [eauto with fuel]|intros]
    | apply bind_fuel; [apply foldM_fuel; intros; unfold count_length, next_offset, place_symbol;
        repeat first [case_match | apply bind_fuel; [solve [eauto with fuel]|intros] | done | solve [eauto with fuel]]
      |intros] | case_match | done].
Qed.

Lemma get_bit_consumes c : ctx_wf c → consumes 1 get_bit c.
Proof.
  intros Hw. pose proof (get_bit_spec c Hw) as R. unfold consumes, remaining.
  destruct (bits_of c) as [|b rest]; [by destruct R as (c' & ->)|].
  destruct R as (c' & -> & -> & ? & _). cbn. split; [done|lia].
Qed.

Lemma get_bits_from_consumes n bit byte c : ctx_wf c → consumes 0 (get_bits_from n bit byte) c.
Proof.
  revert bit byte c. induction n as [|k IH]; intros bit byte c Hw; [by apply consumes_ret|].
  cbn [get_bits_from]. apply (consumes_weaken (1 + 0)); [lia|].
  apply consumes_bind; [by apply get_bit_consumes|]. intros. by apply IH.
Qed.
Lemma get_bits_consumes n c : ctx_wf c → consumes 0 (get_bits n) c.
Proof. apply get_bits_from_consumes. Qed.

Lemma get_bits_base_consumes num base c : ctx_wf c → consumes 0 (get_bits_base num base) c.
Proof.
  intros Hw. apply consumes_seq.
  - case_match; [by apply get_bits_consumes|by apply consumes_ret].
  - intros. by apply consumes_ret.
Qed.

Lemma decode_loop_consumes fuel h base offs i c : (0 < fuel)%nat → i + Z.of_nat fuel = 17 → ctx_wf c →
  consumes 1 (decode_loop fuel h base offs i) c.
Proof.
  revert base offs i c. induction fuel as [|fuel IH]; intros base offs i c Hf Hi Hw; [lia|].
  cbn [decode_loop]. apply (consumes_bind 1 0); [by apply get_bit_consumes|]. intros bit c1 W1 _.
  destruct (i <=? 15) eqn:C; [|done]. apply consumes_seq; [apply consumes_lift; [done|apply rassert_fuel]|]. intros _ c2 W2 _.
  apply consumes_seq; [apply consumes_lift; [done|apply index_fuel]|]. intros n c3 W3 _. case_match.
  - apply consumes_seq; [apply consumes_lift; [done|apply rassert_fuel]|]. intros _ c4 W4 _.
    apply consumes_lift; [done|apply index_fuel].
  - apply (consumes_weaken 1); [lia|]. apply IH; [lia|lia|done].
Qed.
Lemma decode_consumes h c : ctx_wf c → consumes 1 (decode h) c.
Proof. intros. apply decode_loop_consumes; [lia|done|done]. Qed.

Lemma emit_consumes b c : ctx_wf c → consumes 0 (emit b) c.
Proof.
  intros Hw. apply consumes_seq; [by apply consumes_gets|]. intros r c1 W1 _.
  apply consumes_seq; [apply consumes_lift; [done|apply rassert_fuel]|]. intros _ c2 W2 _.
  split; [done|]. unfold remaining, bits_of, set_output. cbn [bit_index input_buf]. lia.
Qed.
Lemma repeat_consumes n body c : (∀ c, ctx_wf c → consumes 0 body c) → ctx_wf c →
  consumes 0 (repeat_n n body) c.
Proof.
  intros Hb. revert c. induction n as [|n IH]; intros c Hw; [by apply consumes_ret|].
  cbn [repeat_n]. apply consumes_seq; [by apply Hb|]. intros. by apply IH.
Qed.
Lemma copy_consumes d c : ctx_wf c → consumes 0 (copy d) c.
Proof.
  intros Hw. apply consumes_seq; [|intros; by apply emit_consumes].
  apply consumes_seq; [by apply consumes_gets|]. intros. by apply consumes_ret.
Qed.

Ltac cstep :=
  lazymatch goal with
  | |- consumes _ (lift _) _ =>
      apply consumes_lift; [done|first [by eauto with fuel|apply build_huffman_fuel]]
  | |- consumes _ (mret _) _ => by apply consumes_ret
  | |- consumes _ (gets _) _ => by apply consumes_gets
  | |- consumes _ (get_bits _) _ => by apply get_bits_consumes
  | |- consumes _ (get_bits_base _ _) _ => by apply get_bits_base_consumes
  | |- consumes _ (emit _) _ => by apply emit_consumes
  | |- consumes _ (repeat_n _ (copy _)) _ => apply repeat_consumes; [intros; by apply copy_consumes|done]
  | |- consumes 0 (decode _) _ => by apply (consumes_weaken 1); [lia|apply decode_consumes]
  | |- consumes _ (_ ≫= _) _ => apply consumes_seq; [cstep|intros ? ? ? ?]
  | |- consumes _ (if ?b then _ else _) _ => destruct b
  end.

Lemma uncompressed_consumes c : ctx_wf c → consumes 0 uncompressed c.
Proof.
  intros Hw. unfold uncompressed. repeat cstep.
  apply repeat_consumes; [|done]. intros. repeat cstep.
Qed.

Lemma inflate_match_consumes h s c : ctx_wf c → consumes 0 (inflate_match h s) c.
Proof. intros Hw. unfold inflate_match. repeat cstep. Qed.

Lemma inflate_loop_consumes fuel hl hd c : ctx_wf c → (remaining c < fuel)%nat →
  consumes 0 (inflate_loop fuel hl hd) c.
Proof.
  revert c. induction fuel as [|fuel IH]; intros c Hw Hf; [lia|]. cbn [inflate_loop].
  apply (consumes_weaken (1 + 0)); [lia|]. apply consumes_bind; [by apply decode_consumes|].
  intros s c1 W1 L1. case_match; [|case_match; [by apply consumes_ret|]].
  - apply consumes_seq; [by apply emit_consumes|]. intros _ c2 W2 L2. apply IH; [done|lia].
  - apply consumes_seq; [by apply inflate_match_consumes|]. intros _ c2 W2 L2. apply IH; [done|lia].
Qed.

Lemma remaining_fuel c : (remaining c < bit_fuel c)%nat.
Proof.
  unfold remaining, bits_of, bit_fuel, bytes_bits. rewrite length_drop.
  assert (length (concat (le_bits 8 <$> input_buf c)) = 8 * length (input_buf c))%nat as ->; [|lia].
  induction (input_buf c) as [|b l IH]; [done|].
  cbn [fmap list_fmap concat length]. rewrite length_app, length_le_bits.
  change (list_fmap _ _ _ l) with (le_bits 8 <$> l). lia.
Qed.

Lemma inflate_consumes hl hd c : ctx_wf c → consumes 0 (inflate hl hd) c.
Proof. intros Hw. apply inflate_loop_consumes; [done|apply remaining_fuel]. Qed.

Lemma read_clens_consumes n i ls c : ctx_wf c → consumes 0 (read_clens n i ls) c.
Proof.
  revert i ls c. induction n as [|n IH]; intros i ls c Hw; cbn [read_clens]; repeat cstep. by apply IH.
Qed.
Lemma fill_lengths_fuel n rep count ls : fill_lengths n rep count ls ≠ NoFuel.
Proof.
  revert count ls. induction n; intros; cbn; [done|]. apply bind_fuel; [apply store_fuel|auto].
Qed.
Lemma read_lengths_consumes fuel h total ls count c : ctx_wf c → (remaining c < fuel)%nat →
  consumes 0 (read_lengths fuel h total ls count) c.
Proof.
  revert ls count c. induction fuel as [|fuel IH]; intros ls count c Hw Hf; [lia|].
  cbn [read_lengths]. case_match; [|by apply consumes_ret].
  apply (consumes_weaken (1 + 0)); [lia|]. apply consumes_bind; [by apply decode_consumes|].
  intros s c1 W1 L1. case_match; [|case_match; [|by apply consumes_ret]].
  - cstep. apply IH; [done|lia].
  - apply consumes_seq; [repeat cstep|]. intros [rep n] c2 W2 L2.
    apply consumes_seq; [apply consumes_lift; [done|apply fill_lengths_fuel]|].
    intros [ls' count'] c3 W3 L3. apply IH; [done|lia].
Qed.

Lemma consumes_gets_bind {A B} k (g : InflateContext → A) (f : A → prog InflateContext B) c :
  consumes k (f (g c)) c → consumes k (gets g ≫= f) c.
Proof. done. Qed.

Lemma decode_huffman_consumes c : ctx_wf c → consumes 0 decode_huffman c.
Proof.
  intros Hw. unfold decode_huffman. cstep. cstep. cstep.
  apply consumes_seq; [by apply read_clens_consumes|intros ls c4 W4 _]. cstep.
  apply consumes_gets_bind.
  apply consumes_seq; [apply read_lengths_consumes; [done|apply remaining_fuel]|intros]. cstep.
  apply consumes_seq; [apply consumes_lift; [done|apply slice_fuel]|intros]. cstep.
  by apply inflate_consumes.
Qed.

Lemma decompress_loop_consumes fuel hl hd c : ctx_wf c → (remaining c < fuel)%nat →
  consumes 0 (decompress_loop fuel hl hd) c.
Proof.
  revert c. induction fuel as [|fuel IH]; intros c Hw Hf; [lia|]. cbn [decompress_loop].
  apply (consumes_weaken (1 + 0)); [lia|]. apply consumes_bind; [by apply get_bit_consumes|].
  intros final c1 W1 L1. cstep. apply consumes_seq.
  - case_match; [by apply uncompressed_consumes|]. case_match; [by apply inflate_consumes|].
    case_match; [by apply decode_huffman_consumes|done].
  - intros _ c3 W3 L3. destruct final; [by apply consumes_ret|]. apply IH; [done|lia].
Qed.

Lemma decompress_ends bytes : (decompress (InflateContext_new bytes)).1 ≠ NoFuel.
Proof.
  assert (consumes 0 decompress (InflateContext_new bytes)) as H.
  { unfold decompress. apply consumes_seq.
    - apply consumes_lift; [done|]. unfold build_fixed.
      apply bind_fuel; [apply build_huffman_fuel|intros]. apply bind_fuel; [apply build_huffman_fuel|done].
    - intros [hl hd] c W _. apply consumes_gets_bind.
      apply consumes_seq; [apply decompress_loop_consumes; [done|apply remaining_fuel]|].
      intros. by apply consumes_gets. }
  unfold consumes in H. destruct (decompress _) as [[] ?]; done.
Qed.

(** ** The checksum *)

Fixpoint weighted_sum (l : list Z) : Z :=
  match l with [] => 0 | x :: l' => x * (len l) + weighted_sum l' end.
Definition byte_sum (l : list Z) : Z := foldr Z.add 0 l.

(** RFC 1950: [s2 * 65536 + s1], where [s1] is one plus the sum of the bytes and
    [s2] the sum of all the intermediate [s1]. *)
Definition adler_value (l : list Z) : Z :=
  (len l + weighted_sum l) mod 65521 * 2^16 + (1 + byte_sum l) mod 65521.

Lemma adler_fold l a b : Forall is_byte l → 0 ≤ a < 65521 → 0 ≤ b < 65521 →
  foldl adler32_step (a, b) l =
    ((a + byte_sum l) mod 65521, (b + len l * a + weighted_sum l) mod 65521).
Proof.
  intros Hl. revert a b. induction Hl as [|x l Hx Hl IH]; intros a b Ha Hb.
  - cbn. rewrite !Z.add_0_r, !Z.mod_small by lia. done.
  - cbn [foldl]. unfold adler32_step at 2; cbn [fst snd]. unfold fits in Hx.
    pose proof (Z.mod_pos_bound (a + x) 65521 eq_refl).
    rewrite (u32_small (a + x)), u32_small by lia.
    rewrite IH by (apply Z.mod_pos_bound; done). cbn [byte_sum foldr weighted_sum].
    fold (byte_sum l). rewrite len_cons. f_equal.
    + rewrite Zplus_mod_idemp_l. f_equal. lia.
    + pose proof (Z_div_mod_eq_full (a + x) 65521) as E1. revert E1 H.
      generalize ((a + x) mod 65521) as a'. generalize ((a + x) / 65521) as q1. intros q1 a' E1 Ha'.
      pose proof (Z_div_mod_eq_full (b + a') 65521) as E2. revert E2.
      generalize ((b + a') mod 65521) as b'. generalize ((b + a') / 65521) as q2. intros q2 b' E2.
      rewrite <- (Z_mod_plus_full _ (q1 * (1 + len l) + q2)). f_equal.
      replace a with (65521 * q1 + a' - x) by lia. replace b with (65521 * q2 + b' - a') by lia. ring.
Qed.

Lemma adler32_spec l : Forall is_byte l →
  0 ≤ adler_value l < 2^32 ∧ adler32 l = le_value (rev (le_bytes 4 (adler_value l))).
Proof.
  intros Hl. unfold adler32. rewrite adler_fold by done. unfold adler_value, swap_bytes.
  rewrite Z.add_0_l, Z.mul_1_r.
  pose proof (Z.mod_pos_bound (1 + byte_sum l) 65521 eq_refl).
  pose proof (Z.mod_pos_bound (len l + weighted_sum l) 65521 eq_refl).
  rewrite u32_small by (rewrite Z.shiftl_mul_pow2 by done; lia).
  rewrite shiftl_or_add by (unfold fits; lia). split; [lia|done].
Qed.

(** The trailer of a zlib stream, most significant byte first. *)
Definition adler_bytes (l : list Z) : list Z := rev (le_bytes 4 (adler_value l)).

(** ** The bytes that carry a list of bits *)

Fixpoint pack (n : nat) (bits : list bool) : list Z :=
  match n with O => [] | S n' => bits_value (take 8 bits) :: pack n' (drop 8 bits) end.
Definition pack_bits (bits : list bool) : list Z := pack ((length bits + 7) / 8) bits.

Lemma le_bits_zero n : le_bits n 0 = replicate n false.
Proof. induction n; [done|]. cbn [le_bits replicate]. by rewrite Z.div_0_l, IHn. Qed.
Lemma le_bits_value n bs : (length bs ≤ n)%nat →
  le_bits n (bits_value bs) = bs ++ replicate (n - length bs) false.
Proof.
  revert n. induction bs as [|b bs IH]; intros n Hn.
  { cbn [bits_value length app]. by rewrite le_bits_zero, Nat.sub_0_r. }
  destruct n as [|n]; [cbn in Hn; lia|]. cbn [bits_value le_bits length Nat.sub app].
  rewrite Z.odd_add_mul_2. replace ((Z.b2z b + 2 * bits_value bs) / 2) with (bits_value bs).
  - rewrite IH by (cbn in Hn; lia). by destruct b.
  - symmetry. rewrite Z.mul_comm, Z.div_add by done. by destruct b.
Qed.

Lemma bytes_bits_pack n bits : (length bits ≤ 8 * n)%nat →
  bytes_bits (pack n bits) = bits ++ replicate (8 * n - length bits) false.
Proof.
  revert bits. induction n as [|n IH]; intros bits Hn.
  { destruct bits; [done|cbn in Hn; lia]. }
  unfold bytes_bits. cbn [pack fmap list_fmap concat]. change (concat _) with (bytes_bits (pack n (drop 8 bits))).
  rewrite le_bits_value, IH by (rewrite ?length_take, ?length_drop; lia).
  rewrite length_take, length_drop. destruct (decide (8 ≤ length bits)%nat).
  - rewrite Nat.min_l, Nat.sub_diag, app_nil_r, app_assoc, take_drop by lia. f_equal. f_equal. lia.
  - rewrite Nat.min_r, (take_ge bits), (drop_ge bits) by lia. cbn [length app].
    rewrite <- app_assoc, <- replicate_add. f_equal. f_equal. lia.
Qed.

Lemma bytes_bits_pack_bits bits : ∃ pad, bytes_bits (pack_bits bits) = bits ++ pad.
Proof.
  eexists. apply bytes_bits_pack.
  pose proof (Nat.div_mod_eq (length bits + 7) 8). pose proof (Nat.mod_upper_bound (length bits + 7) 8). lia.
Qed.

(** ** The output is bytes *)

Lemma expand_tokens_bytes lens dlens ts out : Forall is_byte out → tokens_ok lens dlens out ts →
  Forall is_byte (expand_tokens ts out).
Proof.
  revert out. induction ts as [|t ts IH]; intros out Ho; [done|]. intros [Ht Hts].
  cbn [expand_tokens]. apply IH; [|done]. destruct t as [b|i e j f]; cbn [expand_token].
  - apply Forall_app. split; [done|]. constructor; [|constructor]. destruct Ht as [? _]. done.
  - clear -Ho. revert out Ho. induction (Z.to_nat _) as [|n IHn]; intros out Ho; [done|].
    cbn [expand_match]. apply IHn, Forall_app. split; [done|]. constructor; [|constructor].
    destruct (nth_in_or_default (Z.to_nat (len out - match_distance j f)) out 0) as [Hin| ->]; [|done].
    rewrite Forall_forall in Ho. by apply Ho, list_elem_of_In.
Qed.

Lemma expand_blocks_bytes bs out : Forall is_byte out → blocks_ok out bs →
  Forall is_byte (expand_blocks bs out).
Proof.
  revert out. induction bs as [|b bs IH]; intros out Ho; [done|]. intros [Hb Hbs].
  cbn [expand_blocks]. apply IH; [|done]. destruct b; cbn in *.
  - apply Forall_app. by destruct Hb.
  - by eapply expand_tokens_bytes.
  - destruct Hb. by eapply expand_tokens_bytes.
Qed.

(** * Theorems *)

(** RFC 1950's header: DEFLATE, a window the decoder supports, the check bits,
    no preset dictionary. *)
Definition header_ok (cmf flags : Z) : bool :=
  (cmf mod 16 =? 8) && (cmf / 16 <=? 7) && ((cmf * 256 + flags) mod 31 =? 0) &&
  negb (Z.testbit flags 5).

(** A zlib stream around any DEFLATE blocks. *)
Definition zlib_encode (cmf flags : Z) (bs : list block) (checksum : list Z) : list Z :=
  [cmf; flags] ++ pack_bits (encode_blocks bs) ++ checksum.

(** [uncompress_data] up to the body. *)
Lemma uncompress_run cmf flags body checksum : is_byte cmf → is_byte flags → len checksum = 4 →
  len body < 2^32 → Forall is_byte checksum →
  uncompress_data ([cmf; flags] ++ body ++ checksum) =
    if header_ok cmf flags then
      data ← (decompress (InflateContext_new body)).1;
      if adler32 data =? le_value checksum then Ok data else Err
    else Err.
Proof.
  intros Hc Hf Hl Hb Hck. unfold uncompress_data. set (bytes := _ ++ body ++ checksum).
  pose proof (len_nonneg body).
  assert (len bytes = 6 + len body) as El by (unfold bytes; rewrite !len_app, !len_cons, len_nil; lia).
  rewrite (proj2 (Z.ltb_lt _ _)) by lia. cbn [rassert mbind outcome_bind].
  assert (index bytes 0 = Ok cmf) as -> by done. assert (index bytes 1 = Ok flags) as -> by done.
  cbn [mbind outcome_bind]. unfold header_ok, fits in *.
  change 15 with (2^4 - 1). rewrite !land_ones_mod, (Z.shiftr_div_pow2 cmf 4) by done.
  change (2^4) with 16. rewrite (Z.mod_small (cmf / 16) 16)
    by (split; [by apply Z.div_pos; lia|apply Z.div_lt_upper_bound; lia]).
  change 8 with 0x08. destruct (cmf mod 16 =? 0x08); [|done]. cbn [negb reject_if mbind outcome_bind andb].
  replace (0x07 <? cmf / 16) with (negb (cmf / 16 <=? 7)) by lia.
  destruct (cmf / 16 <=? 7); [|done]. cbn [negb reject_if mbind outcome_bind andb].
  destruct ((cmf * 256 + flags) mod 31 =? 0); [|done]. cbn [negb reject_if mbind outcome_bind andb].
  assert (negb (Z.land (Z.shiftr flags 5) 1 =? 0) = Z.testbit flags 5) as ->.
  { change 1 with (2^1 - 1). rewrite land_ones_mod by done. rewrite Z.shiftr_div_pow2 by done.
    pose proof (Z.testbit_spec' flags 5 ltac:(lia)) as Hbit. change (2^1) with 2. rewrite <- Hbit.
    by destruct (Z.testbit flags 5). }
  destruct (Z.testbit flags 5); [done|]. cbn [negb reject_if mbind outcome_bind].
  rewrite El. replace (6 + len body - 4) with (2 + len body) by lia. rewrite u64_small by lia.
  rewrite (slice_app_middle [cmf; flags] body checksum) by done. cbn [mbind outcome_bind].
  destruct (decompress _).1; cbn [mbind outcome_bind]; try done.
  assert (slice_from bytes (2 + len body) = Ok checksum) as ->.
  { unfold slice_from, bytes. rewrite (app_assoc [cmf; flags] body checksum).
    rewrite <- (app_nil_r checksum) at 1. apply (slice_app_middle ([cmf; flags] ++ body) checksum []).
    - by rewrite len_app.
    - rewrite !len_app. lia. }
  cbn [fmap outcome_fmap mbind outcome_bind]. by destruct (adler32 a =? le_value checksum).
Qed.


(** A dynamic header for the letter [a], the end of the block and one distance. *)
Definition demo_dynamic : dynamic :=
  mk_dynamic (replicate 97 0 ++ [1] ++ replicate 158 0 ++ [1]) [1] 18
    ([0; 1] ++ replicate 16 0 ++ [1])
    [IManyZeros 86; ILen 1; IManyZeros 127; IManyZeros 9; ILen 1; ILen 1].
Definition demo_blocks : list block :=
  [Stored [98; 99]; Fixed [Lit 97; Match 2 0 1 0]; Dynamic demo_dynamic [Lit 97; Lit 97]].

Lemma demo_dynamic_ok : dynamic_ok demo_dynamic.
Proof.
  constructor; cbn [demo_dynamic d_hclen d_cl d_instrs d_lits d_dists]; repeat split_and;
    try (apply (bool_decide_unpack _); vm_compute; exact I); try done; lia.
Qed.
Lemma demo_blocks_ok : blocks_ok [] demo_blocks.
Proof.
  unfold demo_blocks; cbn [blocks_ok block_ok]. repeat split_and; try exact I.
  - repeat constructor; done.
  - done.
  - apply (bool_decide_unpack _). vm_compute. exact I.
  - apply demo_dynamic_ok.
  - apply (bool_decide_unpack _). vm_compute. exact I.
Qed.


(** What the compressor of the zlib library makes of two short texts. *)
Example zlib_fixed : uncompress_data
  [120; 156; 75; 76; 74; 78; 68; 70; 48; 0; 0; 114; 185; 9; 40] =
  Ok ([97; 98; 99] ++ [97; 98; 99] ++ [97; 98; 99] ++ [97; 98; 99] ++ [97; 98; 99] ++ replicate 9 97).
Proof. vm_compute. reflexivity. Qed.

(** C16: for code lengths that are not over-subscribed, [build_huffman] succeeds
    and [decode] with its table reads back the canonical code of any symbol,
    taking exactly its bits. *)
Theorem decode_inverts_code lens s rest c :
  valid_code lens → has_code lens s → ctx_wf c → bits_of c = encode lens s ++ rest →
  ∃ h c', build_huffman lens (len lens) Huff_new = Ok h ∧ decode h c = (Ok (Z.of_nat s), c') ∧
    bits_of c' = rest ∧ ctx_wf c' ∧ same_output c c'.
Proof.
  intros Hv Hs Hw E.
  destruct (build_huffman_spec lens [] Huff_new (proj1 Hv) huff_new_shape) as (h & B & T).
  rewrite app_nil_r in B. destruct (has_code_spec lens s Hv Hs) as (Hx & Hr & Hk).
  destruct (decode_spec lens h s _ rest c T (proj1 Hv) Hx Hr Hk Hw E) as (c' & R & ?).
  by exists h, c'.
Qed.

Lemma decode_inverts_code_witness :
  ∃ h c', build_huffman [2; 1; 3; 3] 4 Huff_new = Ok h ∧
    decode h (InflateContext_new [3]) = (Ok 2, c') ∧ ctx_wf c'.
Proof.
  destruct (decode_inverts_code [2; 1; 3; 3] 2 [false; false; false; false; false] (InflateContext_new [3]))
    as (h & c' & B & R & _ & W & _).
  - apply (bool_decide_unpack _). vm_compute. exact I.
  - done.
  - done.
  - vm_compute. reflexivity.
  - change (len [2; 1; 3; 3]) with 4 in B. change (Z.of_nat 2) with 2 in R.
    exists h, c'. exact (conj B (conj R W)).
Defined.

(** C17: [uncompress_data] ends on every input: no loop outruns the bits left. *)
Theorem uncompress_ends bytes : uncompress_data bytes ≠ NoFuel.
Proof.
  unfold uncompress_data.
  do 7 (apply bind_fuel; [first [apply rassert_fuel|apply index_fuel|apply reject_fuel]|intros ?]).
  apply bind_fuel; [apply slice_fuel|intros body]. apply bind_fuel; [apply decompress_ends|intros data].
  apply bind_fuel; [|intros ck; apply bind_fuel; [apply reject_fuel|intros; discriminate]].
  unfold slice_from, slice. case_decide; discriminate.
Qed.

(** ** Stored blocks as RFC 1951 writes them *)

Lemma le_bits_app m n v : le_bits (m + n) v = le_bits m v ++ le_bits n (v / 2 ^ Z.of_nat m).
Proof.
  revert v. induction m as [|m IH]; intros v; [by rewrite Z.div_1_r|].
  cbn [Nat.add le_bits app]. rewrite IH, Nat2Z.inj_succ, Z.pow_succ_r by lia.
  assert (0 < 2 ^ Z.of_nat m) by (apply Z.pow_pos_nonneg; lia). by rewrite Z.div_div by lia.
Qed.

Lemma bits_value_app l k : bits_value (l ++ k) = bits_value l + 2 ^ len l * bits_value k.
Proof.
  induction l as [|b l IH].
  { cbn [app bits_value]. change (2 ^ len []) with 1. lia. }
  cbn [app bits_value]. pose proof (len_nonneg l). rewrite IH, len_cons, Z.pow_add_r by lia. lia.
Qed.

Lemma le_bits_mod n v : le_bits n (v mod 2 ^ Z.of_nat n) = le_bits n v.
Proof.
  apply list_eq_same_length with n; [by rewrite length_le_bits|by rewrite length_le_bits|].
  intros i x y Hi. rewrite !le_bits_lookup, Z.mod_pow2_bits_low by lia. congruence.
Qed.

(** The bytes of an aligned stored block: one byte with the three header bits,
    [LEN], its complement, the data. *)
Definition rfc_stored (data : list Z) : list Z :=
  [1] ++ le_bytes 2 (len data) ++ le_bytes 2 (u16_max - len data) ++ data.

Lemma rfc_stored_bits data :
  bytes_bits (rfc_stored data) =
    true :: le_bits 2 0 ++ (le_bits 5 0 ++ le_bits 11 (len data)) ++
    (le_bits 5 (len data / 2^11) ++ le_bits 11 (u16_max - len data)) ++
    le_bits 5 ((u16_max - len data) / 2^11) ++ bytes_bits data.
Proof.
  assert (∀ v, bytes_bits (le_bytes 2 v) = le_bits 16 v) as H16.
  { intros v. unfold bytes_bits. cbn [le_bytes fmap list_fmap concat].
    change 8%Z with (Z.of_nat 8). rewrite !le_bits_mod, app_nil_r. symmetry. apply (le_bits_app 8 8). }
  unfold rfc_stored, bytes_bits. rewrite !fmap_app, !concat_app.
  change (concat (le_bits 8 <$> ?l)) with (bytes_bits l). rewrite !H16.
  assert (∀ v, le_bits 16 v = le_bits 11 v ++ le_bits 5 (v / 2^11)) as ES by apply (le_bits_app 11 5).
  rewrite !ES, <- !app_assoc. reflexivity.
Qed.

(** A stored block whose header is 5 bits short of the boundary. *)
Lemma uncompressed_misaligned L rest c : 0 ≤ L < 63488 → ctx_wf c →
  bits_of c = (le_bits 5 0 ++ le_bits 11 L) ++ (le_bits 5 (L / 2^11) ++ le_bits 11 (u16_max - L)) ++ rest →
  ∃ c', uncompressed c = (Err, c').
Proof.
  intros HL Hw E.
  assert (∀ v w, len (le_bits 5 v ++ le_bits 11 w) = 16) as Hl
    by (intros; rewrite len_app; unfold len; by rewrite !length_le_bits).
  assert (∀ v w, bits_value (le_bits 5 v ++ le_bits 11 w) = v mod 2^5 + 2^5 * (w mod 2^11)) as Hv.
  { intros. rewrite bits_value_app, !bits_value_le_bits. unfold len. by rewrite length_le_bits. }
  pose proof (Z.mod_pos_bound L (2^11) eq_refl). pose proof (Z.mod_pos_bound (u16_max - L) (2^11) eq_refl).
  pose proof (Z.div_pos L (2^11) ltac:(lia) ltac:(done)).
  pose proof (Z.div_lt_upper_bound L (2^11) 31 ltac:(done) ltac:(lia)).
  unfold uncompressed, u16_max in *.
  destruct (get_bits_spec _ _ c Hw E) as (c1 & R1 & E1 & W1 & _); [by rewrite Hl|].
  destruct (get_bits_spec _ _ c1 W1 E1) as (c2 & R2 & _); [by rewrite Hl|]. rewrite Hl, Hv in R1, R2.
  change (0 mod 2^5) with 0 in R1. rewrite (Z.mod_small (L / 2^11)) in R2 by lia.
  pstep R1. rewrite (bind_Ok _ _ _ tt c1) by (unfold lift; by rewrite (proj2 (Z.leb_le _ _)) by lia).
  pstep R2. rewrite (bind_Ok _ _ _ tt c2) by (unfold lift; by rewrite (proj2 (Z.leb_le _ _)) by lia).
  exists c2. apply bind_Err. unfold lift. by rewrite (proj2 (Z.eqb_neq _ _)) by lia.
Qed.

(** RFC 1951 (which the file cites) starts [LEN] at the next byte boundary;
    [uncompressed] reads it from the next bit.  So the decoder refuses every
    conforming stream made of one stored block of less than 63488 bytes. *)
Lemma stored_block_rejected data : len data < 63488 →
  (decompress (InflateContext_new (rfc_stored data))).1 = Err.
Proof.
  intros Hl. pose proof (ctx_at_new (rfc_stored data)) as H. rewrite rfc_stored_bits in H.
  unfold decompress. destruct build_fixed_spec as (hl & hd & B & _).
  set (c := InflateContext_new _) in *.
  rewrite (bind_Ok _ _ _ (hl, hd) c) by (unfold lift; by rewrite B).
  clear B. rewrite (bind_Ok (gets bit_fuel) _ c (bit_fuel c) c eq_refl). unfold bit_fuel. cbn [decompress_loop].
  destruct (read_bit _ _ _ _ H) as (c1 & R1 & H1).
  destruct (read_bits 2 0 _ _ c1 H1) as (c2 & R2 & H2); [lia|done|]. change (Z.of_nat 2) with 2 in R2.
  destruct (uncompressed_misaligned (len data) _ c2 (conj (len_nonneg data) Hl)
    (ca_wf _ _ _ H2) (ca_bits _ _ _ H2)) as (c3 & R3).
  rewrite (bind_Err _ _ c c3); [done|]. pstep R1. pstep R2. by apply bind_Err.
Qed.

Lemma stored_block_rejected_witness :
  (decompress (InflateContext_new [1; 2; 0; 253; 255; 104; 105])).1 = Err.
Proof. exact (stored_block_rejected [104; 105] eq_refl). Defined.
