(* ===== verification/Uuid.v ===== *)
(** src/src/libs/uuid.rs: the identifiers of GPT disks and partitions.

    A [Uuid] is read from 16 bytes, compared with the usual textual form, and
    printed in a form of its own. *)

From S2P Require Import Prelude.

Record Uuid := mk_uuid { uuid_a : Z; uuid_b : Z; uuid_c : Z; uuid_d : list Z }.

#[export] Instance Uuid_eq_dec : EqDecision Uuid.
Proof. solve_decision. Defined.

(** [From<[u8; 16]>] *)
Definition uuid_from (value : list Z) : outcome Uuid :=
  a ← read_le value 0 4;
  b ← read_le value 4 6;
  c ← read_le value 6 8;
  d ← slice value 8 16;
  mret (mk_uuid a b c d).

(** [PartialEq] *)
Definition uuid_eq (x y : Uuid) : bool :=
  (uuid_a x =? uuid_a y) && (uuid_b x =? uuid_b y) && (uuid_c x =? uuid_c y) && bool_decide (uuid_d x = uuid_d y).

(** ** [uN::from_str_radix(s, 16)] *)

Definition hex_digit (ch : Z) : option Z :=
  if (48 <=? ch) && (ch <=? 57) then Some (ch - 48)
  else if (65 <=? ch) && (ch <=? 70) then Some (ch - 55)
  else if (97 <=? ch) && (ch <=? 102) then Some (ch - 87)
  else None.

Fixpoint hex_value (acc : Z) (s : str) : option Z :=
  match s with
  | [] => Some acc
  | ch :: s' => v ← hex_digit ch; hex_value (16 * acc + v) s'
  end.

(** A leading plus sign is allowed; [max] is the type's largest value. *)
Definition from_str_radix16 (max : Z) (s : str) : option Z :=
  let digits := match s with 43 :: s' => s' | _ => s end in
  v ← (if bool_decide (digits = []) then None else hex_value 0 digits);
  if v <=? max then Some v else None.

Fixpoint parse_bytes (parts : list str) : option (list Z) :=
  match parts with
  | [] => Some []
  | part :: rest =>
      byte ← from_str_radix16 u8_max part;
      bytes ← parse_bytes rest;
      mret (byte :: bytes)
  end.

Definition DASH : Z := 45.

(** [PartialEq<&str>]; [None] is a [return false]. *)
Definition parse_uuid (other : str) : option Uuid :=
  match split_on DASH other with
  | [p0; p1; p2; p3; p4] =>
      a ← from_str_radix16 u32_max p0;
      b ← from_str_radix16 u16_max p1;
      c ← from_str_radix16 u16_max p2;
      d ← parse_bytes (chunks2 (trim (p3 ++ p4)));
      if len d =? 8 then Some (mk_uuid a b c d) else None
  | _ => None
  end.
Definition uuid_eq_str (x : Uuid) (other : str) : bool :=
  match parse_uuid other with Some y => uuid_eq x y | None => false end.

(** ** [Display] *)

Definition hex_char (v : Z) : Z := if v <? 10 then 48 + v else 55 + v.

(** [{:0nX}], cut to [n] digits. *)
Fixpoint hex_fixed (n : nat) (v : Z) : str :=
  match n with O => [] | S n' => hex_fixed n' (v / 16) ++ [hex_char (v mod 16)] end.
(** [{:X}] of a value below [16^n]. *)
Fixpoint hex_min (n : nat) (v : Z) : str :=
  match n with
  | O => []
  | S n' => (if v <? 16 then [] else hex_min n' (v / 16)) ++ [hex_char (v mod 16)]
  end.

Definition uuid_display (x : Uuid) : str :=
  hex_min 8 (uuid_a x) ++ [DASH] ++ hex_min 4 (uuid_b x) ++ [DASH] ++ hex_min 4 (uuid_c x) ++ [DASH] ++
  concat (hex_fixed 2 <$> uuid_d x).

(** * Theorems *)

Record uuid_wf (x : Uuid) : Prop := {
  uw_a : fits 32 (uuid_a x);
  uw_b : fits 16 (uuid_b x);
  uw_c : fits 16 (uuid_c x);
  uw_d : length (uuid_d x) = 8%nat ∧ Forall is_byte (uuid_d x);
}.

(** The 16 bytes of a GPT table. *)
Definition uuid_bytes (x : Uuid) : list Z := le_bytes 4 (uuid_a x) ++ le_bytes 2 (uuid_b x) ++ le_bytes 2 (uuid_c x) ++ uuid_d x.

(** The usual text: 8-4-4-4-12 digits. *)
Definition canonical (x : Uuid) : str :=
  hex_fixed 8 (uuid_a x) ++ [DASH] ++ hex_fixed 4 (uuid_b x) ++ [DASH] ++ hex_fixed 4 (uuid_c x) ++ [DASH] ++
  concat (hex_fixed 2 <$> take 2 (uuid_d x)) ++ [DASH] ++ concat (hex_fixed 2 <$> drop 2 (uuid_d x)).

Lemma read_le_bytes l1 n v l3 (w : Z) (lo hi : Z) : lo = len l1 → hi = len l1 + Z.of_nat n →
  w = 8 * Z.of_nat n → fits w v → read_le (l1 ++ le_bytes n v ++ l3) lo hi = Ok v.
Proof.
  intros -> -> -> Hv. assert (len (le_bytes n v) = Z.of_nat n) as E
    by (unfold len; by rewrite length_le_bytes).
  rewrite read_le_app by (done || by rewrite E). rewrite le_value_bytes, Z.mod_small; [done|].
  unfold fits in Hv. lia.
Qed.

Lemma uuid_from_bytes x : uuid_wf x → uuid_from (uuid_bytes x) = Ok x.
Proof.
  intros [Ha Hb Hc [Hd Hdb]]. unfold uuid_from, uuid_bytes.
  pose proof (read_le_bytes [] 4 (uuid_a x) (le_bytes 2 (uuid_b x) ++ le_bytes 2 (uuid_c x) ++ uuid_d x) 32 0 4) as E.
  cbn [app] in E. rewrite E by done. cbn [mbind outcome_bind]. clear E.
  rewrite (read_le_bytes (le_bytes 4 (uuid_a x)) 2 (uuid_b x) _ 16 4 6) by done. cbn [mbind outcome_bind].
  rewrite (app_assoc (le_bytes 4 _)), (read_le_bytes (le_bytes 4 (uuid_a x) ++ le_bytes 2 (uuid_b x)) 2 (uuid_c x) _ 16 6 8) by done.
  cbn [mbind outcome_bind]. rewrite (app_assoc _ (le_bytes 2 (uuid_c x))), <- (app_nil_r (uuid_d x)) at 1.
  rewrite (slice_app_middle _ (uuid_d x) []); [by destruct x|done|].
  unfold len. rewrite Hd. done.
Qed.

(** ** Digits *)

Definition is_hex (ch : Z) : bool := bool_decide (hex_digit ch ≠ None).

Lemma hex_char_digit v : 0 ≤ v < 16 → hex_digit (hex_char v) = Some v.
Proof.
  intros Hv. unfold hex_digit, hex_char. destruct (v <? 10) eqn:C.
  - replace (_ && _) with true by lia. f_equal. lia.
  - replace (_ && _) with false by lia. replace (_ && _) with true by lia. f_equal. lia.
Qed.
Lemma hex_char_range v : 0 ≤ v < 16 → 48 ≤ hex_char v ≤ 70.
Proof. unfold hex_char. case_match; lia. Qed.

Lemma hex_chars_ok (P : Z → Prop) : (∀ ch, 48 ≤ ch ≤ 70 → P ch) →
  (∀ n v, Forall P (hex_fixed n v)) ∧ (∀ n v, Forall P (hex_min n v)).
Proof.
  intros HP. split; intros n; induction n as [|n IH]; intros v; cbn; [constructor| |constructor|].
  all: apply Forall_app; split;
    [first [apply IH|case_match; [constructor|apply IH]]
    |constructor; [apply HP, hex_char_range; by apply Z.mod_pos_bound|constructor]].
Qed.
Lemma hex_no_dash n v : Forall (λ x, x ≠ DASH) (hex_fixed n v).
Proof. apply hex_chars_ok. unfold DASH. intros; lia. Qed.
Lemma hex_min_no_dash n v : Forall (λ x, x ≠ DASH) (hex_min n v).
Proof. apply hex_chars_ok. unfold DASH. intros; lia. Qed.
Lemma hex_no_space n v : Forall (λ x, is_whitespace x = false) (hex_fixed n v).
Proof. apply hex_chars_ok. unfold is_whitespace. intros; lia. Qed.
Lemma bytes_chars (P : Z → Prop) l : (∀ n v, Forall P (hex_fixed n v)) → Forall P (concat (hex_fixed 2 <$> l)).
Proof. intros H. induction l; [constructor|]. cbn [fmap list_fmap concat]. apply Forall_app. by split. Qed.

Lemma length_hex_fixed n v : length (hex_fixed n v) = n.
Proof. revert v. induction n; intros; cbn; [done|]. rewrite length_app, IHn. cbn. lia. Qed.

Lemma hex_value_app acc s t : hex_value acc (s ++ t) = v ← hex_value acc s; hex_value v t.
Proof.
  revert acc. induction s as [|ch s IH]; intros acc; [done|]. cbn.
  destruct (hex_digit ch); cbn; [apply IH|done].
Qed.

Lemma hex_value_fixed n acc v : hex_value acc (hex_fixed n v) = Some (16 ^ Z.of_nat n * acc + v mod 16 ^ Z.of_nat n).
Proof.
  revert v. induction n as [|n IH]; intros v; cbn [hex_fixed hex_value].
  { rewrite Z.mod_1_r. change (16 ^ Z.of_nat 0) with 1. f_equal. lia. }
  rewrite hex_value_app, IH. cbn [mbind option_bind hex_value].
  rewrite hex_char_digit by (by apply Z.mod_pos_bound). cbn [mbind option_bind]. f_equal.
  rewrite Nat2Z.inj_succ, Z.pow_succ_r by lia.
  assert (0 < 16 ^ Z.of_nat n) by (apply Z.pow_pos_nonneg; lia).
  rewrite (Z.rem_mul_r v 16) by lia. lia.
Qed.

Lemma from_str_radix16_fixed n v max : (0 < n)%nat → 0 ≤ v < 16 ^ Z.of_nat n → v ≤ max →
  from_str_radix16 max (hex_fixed n v) = Some v.
Proof.
  intros Hn Hv Hm. unfold from_str_radix16.
  assert (Forall (λ x, x ≠ 43) (hex_fixed n v)) as Hp by (apply hex_chars_ok; intros; lia).
  assert (hex_fixed n v ≠ []) as Hne
    by (intros E; pose proof (length_hex_fixed n v) as Hl; rewrite E in Hl; cbn in Hl; lia).
  replace (match hex_fixed n v with 43 :: s' => s' | _ => hex_fixed n v end) with (hex_fixed n v).
  - rewrite bool_decide_false by done. rewrite hex_value_fixed. cbn [mbind option_bind].
    rewrite Z.mul_0_r, Z.add_0_l, Z.mod_small by done. by rewrite (proj2 (Z.leb_le _ _)).
  - destruct (hex_fixed n v) as [|ch s]; [done|]. apply Forall_cons in Hp as [Hp _].
    repeat (case_match; try done).
Qed.

Lemma parse_bytes_hex l : Forall is_byte l → parse_bytes (chunks2 (concat (hex_fixed 2 <$> l))) = Some l.
Proof.
  induction 1 as [|x l Hx _ IH]; [done|]. cbn [fmap list_fmap concat].
  change (concat _) with (concat (hex_fixed 2 <$> l)).
  pose proof (length_hex_fixed 2 x) as Hl.
  destruct (hex_fixed 2 x) as [|h1 [|h2 [|]]] eqn:E; try done. cbn [app chunks2 parse_bytes].
  rewrite <- E, from_str_radix16_fixed by (done || unfold fits, u8_max in *; cbn; lia).
  cbn [mbind option_bind]. by rewrite IH.
Qed.

Lemma parse_canonical x : uuid_wf x → parse_uuid (canonical x) = Some x.
Proof.
  intros [Ha Hb Hc [Hd Hdb]]. unfold parse_uuid, canonical. cbn [app].
  rewrite !split_on_app by (apply hex_no_dash || apply bytes_chars, hex_no_dash).
  rewrite split_on_none by (apply bytes_chars, hex_no_dash). unfold fits in *.
  rewrite !from_str_radix16_fixed by (try done; unfold u32_max, u16_max; cbn; lia).
  cbn [mbind option_bind]. rewrite <- concat_app, <- fmap_app, take_drop.
  rewrite trim_none by (apply bytes_chars, hex_no_space).
  rewrite parse_bytes_hex by done. cbn [mbind option_bind].
  unfold len. rewrite Hd. by destruct x.
Qed.

Lemma uuid_eq_spec x y : uuid_eq x y = bool_decide (x = y).
Proof.
  destruct x as [a1 b1 c1 d1], y as [a2 b2 c2 d2]. unfold uuid_eq; cbn [uuid_a uuid_b uuid_c uuid_d].
  apply eq_true_iff_eq. rewrite bool_decide_eq_true, !andb_true_iff, !Z.eqb_eq, bool_decide_eq_true.
  split; [intros [[[-> ->] ->] ->]; done|]. intros [= -> -> -> ->]. done.
Qed.

(** A [Uuid] read from the bytes of a GPT table equals exactly its own text
    in the usual 8-4-4-4-12 form; what [Display] prints for any [Uuid] has no
    fourth dash, so no [Uuid] equals it. *)
Lemma uuid_eq_str_spec x y : uuid_wf x → uuid_wf y →
  (z ← uuid_from (uuid_bytes x); mret (uuid_eq_str z (canonical y))) = Ok (bool_decide (x = y)) ∧
  uuid_eq_str x (uuid_display y) = false.
Proof.
  intros Hx Hy. split.
  - rewrite uuid_from_bytes by done. cbn [mbind outcome_bind mret outcome_ret]. unfold uuid_eq_str. rewrite parse_canonical by done.
    by rewrite uuid_eq_spec.
  - unfold uuid_eq_str, parse_uuid, uuid_display. cbn [app].
    rewrite !split_on_app by apply hex_min_no_dash.
    by rewrite split_on_none by (apply bytes_chars, hex_no_dash).
Qed.

(** The EFI system partition's type. *)
Definition esp_guid : Uuid := mk_uuid 0xC12A7328 0xF81F 0x11D2 [0xBA; 0x4B; 0; 0xA0; 0xC9; 0x3E; 0xC9; 0x3B].
Lemma esp_guid_wf : uuid_wf esp_guid.
Proof. constructor; unfold fits; cbn; try lia. split; [done|]. repeat constructor; done. Qed.

Lemma uuid_eq_str_spec_witness :
  uuid_eq_str esp_guid (chars "C12A7328-F81F-11D2-BA4B-00A0C93EC93B") = true ∧
  uuid_eq_str esp_guid (uuid_display esp_guid) = false.
Proof.
  destruct (uuid_eq_str_spec esp_guid esp_guid esp_guid_wf esp_guid_wf) as [E1 E2].
  split; [|exact E2]. rewrite uuid_from_bytes in E1 by exact esp_guid_wf.
  rewrite bool_decide_true in E1 by done.
  exact (f_equal (λ o, match o with Ok v => v | _ => false end) E1).
Defined.
