(* ===== verification/Pointers.v ===== *)
(** src/src/mem/mod.rs: [PhysicalPtr] and [VirtualPtr], the typed pointers the kernel
    passes around.

    A pointer is its address, tagged with what it points at; memory is a byte at
    each virtual address.  [Repr] is what the compiler knows of a type: its size,
    alignment and the bytes of its values.  Reading what is no value of the type, or
    through a null or misaligned pointer, is undefined. *)

From S2P Require Import Prelude Mem Uuid.

(** ** Types in memory *)

Class Repr (T : Type) := {
  size_of : Z;
  align_of : Z;
  encode : T → list Z;
  decode : list Z → option T;
  valid : T → Prop;
}.
Arguments size_of T {_}.
Arguments align_of T {_}.

Class ReprSpec (T : Type) `{Repr T} := {
  repr_align : 0 < align_of T ∧ (align_of T | size_of T);
  repr_size : 0 < size_of T;
  repr_len : ∀ x, valid x → len (encode x) = size_of T;
  repr_round : ∀ x, valid x → decode (encode x) = Some x;
}.

(** ** The pointers *)

Record PhysicalPtr (T : Type) := mk_physical { p_inner : Z }.
Record VirtualPtr (T : Type) := mk_virtual { v_inner : Z }.
Arguments mk_physical {T}.
Arguments p_inner {T}.
Arguments mk_virtual {T}.
Arguments v_inner {T}.

(** [{:p}] *)
Definition lower_hex_digit (v : Z) : Z := if v <? 10 then 48 + v else 87 + v.
Fixpoint lower_hex (n : nat) (v : Z) : str :=
  match n with
  | O => []
  | S n' => (if v <? 16 then [] else lower_hex n' (v / 16)) ++ [lower_hex_digit (v mod 16)]
  end.

Section addresses.
Context {T : Type} `{Repr T}.

(** [ptr.add], [ptr.sub] and [ptr.offset] of [core]: the count is in values of [T]. *)
Definition raw_add (a count : Z) : Z := u64 (a + count * size_of T).
Definition raw_sub (a count : Z) : Z := u64 (a - count * size_of T).

Definition PhysicalPtr_new (ptr : Z) : PhysicalPtr T := mk_physical ptr.
Definition PhysicalPtr_null_mut : PhysicalPtr T := mk_physical 0.
Definition PhysicalPtr_as_raw_ptr (p : PhysicalPtr T) : Z := p_inner p.
Definition PhysicalPtr_addr (p : PhysicalPtr T) : Z := p_inner p.
Definition PhysicalPtr_is_null (p : PhysicalPtr T) : bool := is_null (p_inner p).
Definition PhysicalPtr_add (p : PhysicalPtr T) (count : Z) : PhysicalPtr T := PhysicalPtr_new (raw_add (p_inner p) count).
Definition PhysicalPtr_sub (p : PhysicalPtr T) (count : Z) : PhysicalPtr T := PhysicalPtr_new (raw_sub (p_inner p) count).
(** [count] is signed. *)
Definition PhysicalPtr_offset (p : PhysicalPtr T) (count : Z) : PhysicalPtr T := PhysicalPtr_new (raw_add (p_inner p) count).
Definition PhysicalPtr_cast {U : Type} (p : PhysicalPtr T) : PhysicalPtr U := mk_physical (p_inner p).
Definition PhysicalPtr_from_usize (addr : Z) : PhysicalPtr T := mk_physical addr.
Definition PhysicalPtr_from_mut (ptr : Z) : PhysicalPtr T := mk_physical ptr.
Definition PhysicalPtr_from_const (ptr : Z) : PhysicalPtr T := mk_physical ptr.
Definition PhysicalPtr_fmt (p : PhysicalPtr T) : str := chars "PhysicalPtr(0x" ++ lower_hex 16 (p_inner p) ++ chars ")".
Definition PhysicalPtr_pointer_fmt (p : PhysicalPtr T) : str := chars "PhysicalPtr(0x" ++ lower_hex 16 (p_inner p) ++ chars ")".

Definition VirtualPtr_new (ptr : Z) : VirtualPtr T := mk_virtual ptr.
Definition VirtualPtr_null_mut : VirtualPtr T := mk_virtual 0.
Definition VirtualPtr_addr (p : VirtualPtr T) : Z := v_inner p.
Definition VirtualPtr_as_raw_ptr (p : VirtualPtr T) : Z := v_inner p.
Definition VirtualPtr_is_null (p : VirtualPtr T) : bool := is_null (v_inner p).
Definition VirtualPtr_add (p : VirtualPtr T) (count : Z) : VirtualPtr T := VirtualPtr_new (raw_add (v_inner p) count).
Definition VirtualPtr_sub (p : VirtualPtr T) (count : Z) : VirtualPtr T := VirtualPtr_new (raw_sub (v_inner p) count).
Definition VirtualPtr_offset (p : VirtualPtr T) (count : Z) : VirtualPtr T := VirtualPtr_new (raw_add (v_inner p) count).
Definition VirtualPtr_cast {U : Type} (p : VirtualPtr T) : VirtualPtr U := mk_virtual (v_inner p).
Definition VirtualPtr_from_usize (addr : Z) : VirtualPtr T := mk_virtual addr.
Definition VirtualPtr_from_mut (ptr : Z) : VirtualPtr T := mk_virtual ptr.
Definition VirtualPtr_from_const (ptr : Z) : VirtualPtr T := mk_virtual ptr.
Definition VirtualPtr_fmt (p : VirtualPtr T) : str := chars "VirtualPtr(0x" ++ lower_hex 16 (v_inner p) ++ chars ")".
Definition VirtualPtr_pointer_fmt (p : VirtualPtr T) : str := chars "VirtualPtr(0x" ++ lower_hex 16 (v_inner p) ++ chars ")".
End addresses.

(** ** Memory *)

Abbreviation memory := (Z → Z).
Notation M := (prog memory).

Definition put_bytes (a : Z) (bytes : list Z) (m : memory) : memory := λ x,
  if (a <=? x) && (x <? a + len bytes) then nth (Z.to_nat (x - a)) bytes 0 else m x.

(** [n] bytes at [a], none of them the null page's first. *)
Definition range_ok (a n : Z) : bool := negb (is_null a) && (a + n <=? 2^64).

Section memory.
Context {T : Type} `{Repr T}.

Definition aligned (a : Z) : bool := a mod align_of T =? 0.
Definition load (a : Z) : M T := λ m,
  if range_ok a (size_of T) then (of_option Undef (decode (read_bytes m a (Z.to_nat (size_of T)))), m) else (Undef, m).
Definition save (a : Z) (x : T) : M unit := λ m,
  if range_ok a (size_of T) then (Ok tt, put_bytes a (encode x) m) else (Undef, m).

Definition VirtualPtr_read_unaligned (p : VirtualPtr T) : M T := load (v_inner p).
Definition VirtualPtr_read (p : VirtualPtr T) : M T := if aligned (v_inner p) then load (v_inner p) else lift Undef.
Definition VirtualPtr_read_volatile (p : VirtualPtr T) : M T := if aligned (v_inner p) then load (v_inner p) else lift Undef.
Definition VirtualPtr_write_unaligned (p : VirtualPtr T) (x : T) : M unit := save (v_inner p) x.
Definition VirtualPtr_write (p : VirtualPtr T) (x : T) : M unit := if aligned (v_inner p) then save (v_inner p) x else lift Undef.
Definition VirtualPtr_write_volatile (p : VirtualPtr T) (x : T) : M unit :=
  if aligned (v_inner p) then save (v_inner p) x else lift Undef.

(** The count is in values of [T]. *)
Definition VirtualPtr_write_bytes (p : VirtualPtr T) (val count : Z) : M unit := λ m,
  if aligned (v_inner p) && range_ok (v_inner p) (count * size_of T)
  then (Ok tt, put_bytes (v_inner p) (replicate (Z.to_nat (count * size_of T)) val) m) else (Undef, m).

(** [core::ptr::copy_nonoverlapping] *)
Definition copy_nonoverlapping (src dst count : Z) : M unit := λ m,
  let n := count * size_of T in
  if aligned src && aligned dst && range_ok src n && range_ok dst n && ((src + n <=? dst) || (dst + n <=? src))
  then (Ok tt, put_bytes dst (read_bytes m src (Z.to_nat n)) m) else (Undef, m).
Definition VirtualPtr_copy_to_nonoverlapping (p dest : VirtualPtr T) (count : Z) : M unit :=
  copy_nonoverlapping (v_inner p) (VirtualPtr_as_raw_ptr dest) count.
Definition VirtualPtr_copy_from_nonoverlapping (p src : VirtualPtr T) (count : Z) : M unit :=
  copy_nonoverlapping (VirtualPtr_as_raw_ptr src) (v_inner p) count.

(** A reference is its address. *)
Definition VirtualPtr_as_ref (p : VirtualPtr T) : outcome (option Z) :=
  if is_null (v_inner p) then Ok None
  else if aligned (v_inner p) then Ok (Some (v_inner p)) else Undef.
Definition VirtualPtr_as_mut (p : VirtualPtr T) : outcome (option Z) :=
  if is_null (v_inner p) then Ok None
  else if aligned (v_inner p) then Ok (Some (v_inner p)) else Undef.
End memory.

(** ** The integers *)

(** A [w]-byte unsigned integer. *)
Record uint (w : nat) := Uint { uval : Z }.
Arguments Uint {w}.
Arguments uval {w}.
#[export] Instance uint_repr w : Repr (uint w) := {
  size_of := Z.of_nat w;
  align_of := Z.of_nat w;
  encode x := le_bytes w (uval x);
  decode bytes := Some (Uint (le_value bytes));
  valid x := fits (8 * Z.of_nat w) (uval x);
}.
#[export] Instance uint_spec w : (0 < w)%nat → ReprSpec (uint w).
Proof.
  intros Hw. constructor; cbn; [split; [lia|done]|lia|intros; apply len_le_bytes|].
  intros [x] Hx. cbn in *. by rewrite le_value_le_bytes.
Qed.
Abbreviation u8_t := (uint 1).
Abbreviation u32_t := (uint 4).
Abbreviation u64_t := (uint 8).
(** A pointer is stored as its address. *)
#[export] Instance virtual_repr T : Repr (VirtualPtr T) := {
  size_of := 8;
  align_of := 8;
  encode p := le_bytes 8 (v_inner p);
  decode bytes := Some (mk_virtual (le_value bytes));
  valid p := fits 64 (v_inner p);
}.
#[export] Instance virtual_spec T : ReprSpec (VirtualPtr T).
Proof.
  constructor; cbn -[le_bytes le_value len]; [split; [lia|done]|lia|intros; exact (len_le_bytes 8 _)|].
  intros [x] Hx. cbn -[le_bytes le_value] in *. by rewrite le_value_le_bytes.
Qed.

(** * Bytes put and read *)

Lemma read_bytes_ext (m m' : memory) a b n : (∀ i, 0 ≤ i < Z.of_nat n → m (a + i) = m' (b + i)) →
  read_bytes m a n = read_bytes m' b n.
Proof.
  intros E. unfold read_bytes. apply list_fmap_ext. intros i x Hx.
  apply lookup_seqZ in Hx as [-> ?]. rewrite Z.add_0_l. apply E. lia.
Qed.
Lemma nth_read_bytes (m : memory) a n i : (i < n)%nat → nth i (read_bytes m a n) 0 = m (a + Z.of_nat i).
Proof.
  intros Hi. rewrite (nth_lookup_Some _ _ _ (m (a + Z.of_nat i))); [done|]. unfold read_bytes.
  rewrite list_lookup_fmap, lookup_seqZ_lt by lia. by rewrite Z.add_0_l.
Qed.

Lemma put_bytes_in a bytes m i : 0 ≤ i < len bytes → put_bytes a bytes m (a + i) = nth (Z.to_nat i) bytes 0.
Proof.
  intros Hi. unfold put_bytes. rewrite (proj2 (Z.leb_le _ _)), (proj2 (Z.ltb_lt _ _)) by lia. cbn [andb]. f_equal. lia.
Qed.
Lemma put_bytes_out a bytes m x : x < a ∨ a + len bytes ≤ x → put_bytes a bytes m x = m x.
Proof.
  intros Hx. unfold put_bytes. destruct Hx; [by rewrite (proj2 (Z.leb_gt _ _)) by lia|].
  rewrite (proj2 (Z.ltb_ge _ _)) by lia. by rewrite andb_false_r.
Qed.

Lemma read_put a bytes m n : len bytes = Z.of_nat n → read_bytes (put_bytes a bytes m) a n = bytes.
Proof.
  intros Hn. apply (nth_ext _ _ 0 0); rewrite length_read_bytes; [unfold len in *; lia|]. intros i Hi.
  rewrite nth_read_bytes, put_bytes_in by lia. f_equal. lia.
Qed.
Lemma read_put_disjoint a bytes m b n : b + Z.of_nat n ≤ a ∨ a + len bytes ≤ b →
  read_bytes (put_bytes a bytes m) b n = read_bytes m b n.
Proof. intros Hd. apply read_bytes_ext. intros i Hi. apply put_bytes_out. lia. Qed.
(** A piece of what has been copied. *)
Lemma read_copied d s m n k w : 0 ≤ k → k + Z.of_nat w ≤ Z.of_nat n →
  read_bytes (put_bytes d (read_bytes m s n) m) (d + k) w = read_bytes m (s + k) w.
Proof.
  intros Hk Hw. apply read_bytes_ext. intros i Hi. rewrite <- !Z.add_assoc.
  rewrite put_bytes_in by (unfold len; rewrite length_read_bytes; lia). rewrite nth_read_bytes by lia. f_equal. lia.
Qed.

(** * Arrays *)

Section arrays.
Context {T : Type} `{HT : Repr T} `{!ReprSpec T}.
Implicit Types (p d : VirtualPtr T) (xs : list T) (m : memory).

(** Reading the [i]th value from [p] on gives the [i]th of the list. *)
Definition holds_array m p xs : Prop := ∀ i x, xs !! i = Some x → VirtualPtr_read (VirtualPtr_add p (Z.of_nat i)) m = (Ok x, m).

(** Room for [n] values at [p]: aligned, not null, inside the address space. *)
Definition room p (n : Z) : Prop :=
  aligned (T:=T) (v_inner p) = true ∧ 0 < v_inner p ∧ v_inner p + n * size_of T ≤ 2^64.

Lemma add_inner p n i : room p n → 0 ≤ i < n → v_inner (VirtualPtr_add p i) = v_inner p + i * size_of T.
Proof using ReprSpec0.
  intros (_ & H1 & H2) Hi. unfold VirtualPtr_add, raw_add. cbn. pose proof repr_size. apply u64_small. nia.
Qed.
Lemma add_ok p n i : room p n → 0 ≤ i < n →
  aligned (T:=T) (v_inner (VirtualPtr_add p i)) = true ∧ range_ok (v_inner (VirtualPtr_add p i)) (size_of T) = true.
Proof using ReprSpec0.
  intros Hr Hi. rewrite (add_inner p n i) by done. destruct Hr as (Ha & H1 & H2). pose proof repr_size.
  destruct repr_align as [Hal [k Hk]]. unfold aligned, range_ok, is_null in *. apply Z.eqb_eq in Ha. split.
  - apply Z.eqb_eq. rewrite Hk. replace (v_inner p + i * (k * align_of T)) with (v_inner p + (i * k) * align_of T) by ring.
    by rewrite Z_mod_plus_full.
  - rewrite (proj2 (Z.eqb_neq _ _)) by nia. apply Z.leb_le. nia.
Qed.

Lemma read_element p n i m : room p n → 0 ≤ i < n →
  VirtualPtr_read (VirtualPtr_add p i) m =
  (of_option Undef (decode (read_bytes m (v_inner p + i * size_of T) (Z.to_nat (size_of T)))), m).
Proof using ReprSpec0.
  intros Hr Hi. destruct (add_ok p n i Hr Hi) as [Ha Hb]. unfold VirtualPtr_read, load. by rewrite Ha, Hb, (add_inner p n).
Qed.
Lemma write_element p n i y m : room p n → 0 ≤ i < n →
  VirtualPtr_write (VirtualPtr_add p i) y m = (Ok tt, put_bytes (v_inner p + i * size_of T) (encode y) m).
Proof using ReprSpec0.
  intros Hr Hi. destruct (add_ok p n i Hr Hi) as [Ha Hb]. unfold VirtualPtr_write, save. by rewrite Ha, Hb, (add_inner p n).
Qed.

(** [write_bytes] fills the room and nothing else. *)
Lemma write_bytes_fills p n val m : room p n → 0 ≤ n →
  ∃ m', VirtualPtr_write_bytes p val n m = (Ok tt, m') ∧
    ∀ x, m' x = if decide (v_inner p ≤ x < v_inner p + n * size_of T) then val else m x.
Proof using ReprSpec0.
  intros (Ha & H1 & H2) Hn. pose proof repr_size as Hs. unfold VirtualPtr_write_bytes, range_ok, is_null.
  rewrite Ha, (proj2 (Z.eqb_neq _ _)), (proj2 (Z.leb_le _ _)) by lia. eexists. split; [reflexivity|]. intros x.
  case_decide as Hx.
  - replace x with (v_inner p + (x - v_inner p)) by lia. rewrite put_bytes_in by (rewrite len_replicate; lia).
    apply nth_lookup_Some. apply lookup_replicate_2. lia.
  - apply put_bytes_out. rewrite len_replicate. lia.
Qed.

Definition element_bytes p (i x : Z) : Prop := v_inner p + i * size_of T ≤ x < v_inner p + (i + 1) * size_of T.

Lemma store_element p xs m i y : room p (len xs) → holds_array m p xs → 0 ≤ i < len xs → valid y →
  ∃ m', VirtualPtr_write (VirtualPtr_add p i) y m = (Ok tt, m') ∧ holds_array m' p (<[Z.to_nat i := y]> xs) ∧
    ∀ x, ¬ element_bytes p i x → m' x = m x.
Proof using ReprSpec0.
  intros Hr Hh Hi Hy. pose proof repr_size as Hs. pose proof (repr_len y Hy) as Hl. eexists.
  split; [by apply (write_element p (len xs))|]. split; [|intros x Hx; apply put_bytes_out; unfold element_bytes in Hx; lia].
  intros j x Hj. pose proof (lookup_lt_Some _ _ _ Hj) as Hlt. rewrite length_insert in Hlt.
  assert (0 ≤ Z.of_nat j < len xs) as Hjr by (unfold len; lia). rewrite (read_element p (len xs)) by done.
  apply list_lookup_insert_Some in Hj as [(<- & -> & _)|[Hne Hj]].
  - rewrite Z2Nat.id, read_put, repr_round by (done || lia). done.
  - rewrite read_put_disjoint.
    + specialize (Hh j x Hj). rewrite (read_element p (len xs)) in Hh by done. injection Hh as Hh. by rewrite Hh.
    + rewrite Hl. destruct (Z.lt_total (Z.of_nat j) i) as [|[|]]; [|lia|]; nia.
Qed.

Lemma copy_array p d xs m : room p (len xs) → room d (len xs) → holds_array m p xs →
  let n := len xs * size_of T in
  v_inner p + n ≤ v_inner d ∨ v_inner d + n ≤ v_inner p →
  let m' := put_bytes (v_inner d) (read_bytes m (v_inner p) (Z.to_nat n)) m in
  holds_array m' d xs ∧ holds_array m' p xs ∧ ∀ x, x < v_inner d ∨ v_inner d + n ≤ x → m' x = m x.
Proof using ReprSpec0.
  intros Hp Hd Hh n Hdis m'. pose proof repr_size as Hs. pose proof (len_nonneg xs) as Hn.
  assert (len (read_bytes m (v_inner p) (Z.to_nat n)) = n) as Hl by (unfold len at 1; rewrite length_read_bytes; lia).
  assert (∀ j x, xs !! j = Some x → 0 ≤ Z.of_nat j < len xs) as Hj.
  { intros j x Hx%lookup_lt_Some. unfold len. lia. }
  split; [|split].
  - intros j x Hx. specialize (Hh j x Hx). specialize (Hj j x Hx).
    rewrite (read_element d (len xs)) by done. rewrite (read_element p (len xs)) in Hh by done. injection Hh as Hh.
    unfold m'. rewrite read_copied by nia. by rewrite Hh.
  - intros j x Hx. specialize (Hh j x Hx). specialize (Hj j x Hx).
    rewrite (read_element p (len xs)) in Hh |- * by done. injection Hh as Hh.
    unfold m'. rewrite read_put_disjoint by (rewrite Hl; nia). by rewrite Hh.
  - intros x Hx. apply put_bytes_out. lia.
Qed.

(** C11: a [VirtualPtr] with room behind it is an array.  Writing through [p.add(i)]
    replaces the [i]th value, whatever its type, and touches no byte outside it;
    [p.add(i).sub(i)] is [p] again.  Copying to a destination that does not overlap
    gives the same array there, leaves the source as it was and every other byte, and
    copying from the other side is the same; an overlapping copy is undefined. *)
Theorem pointer_array_spec p d xs m : room p (len xs) → room d (len xs) → holds_array m p xs →
  (∀ i y, 0 ≤ i < len xs → valid y → VirtualPtr_sub (VirtualPtr_add p i) i = p ∧
    ∃ m', VirtualPtr_write (VirtualPtr_add p i) y m = (Ok tt, m') ∧ holds_array m' p (<[Z.to_nat i := y]> xs) ∧
      ∀ x, ¬ element_bytes p i x → m' x = m x) ∧
  let n := len xs * size_of T in
  if decide (v_inner p + n ≤ v_inner d ∨ v_inner d + n ≤ v_inner p)
  then ∃ m', VirtualPtr_copy_to_nonoverlapping p d (len xs) m = (Ok tt, m') ∧
    VirtualPtr_copy_from_nonoverlapping d p (len xs) m = (Ok tt, m') ∧
    holds_array m' d xs ∧ holds_array m' p xs ∧ ∀ x, x < v_inner d ∨ v_inner d + n ≤ x → m' x = m x
  else VirtualPtr_copy_to_nonoverlapping p d (len xs) m = (Undef, m).
Proof using ReprSpec0.
  intros Hp Hd Hh. split.
  - intros i y Hi Hy. split; [|by apply store_element]. destruct p as [a]. unfold VirtualPtr_sub, raw_sub. 
    rewrite (add_inner _ (len xs)) by done. cbn. unfold VirtualPtr_new. f_equal. destruct Hp as (_ & H1 & H2). cbn in *.
    pose proof repr_size. rewrite Z.add_simpl_r. apply u64_small. nia.
  - intros n. assert (∀ q : VirtualPtr T, room q (len xs) → aligned (T:=T) (v_inner q) = true ∧ range_ok (v_inner q) n = true) as Hok.
    { intros q (H1 & H2 & H3). split; [done|]. unfold range_ok, is_null. rewrite (proj2 (Z.eqb_neq _ _)) by lia. by apply Z.leb_le. }
    destruct (Hok p Hp) as [Hp1 Hp2]. destruct (Hok d Hd) as [Hd1 Hd2].
    unfold VirtualPtr_copy_from_nonoverlapping, VirtualPtr_copy_to_nonoverlapping, copy_nonoverlapping, VirtualPtr_as_raw_ptr.
    fold n. rewrite Hp1, Hp2, Hd1, Hd2. cbn [andb]. case_decide as Hdis.
    + replace ((v_inner p + n <=? v_inner d) || (v_inner d + n <=? v_inner p)) with true.
      * eexists. do 2 (split; [reflexivity|]). by apply copy_array.
      * symmetry. apply orb_true_iff. rewrite !Z.leb_le. done.
    + rewrite !(proj2 (Z.leb_gt _ _)) by lia. done.
Qed.
End arrays.

(** ** Moving between the halves, and printing *)

Section halves.
Context {T : Type} (hhdm_offset : Z).

Definition PhysicalPtr_to_higher_half (p : PhysicalPtr T) : VirtualPtr T :=
  VirtualPtr_new (p_inner (PhysicalPtr_add (PhysicalPtr_cast (U:=u8_t) p) hhdm_offset)).
Definition VirtualPtr_to_lower_half (p : VirtualPtr T) : PhysicalPtr T :=
  PhysicalPtr_new (v_inner (VirtualPtr_sub (VirtualPtr_cast (U:=u8_t) p) hhdm_offset)).

Lemma halves_round p : fits 64 (p_inner p) → VirtualPtr_to_lower_half (PhysicalPtr_to_higher_half p) = p.
Proof using.
  intros Hp. pose proof (higher_lower hhdm_offset (p_inner p) Hp) as E. destruct p as [a].
  unfold to_lower_half, to_higher_half in E. cbn in *. unfold VirtualPtr_to_lower_half, VirtualPtr_sub, raw_sub.
  cbn. unfold raw_add. cbn. rewrite !Z.mul_1_r. by rewrite E.
Qed.
End halves.

(** The digits printed are those of the address. *)
Lemma lower_hex_digit_spec v : 0 ≤ v < 16 → hex_digit (lower_hex_digit v) = Some v.
Proof.
  intros Hv. unfold lower_hex_digit, hex_digit. destruct (v <? 10) eqn:C.
  - rewrite (proj2 (Z.leb_le _ _)), (proj2 (Z.leb_le _ _)) by lia. cbn [andb]. f_equal. lia.
  - apply Z.ltb_ge in C. rewrite (proj2 (Z.leb_gt (87 + v) 57)) by lia. rewrite andb_false_r.
    rewrite (proj2 (Z.leb_gt (87 + v) 70)) by lia. rewrite andb_false_r.
    rewrite !(proj2 (Z.leb_le _ _)) by lia. cbn [andb]. f_equal. lia.
Qed.
Lemma lower_hex_value n v : 0 ≤ v < 16 ^ Z.of_nat n → hex_value 0 (lower_hex n v) = Some v.
Proof.
  revert v. induction n as [|n IH]; intros v Hv.
  { change (0 ≤ v < 1) in Hv. replace v with 0 by lia. done. }
  cbn [lower_hex].
  rewrite Nat2Z.inj_succ, Z.pow_succ_r in Hv by lia. rewrite hex_value_app.
  match goal with |- context [hex_value 0 ?high] => assert (hex_value 0 high = Some (v / 16)) as -> end.
  { destruct (v <? 16) eqn:C; [by rewrite Z.div_small by lia|]. apply IH. split; [apply Z.div_pos; lia|].
    apply Z.div_lt_upper_bound; lia. }
  cbn. rewrite lower_hex_digit_spec by (apply Z.mod_pos_bound; lia). cbn. f_equal. pose proof (Z.div_mod v 16). lia.
Qed.
Lemma fmt_parses {T} `{Repr T} (p : VirtualPtr T) (q : PhysicalPtr T) : fits 64 (v_inner p) → fits 64 (p_inner q) →
  ∃ digits digits', VirtualPtr_fmt p = chars "VirtualPtr(0x" ++ digits ++ chars ")" ∧ hex_value 0 digits = Some (v_inner p) ∧
    PhysicalPtr_fmt q = chars "PhysicalPtr(0x" ++ digits' ++ chars ")" ∧ hex_value 0 digits' = Some (p_inner q).
Proof.
  intros Hp Hq. exists (lower_hex 16 (v_inner p)), (lower_hex 16 (p_inner q)).
  split; [done|]. split; [by apply lower_hex_value|]. split; [done|]. by apply lower_hex_value.
Qed.

(** * Three words copied *)

Definition demo_mem : memory := put_bytes 4096 (concat (le_bytes 8 <$> [7; 8; 9])) (λ _, 0).

Lemma pointer_array_spec_witness :
  let p : VirtualPtr u64_t := VirtualPtr_from_usize 4096 in
  let d : VirtualPtr u64_t := VirtualPtr_from_usize 8192 in
  ∃ m1 m2, VirtualPtr_write (VirtualPtr_add p 1) (Uint 5) demo_mem = (Ok tt, m1) ∧
    VirtualPtr_read (VirtualPtr_add p 2) m1 = (Ok (Uint 9), m1) ∧
    VirtualPtr_copy_to_nonoverlapping p d 3 demo_mem = (Ok tt, m2) ∧
    VirtualPtr_read (VirtualPtr_add d 1) m2 = (Ok (Uint 8), m2).
Proof.
  intros p d. pose proof (uint_spec 8 ltac:(lia)) as Hu. assert (room p 3) as Hr by by repeat split.
  destruct (pointer_array_spec p d [Uint 7; Uint 8; Uint 9] demo_mem) as [Hw Hc].
  - by repeat split.
  - by repeat split.
  - intros i x Hi. destruct i as [|[|[|]]]; cbn in Hi; try done; injection Hi as <-;
      rewrite (read_element p 3) by (done || lia); f_equal; by vm_compute.
  - assert (fits 64 5) as H5 by by split.
    destruct (Hw 1 (Uint 5) ltac:(by split) H5) as (_ & m1 & E1 & H1 & _). cbn zeta in Hc.
    rewrite decide_True in Hc by (left; by vm_compute).
    destruct Hc as (m2 & E2 & _ & H2 & _). exists m1, m2. split; [exact E1|]. split; [by apply (H1 2%nat)|].
    split; [exact E2|by apply (H2 1%nat)].
Defined.
