(* ===== verification/Storage.v ===== *)
(** src/src/drivers/storage/mod.rs: partition tables and bounded partition reads.

    [BlockDevice] is the trait of the same name; what a driver promises is
    [DiskSpec].  The file systems are verified against these two, for any driver. *)

From S2P Require Import Prelude Uuid.

Definition SECTOR : Z := 512.

(** ** Block devices *)

Class BlockDevice (D : Type) := {
  sector_count : D → Z;
  device_read : D → Z → Z → outcome (list Z);
}.

(** [disk] is what the device holds: reads of 1 to 256 sectors inside it return
    its bytes (the most one transfer command counts), reads past its end are
    refused. *)
Class DiskSpec {D} `{BlockDevice D} (dev : D) (disk : list Z) := {
  disk_size : len disk = SECTOR * sector_count dev;
  disk_count : 0 ≤ sector_count dev < 2^32;
  disk_read : ∀ sector n, 0 ≤ sector → 1 ≤ n ≤ 256 → sector + n ≤ sector_count dev →
    device_read dev sector n = slice disk (SECTOR * sector) (SECTOR * (sector + n));
  disk_refuse : ∀ sector n, 0 ≤ sector → 0 ≤ n → sector_count dev < sector + n < 2^64 →
    device_read dev sector n = Err;
}.

(** ** The master boot record *)

Record MBR := mk_mbr {
  disk_id : list Z;
  mbr_reserved : list Z;
  first_partition : list Z;
  second_partition : list Z;
  third_partition : list Z;
  fourth_partition : list Z;
  signature : list Z;
}.

(** [From<&[u8]>] *)
Definition MBR_from (value : list Z) : outcome MBR :=
  let offset := if 512 <=? len value then 440 else 0 in
  disk_id ← slice value offset (offset + 4);
  reserved ← slice value (offset + 4) (offset + 6);
  first ← slice value (offset + 6) (offset + 22);
  second ← slice value (offset + 22) (offset + 38);
  third ← slice value (offset + 38) (offset + 54);
  fourth ← slice value (offset + 54) (offset + 70);
  signature ← slice value (offset + 70) (offset + 72);
  mret (mk_mbr disk_id reserved first second third fourth signature).

Record MBRPartition := mk_mbr_partition {
  boot_indicator : Z;
  partition_start_chs : list Z;
  partition_type : Z;
  partition_end_chs : list Z;
  partition_start_lba : Z;
  partition_sectors : Z;
}.

Definition parse_partition (partition : list Z) : outcome MBRPartition :=
  boot ← index partition 0;
  start_chs ← slice partition 1 4;
  type ← index partition 4;
  end_chs ← slice partition 4 7;
  start_lba ← read_le partition 8 12;
  sectors ← read_le partition 12 16;
  mret (mk_mbr_partition boot start_chs type end_chs start_lba sectors).

(** [for partition in raw_partitions]: an empty entry ends the loop. *)
Fixpoint parse_partitions (raw : list (list Z)) : outcome (list MBRPartition) :=
  match raw with
  | [] => mret []
  | partition :: rest =>
      if len (filter (λ x, 0 < x) partition) =? 0 then mret []
      else
        p ← parse_partition partition;
        ps ← parse_partitions rest;
        mret (p :: ps)
  end.
Definition partitions (mbr : MBR) : outcome (list MBRPartition) :=
  parse_partitions [first_partition mbr; second_partition mbr; third_partition mbr; fourth_partition mbr].

(** ** GPT *)

Record GPTPartitionEntry := mk_gpt_entry {
  partition_type_guid : Uuid;
  unique_partition_guid : Uuid;
  start_sector : Z;
  end_sector : Z;
  attributes : Z;
  partition_name : list Z;
}.

Record GPTHeader := mk_gpt_header {
  header : list Z;
  revision : Z;
  header_size : Z;
  header_checksum : Z;
  gpt_reserved : list Z;
  header_lba : Z;
  header_lba_alt : Z;
  first_usable_block : Z;
  last_usable_block : Z;
  guid : Uuid;
  guid_lba : Z;
  partition_entry_count : Z;
  partition_entry_size : Z;
  partition_table_crc : Z;
}.

Definition GPTHeader_new (data : list Z) : outcome GPTHeader :=
  rassert (0x5C <=? len data) ;;
  header ← slice data 0x00 0x08;
  revision ← read_le data 0x08 0x0C;
  header_size ← read_le data 0x0C 0x10;
  header_checksum ← read_le data 0x10 0x14;
  reserved ← slice data 0x14 0x18;
  header_lba ← read_le data 0x18 0x20;
  header_lba_alt ← read_le data 0x20 0x28;
  first_usable_block ← read_le data 0x28 0x30;
  last_usable_block ← read_le data 0x30 0x38;
  guid_bytes ← slice data 0x38 0x48;
  guid ← uuid_from guid_bytes;
  guid_lba ← read_le data 0x48 0x50;
  partition_entry_count ← read_le data 0x50 0x54;
  partition_entry_size ← read_le data 0x54 0x58;
  partition_table_crc ← read_le data 0x58 0x5C;
  mret (mk_gpt_header header revision header_size header_checksum reserved header_lba
    header_lba_alt first_usable_block last_usable_block guid guid_lba partition_entry_count
    partition_entry_size partition_table_crc).

(** ** Partitions *)

Inductive Partition (D : Type) :=
  | MBRPart (p : MBRPartition) (dev : D)
  | GPTPart (p : GPTPartitionEntry) (dev : D).
Arguments MBRPart {D}.
Arguments GPTPart {D}.

Definition partition_read {D} `{BlockDevice D} (self : Partition D) (sector count : Z)
    : outcome (list Z) :=
  match self with
  | GPTPart partition dev =>
      if end_sector partition <? u64 (u64 (start_sector partition + sector) + count) then Err
      else device_read dev (u64 (start_sector partition + sector)) count
  | MBRPart partition dev =>
      if u64 (partition_start_lba partition + partition_sectors partition) <?
         u64 (u64 (partition_start_lba partition + sector) + count) then Err
      else device_read dev (u64 (partition_start_lba partition + sector)) count
  end.

(** * Theorems *)

(** The bytes of a table entry, and of the table: boot code, disk id, four
    entries, signature. *)
Definition entry_bytes (p : MBRPartition) : list Z :=
  [boot_indicator p] ++ partition_start_chs p ++ [partition_type p] ++ partition_end_chs p ++
  le_bytes 4 (partition_start_lba p) ++ le_bytes 4 (partition_sectors p).
Definition mbr_sector (boot_code id reserved : list Z) (entries : list (list Z)) (sig : list Z) : list Z :=
  boot_code ++ id ++ reserved ++ concat entries ++ sig.

Record mbr_partition_wf (p : MBRPartition) : Prop := {
  pw_start_chs : len (partition_start_chs p) = 3;
  pw_end_chs : len (partition_end_chs p) = 3;
  pw_type : 0 < partition_type p;
  pw_lba : fits 32 (partition_start_lba p);
  pw_sectors : fits 32 (partition_sectors p);
}.

(** The end address is read one byte early: it starts with the type. *)
Definition misread_end (p : MBRPartition) : MBRPartition :=
  mk_mbr_partition (boot_indicator p) (partition_start_chs p) (partition_type p)
    (partition_type p :: take 2 (partition_end_chs p)) (partition_start_lba p) (partition_sectors p).

Lemma parse_partition_bytes p : mbr_partition_wf p → parse_partition (entry_bytes p) = Ok (misread_end p).
Proof.
  intros [Hs He Ht Hl Hn]. destruct p as [boot sc ty ec lba n]. cbn in *. unfold parse_partition, entry_bytes.
  destruct sc as [|s0 [|s1 [|s2 [|]]]]; try done; [|unfold len in Hs; cbn in Hs; lia].
  destruct ec as [|e0 [|e1 [|e2 [|]]]]; try done; [|unfold len in He; cbn in He; lia].
  transitivity (Ok (mk_mbr_partition boot [s0; s1; s2] ty [ty; e0; e1]
    (le_value (le_bytes 4 lba)) (le_value (le_bytes 4 n)))); [reflexivity|].
  by rewrite !le_value_le_bytes by done.
Qed.

Lemma len_entry p : mbr_partition_wf p → len (entry_bytes p) = 16.
Proof.
  intros [Hs He _ _ _]. unfold entry_bytes. by rewrite !len_app, !len_le_bytes, Hs, He, !len_cons, len_nil.
Qed.

Lemma entry_nonempty p : mbr_partition_wf p → 1 ≤ len (filter (λ x, 0 < x) (entry_bytes p)).
Proof.
  intros [_ _ Ht _ _].
  assert (partition_type p ∈ filter (λ x, 0 < x) (entry_bytes p)) as Hin.
  { apply list_elem_of_filter. split; [done|]. unfold entry_bytes. set_solver. }
  destruct (filter _ _) as [|x l]; [by apply not_elem_of_nil in Hin|].
  rewrite len_cons. pose proof (len_nonneg l). lia.
Qed.

Lemma parse_partitions_spec ps n : Forall mbr_partition_wf ps →
  parse_partitions ((entry_bytes <$> ps) ++ replicate n (replicate 16 0)) = Ok (misread_end <$> ps).
Proof.
  induction 1 as [|p ps Hp _ IH].
  - destruct n; done.
  - cbn [fmap list_fmap app parse_partitions]. pose proof (entry_nonempty p Hp).
    rewrite (proj2 (Z.eqb_neq _ _)) by lia. rewrite parse_partition_bytes by done.
    cbn [mbind outcome_bind]. change (list_fmap _ _ _ ps) with (entry_bytes <$> ps). by rewrite IH.
Qed.

Lemma mbr_partitions_Ok boot_code id reserved ps sig :
  len boot_code = 440 → len id = 4 → len reserved = 2 → len sig = 2 →
  Forall mbr_partition_wf ps → (length ps ≤ 4)%nat →
  ∃ mbr, MBR_from (mbr_sector boot_code id reserved
      ((entry_bytes <$> ps) ++ replicate (4 - length ps) (replicate 16 0)) sig) = Ok mbr ∧
    signature mbr = sig ∧ partitions mbr = Ok (misread_end <$> ps).
Proof.
  intros Hb Hi Hr Hsig Hps Hn. set (es := (entry_bytes <$> ps) ++ _).
  assert (length es = 4%nat) as Hes
    by (unfold es; rewrite length_app, length_fmap, length_replicate; lia).
  assert (Forall (λ e : list Z, len e = 16) es) as H16.
  { unfold es. apply Forall_app. split; [|by apply Forall_replicate].
    apply Forall_fmap. eapply Forall_impl; [exact Hps|]. apply len_entry. }
  pose proof (parse_partitions_spec ps (4 - length ps) Hps) as Hparse. fold es in Hparse.
  clearbody es. destruct es as [|e1 [|e2 [|e3 [|e4 [|]]]]]; try done.
  rewrite !Forall_cons in H16. destruct H16 as (H1 & H2 & H3 & H4 & _).
  unfold MBR_from, mbr_sector. cbn [concat]. rewrite !len_app, Hb, Hi, Hr, Hsig, H1, H2, H3, H4.
  change (512 <=? _) with true. cbv iota zeta. rewrite app_nil_r, <- !app_assoc.
  rewrite <- (app_nil_r sig). cbn [Z.add Pos.add Pos.succ Pos.add_carry].
  layout. rewrite app_nil_r. by eexists.
Qed.

(** From a boot sector with up to four entries the parser returns exactly
    them, in order, except that the last three bytes of each (the CHS address of
    its end) are read one byte early. *)
Lemma mbr_partitions_spec boot_code id reserved ps sig :
  len boot_code = 440 → len id = 4 → len reserved = 2 → len sig = 2 →
  Forall mbr_partition_wf ps → (length ps ≤ 4)%nat →
  (mbr ← MBR_from (mbr_sector boot_code id reserved
      ((entry_bytes <$> ps) ++ replicate (4 - length ps) (replicate 16 0)) sig);
    partitions mbr) = Ok (misread_end <$> ps).
Proof.
  intros. destruct (mbr_partitions_Ok boot_code id reserved ps sig) as (mbr & -> & _ & E); done.
Qed.

Definition demo_partition : MBRPartition := mk_mbr_partition 0x80 [1; 2; 3] 0x0C [4; 5; 6] 2048 65536.
Lemma demo_partition_wf : mbr_partition_wf demo_partition.
Proof. by constructor. Qed.

Lemma mbr_partitions_spec_witness :
  (mbr ← MBR_from (mbr_sector (replicate 440 0) [1; 2; 3; 4] [0; 0]
      ((entry_bytes <$> [demo_partition]) ++ replicate 3 (replicate 16 0)) [0x55; 0xAA]);
    partitions mbr) = Ok [mk_mbr_partition 0x80 [1; 2; 3] 0x0C [0x0C; 4; 5] 2048 65536].
Proof.
  apply (mbr_partitions_spec (replicate 440 0) [1; 2; 3; 4] [0; 0] [demo_partition] [0x55; 0xAA]).
  - done.
  - done.
  - done.
  - done.
  - constructor; [exact demo_partition_wf|constructor].
  - cbn. lia.
Defined.

(** ** The GPT header *)

Definition gpt_bytes (h : GPTHeader) (rest : list Z) : list Z :=
  header h ++ le_bytes 4 (revision h) ++ le_bytes 4 (header_size h) ++
  le_bytes 4 (header_checksum h) ++ gpt_reserved h ++ le_bytes 8 (header_lba h) ++
  le_bytes 8 (header_lba_alt h) ++ le_bytes 8 (first_usable_block h) ++
  le_bytes 8 (last_usable_block h) ++ uuid_bytes (guid h) ++ le_bytes 8 (guid_lba h) ++
  le_bytes 4 (partition_entry_count h) ++ le_bytes 4 (partition_entry_size h) ++
  le_bytes 4 (partition_table_crc h) ++ rest.

Record gpt_header_wf (h : GPTHeader) : Prop := {
  gw_header : len (header h) = 8;
  gw_reserved : len (gpt_reserved h) = 4;
  gw_32 : fits 32 (revision h) ∧ fits 32 (header_size h) ∧ fits 32 (header_checksum h) ∧
    fits 32 (partition_entry_count h) ∧ fits 32 (partition_entry_size h) ∧ fits 32 (partition_table_crc h);
  gw_64 : fits 64 (header_lba h) ∧ fits 64 (header_lba_alt h) ∧ fits 64 (first_usable_block h) ∧
    fits 64 (last_usable_block h) ∧ fits 64 (guid_lba h);
  gw_guid : uuid_wf (guid h);
}.

Lemma len_uuid_bytes x : uuid_wf x → len (uuid_bytes x) = 16.
Proof.
  intros [_ _ _ [Hd _]]. unfold uuid_bytes. rewrite !len_app, !len_le_bytes. unfold len. rewrite Hd. done.
Qed.

(** [GPTHeader::new] reads back every field of a header block, and panics on
    fewer than 92 bytes. *)
Lemma gpt_header_roundtrip h rest bytes :
  gpt_header_wf h →
  GPTHeader_new (gpt_bytes h rest) = Ok h ∧
  (len bytes < 92 → GPTHeader_new bytes = Panic).
Proof.
  intros [H1 H2 (? & ? & ? & ? & ? & ?) (? & ? & ? & ? & ?) Hg]. pose proof (len_uuid_bytes _ Hg) as Hu. split.
  - unfold GPTHeader_new, gpt_bytes. rewrite (proj2 (Z.leb_le _ _)).
    2: { rewrite !len_app, !len_le_bytes, H1, H2, Hu. pose proof (len_nonneg rest). lia. }
    cbn [rassert mbind outcome_bind]. layout. rewrite uuid_from_bytes by done. layout. by destruct h.
  - intros Hlt. unfold GPTHeader_new. by rewrite (proj2 (Z.leb_gt _ _)) by lia.
Qed.

Definition demo_gpt : GPTHeader :=
  mk_gpt_header [0x45; 0x46; 0x49; 0x20; 0x50; 0x41; 0x52; 0x54] 0x10000 92 0 [0; 0; 0; 0] 1 131071
    34 131038 esp_guid 2 128 128 0.
Lemma gpt_header_roundtrip_witness : GPTHeader_new (gpt_bytes demo_gpt (replicate 420 0)) = Ok demo_gpt.
Proof.
  apply (gpt_header_roundtrip demo_gpt (replicate 420 0) []).
  by constructor; [..|exact esp_guid_wf].
Defined.

(** ** Reads through a partition *)

(** [img] is what can be read through the partition: 1 to 256 whole sectors of it
    are returned, anything past its end is refused. *)
Class PartitionSpec {D} `{BlockDevice D} (p : Partition D) (img : list Z) := {
  part_size : (SECTOR | len img) ∧ len img < 2^42;
  part_read : ∀ sector n, 0 ≤ sector → 1 ≤ n ≤ 256 → SECTOR * (sector + n) ≤ len img →
    partition_read p sector n = slice img (SECTOR * sector) (SECTOR * (sector + n));
  part_refuse : ∀ sector n, 0 ≤ sector → 0 ≤ n → len img < SECTOR * (sector + n) →
    sector + n < 2^62 → partition_read p sector n = Err;
}.

Lemma partition_image {D} `{BlockDevice D} (dev : D) disk `{!DiskSpec dev disk} p img start size :
  0 ≤ start → 0 ≤ size → start + size ≤ sector_count dev →
  slice disk (SECTOR * start) (SECTOR * (start + size)) = Ok img →
  (∀ sector n, 0 ≤ sector → 0 ≤ n → sector + n < 2^62 → partition_read p sector n =
    if sector + n <=? size then device_read dev (start + sector) n else Err) →
  PartitionSpec p img.
Proof.
  intros Hs Hz Hin Himg Hread. pose proof (slice_len _ _ _ _ Himg) as Hl.
  pose proof (disk_count (dev:=dev) (disk:=disk)). unfold SECTOR in *.
  constructor; unfold SECTOR.
  - split; [|lia]. exists size. lia.
  - intros sector n Hsec Hn Hle. rewrite Hread, (proj2 (Z.leb_le _ _)) by lia.
    rewrite (disk_read (disk:=disk)) by lia. unfold SECTOR. rewrite (slice_of_slice _ _ _ _ _ _ Himg) by lia.
    f_equal; lia.
  - intros sector n Hsec Hn Hgt Hm. by rewrite Hread, (proj2 (Z.leb_gt _ _)) by lia.
Qed.

Lemma mbr_image {D} `{BlockDevice D} (dev : D) disk `{!DiskSpec dev disk} p img :
  0 ≤ partition_start_lba p → 0 ≤ partition_sectors p →
  partition_start_lba p + partition_sectors p ≤ sector_count dev →
  slice disk (SECTOR * partition_start_lba p)
    (SECTOR * (partition_start_lba p + partition_sectors p)) = Ok img →
  PartitionSpec (MBRPart p dev) img.
Proof.
  intros Hs Hz Hin Himg. apply (partition_image dev disk _ img (partition_start_lba p) (partition_sectors p)); try done.
  intros sector n Hsec Hn Hm. pose proof (disk_count (dev:=dev) (disk:=disk)). unfold partition_read.
  rewrite !u64_small by (rewrite ?u64_small by lia; lia).
  destruct (sector + n <=? partition_sectors p) eqn:C.
  - by rewrite (proj2 (Z.ltb_ge _ _)) by lia.
  - by rewrite (proj2 (Z.ltb_lt _ _)) by lia.
Qed.

Lemma gpt_image {D} `{BlockDevice D} (dev : D) disk `{!DiskSpec dev disk} p img :
  0 ≤ start_sector p ≤ end_sector p → end_sector p < sector_count dev →
  slice disk (SECTOR * start_sector p) (SECTOR * (start_sector p + (end_sector p - start_sector p))) = Ok img →
  PartitionSpec (GPTPart p dev) img.
Proof.
  intros Hs Hin Himg. apply (partition_image dev disk _ img (start_sector p) (end_sector p - start_sector p)); try done; [lia..|].
  intros sector n Hsec Hn Hm. pose proof (disk_count (dev:=dev) (disk:=disk)). unfold partition_read.
  rewrite !u64_small by (rewrite ?u64_small by lia; lia).
  destruct (sector + n <=? end_sector p - start_sector p) eqn:C.
  - by rewrite (proj2 (Z.ltb_ge _ _)) by lia.
  - by rewrite (proj2 (Z.ltb_lt _ _)) by lia.
Qed.

(** C24: with the partition inside the disk, reads through it are exactly the
    reads of its sectors, and reads past its end are refused without touching
    the disk.  For an MBR entry the sectors are those the entry counts; for a GPT
    entry, whose last sector is [end_sector], the last one is left out. *)
Theorem partition_read_spec {D} `{BlockDevice D} (dev : D) disk `{!DiskSpec dev disk} mp gp :
  (0 ≤ partition_start_lba mp → 0 ≤ partition_sectors mp →
    partition_start_lba mp + partition_sectors mp ≤ sector_count dev →
    ∃ img, slice disk (SECTOR * partition_start_lba mp)
        (SECTOR * (partition_start_lba mp + partition_sectors mp)) = Ok img ∧
      PartitionSpec (MBRPart mp dev) img) ∧
  (0 ≤ start_sector gp ≤ end_sector gp → end_sector gp < sector_count dev →
    ∃ img, slice disk (SECTOR * start_sector gp) (SECTOR * end_sector gp) = Ok img ∧
      PartitionSpec (GPTPart gp dev) img).
Proof.
  pose proof (disk_size (dev:=dev) (disk:=disk)) as Hd. unfold SECTOR in *.
  split; intros; eexists; (split; [apply slice_Ok; lia|]).
  - eapply (mbr_image dev disk); [done|done|done|]. apply slice_Ok; unfold SECTOR; lia.
  - eapply (gpt_image dev disk); [done|done|]. unfold SECTOR.
    replace (start_sector gp + (end_sector gp - start_sector gp)) with (end_sector gp) by lia.
    apply slice_Ok; lia.
Qed.

(** A disk image in memory. *)
#[export] Instance ram_disk : BlockDevice (list Z) := {
  sector_count disk := len disk / SECTOR;
  device_read disk sector n :=
    if sector + n <=? len disk / SECTOR then slice disk (SECTOR * sector) (SECTOR * (sector + n)) else Err;
}.
Lemma ram_disk_spec (disk : list Z) : (SECTOR | len disk) → len disk < 2^40 → DiskSpec disk disk.
Proof.
  intros [k Hk] Hlt. pose proof (len_nonneg disk). unfold SECTOR in *.
  constructor; unfold sector_count, device_read, ram_disk, SECTOR; rewrite Hk, Z.div_mul by done.
  - lia.
  - lia.
  - intros. by rewrite (proj2 (Z.leb_le _ _)) by lia.
  - intros. by rewrite (proj2 (Z.leb_gt _ _)) by lia.
Qed.

Definition demo_disk : list Z := concat ((λ k, replicate 512 k) <$> seqZ 0 4).
Lemma demo_disk_spec : DiskSpec demo_disk demo_disk.
Proof. apply ram_disk_spec; [by exists 4|done]. Qed.

Lemma partition_read_spec_witness :
  (∃ img, PartitionSpec (MBRPart (mk_mbr_partition 0 [0; 0; 0] 1 [0; 0; 0] 1 2) demo_disk) img) ∧
  partition_read (GPTPart (mk_gpt_entry esp_guid esp_guid 1 3 0 []) demo_disk) 2 1 = Err.
Proof.
  destruct (partition_read_spec demo_disk demo_disk (DiskSpec0:=demo_disk_spec)
    (mk_mbr_partition 0 [0; 0; 0] 1 [0; 0; 0] 1 2) (mk_gpt_entry esp_guid esp_guid 1 3 0 [])) as [H1 H2].
  split.
  - destruct H1 as (img & _ & Himg); [done|done|vm_compute; discriminate|]. by exists img.
  - destruct H2 as (img & Hsl & [_ _ Href]); [done|done|]. apply slice_len in Hsl.
    apply Href; cbn in *; unfold SECTOR in *; lia.
Defined.
