(* ===== verification/Vfs.v ===== *)
(** src/src/drivers/fs/vfs.rs: mounted file systems and the tree of open nodes.

    The driver interface is the class [FsOps] (the traits [FsOps] and
    [VNodeOperations]); what a driver promises is [FsSpec].  [Vfs] boxes live in a
    store of addresses, [ROOT_VFS] at address 0, so that the doubly linked list,
    its raw pointers and the dangling ones are what the source has.  A node of
    the tree is named by its path from the root, innermost name first: the
    children map of a node is the set of paths one name longer. *)

From S2P Require Import Prelude.

(** ** Data *)

Inductive VNodeType := NON | Regular | Directory | Block | Character | Link | Socket | Bad.
#[export] Instance vnode_type_eq_dec : EqDecision VNodeType.
Proof. solve_decision. Defined.

(** The traits.  [root] and [lookup] return what the source hands to
    [VNode::new].  [read] and [lookup] run on the file system they reach through
    [parent_vfs.data]. *)
Class FsOps (F I : Type) := {
  fs_mount : prog F unit;
  fs_unmount : prog F unit;
  fs_root : prog F (I * VNodeType);
  inode_open : prog I unit;
  inode_close : prog I unit;
  inode_len : I → outcome Z;
  inode_read : I → Z → Z → prog F (list Z);
  inode_lookup : I → str → prog F (I * VNodeType);
}.

(** [data] says that [mount] has stored the file system's address. *)
Record Vfs (F : Type) := mk_vfs {
  mount_point : option str;
  next : option Z;
  prev : option Z;
  fs : option F;
  data : bool;
}.
Arguments mk_vfs {F}.
Arguments mount_point {F}.
Arguments next {F}.
Arguments prev {F}.
Arguments fs {F}.
Arguments data {F}.

Definition Vfs_null {F} : Vfs F := mk_vfs None None None None false.
Definition Vfs_new {F} (f : F) (mount_point : str) : Vfs F :=
  mk_vfs (Some mount_point) None None (Some f) false.

Definition set_next {F} (n : option Z) (v : Vfs F) : Vfs F :=
  mk_vfs (mount_point v) n (prev v) (fs v) (data v).
Definition set_prev {F} (n : option Z) (v : Vfs F) : Vfs F :=
  mk_vfs (mount_point v) (next v) n (fs v) (data v).
Definition set_fs {F} (f : F) (v : Vfs F) : Vfs F :=
  mk_vfs (mount_point v) (next v) (prev v) (Some f) (data v).
Definition set_data {F} (v : Vfs F) : Vfs F :=
  mk_vfs (mount_point v) (next v) (prev v) (fs v) true.

Record VNode (I : Type) := mk_vnode {
  ref_count : Z;
  inode : I;
  vfs_mounted_here : option Z;
  parent_vfs : Z;
  file_typ : VNodeType;
}.
Arguments mk_vnode {I}.
Arguments ref_count {I}.
Arguments inode {I}.
Arguments vfs_mounted_here {I}.
Arguments parent_vfs {I}.
Arguments file_typ {I}.

Definition VNode_new {I} (inode : I) (file_typ : VNodeType) (parent_vfs : Z) : VNode I :=
  mk_vnode 0 inode None parent_vfs file_typ.
Definition set_ref_count {I} (n : Z) (v : VNode I) : VNode I :=
  mk_vnode n (inode v) (vfs_mounted_here v) (parent_vfs v) (file_typ v).
Definition set_inode {I} (i : I) (v : VNode I) : VNode I :=
  mk_vnode (ref_count v) i (vfs_mounted_here v) (parent_vfs v) (file_typ v).
Definition set_mounted {I} (a : option Z) (v : VNode I) : VNode I :=
  mk_vnode (ref_count v) (inode v) a (parent_vfs v) (file_typ v).

Abbreviation path := (list str).

(** The statics [ROOT_VFS] (with every boxed [Vfs]) and [NODE_TREE]; [fresh] is
    where the allocator puts the next box. *)
Record vfs_state (F I : Type) := mk_state {
  vfss : gmap Z (Vfs F);
  fresh : Z;
  node_tree : option (gmap path (VNode I));
}.
Arguments mk_state {F I}.
Arguments vfss {F I}.
Arguments fresh {F I}.
Arguments node_tree {F I}.

Definition ROOT_VFS : Z := 0.
Definition initial {F I : Type} : vfs_state F I := mk_state {[ROOT_VFS := Vfs_null]} 1 None.

Definition set_vfss {F I : Type} (m : gmap Z (Vfs F)) (s : vfs_state F I) : vfs_state F I :=
  mk_state m (fresh s) (node_tree s).
Definition set_tree {F I : Type} (t : option (gmap path (VNode I))) (s : vfs_state F I) : vfs_state F I :=
  mk_state (vfss s) (fresh s) t.

Section vfs.
Context {F I : Type} `{FsOps F I}.
Notation M := (prog (vfs_state F I)).

(** ** Pointers *)

(** Reading and writing through a [NonNull<Vfs>] or a [Box<Vfs>]. *)
Definition vfs_get (a : Z) : M (Vfs F) := λ s, (of_option Undef (vfss s !! a), s).
Definition vfs_modify (a : Z) (f : Vfs F → Vfs F) : M unit := λ s,
  match vfss s !! a with
  | Some v => (Ok tt, set_vfss (<[a := f v]> (vfss s)) s)
  | None => (Undef, s)
  end.
Definition vfs_box (v : Vfs F) : M Z := λ s,
  (Ok (fresh s), mk_state (<[fresh s := v]> (vfss s)) (fresh s + 1) (node_tree s)).
Definition vfs_drop (a : Z) : M unit := modify (λ s, set_vfss (delete a (vfss s)) s).

(** A node of [NODE_TREE]. *)
Definition node_get (p : path) : M (VNode I) := λ s,
  (of_option Undef (node_tree s ≫= λ t, t !! p), s).
Definition node_modify (p : path) (f : VNode I → VNode I) : M unit := λ s,
  match node_tree s ≫= λ t, t !! p with
  | Some v => (Ok tt, set_tree ((λ t, <[p := f v]> t) <$> node_tree s) s)
  | None => (Undef, s)
  end.
Definition node_insert (p : path) (v : VNode I) : M unit :=
  modify (λ s, set_tree ((λ t, <[p := v]> t) <$> node_tree s) s).

(** Run a method of the file system at [a]. *)
Definition with_fs {A} (a : Z) (m : prog F A) : M A := λ s,
  match vfss s !! a with
  | None => (Undef, s)
  | Some v =>
      match fs v with
      | None => (Panic, s)
      | Some f => let '(o, f') := m f in (o, set_vfss (<[a := set_fs f' v]> (vfss s)) s)
      end
  end.
(** The same through [parent_vfs.data]. *)
Definition with_data {A} (a : Z) (m : prog F A) : M A :=
  v ← vfs_get a;
  if data v then with_fs a m else lift Undef.
(** Run a method on the inode of the node at [p]. *)
Definition with_inode {A} (p : path) (m : prog I A) : M A :=
  v ← node_get p;
  let '(o, i) := m (inode v) in
  node_modify p (set_inode i) ;;
  lift o.

(** ** [impl Vfs] *)

(** [while let Some(ref mut next_vfs) = current.next] *)
Fixpoint last_vfs (fuel : nat) (current : Z) : M Z :=
  match fuel with
  | O => lift NoFuel
  | S fuel' =>
      v ← vfs_get current;
      match next v with
      | Some next_vfs => last_vfs fuel' next_vfs
      | None => mret current
      end
  end.
Definition Vfs_add_vfs (self vfs : Z) : M unit :=
  count ← gets (λ s, size (vfss s));
  current ← last_vfs (S count) self;
  vfs_modify vfs (set_prev (Some current)) ;;
  vfs_modify current (set_next (Some vfs)).

(** Unlinking: the node found is dropped when its predecessor's [next] is
    overwritten. *)
Definition unlink_vfs (a : Z) : M unit :=
  node ← vfs_get a;
  match next node with
  | Some next_node => vfs_modify next_node (set_prev (prev node))
  | None => mret tt
  end ;;
  before ← lift (of_option Panic (prev node));
  vfs_modify before (set_next (next node)) ;;
  vfs_drop a.
Fixpoint del_vfs_loop (fuel : nat) (target_name : str) (curr : option Z) : M unit :=
  match fuel with
  | O => lift NoFuel
  | S fuel' =>
      match curr with
      | None => mret tt
      | Some a =>
          node ← vfs_get a;
          if bool_decide (mount_point node = Some target_name) then unlink_vfs a
          else del_vfs_loop fuel' target_name (next node)
      end
  end.
Definition Vfs_del_vfs (self : Z) (target_name : str) : M unit :=
  count ← gets (λ s, size (vfss s));
  v ← vfs_get self;
  del_vfs_loop (S count) target_name (next v).

Definition Vfs_mount (a : Z) : M unit := with_fs a fs_mount ;; vfs_modify a set_data.
Definition Vfs_root (a : Z) : M (VNode I) :=
  '(i, t) ← with_fs a fs_root;
  mret (VNode_new i t a).

(** ** [impl VNode] and [impl TreeNode] *)

Definition VNode_lookup (v : VNode I) (nm : str) : M (VNode I) :=
  '(i, t) ← with_data (parent_vfs v) (inode_lookup (inode v) nm);
  mret (VNode_new i t (parent_vfs v)).

(** The bounds are checked in [usize] arithmetic. *)
Definition VNode_read (v : VNode I) (count offset : Z) : M (list Z) :=
  len ← lift (inode_len (inode v));
  if (len <=? offset) || (len <? count) || (len <? u64 (count + offset)) then err
  else with_data (parent_vfs v) (inode_read (inode v) count offset).

Definition tree_lookup (self : path) (name : str) : M path :=
  if bool_decide (name = chars "..") then
    match self with
    | _ :: parent => mret parent
    | [] => err
    end
  else if bool_decide (name = chars ".") then mret self
  else
    tree ← gets node_tree;
    if bool_decide (is_Some (tree ≫= λ t, t !! (name :: self))) then mret (name :: self)
    else
      node ← node_get self;
      vnode ←
        (match vfs_mounted_here node with
         | Some vfs => root ← Vfs_root vfs; VNode_lookup root name
         | None => VNode_lookup node name
         end);
      node_insert (name :: self) vnode ;;
      mret (name :: self).

Definition tree_open (p : path) : M unit :=
  v ← node_get p;
  (if ref_count v =? 0 then with_inode p inode_open else mret tt) ;;
  node_modify p (λ v, set_ref_count (u32 (ref_count v + 1)) v).
Definition tree_close (p : path) : M unit :=
  node_modify p (λ v, set_ref_count (u32 (ref_count v - 1)) v) ;;
  v ← node_get p;
  if ref_count v =? 0 then with_inode p inode_close else mret tt.
Definition tree_len (p : path) : M Z := v ← node_get p; lift (inode_len (inode v)).

(** ** [File]: a handle on a node; dropping it closes the node *)

Definition File_read (p : path) (count offset : Z) : M (list Z) :=
  v ← node_get p; VNode_read v count offset.
Definition File_read_all (p : path) (offset : Z) : M (list Z) :=
  n ← tree_len p; File_read p (u64 (n - offset)) offset.

(** ** Paths and mounts *)

Fixpoint open_loop (cur_node : path) (parts : list str) : M path :=
  match parts with
  | [] => mret cur_node
  | part :: rest =>
      if bool_decide (part = []) then open_loop cur_node rest
      else new_node ← tree_lookup cur_node part; open_loop new_node rest
  end.

Definition vfs_open (p : str) : M path :=
  root ← vfs_get ROOT_VFS;
  tree ← gets node_tree;
  if bool_decide (next root = None) || bool_decide (tree = None) then err
  else open_loop [] (split_on 47 p).

(** An early return drops the box. *)
Definition or_drop {A} (a : Z) (m : M A) : M A := λ s,
  match m s with
  | (Err, s') => (Err, set_vfss (delete a (vfss s')) s')
  | r => r
  end.

Definition add_vfs (mount_point : str) (fs_ops : F) : M unit :=
  vfs ← vfs_box (Vfs_new fs_ops mount_point);
  or_drop vfs (
    root ← vfs_get ROOT_VFS;
    (if bool_decide (mount_point = chars "/") then
       if bool_decide (is_Some (next root)) then err
       else
         vnode ← Vfs_root vfs;
         modify (set_tree (Some {[ [] := vnode ]}))
     else
       if bool_decide (next root = None) then err
       else
         first ← attempt (vfs_open mount_point);
         match first with
         | None => err
         | Some _ =>
             file ← vfs_open mount_point;
             node_modify file (set_mounted (Some vfs))
         end) ;;
    Vfs_mount vfs ;;
    Vfs_add_vfs ROOT_VFS vfs).

(** [split_terminator('/')] without its empty parts. *)
Definition path_parts (p : str) : list str := filter (λ x, x ≠ []) (split_on 47 p).

(** [for (i, &part) in parts.iter().enumerate()]; with no mount parts the
    difference [mount_parts.len() - 1] wraps and the index panics. *)
Fixpoint parts_inside (mount_parts parts : list str) (i : Z) : outcome bool :=
  match parts with
  | [] => Ok false
  | part :: rest =>
      if u64 (len mount_parts - 1) <? i then Ok true
      else
        m ← index mount_parts i;
        if bool_decide (part = m) then parts_inside mount_parts rest (i + 1) else Ok false
  end.
Fixpoint busy_loop (fuel : nat) (mount_pt : str) (next_vfs : option Z) : M bool :=
  match fuel with
  | O => lift NoFuel
  | S fuel' =>
      match next_vfs with
      | None => mret false
      | Some a =>
          vfs ← vfs_get a;
          point ← lift (of_option Panic (mount_point vfs));
          if bool_decide (point = mount_pt) then busy_loop fuel' mount_pt (next vfs)
          else
            inside ← lift (parts_inside (path_parts mount_pt) (path_parts point) 0);
            if inside : bool then mret true else busy_loop fuel' mount_pt (next vfs)
      end
  end.
Definition mount_point_busy (mount_pt : str) : M bool :=
  count ← gets (λ s, size (vfss s));
  root ← vfs_get ROOT_VFS;
  busy_loop (S count) mount_pt (next root).

Definition del_vfs (mount_pt : str) : M unit :=
  root ← vfs_get ROOT_VFS;
  match next root with
  | None => err
  | Some first =>
      if bool_decide (mount_pt = chars "/") then
        v ← vfs_get first;
        if bool_decide (is_Some (next v)) then err
        else vfs_modify ROOT_VFS (set_next None) ;; vfs_drop first
      else
        busy ← mount_point_busy mount_pt;
        if busy : bool then err else Vfs_del_vfs ROOT_VFS mount_pt
  end.
End vfs.

(** * Theorems *)

(** ** The list of mounts *)

(** What the list operations see of a [Vfs]. *)
Record link := mk_link { l_point : option str; l_next : option Z; l_prev : option Z }.
Definition link_of {F} (v : Vfs F) : link := mk_link (mount_point v) (next v) (prev v).
Definition links {F I} (s : vfs_state F I) : gmap Z link := link_of <$> vfss s.

(** From [p] on, [next] visits exactly [l], and [prev] leads back. *)
Fixpoint chain (m : gmap Z link) (p : Z) (l : list Z) : Prop :=
  match l with
  | [] => l_next <$> m !! p = Some None
  | a :: l' =>
      l_next <$> m !! p = Some (Some a) ∧ l_prev <$> m !! a = Some (Some p) ∧ chain m a l'
  end.

(** The abstract state: addresses and mount points, in mount order. *)
Record list_of (m : gmap Z link) (fresh : Z) (l : list (Z * str)) : Prop := {
  lo_chain : chain m ROOT_VFS (l.*1);
  lo_nodup : NoDup (ROOT_VFS :: l.*1);
  lo_points : Forall (λ x, l_point <$> m !! x.1 = Some (Some x.2)) l;
  lo_dom : dom m = {[ROOT_VFS]} ∪ list_to_set (l.*1);
  lo_fresh : 0 < fresh ∧ Forall (λ a, 0 < a < fresh) (l.*1);
}.
Definition mounts {F I} (s : vfs_state F I) (l : list (Z * str)) : Prop := list_of (links s) (fresh s) l.

Lemma chain_frame m m' p l :
  chain m p l → l_next <$> m' !! p = l_next <$> m !! p → (∀ a, a ∈ l → m' !! a = m !! a) → chain m' p l.
Proof.
  revert p. induction l as [|a l IH]; intros p; cbn [chain]; intros Hc Hn Ha; [by rewrite Hn|].
  destruct Hc as (H1 & H2 & H3). rewrite Hn, (Ha a) by constructor. split; [done|]. split; [done|].
  apply IH; [done|by rewrite (Ha a) by constructor|]. intros b Hb. apply Ha. by constructor.
Qed.

Lemma chain_next m p l : chain m p l → l_next <$> m !! p = Some (head l).
Proof. by destruct l as [|a l]; [|intros [? _]]. Qed.

Lemma last_cons_default {A} (p a : A) l : default p (last (a :: l)) = default a (last l).
Proof. rewrite last_cons. by destruct (last l). Qed.
Lemma last_default_in {A} (p : A) l : default p (last l) ∈ p :: l.
Proof.
  destruct l as [|c l _] using rev_ind; [by constructor|]. rewrite last_snoc. cbn. set_solver.
Qed.

Lemma chain_end m p l : chain m p l → ∃ x, m !! (default p (last l)) = Some x ∧ l_next x = None.
Proof.
  revert p. induction l as [|a l IH]; intros p Hc; cbn [chain] in Hc.
  - apply fmap_Some in Hc as (x & Hx & Hn). by exists x.
  - rewrite last_cons_default. by apply IH, Hc.
Qed.

(** Appending a fresh box. *)
Lemma chain_snoc m p l a x y q : chain m p l → NoDup (p :: l) → a ∉ p :: l →
  q = default p (last l) → m !! a = Some x → l_next x = None → m !! q = Some y →
  chain (<[q := mk_link (l_point y) (Some a) (l_prev y)]>
         (<[a := mk_link (l_point x) None (Some q)]> m)) p (l ++ [a]).
Proof.
  intros Hc. revert p Hc. induction l as [|b l IH]; intros p Hc Hnd Hna -> Ha Hx Hy.
  - cbn [last default chain app] in *. rewrite lookup_insert_eq. split; [done|].
    rewrite lookup_insert_ne by set_solver. by rewrite lookup_insert_eq.
  - rewrite last_cons_default in *. cbn [app chain] in *. destruct Hc as (H1 & H2 & Hc).
    apply NoDup_cons in Hnd as [Hp Hnd].
    specialize (IH b Hc Hnd ltac:(set_solver) eq_refl Ha Hx Hy).
    pose proof (last_default_in b l). set (q := default b (last l)) in *.
    assert (p ≠ q) as Hne by (intros ->; done).
    split; [|split; [|done]].
    + by rewrite !lookup_insert_ne by set_solver.
    + destruct (decide (b = q)) as [Eb|Eb].
      * rewrite <- Eb in *. rewrite lookup_insert_eq. by rewrite Hy in H2.
      * by rewrite !lookup_insert_ne by set_solver.
Qed.

(** Unlinking [a], whose predecessor is [q]. *)
Definition unlink (m : gmap Z link) (a q : Z) (n : option Z) : gmap Z link :=
  delete a (alter (λ y, mk_link (l_point y) n (l_prev y)) q
    (match n with Some b => alter (λ y, mk_link (l_point y) (l_next y) (Some q)) b m | None => m end)).

Lemma chain_unlink m p l1 a l2 : chain m p (l1 ++ a :: l2) → NoDup (p :: l1 ++ a :: l2) →
  chain (unlink m a (default p (last l1)) (head l2)) p (l1 ++ l2).
Proof.
  revert p. induction l1 as [|b l1 IH]; intros p Hc Hnd; cbn [app chain] in *.
  - destruct Hc as (H1 & H2 & Hc). cbn [last default]. unfold unlink.
    apply NoDup_cons in Hnd as [Hp Hnd]. apply NoDup_cons in Hnd as [Ha Hnd].
    destruct l2 as [|b l2]; cbn [head chain] in *.
    + rewrite lookup_delete_ne by set_solver. rewrite lookup_alter_eq. by destruct (m !! p).
    + destruct Hc as (H3 & H4 & Hc). apply NoDup_cons in Hnd as [Hb Hnd].
      rewrite !lookup_delete_ne by set_solver. rewrite lookup_alter_eq, !lookup_alter_ne by set_solver.
      rewrite lookup_alter_eq. split; [by destruct (m !! p)|]. split; [by destruct (m !! b)|].
      apply (chain_frame m); [done| |].
      * rewrite lookup_delete_ne by set_solver. rewrite lookup_alter_ne by set_solver.
        rewrite lookup_alter_eq. by destruct (m !! b).
      * intros c Hin. rewrite lookup_delete_ne by set_solver. by rewrite !lookup_alter_ne by set_solver.
  - destruct Hc as (H1 & H2 & Hc). apply NoDup_cons in Hnd as [Hp Hnd].
    rewrite last_cons_default. specialize (IH b Hc Hnd).
    pose proof (last_default_in b l1) as Hq. set (q := default b (last l1)) in *.
    assert (∀ c, c ∈ l2 → c ≠ p ∧ c ≠ b) as Hl2.
    { intros c Hin. split; intros ->; [set_solver|]. apply NoDup_cons in Hnd as [Hb _]. set_solver. }
    assert (q ≠ p) by (intros ->; apply Hp; set_solver).
    assert (∀ c, head l2 = Some c → c ≠ p ∧ c ≠ b) as Hh by (intros c E; apply Hl2; destruct l2; set_solver).
    assert (a ≠ p ∧ a ≠ b) as [??].
    { apply NoDup_cons in Hnd as [Hb _]. split; intros ->; set_solver. }
    split; [|split; [|done]]; unfold unlink.
    + rewrite lookup_delete_ne, lookup_alter_ne by done. destruct (head l2) as [c|]; [|done].
      destruct (Hh c eq_refl). by rewrite lookup_alter_ne by done.
    + rewrite lookup_delete_ne by done. destruct (decide (q = b)) as [->|].
      * rewrite lookup_alter_eq. destruct (head l2) as [c|].
        -- destruct (Hh c eq_refl). rewrite lookup_alter_ne by done. by destruct (m !! b).
        -- by destruct (m !! b).
      * rewrite lookup_alter_ne by done. destruct (head l2) as [c|]; [|done].
        destruct (Hh c eq_refl). by rewrite lookup_alter_ne by done.
Qed.

Section mount_list.
Context {F I : Type} `{FsOps F I}.
Implicit Types (s : vfs_state F I) (l : list (Z * str)).

(** Code that moves no box and writes no link. *)
Definition keeps {A} (m : prog (vfs_state F I) A) : Prop :=
  ∀ s, links (m s).2 = links s ∧ fresh (m s).2 = fresh s.

Lemma keeps_bind {A B} (m : prog _ A) (f : A → prog _ B) : keeps m → (∀ a, keeps (f a)) → keeps (m ≫= f).
Proof.
  intros Hm Hf s. specialize (Hm s). unfold mbind, prog_bind.
  destruct (m s) as [[a| | | |] s']; try done. cbn in Hm. destruct (Hf a s') as [-> ->]. done.
Qed.
Lemma keeps_ret {A} (a : A) : keeps (mret a).
Proof. done. Qed.
Lemma keeps_lift {A} (o : outcome A) : keeps (lift o).
Proof. done. Qed.
Lemma keeps_gets {A} (f : _ → A) : keeps (gets f).
Proof. done. Qed.
Lemma keeps_attempt {A} (m : prog _ A) : keeps m → keeps (attempt m).
Proof. intros Hm s. specialize (Hm s). unfold attempt. by destruct (m s) as [[a| | | |] s']. Qed.
Lemma keeps_vfs_get a : keeps (vfs_get a).
Proof. done. Qed.
Lemma keeps_node_get p : keeps (node_get p).
Proof. done. Qed.
Lemma keeps_node_modify p f : keeps (node_modify p f).
Proof. intros s. unfold node_modify. by destruct (_ ≫= _). Qed.
Lemma keeps_node_insert p v : keeps (node_insert p v).
Proof. done. Qed.
Lemma keeps_set_tree t : keeps (modify (set_tree t)).
Proof. done. Qed.
Lemma links_update s a v w : vfss s !! a = Some v → link_of w = link_of v →
  links (set_vfss (<[a := w]> (vfss s)) s) = links s.
Proof.
  intros Ha E. unfold links. cbn. rewrite fmap_insert, E. apply insert_id. by rewrite lookup_fmap, Ha.
Qed.
Lemma keeps_with_fs {A} a (m : prog F A) : keeps (with_fs a m).
Proof.
  intros s. unfold with_fs. destruct (vfss s !! a) as [v|] eqn:E; [|done].
  destruct (fs v); [|done]. destruct (m _) as [o f']. cbn. split; [|done]. by apply (links_update s a v).
Qed.
Lemma keeps_set_data a : keeps (vfs_modify a set_data).
Proof.
  intros s. unfold vfs_modify. destruct (vfss s !! a) as [v|] eqn:E; [|done]. split; [|done].
  by apply (links_update s a v).
Qed.
Create HintDb keeps.
Hint Resolve keeps_bind keeps_ret keeps_lift keeps_gets keeps_attempt keeps_vfs_get keeps_node_get
  keeps_node_modify keeps_node_insert keeps_set_tree keeps_with_fs keeps_set_data : keeps.
Ltac keeps := repeat (first [solve [auto with keeps nocore]|apply keeps_bind; [|intros]|case_match]; intros).

Lemma keeps_with_data {A} a (m : prog F A) : keeps (with_data a m).
Proof. unfold with_data. keeps. Qed.
Hint Resolve keeps_with_data : keeps.
Lemma keeps_Vfs_root a : keeps (Vfs_root a).
Proof. unfold Vfs_root. keeps. Qed.
Lemma keeps_VNode_lookup v nm : keeps (VNode_lookup v nm).
Proof. unfold VNode_lookup. keeps. Qed.
Hint Resolve keeps_Vfs_root keeps_VNode_lookup : keeps.
Lemma keeps_tree_lookup p nm : keeps (tree_lookup p nm).
Proof. unfold tree_lookup, err. keeps. Qed.
Hint Resolve keeps_tree_lookup : keeps.
Lemma keeps_open_loop parts p : keeps (open_loop p parts).
Proof. revert p. induction parts as [|part parts IH]; intros p; cbn [open_loop]; keeps; apply IH. Qed.
Hint Resolve keeps_open_loop : keeps.
Lemma keeps_vfs_open p : keeps (vfs_open p).
Proof. unfold vfs_open, err. keeps. Qed.
Lemma keeps_Vfs_mount a : keeps (Vfs_mount a).
Proof. unfold Vfs_mount. keeps. Qed.
Hint Resolve keeps_vfs_open keeps_Vfs_mount : keeps.

(** A box not yet in the list. *)
Record boxed s l (a : Z) (mp : str) : Prop := {
  bo_list : list_of (delete a (links s)) (fresh s) l;
  bo_box : links s !! a = Some (mk_link (Some mp) None None);
  bo_addr : 0 < a < fresh s ∧ a ∉ ROOT_VFS :: l.*1;
}.

Lemma boxed_links s s' l a mp : links s' = links s → fresh s' = fresh s → boxed s l a mp → boxed s' l a mp.
Proof. intros E1 E2 [H1 H2 H3]. constructor; rewrite ?E1, ?E2; done. Qed.

Lemma lookup_links s a x : links s !! a = Some x → ∃ v, vfss s !! a = Some v ∧ link_of v = x.
Proof. unfold links. rewrite lookup_fmap. intros (v & ? & ->)%fmap_Some. by exists v. Qed.

Lemma dom_links s : dom (links s) = dom (vfss s).
Proof. apply dom_fmap_L. Qed.

Lemma last_vfs_spec fuel p (l : list Z) s : chain (links s) p l → (length l < fuel)%nat →
  last_vfs fuel p s = (Ok (default p (last l)), s).
Proof.
  revert p l. induction fuel as [|fuel IH]; intros p l Hc Hf; [lia|]. cbn [last_vfs].
  pose proof (chain_next _ _ _ Hc) as Hn. apply fmap_Some in Hn as (x & Hx & En).
  apply lookup_links in Hx as (v & Hv & <-). cbn in En.
  rewrite (bind_Ok _ _ s v s) by (unfold vfs_get; by rewrite Hv). rewrite <- En.
  destruct l as [|b l]; cbn [head]; [done|]. rewrite last_cons_default. cbn [chain] in Hc.
  apply IH; [apply Hc|cbn in Hf; lia].
Qed.

Lemma list_of_size m fr l : list_of m fr l → size m = S (length l).
Proof.
  intros [_ Hnd _ Hd _]. rewrite <- size_dom, Hd.
  apply NoDup_cons in Hnd as [H0 Hnd].
  rewrite size_union by set_solver. rewrite size_singleton, size_list_to_set by done.
  by rewrite length_fmap.
Qed.

Lemma vfs_modify_links a f s v : vfss s !! a = Some v →
  ∃ s', vfs_modify a f s = (Ok tt, s') ∧ links s' = <[a := link_of (f v)]> (links s) ∧
    fresh s' = fresh s ∧ node_tree s' = node_tree s ∧ vfss s' = <[a := f v]> (vfss s).
Proof.
  intros Ha. unfold vfs_modify. rewrite Ha. eexists. split; [done|]. unfold links. cbn.
  by rewrite fmap_insert.
Qed.

Lemma insert_list_of m fr l a mp q x y : list_of (delete a m) fr l → 0 < a < fr → a ∉ ROOT_VFS :: l.*1 →
  m !! a = Some x → l_point x = Some mp → l_next x = None → q = default ROOT_VFS (last (l.*1)) → m !! q = Some y →
  list_of (<[q := mk_link (l_point y) (Some a) (l_prev y)]>
           (<[a := mk_link (l_point x) None (Some q)]> m)) fr (l ++ [(a, mp)]).
Proof.
  intros [Hc Hnd Hp Hd [Hf0 Hf]] Ha Hin Hx Hxp Hxn Hq Hy.
  pose proof (last_default_in ROOT_VFS (l.*1)) as Hqin. rewrite <- Hq in Hqin.
  assert (q ≠ a) as Hqa by (intros ->; done).
  constructor; rewrite ?fmap_app; cbn [fmap list_fmap fst].
  - apply chain_snoc; try done. apply (chain_frame (delete a m)); [done| |].
    + rewrite lookup_delete_ne; [done|]. intros ->. set_solver.
    + intros b Hb. rewrite lookup_delete_ne; [done|]. intros ->. set_solver.
  - rewrite app_comm_cons. apply NoDup_app. split; [done|]. split; [set_solver|]. apply NoDup_singleton.
  - apply Forall_app. split; [|apply Forall_singleton].
    + apply Forall_forall. intros b Hb. rewrite Forall_forall in Hp. specialize (Hp b Hb).
      assert (b.1 ≠ a) as Hba.
      { intros Eb. apply Hin. rewrite <- Eb. apply elem_of_cons. right. by apply list_elem_of_fmap_2. }
      rewrite lookup_delete_ne in Hp by done. destruct (decide (b.1 = q)) as [Eb|].
      * rewrite Eb in *. rewrite lookup_insert_eq. by rewrite Hy in Hp.
      * by rewrite !lookup_insert_ne by done.
    + cbn. rewrite lookup_insert_ne, lookup_insert_eq by done. cbn. by rewrite Hxp.
  - rewrite !dom_insert_L, list_to_set_app_L. assert (dom m = dom (delete a m) ∪ {[a]}) as ->.
    { rewrite dom_delete_L, difference_union_L. assert (a ∈ dom m) by by apply elem_of_dom. set_solver. }
    rewrite Hd. cbn. set_solver.
  - split; [done|]. apply Forall_app. split; [done|]. by apply Forall_singleton.
Qed.

Lemma Vfs_add_vfs_spec s l a mp : boxed s l a mp →
  ∃ s', Vfs_add_vfs ROOT_VFS a s = (Ok tt, s') ∧ mounts s' (l ++ [(a, mp)]) ∧
    node_tree s' = node_tree s ∧
    ∀ b, (λ v, (fs v, data v)) <$> vfss s' !! b = (λ v, (fs v, data v)) <$> vfss s !! b.
Proof.
  intros [Hl Hb [Ha Hin]]. pose proof (lo_chain _ _ _ Hl) as Hc.
  assert (chain (links s) ROOT_VFS (l.*1)) as Hc'.
  { apply (chain_frame (delete a (links s))); [done| |].
    - rewrite lookup_delete_ne; [done|set_solver].
    - intros b Hb'. rewrite lookup_delete_ne; [done|set_solver]. }
  set (q := default ROOT_VFS (last (l.*1))).
  pose proof (last_default_in ROOT_VFS (l.*1)) as Hqin. fold q in Hqin.
  assert (q ≠ a) as Hqa by (intros E; by rewrite E in Hqin).
  unfold Vfs_add_vfs. rewrite (bind_Ok _ _ s (size (vfss s)) s) by done.
  rewrite (bind_Ok _ _ s q s).
  2: { apply last_vfs_spec; [done|]. rewrite length_fmap.
    assert (a ∈ dom (vfss s)) as Hin' by (rewrite <- dom_links; apply elem_of_dom; by rewrite Hb).
    pose proof (list_of_size _ _ _ Hl) as Hs. unfold links in Hs. rewrite <- fmap_delete, map_size_fmap in Hs.
    apply elem_of_dom in Hin' as [v Hv]. rewrite map_size_delete, Hv in Hs. cbn in Hs. lia. }
  destruct (lookup_links s a _ Hb) as (v & Hv & Ev).
  destruct (vfs_modify_links a (set_prev (Some q)) s v Hv) as (s1 & E1 & L1 & F1 & T1 & V1).
  rewrite (bind_Ok _ _ _ _ _ E1).
  destruct (chain_end _ _ _ Hc') as (y & Hy & Hyn). fold q in Hy.
  destruct (lookup_links s q _ Hy) as (w & Hw & Ew).
  destruct (vfs_modify_links q (set_next (Some a)) s1 w) as (s2 & E2 & L2 & F2 & T2 & V2).
  { by rewrite V1, lookup_insert_ne. }
  exists s2. split; [done|]. split; [|split; [congruence|]].
  - unfold mounts. rewrite L2, L1, F2, F1.
    replace (link_of (set_next (Some a) w)) with (mk_link (l_point y) (Some a) (l_prev y)) by by rewrite <- Ew.
    replace (link_of (set_prev (Some q) v)) with (mk_link (Some mp) None (Some q))
      by (injection Ev as Ep En _; unfold link_of; cbn; by rewrite Ep, En).
    by apply (insert_list_of _ _ _ _ _ _ (mk_link (Some mp) None None)).
  - intros b. rewrite V2, V1. destruct (decide (b = q)) as [->|].
    + rewrite lookup_insert_eq, Hw. done.
    + rewrite lookup_insert_ne by done. destruct (decide (b = a)) as [->|].
      * rewrite lookup_insert_eq, Hv. done.
      * by rewrite lookup_insert_ne by done.
Qed.

(** *** Removing *)

Fixpoint remove_first (mp : str) l : list (Z * str) :=
  match l with
  | [] => []
  | x :: l' => if bool_decide (x.2 = mp) then l' else x :: remove_first mp l'
  end.
(** [parts] names something under [mount_parts]. *)
Definition inside (mount_parts parts : list str) : Prop := mount_parts `prefix_of` parts ∧ mount_parts ≠ parts.
Definition busy (mp : str) l : bool :=
  existsb (λ x : Z * str, negb (bool_decide (x.2 = mp)) && bool_decide (inside (path_parts mp) (path_parts x.2))) l.

Lemma parts_inside_spec mount_parts dn rest parts : mount_parts = dn ++ rest → mount_parts ≠ [] →
  len mount_parts < 2^64 →
  parts_inside mount_parts parts (len dn) = Ok (bool_decide (inside rest parts)).
Proof.
  intros E Hne Hlen. unfold inside. revert dn rest E. induction parts as [|part parts IH]; intros dn rest E; cbn [parts_inside].
  - rewrite bool_decide_false; [done|]. intros [[k Hk] Hn]. destruct rest; done.
  - pose proof (len_nonneg dn). pose proof (len_nonneg rest).
    assert (len mount_parts = len dn + len rest) as El by (by rewrite E, len_app).
    assert (1 ≤ len mount_parts) by (destruct mount_parts; [done|]; rewrite len_cons; pose proof (len_nonneg mount_parts); lia).
    rewrite (u64_small (len mount_parts - 1)) by lia. destruct rest as [|m rest].
    + rewrite len_nil in El. rewrite (proj2 (Z.ltb_lt _ _)) by lia.
      rewrite bool_decide_true; [done|]. split; [apply prefix_nil|done].
    + rewrite len_cons in *. pose proof (len_nonneg rest). rewrite (proj2 (Z.ltb_ge _ _)) by lia.
      rewrite E at 1. rewrite index_app_r, Z.sub_diag by lia. cbn [index mbind outcome_bind].
      assert (index (m :: rest) 0 = Ok m) as -> by done. cbn [mbind outcome_bind].
      case_bool_decide as C.
      * subst part. replace (len dn + 1) with (len (dn ++ [m])) by (rewrite len_app, len_cons, len_nil; lia).
        rewrite (IH (dn ++ [m]) rest) by (by rewrite <- app_assoc). f_equal. apply bool_decide_ext.
        split; intros [Hp Hn].
        -- split; [by apply prefix_cons|congruence].
        -- split; [by apply prefix_cons_inv_2 in Hp|congruence].
      * rewrite bool_decide_false; [done|]. intros [Hp _]. apply prefix_cons_inv_1 in Hp. congruence.
Qed.

Lemma list_chain_cons m p a mp l : chain m p ((a, mp) :: l).*1 →
  Forall (λ x : Z * str, l_point <$> m !! x.1 = Some (Some x.2)) ((a, mp) :: l) →
  ∃ x, m !! a = Some x ∧ l_point x = Some mp ∧ l_next x = head (l.*1) ∧ l_prev x = Some p ∧ chain m a (l.*1).
Proof.
  cbn [fmap list_fmap fst chain]. intros (H1 & H2 & Hc) [Hp _]%Forall_cons. cbn in Hp.
  pose proof (chain_next _ _ _ Hc) as H3.
  destruct (m !! a) as [x|]; [|done]. exists x. cbn in *. by simplify_eq.
Qed.

Lemma busy_loop_spec fuel mp l p s : path_parts mp ≠ [] → len (path_parts mp) < 2^64 →
  chain (links s) p (l.*1) → Forall (λ x : Z * str, l_point <$> links s !! x.1 = Some (Some x.2)) l →
  (length l < fuel)%nat →
  busy_loop fuel mp (head (l.*1)) s = (Ok (busy mp l), s).
Proof.
  intros Hne Hlen. revert p fuel. induction l as [|[a point] l IH]; intros p fuel Hc Hp Hf;
    (destruct fuel as [|fuel]; [cbn in Hf; lia|]); [done|].
  destruct (list_chain_cons _ _ _ _ _ Hc Hp) as (x & Hx & E1 & E2 & E3 & Hc').
  apply lookup_links in Hx as (v & Hv & <-). cbn [link_of l_point l_next l_prev] in *.
  apply Forall_cons in Hp as [_ Hp]. cbn [fmap list_fmap fst head busy_loop].
  rewrite (bind_Ok _ _ s v s) by (unfold vfs_get; by rewrite Hv).
  rewrite (bind_Ok _ _ s point s) by (by rewrite E1). rewrite E2. cbn [busy existsb snd].
  fold (busy mp l). change (list_fmap _ _ fst l) with (l.*1). case_bool_decide as C; cbn [negb andb orb].
  - apply (IH a); [done|done|cbn in Hf; lia].
  - rewrite (bind_Ok _ _ s (bool_decide (inside (path_parts mp) (path_parts point))) s).
    2: { unfold lift. f_equal. by apply (parts_inside_spec _ []). }
    case_bool_decide; [done|]. apply (IH a); [done|done|cbn in Hf; lia].
Qed.

(** The mount that removing [mp] takes out. *)
Fixpoint first_addr (mp : str) l : option Z :=
  match l with
  | [] => None
  | x :: l' => if bool_decide (x.2 = mp) then Some x.1 else first_addr mp l'
  end.

(** The loop stops at the first match. *)
Lemma del_vfs_loop_spec fuel mp l p s :
  chain (links s) p (l.*1) → Forall (λ x : Z * str, l_point <$> links s !! x.1 = Some (Some x.2)) l →
  (length l < fuel)%nat →
  (remove_first mp l = l ∧ first_addr mp l = None ∧ del_vfs_loop fuel mp (head (l.*1)) s = (Ok tt, s)) ∨
  ∃ l1 a l2, l = l1 ++ (a, mp) :: l2 ∧ remove_first mp l = l1 ++ l2 ∧ first_addr mp l = Some a ∧
    del_vfs_loop fuel mp (head (l.*1)) s = unlink_vfs a s.
Proof.
  revert p fuel. induction l as [|[a point] l IH]; intros p fuel Hc Hp Hf;
    (destruct fuel as [|fuel]; [cbn in Hf; lia|]); [by left|].
  destruct (list_chain_cons _ _ _ _ _ Hc Hp) as (x & Hx & E1 & E2 & E3 & Hc').
  apply lookup_links in Hx as (v & Hv & <-). cbn [link_of l_point l_next l_prev] in *.
  apply Forall_cons in Hp as [_ Hp]. cbn [fmap list_fmap fst head del_vfs_loop remove_first first_addr snd].
  rewrite (bind_Ok _ _ s v s) by (unfold vfs_get; by rewrite Hv). rewrite E1, E2.
  change (list_fmap _ _ fst l) with (l.*1). case_bool_decide as C.
  - cbn in C. subst point. rewrite bool_decide_true by done. right. by exists [], a, l.
  - cbn in C. rewrite bool_decide_false by congruence.
    destruct (IH a fuel Hc' Hp) as [(-> & -> & H2)|(l1 & b & l2 & -> & -> & -> & ->)]; [cbn in Hf; lia| |].
    + by left.
    + right. by exists ((a, point) :: l1), b, l2.
Qed.

Lemma chain_at m p (l1 : list Z) (a : Z) (l2 : list Z) : chain m p (l1 ++ a :: l2) →
  ∃ x, m !! a = Some x ∧ l_next x = head l2 ∧ l_prev x = Some (default p (last l1)).
Proof.
  revert p. induction l1 as [|b l1 IH]; intros p Hc; cbn [app chain] in Hc.
  - destruct Hc as (_ & H2 & Hc). apply chain_next in Hc.
    destruct (m !! a) as [x|]; [|done]. exists x. cbn in *. by simplify_eq.
  - destruct Hc as (_ & _ & Hc). rewrite last_cons_default. by apply IH.
Qed.

Lemma alter_insert (m : gmap Z link) a x f : m !! a = Some x → alter f a m = <[a := f x]> m.
Proof.
  intros Hx. apply map_eq. intros i. destruct (decide (i = a)) as [->|].
  - by rewrite lookup_alter_eq, lookup_insert_eq, Hx.
  - by rewrite lookup_alter_ne, lookup_insert_ne.
Qed.

(** The stores of [unlink_vfs] are [unlink] on the links. *)
Lemma unlink_vfs_run s a x q n : links s !! a = Some x → l_next x = n → l_prev x = Some q →
  is_Some (vfss s !! q) → (∀ b, n = Some b → is_Some (vfss s !! b)) →
  ∃ s', unlink_vfs a s = (Ok tt, s') ∧ links s' = unlink (links s) a q n ∧ fresh s' = fresh s ∧
    node_tree s' = node_tree s ∧ vfss s' !! a = None.
Proof.
  intros Hx Hn Hpr Hq Hnx. destruct (lookup_links s a x Hx) as (v & Hv & Ev). subst x. cbn [link_of l_next l_prev] in *.
  unfold unlink_vfs. rewrite (bind_Ok _ _ s v s) by (unfold vfs_get; by rewrite Hv). rewrite Hn, Hpr.
  assert (∃ s1, (match n with Some next_node => vfs_modify next_node (set_prev (Some q)) | None => mret tt end) s = (Ok tt, s1) ∧
    links s1 = (match n with
      | Some b => alter (λ y, mk_link (l_point y) (l_next y) (Some q)) b (links s) | None => links s end) ∧
    fresh s1 = fresh s ∧ node_tree s1 = node_tree s ∧ is_Some (vfss s1 !! q)) as (s1 & E1 & L1 & F1 & T1 & w & Hw).
  { destruct n as [b|]; [|by exists s]. destruct (Hnx b eq_refl) as [w Hw].
    destruct (vfs_modify_links b (set_prev (Some q)) s w Hw) as (s1 & E1 & L1 & F1 & T1 & V1).
    exists s1. split; [done|]. rewrite L1. split; [|split; [done|split; [done|]]].
    - rewrite (alter_insert _ _ (link_of w)); [done|]. unfold links. by rewrite lookup_fmap, Hw.
    - rewrite V1. destruct (decide (q = b)) as [->|]; [rewrite lookup_insert_eq; by eexists|].
      by rewrite lookup_insert_ne. }
  rewrite (bind_Ok _ _ _ _ _ E1). cbn [of_option]. rewrite (bind_Ok _ _ s1 q s1) by done.
  destruct (vfs_modify_links q (set_next n) s1 w Hw) as (s2 & E2 & L2 & F2 & T2 & V2).
  rewrite (bind_Ok _ _ _ _ _ E2). eexists. split; [done|].
  split; [|split; [cbn; congruence|split; [cbn; congruence|cbn; apply lookup_delete_eq]]].
  unfold links at 1. cbn. rewrite fmap_delete. fold (links s2). unfold unlink. f_equal.
  rewrite L2, <- L1. rewrite (alter_insert _ _ (link_of w)); [done|]. unfold links. by rewrite lookup_fmap, Hw.
Qed.

(** [unlink] removes one link and keeps the mount points of the others. *)
Lemma unlink_point m a q n y : y ≠ a → l_point <$> unlink m a q n !! y = l_point <$> m !! y.
Proof.
  intros Hy. unfold unlink. rewrite lookup_delete_ne by done.
  assert (∀ (m : gmap Z link) f k, (∀ z, l_point (f z) = l_point z) → l_point <$> alter f k m !! y = l_point <$> m !! y) as Halt.
  { intros m' f k Hfz. destruct (decide (y = k)) as [Ek|]; [|by rewrite lookup_alter_ne].
    rewrite Ek, lookup_alter_eq. destruct (m' !! k); cbn; [|done]. by rewrite Hfz. }
  rewrite Halt by done. destruct n; [by rewrite Halt|done].
Qed.
Lemma unlink_dom m a q n : dom (unlink m a q n) = dom m ∖ {[a]}.
Proof. unfold unlink. rewrite dom_delete_L, dom_alter_L. by destruct n; rewrite ?dom_alter_L. Qed.

Lemma unlink_vfs_spec s l1 a mp l2 : mounts s (l1 ++ (a, mp) :: l2) →
  ∃ s', unlink_vfs a s = (Ok tt, s') ∧ mounts s' (l1 ++ l2) ∧ node_tree s' = node_tree s ∧ vfss s' !! a = None.
Proof.
  intros [Hc Hnd Hp Hd [Hf0 Hf]]. rewrite fmap_app in *. cbn [fmap list_fmap fst] in *.
  change (list_fmap _ _ fst l2) with (l2.*1) in *.
  destruct (chain_at _ _ _ _ _ Hc) as (x & Hx & Hn & Hpr).
  pose proof (chain_unlink _ _ _ _ _ Hc Hnd) as Hu. set (q := default ROOT_VFS (last (l1.*1))) in *.
  pose proof (last_default_in ROOT_VFS (l1.*1)) as Hq. fold q in Hq.
  assert (∀ b, b ∈ ROOT_VFS :: l1.*1 ++ a :: l2.*1 → is_Some (vfss s !! b)) as Hall.
  { intros b Hb. apply elem_of_dom. rewrite <- dom_links, Hd. set_solver. }
  destruct (unlink_vfs_run s a x q (head (l2.*1)) Hx Hn Hpr) as (s' & E & EL & EF & ET & EV);
    [apply Hall; set_solver| |].
  { intros b Eb. apply Hall. destruct (l2.*1); [done|]. injection Eb as ->. set_solver. }
  exists s'. split; [done|]. split; [|done]. unfold mounts. rewrite EL, EF.
  assert (a ∉ ROOT_VFS :: l1.*1 ++ l2.*1) as Ha.
  { apply NoDup_cons in Hnd as [H0 Hnd]. apply NoDup_app in Hnd as (Hd1 & Hd2 & Hd3).
    apply NoDup_cons in Hd3 as [Hd3 _]. set_solver. }
  constructor; rewrite ?fmap_app.
  - done.
  - eapply sublist_NoDup; [exact Hnd|].
    apply sublist_skip, sublist_app; [done|]. by apply sublist_cons.
  - apply Forall_forall. intros y Hy. rewrite Forall_forall in Hp. rewrite unlink_point; [apply Hp; set_solver|].
    intros Ey. apply Ha. rewrite <- Ey, <- fmap_app. apply elem_of_cons. right. by apply list_elem_of_fmap_2.
  - rewrite unlink_dom, Hd, !list_to_set_app_L. cbn. set_solver.
  - split; [done|]. rewrite Forall_app, Forall_cons in Hf. apply Forall_app. naive_solver.
Qed.

Lemma mounts_root s l : mounts s l → ∃ v, vfss s !! ROOT_VFS = Some v ∧ next v = head (l.*1).
Proof.
  intros [Hc _ _ _ _]. apply chain_next in Hc. apply fmap_Some in Hc as (x & Hx & Hn).
  apply lookup_links in Hx as (v & Hv & <-). by exists v.
Qed.

Lemma vfs_box_boxed s l v mp : mounts s l → link_of v = mk_link (Some mp) None None →
  ∃ s', vfs_box v s = (Ok (fresh s), s') ∧ boxed s' l (fresh s) mp ∧
    vfss s' = <[fresh s := v]> (vfss s) ∧ node_tree s' = node_tree s.
Proof.
  intros [Hc Hnd Hp Hd [Hf0 Hf]] Hv. eexists. split; [done|]. split; [|done].
  assert (fresh s ∉ ROOT_VFS :: l.*1) as Hin.
  { rewrite Forall_forall in Hf. intros Ha%elem_of_cons. unfold ROOT_VFS in Ha.
    destruct Ha as [E|Ha]; [lia|]. specialize (Hf _ Ha). lia. }
  assert (links s !! fresh s = None) as Hn by (apply not_elem_of_dom; rewrite Hd; set_solver).
  constructor.
  - unfold links. cbn. rewrite fmap_insert, delete_insert_id by done.
    constructor; try done. split; [lia|]. eapply Forall_impl; [exact Hf|]. cbn. lia.
  - unfold links. cbn. by rewrite fmap_insert, lookup_insert_eq, Hv.
  - cbn. split; [lia|done].
Qed.

Lemma boxed_drop s l a mp : boxed s l a mp → mounts (set_vfss (delete a (vfss s)) s) l.
Proof.
  intros [Hl _ _]. unfold mounts, links. cbn. rewrite fmap_delete. exact Hl.
Qed.

(** What runs before the list is touched leaves the box as it is. *)
Lemma or_drop_spec {A B} s l a mp (m : prog _ A) (f : A → prog _ B) o s' :
  boxed s l a mp → keeps m → or_drop a (m ≫= f) s = (o, s') →
  (∃ x s1, m s = (Ok x, s1) ∧ boxed s1 l a mp ∧ or_drop a (f x) s1 = (o, s')) ∨
  (o = Err ∧ mounts s' l) ∨ (o ≠ Err ∧ is_ok o = false).
Proof.
  intros Hb Hk. destruct (Hk s) as [Hl Hf]. unfold or_drop, mbind, prog_bind.
  destruct (m s) as [[x| | | |] s1] eqn:E; cbn in Hl, Hf.
  - left. exists x, s1. split; [done|]. split; [|done]. by apply (boxed_links s).
  - intros [= <- <-]. right. left. split; [done|]. apply (boxed_drop _ _ _ mp). by apply (boxed_links s).
  - intros [= <- <-]. by right; right.
  - intros [= <- <-]. by right; right.
  - intros [= <- <-]. by right; right.
Qed.

Definition mount_remove (mp : str) l : option (list (Z * str)) :=
  match l with
  | [] => None
  | _ :: rest =>
      if bool_decide (mp = chars "/") then (if bool_decide (rest = []) then Some [] else None)
      else if busy mp l then None else Some (remove_first mp l)
  end.

Lemma del_vfs_spec s l mp : mounts s l → mp = chars "/" ∨ path_parts mp ≠ [] → len (path_parts mp) < 2^64 →
  ∃ s', del_vfs mp s = (if mount_remove mp l then Ok tt else Err, s') ∧
    mounts s' (default l (mount_remove mp l)) ∧ node_tree s' = node_tree s ∧
    (mp ≠ chars "/" → busy mp l = false → ∀ a, first_addr mp l = Some a → vfss s' !! a = None).
Proof.
  intros Hm Hmp Hlen. destruct (mounts_root _ _ Hm) as (r & Hr & Hn). unfold del_vfs.
  rewrite (bind_Ok _ _ s r s) by (unfold vfs_get; by rewrite Hr). rewrite Hn.
  destruct l as [|[a point] l]; [by exists s|]. cbn [fmap list_fmap fst head mount_remove].
  pose proof Hm as [Hc Hnd Hp Hd Hf]. destruct (list_chain_cons _ _ _ _ _ Hc Hp) as (x & Hx & E1 & E2 & E3 & Hc').
  apply lookup_links in Hx as (v & Hv & <-). cbn [link_of l_point l_next l_prev] in *.
  case_bool_decide as Croot.
  - rewrite (bind_Ok _ _ s v s) by (unfold vfs_get; by rewrite Hv). rewrite E2.
    destruct l as [|[b point2] l].
    + cbn [fmap list_fmap head]. rewrite bool_decide_false by (by intros [? ?]).
      destruct (vfs_modify_links ROOT_VFS (set_next None) s r Hr) as (s1 & M1 & L1 & F1 & T1 & V1).
      rewrite (bind_Ok _ _ _ _ _ M1). rewrite bool_decide_true by done. eexists. split; [done|]. split; [|by split].
      assert (a ≠ ROOT_VFS) as Ha by (apply NoDup_cons in Hnd as [H0 _]; set_solver).
      unfold mounts, links. cbn. rewrite fmap_delete. fold (links s1). rewrite L1, F1.
      constructor; cbn.
      * rewrite lookup_delete_ne, lookup_insert_eq by done. done.
      * apply NoDup_singleton.
      * constructor.
      * rewrite dom_delete_L, dom_insert_L, Hd. cbn. set_solver.
      * split; [apply Hf|constructor].
    + cbn [fmap list_fmap fst head]. rewrite bool_decide_true by (by eexists).
      rewrite bool_decide_false by done. by exists s.
  - destruct Hmp as [|Hne]; [done|].
    rewrite (bind_Ok _ _ s (busy mp ((a, point) :: l)) s).
    2: { unfold mount_point_busy. rewrite (bind_Ok _ _ s (size (vfss s)) s) by done.
      rewrite (bind_Ok _ _ s r s) by (unfold vfs_get; by rewrite Hr). rewrite Hn.
      apply (busy_loop_spec _ _ ((a, point) :: l) ROOT_VFS); try done.
      pose proof (list_of_size _ _ _ Hm) as Hs. unfold links in Hs. rewrite map_size_fmap in Hs. lia. }
    destruct (busy mp _) eqn:Eb; [by exists s|]. unfold Vfs_del_vfs.
    rewrite (bind_Ok _ _ s (size (vfss s)) s) by done.
    rewrite (bind_Ok _ _ s r s) by (unfold vfs_get; by rewrite Hr). rewrite Hn.
    destruct (del_vfs_loop_spec (S (size (vfss s))) mp ((a, point) :: l) ROOT_VFS s)
      as [(E & Ef & ->)|(l1 & b & l2 & E & -> & Ef & ->)]; try done.
    + pose proof (list_of_size _ _ _ Hm) as Hs. unfold links in Hs. rewrite map_size_fmap in Hs. lia.
    + rewrite E, Ef. by exists s.
    + rewrite Ef. rewrite E in Hm. destruct (unlink_vfs_spec _ _ _ _ _ Hm) as (s' & ? & ? & ? & ?). exists s'.
      do 3 (split; [done|]). by intros _ _ ? [= <-].
Qed.

(** C30: the boxes linked from [ROOT_VFS] are always the mounts made and not
    removed, in order, their back pointers included.  Adding appends one (the
    first at "/", the others elsewhere) and a refused mount leaves nothing
    behind.  Removing takes out the first mount at the path; it is refused
    exactly when there is none at all, when "/" is not the only one left, or when
    another mount lies below the path. *)
Theorem mount_list_spec s l mp (f : F) : mounts s l →
  (∀ s', add_vfs mp f s = (Ok tt, s') →
    (mp = chars "/" ↔ l = []) ∧ ∃ a, a ∉ l.*1 ∧ mounts s' (l ++ [(a, mp)])) ∧
  (∀ s', add_vfs mp f s = (Err, s') → mounts s' l) ∧
  (mp = chars "/" ∨ path_parts mp ≠ [] → len (path_parts mp) < 2^64 →
    ∃ s', del_vfs mp s = (if mount_remove mp l then Ok tt else Err, s') ∧
      mounts s' (default l (mount_remove mp l)) ∧ node_tree s' = node_tree s).
Proof.
  intros Hm. assert (∀ o s', add_vfs mp f s = (o, s') →
    (o = Ok tt ∧ (mp = chars "/" ↔ l = []) ∧ ∃ a, a ∉ l.*1 ∧ mounts s' (l ++ [(a, mp)])) ∨
    (o = Err ∧ mounts s' l) ∨ (o ≠ Err ∧ is_ok o = false)) as Hadd.
  2: { split; [|split]; [..|intros ? ?; destruct (del_vfs_spec s l mp) as (s' & ? & ? & ? & _); [done..|by exists s']]; intros s' E;
    destruct (Hadd _ _ E) as [(? & ? & ?)|[[? ?]|[? ?]]]; done. }
  intros o s' E. destruct (vfs_box_boxed s l (Vfs_new f mp) mp Hm eq_refl) as (s1 & E1 & Hb & V1 & _).
  unfold add_vfs in E. rewrite (bind_Ok _ _ _ _ _ E1) in E.
  assert (∃ r, vfss s1 !! ROOT_VFS = Some r ∧ next r = head (l.*1)) as (r & Hr & Hn).
  { destruct (mounts_root _ _ Hm) as (r & Hr & Hn). exists r. split; [|done]. rewrite V1.
    rewrite lookup_insert_ne; [done|]. destruct Hb as [_ _ [? _]]. unfold ROOT_VFS. lia. }
  apply (or_drop_spec _ l (fresh s) mp) in E as [(r' & s2 & E2 & Hb2 & E)|?]; [|by right|done|by auto with keeps].
  unfold vfs_get in E2. rewrite Hr in E2. injection E2 as <- <-. rewrite Hn in E.
  apply (or_drop_spec _ l (fresh s) mp) in E as [(u & s2 & E2 & Hb3 & E)|?]; [|by right|done|].
  2: { unfold err. keeps. }
  assert (mp = chars "/" ↔ l = []) as Hiff.
  { case_bool_decide as C1; case_bool_decide as C2; try done.
    - split; [|done]. intros _. destruct l as [|x l]; [done|]. destruct C2. by eexists.
    - split; [done|]. intros ->. done. }
  clear E2. apply (or_drop_spec _ l (fresh s) mp) in E as [([] & s3 & E3 & Hb4 & E)|?]; [|by right|done|by auto with keeps].
  destruct (Vfs_add_vfs_spec _ _ _ _ Hb4) as (s4 & E4 & Hl & _). unfold or_drop in E. rewrite E4 in E.
  injection E as <- <-. left. split; [done|]. split; [done|]. exists (fresh s). split; [|done].
  destruct Hb as [_ _ [_ Hin]]. set_solver.
Qed.
End mount_list.

(** ** What a file system promises *)

(** A file system as its users see it: a root, what each inode is, what a
    directory holds, what a file does, and which reads inside a file, by count and
    offset, the driver can serve. *)
Record FsView (I : Type) := mk_view {
  v_root : I;
  v_typ : I → VNodeType;
  v_entry : I → str → option I;
  v_data : I → list Z;
  v_serves : I → Z → Z → bool;
}.
Arguments mk_view {I}.
Arguments v_root {I}.
Arguments v_typ {I}.
Arguments v_entry {I}.
Arguments v_data {I}.
Arguments v_serves {I}.

(** The contract of a driver, for the file systems that satisfy [ok] (before and
    after [mount]): its methods answer from the view and do not change it, opening
    and closing do nothing, and reads from the start of a file are always served. *)
Class FsSpec (F I : Type) `{FsOps F I} (ok : bool → F → Prop) (view : F → FsView I) := {
  spec_root_typ : ∀ m f, ok m f → v_typ (view f) (v_root (view f)) = Directory;
  spec_entry_typ : ∀ m f i nm j, ok m f → v_typ (view f) i = Directory → v_entry (view f) i nm = Some j →
    v_typ (view f) j = Directory ∨ v_typ (view f) j = Regular;
  spec_mount : ∀ m f, ok m f → ∃ f', fs_mount f = (Ok tt, f') ∧ ok true f' ∧ view f' = view f;
  spec_root : ∀ m f, ok m f → ∃ f', fs_root f = (Ok (v_root (view f), Directory), f') ∧ ok m f' ∧ view f' = view f;
  spec_lookup : ∀ f i nm, ok true f → v_typ (view f) i = Directory →
    ∃ f', inode_lookup i nm f =
        (match v_entry (view f) i nm with Some j => Ok (j, v_typ (view f) j) | None => Err end, f') ∧
      ok true f' ∧ view f' = view f;
  spec_lookup_file : ∀ f i nm, ok true f → v_typ (view f) i = Regular → inode_lookup i nm f = (Panic, f);
  spec_open : ∀ i : I, inode_open i = (Ok tt, i) ∧ inode_close i = (Ok tt, i);
  spec_serves : ∀ f i n count, ok true f → v_typ (view f) i = Regular → inode_len i = Ok n →
    0 < n → 0 ≤ count ≤ n → v_serves (view f) i count 0 = true;
  spec_read : ∀ f i n count offset, ok true f → v_typ (view f) i = Regular → inode_len i = Ok n →
    0 < n → 0 ≤ count → 0 ≤ offset → offset + count ≤ n → v_serves (view f) i count offset = true →
    ∃ f', inode_read i count offset f =
        (Ok (take (Z.to_nat count) (drop (Z.to_nat offset) (v_data (view f) i))), f') ∧
      ok true f' ∧ view f' = view f;
}.

Lemma insert_dom {I} (t : gmap path (VNode I)) p v w : t !! p = Some v → ∀ q, is_Some (<[p := w]> t !! q) ↔ is_Some (t !! q).
Proof.
  intros Hv q. destruct (decide (q = p)) as [->|]; [|by rewrite lookup_insert_ne].
  rewrite lookup_insert_eq, Hv. by split; intros; eexists.
Qed.

(** ** Resolving paths *)

Section resolve.
Context {F I : Type} `{FsOps F I} (ok : bool → F → Prop) (view : F → FsView I) `{!FsSpec F I ok view}.
(** The mounts, by the path they cover; the file system at each address; the one
    mounted at "/". *)
Context (views : Z → FsView I) (root_addr box : Z).
Implicit Types (s : vfs_state F I) (mnt : gmap path Z).

(** The file system and inode a path names, and what is mounted on it. *)
Definition enter mnt (p : path) (n : Z * I) : Z * I :=
  match mnt !! p with Some b => (b, v_root (views b)) | None => n end.
Definition child_of (n : Z * I) (name : str) : outcome (Z * I) :=
  match v_typ (views n.1) n.2 with
  | Directory => of_option Err (pair n.1 <$> v_entry (views n.1) n.2 name)
  | Regular => Panic
  | _ => Undef
  end.
Fixpoint node_of mnt (p : path) : outcome (Z * I) :=
  match p with
  | [] => Ok (root_addr, v_root (views root_addr))
  | name :: q => n ← node_of mnt q; child_of (enter mnt q n) name
  end.

Fixpoint resolve mnt (cur : path) (parts : list str) : outcome path :=
  match parts with
  | [] => Ok cur
  | part :: rest =>
      if bool_decide (part = []) then resolve mnt cur rest
      else if bool_decide (part = chars "..") then
        match cur with _ :: parent => resolve mnt parent rest | [] => Err end
      else if bool_decide (part = chars ".") then resolve mnt cur rest
      else node_of mnt (part :: cur) ;; resolve mnt (part :: cur) rest
  end.

(** File system [a] is in its box, mounted, and is the one of the view. *)
Definition live s (a : Z) : Prop :=
  ∃ v f, vfss s !! a = Some v ∧ fs v = Some f ∧ data v = true ∧ ok true f ∧ view f = views a.

(** The same for a box that [mount] may not have run on yet. *)
Definition sound s (a : Z) : Prop :=
  ∃ v f, vfss s !! a = Some v ∧ fs v = Some f ∧ ok (data v) f ∧ view f = views a.
Lemma live_sound s a : live s a → sound s a.
Proof using. intros (v & f & ? & ? & E & ?). exists v, f. by rewrite E. Qed.

(** The tree agrees with the file systems mounted; [box] is a further box to
    keep sound, one that is not linked yet. *)
Record coherent mnt s (t : gmap path (VNode I)) : Prop := {
  co_root : ∃ r, vfss s !! ROOT_VFS = Some r ∧ next r ≠ None;
  co_tree : node_tree s = Some t;
  co_top : is_Some (t !! []) ∧ live s root_addr;
  co_mounts : ∀ p a, mnt !! p = Some a → live s a ∧ is_Some (t !! p);
  co_box : sound s box;
  co_parents : ∀ name q, is_Some (t !! (name :: q)) → is_Some (t !! q);
  co_nodes : ∀ p v, t !! p = Some v → vfs_mounted_here v = mnt !! p ∧
    node_of mnt p = Ok (parent_vfs v, inode v) ∧ file_typ v = v_typ (views (parent_vfs v)) (inode v);
}.

Lemma coherent_live mnt s t p n : coherent mnt s t → node_of mnt p = Ok n → live s n.1.
Proof using.
  intros Hco. revert n. induction p as [|name q IH]; intros n E; cbn [node_of] in E.
  - injection E as <-. apply (co_top _ _ _ Hco).
  - destruct (node_of mnt q) as [m| | | |]; try done. cbn [mbind outcome_bind] in E.
    unfold child_of in E. destruct (v_typ _ _); try done.
    destruct (v_entry _ _ _) as [j|]; [|done]. injection E as <-. cbn. unfold enter.
    destruct (mnt !! q) as [b|] eqn:Em; [apply (co_mounts _ _ _ Hco q b Em)|by apply IH].
Qed.

(** Running a method that keeps the view keeps coherence. *)
Lemma coherent_update mnt s t a v f f' : coherent mnt s t → vfss s !! a = Some v → fs v = Some f →
  ok (data v) f' → view f' = view f → coherent mnt (set_vfss (<[a := set_fs f' v]> (vfss s)) s) t.
Proof using.
  intros Hco Hv Hf Hok Hview.
  assert (∀ b, live s b → live (set_vfss (<[a := set_fs f' v]> (vfss s)) s) b) as Hl.
  { intros b (w & g & Hw & Hg & Hd & Hgok & Hgv). cbn. unfold live. cbn.
    destruct (decide (b = a)) as [->|].
    - rewrite lookup_insert_eq. exists (set_fs f' v), f'. simplify_eq. rewrite Hd in Hok. do 4 (split; [done|]). congruence.
    - rewrite lookup_insert_ne by done. by exists w, g. }
  destruct Hco as [(r & Hr & Hrn) Ht [H1 H2] Hm (w & g & Hw & Hg & Hgok & Hgv) Hp Hn]. constructor; try done.
  - cbn. destruct (decide (ROOT_VFS = a)) as [<-|].
    + rewrite lookup_insert_eq. exists (set_fs f' v). simplify_eq. done.
    + rewrite lookup_insert_ne by done. by exists r.
  - split; [done|by apply Hl].
  - intros p b E. destruct (Hm p b E). split; [by apply Hl|done].
  - unfold sound. cbn. destruct (decide (box = a)) as [->|].
    + rewrite lookup_insert_eq. exists (set_fs f' v), f'. simplify_eq. do 3 (split; [done|]). congruence.
    + rewrite lookup_insert_ne by done. by exists w, g.
Qed.

Lemma with_data_spec {A} mnt s t a (m : prog F A) o :
  coherent mnt s t → live s a →
  (∀ f, ok true f → view f = views a → ∃ f', m f = (o, f') ∧ ok true f' ∧ view f' = view f) →
  ∃ s', with_data a m s = (o, s') ∧ with_fs a m s = (o, s') ∧ coherent mnt s' t.
Proof using.
  intros Hco (v & f & Hv & Hf & Hd & Hok & Hview) Hm. destruct (Hm f Hok Hview) as (f' & E & Hok' & Hview').
  exists (set_vfss (<[a := set_fs f' v]> (vfss s)) s).
  assert (with_fs a m s = (o, set_vfss (<[a := set_fs f' v]> (vfss s)) s)) as Ew
    by (unfold with_fs; by rewrite Hv, Hf, E).
  split; [|split; [done|apply (coherent_update _ _ _ _ _ f); by rewrite ?Hd]].
  unfold with_data. rewrite (bind_Ok _ _ s v s) by (unfold vfs_get; by rewrite Hv). by rewrite Hd.
Qed.

Lemma Vfs_root_spec mnt s t a : coherent mnt s t → live s a →
  ∃ s', Vfs_root a s = (Ok (VNode_new (v_root (views a)) Directory a), s') ∧ coherent mnt s' t.
Proof using FsSpec0.
  intros Hco Hl. destruct (with_data_spec mnt s t a fs_root (Ok (v_root (views a), Directory)) Hco Hl)
    as (s' & _ & E & Hco').
  { intros f Hok <-. by apply (spec_root true). }
  exists s'. split; [|done]. unfold Vfs_root. by rewrite (bind_Ok _ _ _ _ _ E).
Qed.

Definition new_vnode (n : Z * I) : VNode I := VNode_new n.2 (v_typ (views n.1) n.2) n.1.

Lemma VNode_lookup_spec mnt s t v nm : coherent mnt s t → live s (parent_vfs v) →
  v_typ (views (parent_vfs v)) (inode v) = Directory ∨ v_typ (views (parent_vfs v)) (inode v) = Regular →
  ∃ s', VNode_lookup v nm s = (new_vnode <$> child_of (parent_vfs v, inode v) nm, s') ∧ coherent mnt s' t.
Proof using FsSpec0.
  intros Hco Hl Ht. unfold VNode_lookup, child_of. cbn [fst snd].
  set (a := parent_vfs v) in *. set (i := inode v) in *.
  destruct (with_data_spec mnt s t a (inode_lookup i nm)
    (match v_typ (views a) i with
     | Directory => match v_entry (views a) i nm with Some j => Ok (j, v_typ (views a) j) | None => Err end
     | _ => Panic end) Hco Hl) as (s' & E & _ & Hco').
  { intros f Hok Ev. rewrite <- Ev in *. destruct Ht as [Ht | Ht]; rewrite Ht.
    { destruct (spec_lookup f i nm Hok Ht) as (f' & -> & ?). by exists f'. }
    exists f. split; [by apply spec_lookup_file|done]. }
  exists s'. split; [|done]. unfold mbind at 1, prog_bind at 1. rewrite E.
  destruct Ht as [Ht | Ht]; rewrite Ht; [|done]. by destruct (v_entry _ _ _).
Qed.

(** Every node a path names is a directory or a file. *)
Lemma node_of_typ mnt s t p n : coherent mnt s t → node_of mnt p = Ok n →
  v_typ (views n.1) n.2 = Directory ∨ v_typ (views n.1) n.2 = Regular.
Proof using FsSpec0.
  intros Hco E. pose proof (coherent_live _ _ _ _ _ Hco E) as (v & f & _ & _ & _ & Hok & Hview).
  destruct p as [|name q]; cbn [node_of] in E.
  - injection E as <-. cbn in *. left. rewrite <- Hview. by apply (spec_root_typ true).
  - destruct (node_of mnt q) as [m| | | |]; try done. cbn [mbind outcome_bind] in E.
    unfold child_of in E. destruct (v_typ (views (enter mnt q m).1) _) eqn:Et; try done.
    destruct (v_entry _ _ _) as [j|] eqn:Ee; [|done]. injection E as <-. cbn [fst snd] in *.
    rewrite <- Hview in *. by eapply (spec_entry_typ true f _ name j).
Qed.

(** A node just looked up joins the tree. *)
Lemma coherent_insert mnt s t p (nm : str) n : coherent mnt s t → is_Some (t !! p) → t !! (nm :: p) = None →
  node_of mnt (nm :: p) = Ok n →
  coherent mnt (set_tree (Some (<[nm :: p := new_vnode n]> t)) s) (<[nm :: p := new_vnode n]> t).
Proof using.
  intros [Hr Ht [H1 H2] Hm Hb Hp Hn] Hpin Hnone E.
  assert (∀ q, is_Some (t !! q) → is_Some (<[nm :: p := new_vnode n]> t !! q)) as Hmono.
  { intros q Hq. destruct (decide (q = nm :: p)) as [->|]; [rewrite lookup_insert_eq; by eexists|].
    by rewrite lookup_insert_ne. }
  constructor; try done.
  - split; [by apply Hmono|done].
  - intros q a Eq. destruct (Hm q a Eq). split; [done|by apply Hmono].
  - intros name q. destruct (decide (name :: q = nm :: p)) as [[= -> ->]|].
    + intros _. by apply Hmono.
    + rewrite lookup_insert_ne by done. intros Hq. by apply Hmono, (Hp name).
  - intros q v. destruct (decide (q = nm :: p)) as [->|].
    + rewrite lookup_insert_eq. intros [= <-]. rewrite E. split; [|by destruct n]. cbn.
      destruct (mnt !! (nm :: p)) as [a|] eqn:Em; [|done].
      destruct (Hm _ _ Em) as [_ Hsome]. rewrite Hnone in Hsome. by destruct Hsome.
    + rewrite lookup_insert_ne by done. apply Hn.
Qed.

Lemma node_get_spec s t p v : node_tree s = Some t → t !! p = Some v → node_get p s = (Ok v, s).
Proof using. intros Ht Hv. unfold node_get. rewrite Ht. cbn. by rewrite Hv. Qed.

(** The lookup of an ordinary name that is not cached. *)
Lemma uncached_lookup_spec mnt s t p v (nm : str) : coherent mnt s t → t !! p = Some v →
  ∃ s', (match vfs_mounted_here v with
         | Some vfs => root ← Vfs_root vfs; VNode_lookup root nm
         | None => VNode_lookup v nm
         end) s = (new_vnode <$> node_of mnt (nm :: p), s') ∧ coherent mnt s' t.
Proof using FsSpec0.
  intros Hco Hv. destruct (co_nodes _ _ _ Hco p v Hv) as (Hmh & Hno & Hft).
  cbn [node_of]. rewrite Hno, Hmh. cbn [mbind outcome_bind]. unfold enter.
  destruct (mnt !! p) as [b|] eqn:Em.
  - destruct (co_mounts _ _ _ Hco p b Em) as [Hl _].
    destruct (Vfs_root_spec mnt s t b Hco Hl) as (s1 & E1 & Hco1). rewrite (bind_Ok _ _ _ _ _ E1).
    destruct (co_mounts _ _ _ Hco1 p b Em) as [Hl1 _].
    apply (VNode_lookup_spec mnt s1 t (VNode_new (v_root (views b)) Directory b) nm Hco1 Hl1).
    left. destruct Hl as (w & f & _ & _ & _ & Hok & Ev). cbn. rewrite <- Ev. by apply (spec_root_typ true).
  - apply VNode_lookup_spec; [done| |].
    + by apply (coherent_live _ _ _ _ _ Hco Hno).
    + by apply (node_of_typ _ _ _ _ _ Hco Hno).
Qed.

(** Where a name leads from a node. *)
Definition lookup_of mnt (p : path) (nm : str) : outcome path :=
  if bool_decide (nm = chars "..") then match p with _ :: parent => Ok parent | [] => Err end
  else if bool_decide (nm = chars ".") then Ok p
  else node_of mnt (nm :: p) ;; Ok (nm :: p).
Lemma resolve_one mnt p (nm : str) : nm ≠ [] → resolve mnt p [nm] = lookup_of mnt p nm.
Proof using. intros Hne. cbn [resolve]. rewrite bool_decide_false by done. reflexivity. Qed.

(** The nodes known before are still there, unchanged. *)
Lemma tree_lookup_Ok mnt s t p (nm : str) : coherent mnt s t → is_Some (t !! p) →
  ∃ s' t', tree_lookup p nm s = (lookup_of mnt p nm, s') ∧ coherent mnt s' t' ∧ t ⊆ t' ∧
    (∀ q, lookup_of mnt p nm = Ok q → is_Some (t' !! q)) ∧
    (∀ q, is_Some (t' !! q) → is_Some (t !! q) ∨ lookup_of mnt p nm = Ok q).
Proof using FsSpec0.
  intros Hco [v Hv]. unfold tree_lookup. unfold lookup_of.
  case_bool_decide as C1.
  { destruct p as [|x q]; exists s, t; (split; [done|]); (split; [done|]); (split; [done|]);
      (split; [|by left]); [done|].
    intros q' [= <-]. apply (co_parents _ _ _ Hco x). by exists v. }
  case_bool_decide as C2.
  { exists s, t. do 3 (split; [done|]). split; [|by left]. intros q [= <-]. by exists v. }
  rewrite (bind_Ok _ _ s (Some t) s) by (unfold gets; by rewrite (co_tree _ _ _ Hco)).
  cbn [option_bind mbind]. case_bool_decide as C3.
  { destruct C3 as [w Hw]. destruct (co_nodes _ _ _ Hco _ _ Hw) as (_ & E & _).
    exists s, t. rewrite E. do 3 (split; [done|]). split; [|by left]. intros q [= <-]. by exists w. }
  rewrite (bind_Ok _ _ s v s) by (by apply (node_get_spec _ t), Hv; apply (co_tree _ _ _ Hco)).
  destruct (uncached_lookup_spec mnt s t p v nm Hco Hv) as (s1 & E1 & Hco1).
  unfold mbind at 1, prog_bind at 1. rewrite E1.
  match goal with |- context [node_of mnt ?x] => destruct (node_of mnt x) as [n| | | |] eqn:En end; cbn [fmap outcome_fmap mbind outcome_bind];
    try (exists s1, t; do 3 (split; [done|]); split; [done|by left]).
  assert (t !! (nm :: p) = None) as Hnone by (by apply eq_None_not_Some).
  eexists _, _. split; [reflexivity|]. split; [|split; [|split]].
  - rewrite (co_tree _ _ _ Hco1). apply coherent_insert; [done|by exists v|done|done].
  - by apply insert_subseteq.
  - intros q [= <-]. rewrite lookup_insert_eq. by eexists.
  - intros q. destruct (decide (q = nm :: p)) as [->|]; [by right|]. rewrite lookup_insert_ne by done. by left.
Qed.
Lemma tree_lookup_spec mnt s t p (nm : str) : coherent mnt s t → is_Some (t !! p) → nm ≠ [] →
  ∃ s' t', tree_lookup p nm s = (resolve mnt p [nm], s') ∧ coherent mnt s' t' ∧ t ⊆ t' ∧
    (∀ q, resolve mnt p [nm] = Ok q → is_Some (t' !! q)) ∧
    (∀ q, is_Some (t' !! q) → is_Some (t !! q) ∨ resolve mnt p [nm] = Ok q).
Proof using FsSpec0. intros Hco Hp Hne. rewrite resolve_one by done. by apply tree_lookup_Ok. Qed.

Lemma resolve_cons mnt p (part : str) (rest : list str) : part ≠ [] →
  resolve mnt p (part :: rest) = q ← resolve mnt p [part]; resolve mnt q rest.
Proof using.
  intros Hne. cbn [resolve]. rewrite bool_decide_false by done.
  case_bool_decide; [by destruct p|]. case_bool_decide; [done|].
  match goal with |- context [node_of mnt ?x] => by destruct (node_of mnt x) end.
Qed.

Lemma resolve_suffix mnt (parts : list str) p q : chars ".." ∉ parts → resolve mnt p parts = Ok q → p `suffix_of` q.
Proof using.
  revert p. induction parts as [|part parts IH]; intros p Hd E.
  - by injection E as ->.
  - rewrite not_elem_of_cons in Hd. destruct Hd as [Hd1 Hd]. cbn [resolve] in E.
    case_bool_decide; [by apply IH|]. rewrite bool_decide_false in E by done.
    case_bool_decide; [by apply IH|].
    match type of E with context [node_of mnt ?x] => destruct (node_of mnt x); try done end.
    apply IH in E; [|done]. etrans; [|exact E]. by apply suffix_cons_r.
Qed.

(** The nodes a path goes through. *)
Fixpoint visits mnt (p : path) (parts : list str) : list path :=
  match parts with
  | [] => []
  | part :: rest =>
      if bool_decide (part = []) then visits mnt p rest
      else match lookup_of mnt p part with Ok q => q :: visits mnt q rest | _ => [] end
  end.

Lemma visits_suffix mnt (parts : list str) p q r : chars ".." ∉ parts → resolve mnt p parts = Ok q →
  r ∈ visits mnt p parts → r `suffix_of` q.
Proof using.
  revert p. induction parts as [|part parts IH]; intros p Hd E Hr; [by apply not_elem_of_nil in Hr|].
  rewrite not_elem_of_cons in Hd. destruct Hd as [_ Hd]. cbn [visits] in Hr. case_bool_decide as Hp.
  - subst. by apply (IH p).
  - rewrite resolve_cons, resolve_one in E by done. destruct (lookup_of mnt p part) as [p'| | | |]; try done.
    apply elem_of_cons in Hr as [->|Hr]; [by apply (resolve_suffix mnt parts)|by apply (IH p')].
Qed.

Lemma open_loop_spec mnt (parts : list str) s t p : coherent mnt s t → is_Some (t !! p) →
  ∃ s' t', open_loop p parts s = (resolve mnt p parts, s') ∧ coherent mnt s' t' ∧ t ⊆ t' ∧
    (∀ q, resolve mnt p parts = Ok q → is_Some (t' !! q)) ∧
    (∀ r, is_Some (t' !! r) → is_Some (t !! r) ∨ r ∈ visits mnt p parts).
Proof using FsSpec0.
  revert s t p. induction parts as [|part parts IH]; intros s t p Hco Hp.
  - exists s, t. do 3 (split; [done|]). split; [by intros q [= <-]|by left].
  - cbn [visits open_loop]. case_bool_decide as Hne; [subst; by apply (IH s t p)|].
    rewrite resolve_cons, resolve_one by done.
    destruct (tree_lookup_Ok mnt s t p part Hco Hp) as (s1 & t1 & E1 & Hco1 & Hsub & Hin & Hnew).
    unfold mbind at 1, prog_bind at 1. rewrite E1.
    destruct (lookup_of mnt p part) as [q| | | |];
      try (exists s1, t1; do 3 (split; [done|]); split; [done|]; intros r Hr; left; by destruct (Hnew r Hr)).
    destruct (IH s1 t1 q Hco1 (Hin q eq_refl)) as (s2 & t2 & E2 & Hco2 & Hsub2 & Hin2 & Hnew2).
    exists s2, t2. do 2 (split; [done|]). split; [by etrans|]. split; [done|].
    intros r Hr. destruct (Hnew2 r Hr) as [Hr1|?]; [|right; by constructor].
    destruct (Hnew r Hr1) as [?|[= <-]]; [by left|]. right. by constructor.
Qed.

Lemma vfs_open_visits mnt s t p : coherent mnt s t →
  ∃ s' t', vfs_open p s = (resolve mnt [] (split_on 47 p), s') ∧ coherent mnt s' t' ∧ t ⊆ t' ∧
    (∀ q, resolve mnt [] (split_on 47 p) = Ok q → is_Some (t' !! q)) ∧
    (∀ r, is_Some (t' !! r) → is_Some (t !! r) ∨ r ∈ visits mnt [] (split_on 47 p)).
Proof using FsSpec0.
  intros Hco. destruct (co_root _ _ _ Hco) as (r & Hr & Hn). unfold vfs_open.
  rewrite (bind_Ok _ _ s r s) by (unfold vfs_get; by rewrite Hr).
  rewrite (bind_Ok _ _ s (Some t) s) by (unfold gets; by rewrite (co_tree _ _ _ Hco)).
  rewrite !bool_decide_false by done. apply open_loop_spec; [done|apply (co_top _ _ _ Hco)].
Qed.

(** Without "..", the new nodes lie on the way to the result. *)
Lemma vfs_open_Ok mnt s t p : coherent mnt s t →
  ∃ s' t', vfs_open p s = (resolve mnt [] (split_on 47 p), s') ∧ coherent mnt s' t' ∧ t ⊆ t' ∧
    (∀ q, resolve mnt [] (split_on 47 p) = Ok q → is_Some (t' !! q)) ∧
    (∀ q r, chars ".." ∉ split_on 47 p → resolve mnt [] (split_on 47 p) = Ok q → is_Some (t' !! r) →
      is_Some (t !! r) ∨ r `suffix_of` q).
Proof using FsSpec0.
  intros Hco. destruct (vfs_open_visits mnt s t p Hco) as (s' & t' & E & Hco' & Hsub & Hin & Hnew).
  exists s', t'. do 4 (split; [done|]). intros q r Hd Hq Hr. destruct (Hnew r Hr); [by left|right].
  by apply (visits_suffix mnt (split_on 47 p) []).
Qed.


(** *** Mounting *)

(** What coherence depends on in the store. *)
Definition contents (v : Vfs F) : option F * bool := (fs v, data v).

Lemma contents_transfer s s' a : contents <$> vfss s' !! a = contents <$> vfss s !! a →
  (live s a → live s' a) ∧ (sound s a → sound s' a).
Proof using.
  intros E. split.
  - intros (v & f & Hv & Hf & Hd & Hok). rewrite Hv in E. apply fmap_Some in E as (v' & Hv' & [= E1 E2]).
    exists v', f. by rewrite <- E1, <- E2.
  - intros (v & f & Hv & Hf & Hok). rewrite Hv in E. apply fmap_Some in E as (v' & Hv' & [= E1 E2]).
    exists v', f. by rewrite <- E1, <- E2.
Qed.

Lemma coherent_transfer mnt s s' t : coherent mnt s t →
  (∃ r, vfss s' !! ROOT_VFS = Some r ∧ next r ≠ None) → node_tree s' = Some t → sound s' box →
  (∀ a, live s a → live s' a) → coherent mnt s' t.
Proof using.
  intros [Hr Ht [H1 H2] Hm Hb Hp Hn] Hr' Ht' Hb' Hl. constructor; try done.
  - split; [done|by apply Hl].
  - intros p a E. destruct (Hm p a E). split; [by apply Hl|done].
Qed.

(** Mounting at [p] changes what paths below [p] name, and nothing else. *)
Definition leaf (t : gmap path (VNode I)) (p : path) : Prop := ∀ name q, t !! (q ++ name :: p) = None.

Lemma leaf_node_of mnt t p a q : leaf t p → is_Some (t !! q) →
  (∀ name q, is_Some (t !! (name :: q)) → is_Some (t !! q)) →
  node_of (<[p := a]> mnt) q = node_of mnt q.
Proof using.
  intros Hleaf Hq Hpar. induction q as [|name q IH]; [done|].
  cbn [node_of]. rewrite IH by by apply (Hpar name). unfold enter. rewrite lookup_insert_ne; [done|].
  intros ->. specialize (Hleaf name []). cbn in Hleaf. rewrite Hleaf in Hq. by destruct Hq.
Qed.

Lemma coherent_mount mnt s s' t p v a : coherent mnt s t → t !! p = Some v → leaf t p → live s' a →
  (∃ r, vfss s' !! ROOT_VFS = Some r ∧ next r ≠ None) →
  node_tree s' = Some (<[p := set_mounted (Some a) v]> t) → (∀ b, live s b → live s' b) → sound s' box →
  coherent (<[p := a]> mnt) s' (<[p := set_mounted (Some a) v]> t).
Proof using.
  intros [Hr Ht [H1 H2] Hm Hb Hp Hn] Hv Hleaf Ha Hr' Ht' Hl Hb'.
  pose proof (insert_dom t p v (set_mounted (Some a) v) Hv) as Hdom.
  constructor; try done.
  - split; [by apply Hdom|by apply Hl].
  - intros q b. destruct (decide (q = p)) as [->|].
    + rewrite lookup_insert_eq. intros [= <-]. split; [done|]. apply Hdom. by exists v.
    + rewrite lookup_insert_ne by done. intros E. destruct (Hm q b E). split; [by apply Hl|by apply Hdom].
  - intros name q Hq. apply Hdom, (Hp name), Hdom, Hq.
  - intros q w Hw. assert (is_Some (t !! q)) as Hq by (apply Hdom; by exists w).
    rewrite (leaf_node_of mnt t p a q Hleaf Hq Hp). destruct (decide (q = p)) as [->|].
    + rewrite lookup_insert_eq in Hw. injection Hw as <-. rewrite lookup_insert_eq.
      destruct (Hn p v Hv) as (_ & ? & ?). done.
    + rewrite lookup_insert_ne in Hw by done. rewrite lookup_insert_ne by done. by apply Hn.
Qed.

End resolve.

Section mounting.
Context {F I : Type} `{FsOps F I} (ok : bool → F → Prop) (view : F → FsView I) `{!FsSpec F I ok view}.
Context (views : Z → FsView I).
Implicit Types (s : vfs_state F I) (l : list (Z * str)).

Lemma Vfs_mount_Ok s a : sound ok view views s a →
  ∃ s', Vfs_mount a s = (Ok tt, s') ∧ links s' = links s ∧ fresh s' = fresh s ∧ node_tree s' = node_tree s ∧
    live ok view views s' a ∧ ∀ b, b ≠ a → vfss s' !! b = vfss s !! b.
Proof using FsSpec0.
  intros (v & f & Hv & Hf & Hok & Hview). destruct (spec_mount _ f Hok) as (f' & E & Hok' & Hview').
  eexists. split.
  { unfold Vfs_mount. rewrite (bind_Ok _ _ s tt (set_vfss (<[a := set_fs f' v]> (vfss s)) s)).
    - unfold vfs_modify. cbn [vfss set_vfss]. rewrite lookup_insert_eq. reflexivity.
    - unfold with_fs. by rewrite Hv, Hf, E. }
  cbn [vfss set_vfss fresh node_tree]. rewrite insert_insert_eq.
  split; [by apply (links_update s a v)|]. split; [done|]. split; [done|]. split.
  - exists (set_data (set_fs f' v)), f'. cbn [vfss set_vfss]. rewrite lookup_insert_eq.
    do 4 (split; [done|]). congruence.
  - intros b Hb. by rewrite lookup_insert_ne.
Qed.

Lemma fresh_free s l : mounts s l → vfss s !! fresh s = None.
Proof using.
  intros [_ _ _ Hd [Hf0 Hf]]. apply not_elem_of_dom. rewrite <- dom_links, Hd.
  rewrite elem_of_union, elem_of_singleton, elem_of_list_to_set. unfold ROOT_VFS. intros [?|Hin]; [lia|].
  rewrite Forall_forall in Hf. specialize (Hf _ Hin). lia.
Qed.

(** The box is linked after [mount], which makes it live. *)
Lemma link_box s l a mp : boxed s l a mp → sound ok view views s a →
  ∃ s', (Vfs_mount a ;; Vfs_add_vfs ROOT_VFS a) s = (Ok tt, s') ∧ mounts s' (l ++ [(a, mp)]) ∧
    node_tree s' = node_tree s ∧ live ok view views s' a ∧
    (∀ b, live ok view views s b → live ok view views s' b) ∧
    ∃ r, vfss s' !! ROOT_VFS = Some r ∧ next r ≠ None.
Proof using FsSpec0.
  intros Hb Hs. destruct (Vfs_mount_Ok s a Hs) as (s1 & E1 & L1 & F1 & T1 & Hl1 & Hne).
  apply (boxed_links s s1) in Hb; [|done|done].
  destruct (Vfs_add_vfs_spec _ _ _ _ Hb) as (s2 & E2 & Hm & T2 & Hc).
  exists s2. rewrite (bind_Ok _ _ _ _ _ E1). split; [done|]. split; [done|]. split; [congruence|].
  assert (∀ b, live ok view views s1 b → live ok view views s2 b) as Hl2
    by (intros b; apply contents_transfer, Hc).
  split; [by apply Hl2|]. split.
  - intros b Hlb. apply Hl2. destruct (decide (b = a)) as [->|]; [done|].
    revert Hlb. apply contents_transfer. by rewrite Hne.
  - destruct (mounts_root _ _ Hm) as (r & Hr & Hn). exists r. split; [done|]. rewrite Hn, fmap_app.
    by destruct (l.*1).
Qed.

Lemma mount_root_Ok s f : mounts s [] → ok false f → views (fresh s) = view f →
  ∃ s' t, add_vfs (chars "/") f s = (Ok tt, s') ∧ mounts s' [(fresh s, chars "/")] ∧
    coherent ok view views (fresh s) (fresh s) ∅ s' t ∧ ∀ p, is_Some (t !! p) → p = [].
Proof using FsSpec0.
  intros Hm Hok Hview. pose proof (fresh_free _ _ Hm) as Hfree.
  destruct (vfs_box_boxed s [] (Vfs_new f (chars "/")) (chars "/") Hm eq_refl) as (s1 & E1 & Hb & V1 & T1).
  set (a := fresh s) in *.
  destruct (mounts_root _ _ Hm) as (r & Hr & Hn).
  assert (vfss s1 !! ROOT_VFS = Some r) as Hr1.
  { rewrite V1, lookup_insert_ne; [done|]. intros E. rewrite E, Hr in Hfree. done. }
  destruct (spec_root false f Hok) as (f' & Er & Hok' & Hview').
  set (v' := set_fs f' (Vfs_new f (chars "/"))).
  set (s2 := set_vfss (<[a := v']> (vfss s1)) s1).
  assert (Vfs_root a s1 = (Ok (VNode_new (v_root (view f)) Directory a), s2)) as E2.
  { unfold Vfs_root, with_fs, mbind, prog_bind.
    assert (vfss s1 !! a = Some (Vfs_new f (chars "/"))) as -> by (by rewrite V1, lookup_insert_eq).
    cbn [fs Vfs_new]. by rewrite Er. }
  set (top := VNode_new (v_root (view f)) Directory a) in *.
  set (s3 := set_tree (Some {[ [] := top ]}) s2).
  assert (boxed s3 [] a (chars "/")) as Hb3.
  { apply (boxed_links s1); [|done|done]. unfold s3, s2.
    apply (links_update s1 a (Vfs_new f (chars "/"))); [by rewrite V1, lookup_insert_eq|done]. }
  assert (sound ok view views s3 a) as Hs3.
  { exists v', f'. cbn. rewrite lookup_insert_eq. do 3 (split; [done|]). congruence. }
  destruct (link_box s3 [] a _ Hb3 Hs3) as (s4 & E4 & Hm4 & T4 & Hl4 & _ & Hroot).
  exists s4, {[ [] := top ]}. split; [|split; [done|split]].
  3: { intros p [v Hv]. by apply lookup_singleton_Some in Hv as [<- _]. }
  - unfold add_vfs. rewrite (bind_Ok _ _ _ _ _ E1). unfold or_drop.
    rewrite (bind_Ok _ _ s1 r s1) by (unfold vfs_get; by rewrite Hr1). rewrite Hn.
    rewrite bool_decide_true by done. rewrite bool_decide_false by (by intros [? ?]).
    rewrite (bind_Ok _ _ s1 tt s3); [by rewrite E4|]. by rewrite (bind_Ok _ _ _ _ _ E2).
  - constructor; [exact Hroot|by rewrite T4| |done|by apply live_sound| |].
    + split; [by rewrite lookup_singleton_eq; eexists|done].
    + intros name q [v Hv]. rewrite lookup_singleton_ne in Hv by done. done.
    + intros p v Hv. apply lookup_singleton_Some in Hv as [<- <-]. split; [done|]. cbn [node_of top VNode_new parent_vfs inode file_typ].
      rewrite Hview. split; [done|]. symmetry. by apply (spec_root_typ false).
Qed.

Lemma mount_root s f : mounts s [] → ok false f → views (fresh s) = view f →
  ∃ s' t, add_vfs (chars "/") f s = (Ok tt, s') ∧ mounts s' [(fresh s, chars "/")] ∧
    coherent ok view views (fresh s) (fresh s) ∅ s' t.
Proof using FsSpec0.
  intros Hm Hok Hview. destruct (mount_root_Ok s f Hm Hok Hview) as (s' & t & ? & ? & ? & _). by exists s', t.
Qed.

Lemma coherent_rebox root box box' mnt s t : coherent ok view views root box mnt s t →
  sound ok view views s box' → coherent ok view views root box' mnt s t.
Proof using. intros [? ? ? ? _ ? ?] ?. by constructor. Qed.

(** A box that nothing points to yet does not disturb the tree. *)
Lemma box_coherent root box mnt s s1 t l f mp : coherent ok view views root box mnt s t → mounts s l → ok false f →
  views (fresh s) = view f → vfss s1 = <[fresh s := Vfs_new f mp]> (vfss s) → node_tree s1 = node_tree s →
  (∀ b v, vfss s !! b = Some v → vfss s1 !! b = Some v) ∧ coherent ok view views root (fresh s) mnt s1 t.
Proof using.
  intros Hco Hm Hok Hview V1 T1. pose proof (fresh_free _ _ Hm) as Hfree. destruct (co_root _ _ _ _ _ _ _ _ Hco) as (r & Hr & Hn).
  assert (∀ b v, vfss s !! b = Some v → vfss s1 !! b = Some v) as Hother.
  { intros b v Hv. rewrite V1, lookup_insert_ne; [done|]. intros <-. by rewrite Hv in Hfree. }
  split; [done|]. assert (sound ok view views s1 (fresh s)) as Hsa.
  { exists (Vfs_new f mp), f. by rewrite V1, lookup_insert_eq. }
  apply (coherent_rebox root box); [|done]. apply (coherent_transfer _ _ _ _ _ mnt s); try done.
  - exists r. split; [by apply Hother|done].
  - rewrite T1. apply (co_tree _ _ _ _ _ _ _ _ Hco).
  - destruct (co_box _ _ _ _ _ _ _ _ Hco) as (v & g & Hv & Hg). exists v, g. split; [by apply Hother|done].
  - intros b (v & g & Hv & Hg). exists v, g. split; [by apply Hother|done].
Qed.

(** The tree gains the nodes on the way to the mount point. *)
Lemma mount_below_tree root box mnt s t l mp f p : coherent ok view views root box mnt s t →
  mounts s l → ok false f → views (fresh s) = view f → mp ≠ chars "/" → chars ".." ∉ split_on 47 mp →
  resolve views root mnt [] (split_on 47 mp) = Ok p → leaf t p →
  ∃ s' t', add_vfs mp f s = (Ok tt, s') ∧ mounts s' (l ++ [(fresh s, mp)]) ∧
    coherent ok view views root (fresh s) (<[p := fresh s]> mnt) s' t' ∧
    (∀ r, is_Some (t !! r) → is_Some (t' !! r)) ∧ (∀ r, is_Some (t' !! r) → is_Some (t !! r) ∨ r `suffix_of` p).
Proof using FsSpec0.
  intros Hco Hm Hok Hview Hmp Hdots Hres Hleaf.
  destruct (vfs_box_boxed s l (Vfs_new f mp) mp Hm eq_refl) as (s1 & E1 & Hb & V1 & T1). set (a := fresh s) in *.
  destruct (co_root _ _ _ _ _ _ _ _ Hco) as (r & Hr & Hn).
  destruct (box_coherent root box mnt s s1 t l f mp Hco Hm Hok Hview V1 T1) as [Hother Hco1]. fold a in Hco1.
  destruct (vfs_open_Ok ok view views root a mnt s1 t mp Hco1) as (s2 & t2 & E2 & Hco2 & Hsub2 & _ & Hnew2).
  destruct (vfs_open_Ok ok view views root a mnt s2 t2 mp Hco2) as (s3 & t3 & E3 & Hco3 & Hsub3 & Hin3 & Hnew3).
  rewrite Hres in *. destruct (Hin3 p eq_refl) as [v Hv].
  assert (leaf t3 p) as Hleaf3.
  { intros name q. apply eq_None_not_Some. intros Hq.
    assert (¬ q ++ name :: p `suffix_of` p) as Hns.
    { intros Hs. apply suffix_length in Hs. rewrite length_app in Hs. cbn in Hs. lia. }
    destruct (Hnew3 p _ Hdots eq_refl Hq) as [Hq2|]; [|done].
    destruct (Hnew2 p _ Hdots eq_refl Hq2) as [Hq1|]; [|done]. rewrite Hleaf in Hq1. by destruct Hq1. }
  set (s4 := set_tree (Some (<[p := set_mounted (Some a) v]> t3)) s3).
  assert (node_modify p (set_mounted (Some a)) s3 = (Ok tt, s4)) as E4.
  { unfold node_modify. rewrite (co_tree _ _ _ _ _ _ _ _ Hco3). cbn. by rewrite Hv. }
  assert (boxed s4 l a mp) as Hb4.
  { destruct (keeps_vfs_open mp s1) as [L2 F2]. rewrite E2 in L2, F2.
    destruct (keeps_vfs_open mp s2) as [L3 F3]. rewrite E3 in L3, F3. cbn in L2, F2, L3, F3.
    apply (boxed_links s1); [|cbn; congruence|done]. unfold links in *. cbn. congruence. }
  assert (sound ok view views s4 a) as Hs4 by apply (co_box _ _ _ _ _ _ _ _ Hco3).
  destruct (link_box s4 l a mp Hb4 Hs4) as (s5 & E5 & Hm5 & T5 & Hl5 & Hlive & Hroot).
  exists s5, (<[p := set_mounted (Some a) v]> t3). split; [|split; [done|]].
  - unfold add_vfs. rewrite (bind_Ok _ _ _ _ _ E1). unfold or_drop.
    rewrite (bind_Ok _ _ s1 r s1) by (unfold vfs_get; by rewrite (Hother _ _ Hr)).
    rewrite (bool_decide_false (mp = chars "/")), (bool_decide_false (next r = None)) by done.
    rewrite (bind_Ok _ _ s1 tt s4); [by rewrite E5|].
    rewrite (bind_Ok _ _ s1 (Some p) s2) by (unfold attempt; by rewrite E2).
    by rewrite (bind_Ok _ _ _ _ _ E3).
  - split; [apply (coherent_mount ok view views root a mnt s3); try done; by apply live_sound|].
    pose proof (insert_dom t3 p v (set_mounted (Some a) v) Hv) as Hdom.
    split; intros q.
    + intros Hq. apply Hdom. eapply lookup_weaken_is_Some, Hsub3. by eapply lookup_weaken_is_Some, Hsub2.
    + intros Hq%Hdom. destruct (Hnew3 p q Hdots eq_refl Hq) as [Hq2|]; [by apply (Hnew2 p)|by right].
Qed.
Lemma mount_below root box mnt s t l mp f p : coherent ok view views root box mnt s t →
  mounts s l → ok false f → views (fresh s) = view f → mp ≠ chars "/" → chars ".." ∉ split_on 47 mp →
  resolve views root mnt [] (split_on 47 mp) = Ok p → leaf t p →
  ∃ s' t', add_vfs mp f s = (Ok tt, s') ∧ mounts s' (l ++ [(fresh s, mp)]) ∧
    coherent ok view views root (fresh s) (<[p := fresh s]> mnt) s' t'.
Proof using FsSpec0.
  intros Hco Hm Hok Hview Hmp Hdots Hres Hleaf.
  destruct (mount_below_tree root box mnt s t l mp f p Hco Hm Hok Hview Hmp Hdots Hres Hleaf) as (s' & t' & ? & ? & ? & _).
  by exists s', t'.
Qed.

(** Mounting where nothing can go wrong succeeds and the tree then names what
    it should: the first mount at "/" makes the tree of that file system; a mount
    on a path that exists, and that nothing below is open yet, puts the new file
    system's root there and leaves every other path alone. *)
Lemma mount_spec s l f mp : mounts s l → ok false f → views (fresh s) = view f →
  (l = [] → mp = chars "/" → ∃ s' t, add_vfs mp f s = (Ok tt, s') ∧ mounts s' [(fresh s, mp)] ∧
    coherent ok view views (fresh s) (fresh s) ∅ s' t) ∧
  (∀ root box mnt t p, coherent ok view views root box mnt s t →
    mp ≠ chars "/" → chars ".." ∉ split_on 47 mp →
    resolve views root mnt [] (split_on 47 mp) = Ok p → leaf t p →
    ∃ s' t', add_vfs mp f s = (Ok tt, s') ∧ mounts s' (l ++ [(fresh s, mp)]) ∧
      coherent ok view views root (fresh s) (<[p := fresh s]> mnt) s' t').
Proof using FsSpec0.
  intros Hm Hok Hview. split.
  - intros -> ->. by apply mount_root.
  - intros root box mnt t p Hco. by apply (mount_below root box mnt s t).
Qed.
End mounting.

(** ** Unmounting, reads and handles *)

Section nodes.
Context {F I : Type} `{FsOps F I}.
Implicit Types (s : vfs_state F I) (l : list (Z * str)).

(** [del_vfs] never clears [vfs_mounted_here]: after it has removed a mount
    that a directory of the tree carries, looking up any name not yet cached in
    that directory follows a freed [Vfs]. *)
Lemma del_vfs_dangles ok view views root box mnt s t l mp p a nm :
  coherent ok view views root box mnt s t → mounts s l → mp ≠ chars "/" → path_parts mp ≠ [] →
  len (path_parts mp) < 2^64 → busy mp l = false → first_addr mp l = Some a → mnt !! p = Some a →
  nm ≠ chars ".." → nm ≠ chars "." → t !! (nm :: p) = None →
  ∃ s', del_vfs mp s = (Ok tt, s') ∧ tree_lookup p nm s' = (Undef, s').
Proof.
  intros Hco Hm Hmp Hne Hlen Hb Ha Hp Hn1 Hn2 Hnone.
  destruct (del_vfs_spec s l mp Hm) as (s' & E & _ & Ht & Hfree); [by right|done|].
  exists s'. assert (mount_remove mp l = Some (remove_first mp l)) as Er.
  { destruct l as [|x l']; [done|]. cbn [mount_remove]. rewrite bool_decide_false by done. by rewrite Hb. }
  rewrite Er in E. split; [exact E|].
  destruct (co_mounts _ _ _ _ _ _ _ _ Hco p a Hp) as [_ [v Hv]].
  destruct (co_nodes _ _ _ _ _ _ _ _ Hco p v Hv) as [Hh _]. rewrite Hp in Hh.
  pose proof (co_tree _ _ _ _ _ _ _ _ Hco) as Htree. rewrite <- Ht in Htree.
  unfold tree_lookup. rewrite !bool_decide_false by done.
  rewrite (bind_Ok _ _ s' (Some t) s') by (unfold gets; by rewrite Htree).
  cbn [option_bind mbind]. rewrite bool_decide_false.
  2: { rewrite Hnone. by intros [? ?]. }
  rewrite (bind_Ok _ _ s' v s') by (by apply (node_get_spec s' t)). rewrite Hh.
  unfold Vfs_root, with_fs, mbind, prog_bind. by rewrite (Hfree Hmp Hb a Ha).
Qed.

Lemma VNode_read_Ok s v n count offset :
  inode_len (inode v) = Ok n → 0 ≤ n ≤ 2^63 → fits 64 count → fits 64 offset →
  VNode_read v count offset s =
    (if (offset <? n) && (offset + count <=? n)
     then with_data (parent_vfs v) (inode_read (inode v) count offset) s else (Err, s)).
Proof.
  intros Hlen Hn Hc Ho. unfold VNode_read. rewrite (bind_Ok _ _ s n s) by (by rewrite Hlen). unfold fits in *.
  destruct (n <=? offset) eqn:C1; [by rewrite (proj2 (Z.ltb_ge offset n)) by lia|].
  rewrite (proj2 (Z.ltb_lt offset n)) by lia. cbn [orb andb].
  destruct (n <? count) eqn:C2; cbn [orb]; [by rewrite (proj2 (Z.leb_gt _ _)) by lia|].
  rewrite u64_small by lia. destruct (n <? count + offset) eqn:C3.
  - by rewrite (proj2 (Z.leb_gt _ _)) by lia.
  - by rewrite (proj2 (Z.leb_le _ _)) by lia.
Qed.

Lemma File_read_all_Ok s p t v n offset : node_tree s = Some t → t !! p = Some v →
  inode_len (inode v) = Ok n → 0 ≤ n ≤ 2^63 → fits 64 offset →
  File_read_all p offset s =
    (if offset <? n then with_data (parent_vfs v) (inode_read (inode v) (n - offset) offset) s else (Err, s)).
Proof.
  intros Ht Hv Hlen Hn Ho. unfold File_read_all, tree_len, File_read.
  pose proof (node_get_spec s t p v Ht Hv) as Hg. rewrite bind_assoc, (bind_Ok _ _ _ _ _ Hg).
  rewrite (bind_Ok _ _ s n s) by (by rewrite Hlen). rewrite (bind_Ok _ _ _ _ _ Hg).
  rewrite (VNode_read_Ok s v n) by (done || unfold fits; apply u64_range). unfold fits in *.
  destruct (offset <? n) eqn:C; cbn [andb]; [|done].
  rewrite u64_small by lia. by rewrite (proj2 (Z.leb_le _ _)) by lia.
Qed.

(** [VNode::read] hands to the driver exactly the requests that start inside
    the file and end inside it, and refuses the others; so [read_all] reads
    everything from an offset inside the file on. *)
Lemma VNode_read_spec s v n count offset :
  inode_len (inode v) = Ok n → 0 ≤ n ≤ 2^63 → fits 64 count → fits 64 offset →
  VNode_read v count offset s =
    (if (offset <? n) && (offset + count <=? n)
     then with_data (parent_vfs v) (inode_read (inode v) count offset) s else (Err, s)) ∧
  ∀ p t, node_tree s = Some t → t !! p = Some v →
    File_read_all p offset s =
      (if offset <? n then with_data (parent_vfs v) (inode_read (inode v) (n - offset) offset) s else (Err, s)).
Proof.
  intros Hlen Hn Hc Ho. split; [by apply VNode_read_Ok|]. intros p t Ht Hv. by apply (File_read_all_Ok s p t).
Qed.

(** A read the driver serves, through the node of a file. *)
Lemma read_range_Ok ok view `{!FsSpec F I ok view} views root box mnt s t p a i n count offset :
  coherent ok view views root box mnt s t → node_of views root mnt p = Ok (a, i) → v_typ (views a) i = Regular →
  inode_len i = Ok n → 0 ≤ count → 0 ≤ offset < n → offset + count ≤ n → v_serves (views a) i count offset = true →
  ∃ s', with_data a (inode_read i count offset) s =
      (Ok (take (Z.to_nat count) (drop (Z.to_nat offset) (v_data (views a) i))), s') ∧
    coherent ok view views root box mnt s' t.
Proof.
  intros Hco Hn Ht Hl Hc Ho Hb Hserves. pose proof (coherent_live _ _ _ _ _ _ _ _ _ _ Hco Hn) as Hlive. cbn in Hlive.
  destruct (with_data_spec ok view views root box mnt s t a (inode_read i count offset)
    (Ok (take (Z.to_nat count) (drop (Z.to_nat offset) (v_data (views a) i)))) Hco Hlive) as (s' & E & _ & Hco').
  { intros f Hok Hview. rewrite <- Hview in *. apply (spec_read f i n); [done|done|done|lia..|done]. }
  by exists s'.
Qed.

(** What the end of a file holds from [offset] on, through an open path. *)
Lemma read_tail_Ok ok view `{!FsSpec F I ok view} views root box mnt s t p a i n offset :
  coherent ok view views root box mnt s t → is_Some (t !! p) →
  node_of views root mnt p = Ok (a, i) → v_typ (views a) i = Regular → inode_len i = Ok n → n ≤ 2^63 →
  0 ≤ offset < n → v_serves (views a) i (n - offset) offset = true →
  ∃ s', File_read_all p offset s = (Ok (take (Z.to_nat (n - offset)) (drop (Z.to_nat offset) (v_data (views a) i))), s') ∧
    coherent ok view views root box mnt s' t.
Proof.
  intros Hco [v Hv] Hn Ht Hl Hb Ho Hserves.
  destruct (co_nodes _ _ _ _ _ _ _ _ Hco p v Hv) as (_ & Ev & _). rewrite Hn in Ev. injection Ev as Ea Ei.
  destruct (read_range_Ok ok view views root box mnt s t p a i n (n - offset) offset Hco Hn Ht Hl) as (s' & E & Hco');
    [lia..|done|]. exists s'. split; [|done].
  rewrite (File_read_all_Ok s p t v n offset) by
    (done || (by rewrite <- Ei) || (unfold fits; lia) || apply (co_tree _ _ _ _ _ _ _ _ Hco)).
  rewrite (proj2 (Z.ltb_lt _ _)) by lia. by rewrite <- Ea, <- Ei.
Qed.

(** Every file is served whole. *)
Lemma serves_all ok view `{!FsSpec F I ok view} views root box mnt s t p a i n :
  coherent ok view views root box mnt s t → node_of views root mnt p = Ok (a, i) → v_typ (views a) i = Regular →
  inode_len i = Ok n → 0 < n → v_serves (views a) i n 0 = true.
Proof.
  intros Hco Hn Ht Hl Hpos. destruct (coherent_live _ _ _ _ _ _ _ _ _ _ Hco Hn) as (w & f & _ & _ & _ & Hok & Hview).
  cbn in Hview. rewrite <- Hview in *. by apply (spec_serves f i n n); [..|lia].
Qed.

(** Against any driver that keeps its contract: opening the path of a file
    and reading all of it returns the file's bytes, from whichever file system
    the path leads to, and leaves the tree in agreement with the mounts. *)
Lemma open_read_all_Ok ok view `{!FsSpec F I ok view} views root box mnt s t path p a i n :
  coherent ok view views root box mnt s t → resolve views root mnt [] (split_on 47 path) = Ok p →
  node_of views root mnt p = Ok (a, i) → v_typ (views a) i = Regular →
  inode_len i = Ok n → 0 < n ≤ 2^63 →
  ∃ s1 s2 t', vfs_open path s = (Ok p, s1) ∧
    File_read_all p 0 s1 = (Ok (take (Z.to_nat n) (v_data (views a) i)), s2) ∧
    coherent ok view views root box mnt s2 t'.
Proof.
  intros Hco Hr Hn Ht Hl Hb.
  destruct (vfs_open_Ok ok view views root box mnt s t path Hco) as (s1 & t1 & E1 & Hco1 & _ & Hin & _).
  rewrite Hr in E1, Hin.
  destruct (read_tail_Ok ok view views root box mnt s1 t1 p a i n 0 Hco1 (Hin p eq_refl) Hn Ht Hl) as (s2 & E2 & Hco2); [lia|lia| |].
  { rewrite Z.sub_0_r. apply (serves_all ok view views root box mnt s1 t1 p a i n); done || lia. }
  rewrite Z.sub_0_r, drop_0 in E2. by exists s1, s2, t1.
Qed.

(** The node at [p], with the handles open on it. *)
Definition node_is s (p : path) (v : VNode I) : Prop := node_get p s = (Ok v, s).

Lemma node_modify_Ok s p v f : node_is s p v →
  ∃ s', node_modify p f s = (Ok tt, s') ∧ node_is s' p (f v).
Proof.
  unfold node_is, node_get, node_modify. intros [= E].
  destruct (node_tree s) as [t|] eqn:Et; [|done]. cbn in *.
  destruct (t !! p) as [w|]; [|done]. injection E as ->. eexists. split; [done|]. cbn.
  by rewrite lookup_insert_eq.
Qed.

Lemma with_inode_Ok {A} s p v (m : prog I A) a : node_is s p v → (m (inode v)).1 = Ok a →
  ∃ s', with_inode p m s = (Ok a, s') ∧ node_is s' p (set_inode (m (inode v)).2 v).
Proof.
  intros Hv E. unfold with_inode. rewrite (bind_Ok _ _ _ _ _ Hv).
  destruct (m (inode v)) as [o i]. cbn in E |- *. subst o.
  destruct (node_modify_Ok s p v (set_inode i) Hv) as (s' & E' & H').
  exists s'. by rewrite (bind_Ok _ _ _ _ _ E').
Qed.

Definition opens : I → I := λ i, (inode_open i).2.
Definition closes : I → I := λ i, (inode_close i).2.

Lemma tree_open_Ok s p v : node_is s p v → 0 ≤ ref_count v < 2^32 - 1 → (inode_open (inode v)).1 = Ok tt →
  ∃ s', tree_open p s = (Ok tt, s') ∧
    node_is s' p (set_ref_count (ref_count v + 1) (if ref_count v =? 0 then set_inode (opens (inode v)) v else v)).
Proof.
  intros Hv Hr Ho. unfold tree_open. rewrite (bind_Ok _ _ _ _ _ Hv).
  assert (∃ s1, (if ref_count v =? 0 then with_inode p inode_open else mret tt) s = (Ok tt, s1) ∧
    node_is s1 p (if ref_count v =? 0 then set_inode (opens (inode v)) v else v)) as (s1 & E1 & H1).
  { destruct (ref_count v =? 0); [by apply with_inode_Ok|by exists s]. }
  rewrite (bind_Ok _ _ _ _ _ E1).
  destruct (node_modify_Ok s1 p _ (λ v, set_ref_count (u32 (ref_count v + 1)) v) H1) as (s2 & E2 & H2).
  exists s2. split; [done|]. destruct (ref_count v =? 0); cbn in H2; by rewrite u32_small in H2 by lia.
Qed.

Lemma tree_close_Ok s p v : node_is s p v → 0 < ref_count v < 2^32 → (inode_close (inode v)).1 = Ok tt →
  ∃ s', tree_close p s = (Ok tt, s') ∧
    node_is s' p (set_ref_count (ref_count v - 1) (if ref_count v =? 1 then set_inode (closes (inode v)) v else v)).
Proof.
  intros Hv Hr Ho. unfold tree_close.
  destruct (node_modify_Ok s p v (λ v, set_ref_count (u32 (ref_count v - 1)) v) Hv) as (s1 & E1 & H1).
  rewrite (bind_Ok _ _ _ _ _ E1), (bind_Ok _ _ _ _ _ H1). cbn [ref_count set_ref_count].
  rewrite u32_small in H1 |- * by lia. destruct (ref_count v =? 1) eqn:C.
  - apply Z.eqb_eq in C. rewrite C in *. change (1 - 1) with 0 in *. rewrite Z.eqb_refl.
    by apply (with_inode_Ok s1 p _ inode_close tt H1).
  - rewrite (proj2 (Z.eqb_neq _ _)) by lia. by exists s1.
Qed.

(** What handles do to the inode: [open] when the count leaves 0, [close] when
    it comes back. *)
Fixpoint handle_effect (k : Z) (h : list bool) (i : I) : Z * I :=
  match h with
  | [] => (k, i)
  | true :: h' => handle_effect (k + 1) h' (if k =? 0 then opens i else i)
  | false :: h' => handle_effect (k - 1) h' (if k =? 1 then closes i else i)
  end.
(** Every handle dropped was open; never 2^32 at once. *)
Fixpoint handles_ok (k : Z) (h : list bool) : Prop :=
  match h with
  | [] => True
  | true :: h' => k < 2^32 - 1 ∧ handles_ok (k + 1) h'
  | false :: h' => 0 < k ∧ handles_ok (k - 1) h'
  end.

(** Over any interleaving of handles opened and dropped on a node, the
    reference count is the number of handles open, and the driver is told of the
    first one opened and of the last one dropped only. *)
Lemma handles_spec s p v h :
  (∀ i : I, (inode_open i).1 = Ok tt ∧ (inode_close i).1 = Ok tt) →
  node_is s p v → 0 ≤ ref_count v < 2^32 → handles_ok (ref_count v) h →
  ∃ s' v', for_each h (λ b : bool, if b then tree_open p else tree_close p) s = (Ok tt, s') ∧
    node_is s' p v' ∧ (ref_count v', inode v') = handle_effect (ref_count v) h (inode v) ∧
    vfs_mounted_here v' = vfs_mounted_here v ∧ parent_vfs v' = parent_vfs v.
Proof.
  intros Ho. revert s v. induction h as [|b h IH]; intros s v Hv Hk Hh; [by exists s, v|].
  cbn [for_each handle_effect handles_ok] in *. destruct b; destruct Hh as [Hb Hh].
  - destruct (tree_open_Ok s p v Hv) as (s1 & E1 & H1); [lia|apply Ho|].
    destruct (IH s1 _ H1) as (s' & v' & E & H2 & H3 & H4 & H5); [cbn; lia|done|].
    exists s', v'. rewrite (bind_Ok _ _ _ _ _ E1). split; [done|]. split; [done|]. rewrite H3, H4, H5.
    by destruct (ref_count v =? 0).
  - destruct (tree_close_Ok s p v Hv) as (s1 & E1 & H1); [lia|apply Ho|].
    destruct (IH s1 _ H1) as (s' & v' & E & H2 & H3 & H4 & H5); [cbn; lia|done|].
    exists s', v'. rewrite (bind_Ok _ _ _ _ _ E1). split; [done|]. split; [done|]. rewrite H3, H4, H5.
    by destruct (ref_count v =? 1).
Qed.
End nodes.

(** ** A small file system *)

(** Inode 0 is the root, 1 the directory "dev" in it, 2 a file of three bytes. *)
Definition toy_entry (i : Z) (nm : str) : option Z :=
  if (i =? 0) && bool_decide (nm = chars "dev") then Some 1
  else if bool_decide (nm = chars "init") then Some 2 else None.
Definition toy_typ (i : Z) : VNodeType := if i =? 2 then Regular else Directory.
#[export] Instance toy_fs : FsOps unit Z := {
  fs_mount := mret tt;
  fs_unmount := mret tt;
  fs_root := mret (0, Directory);
  inode_open := mret tt;
  inode_close := mret tt;
  inode_len i := if i =? 2 then Ok 3 else Panic;
  inode_read i count offset := lift (slice [1; 2; 3] offset (offset + count));
  inode_lookup i nm :=
    if i =? 2 then panic
    else match toy_entry i nm with Some j => mret (j, toy_typ j) | None => err end;
}.
Definition toy_view : FsView Z := mk_view 0 toy_typ toy_entry (λ _, [1; 2; 3]) (λ _ _ _, true).
#[export] Instance toy_spec : FsSpec unit Z (λ _ _, True) (λ _, toy_view).
Proof.
  constructor; try done.
  - intros m [] i nm j _ _. cbn. unfold toy_typ. case_match; [by right|by left].
  - intros m [] _. by exists tt.
  - intros m [] _. by exists tt.
  - intros [] i nm _ Hi. exists tt. cbn in *. unfold toy_typ in Hi. destruct (i =? 2); [done|].
    by destruct (toy_entry i nm).
  - intros [] i nm _ Hi. cbn in *. unfold toy_typ in Hi. by destruct (i =? 2).
  - intros [] i n count offset _ Hi Hn _ Hc Ho Hb _. exists tt. cbn in *. destruct (i =? 2); [|done]. injection Hn as <-.
    split; [|done]. unfold lift. rewrite slice_Ok by (unfold len; cbn; lia). do 4 f_equal. lia.
Qed.

Lemma initial_mounts {F I : Type} : mounts (@initial F I) [].
Proof.
  constructor; cbn.
  - done.
  - apply NoDup_singleton.
  - constructor.
  - done.
  - split; [done|constructor].
Qed.

(** The toy file system at "/" and once more at "/dev". *)
Definition toy_root : vfs_state unit Z := (add_vfs (chars "/") () initial).2.
Definition toy_state : vfs_state unit Z := (add_vfs (chars "/dev") () toy_root).2.

Lemma toy_root_spec : ∃ t, mounts toy_root [(1, chars "/")] ∧
  coherent (λ _ _, True) (λ _, toy_view) (λ _, toy_view) 1 1 ∅ toy_root t ∧ leaf t [chars "dev"].
Proof.
  destruct (mount_root (λ _ _, True) (λ _, toy_view) (λ _, toy_view) initial () initial_mounts I eq_refl)
    as (s' & t & E & Hm & Hco).
  assert (toy_root = s') as -> by (unfold toy_root; by rewrite E). exists t.
  split; [done|]. split; [done|]. intros name q.
  assert (node_tree s' = Some {[ [] := VNode_new 0 Directory 1 ]}) as Ht.
  { replace s' with toy_root by (unfold toy_root; by rewrite E). reflexivity. }
  rewrite (co_tree _ _ _ _ _ _ _ _ Hco) in Ht. injection Ht as ->.
  apply lookup_singleton_ne. by destruct q.
Qed.

Lemma toy_state_spec : ∃ t, mounts toy_state [(1, chars "/"); (2, chars "/dev")] ∧
  coherent (λ _ _, True) (λ _, toy_view) (λ _, toy_view) 1 2 {[ [chars "dev"] := 2 ]} toy_state t ∧
  t !! [chars "tty"; chars "dev"] = None.
Proof.
  destruct toy_root_spec as (t & Hm & Hco & Hleaf).
  destruct (mount_below (λ _ _, True) (λ _, toy_view) (λ _, toy_view) 1 1 ∅ toy_root t _ (chars "/dev") () [chars "dev"]
    Hco Hm I eq_refl) as (s' & t' & E & Hm' & Hco').
  - done.
  - apply (bool_decide_unpack _). by vm_compute.
  - by vm_compute.
  - done.
  - assert (toy_state = s') as Es by (unfold toy_state; by rewrite E). rewrite Es. exists t'.
    split; [exact Hm'|]. split; [exact Hco'|].
    pose proof (co_tree _ _ _ _ _ _ _ _ Hco') as Ht. rewrite <- Es in Ht.
    assert ((node_tree toy_state ≫= λ t, t !! [chars "tty"; chars "dev"]) = None) as Hn by by vm_compute.
    rewrite Ht in Hn. exact Hn.
Qed.

Lemma mount_list_spec_witness : ∃ s', del_vfs (chars "/") toy_root = (Ok tt, s') ∧ mounts s' [].
Proof.
  destruct toy_root_spec as (t & Hm & _).
  destruct (mount_list_spec toy_root _ (chars "/") () Hm) as (_ & _ & H).
  destruct H as (s' & E & Hm' & _); [by left|by vm_compute|].
  exists s'. split; [exact E|exact Hm'].
Defined.


Lemma mount_spec_witness :
  (∃ s' t, add_vfs (chars "/") () initial = (Ok tt, s') ∧
    coherent (λ _ _, True) (λ _, toy_view) (λ _, toy_view) 1 1 ∅ s' t) ∧
  (∃ s' t, add_vfs (chars "/dev") () toy_root = (Ok tt, s') ∧
    coherent (λ _ _, True) (λ _, toy_view) (λ _, toy_view) 1 2 {[ [chars "dev"] := 2 ]} s' t).
Proof.
  split.
  - destruct (mount_spec (λ _ _, True) (λ _, toy_view) (λ _, toy_view) initial [] () (chars "/")
      initial_mounts I eq_refl) as [H _].
    destruct (H eq_refl eq_refl) as (s' & t & E & _ & Hco). exists s', t. split; [exact E|exact Hco].
  - destruct toy_root_spec as (t & Hm & Hco & Hleaf).
    destruct (mount_spec (λ _ _, True) (λ _, toy_view) (λ _, toy_view) toy_root _ () (chars "/dev") Hm I eq_refl)
      as [_ H].
    destruct (H 1 1 ∅ t [chars "dev"] Hco) as (s' & t' & E & _ & Hco').
    + done.
    + apply (bool_decide_unpack _). by vm_compute.
    + by vm_compute.
    + exact Hleaf.
    + exists s', t'. split; [exact E|exact Hco'].
Defined.

Lemma del_vfs_dangles_witness : ∃ s', del_vfs (chars "/dev") toy_state = (Ok tt, s') ∧
  tree_lookup [chars "dev"] (chars "tty") s' = (Undef, s').
Proof.
  destruct toy_state_spec as (t & Hm & Hco & Hn).
  apply (del_vfs_dangles (λ _ _, True) (λ _, toy_view) (λ _, toy_view) 1 2 {[ [chars "dev"] := 2 ]} toy_state t _
    (chars "/dev") [chars "dev"] 2 (chars "tty") Hco Hm).
  - done.
  - done.
  - by vm_compute.
  - by vm_compute.
  - by vm_compute.
  - by vm_compute.
  - done.
  - done.
  - exact Hn.
Defined.

Lemma VNode_read_spec_witness :
  (VNode_read (VNode_new 2 Regular 1) 2 1 toy_root).1 = Ok [2; 3] ∧
  (VNode_read (VNode_new 2 Regular 1) 2 2 toy_root).1 = Err.
Proof.
  split.
  - destruct (VNode_read_spec toy_root (VNode_new 2 Regular 1) 3 2 1) as [-> _]; [done|done|done|done|].
    by vm_compute.
  - destruct (VNode_read_spec toy_root (VNode_new 2 Regular 1) 3 2 2) as [-> _]; [done|done|done|done|].
    by vm_compute.
Defined.

Lemma handles_spec_witness : ∃ s' v', for_each [true; true; false]
    (λ b : bool, if b then tree_open [] else tree_close []) toy_root = (Ok tt, s') ∧
  node_is s' [] v' ∧ ref_count v' = 1.
Proof.
  destruct (handles_spec toy_root [] (VNode_new 0 Directory 1) [true; true; false]) as (s' & v' & E & H & Er & _).
  - done.
  - by vm_compute.
  - done.
  - cbn. lia.
  - exists s', v'. split; [exact E|]. split; [exact H|]. by injection Er.
Defined.
