(* ===== verification/Fat.v ===== *)
(** src/src/drivers/fs/fat.rs: the read-only FAT12/16/32 driver.

    A [FatFs] is over a partition of any block device.  The first half
    translates the driver: the boot sector, cluster arithmetic, the allocation
    table in memory or on disk, directory search and file reads.  The second half
    proves what reads and lookups return on a well-formed volume. *)

From S2P Require Import Prelude Uuid Storage Vfs.

(** ** Data *)

Definition EOC_12 : Z := 0x0FF8.
Definition EOC_16 : Z := 0xFFF8.
Definition EOC_32 : Z := 0x0FFFFFF8.

(** Reading a field through a pointer cast: past the buffer it is undefined. *)
Definition cast_slice (bytes : list Z) (a b : Z) : outcome (list Z) :=
  match slice bytes a b with Ok l => Ok l | _ => Undef end.
Definition cast_le (bytes : list Z) (a b : Z) : outcome Z := le_value <$> cast_slice bytes a b.

(** [.expect(..)] and [.unwrap()] on a [Result]. *)
Definition expect {A} (o : outcome A) : outcome A := match o with Err => Panic | _ => o end.

Record BIOSParameterBlock := mk_bpb {
  oem_identifier : list Z;
  bytes_per_sector : Z;
  sectors_per_cluster : Z;
  reserved_sectors : Z;
  fat_count : Z;
  root_directory_count : Z;
  total_sectors : Z;
  media_descriptor_type : Z;
  bpb_sectors_per_fat : Z;
  sectors_per_track : Z;
  head_count : Z;
  hidden_sectors : Z;
  large_sector_count : Z;
  ebpb_bytes : list Z;
}.

Definition cast_bpb (bytes : list Z) : outcome BIOSParameterBlock :=
  oem ← cast_slice bytes 3 11;
  bps ← cast_le bytes 11 13;
  spc ← cast_le bytes 13 14;
  reserved ← cast_le bytes 14 16;
  fats ← cast_le bytes 16 17;
  root ← cast_le bytes 17 19;
  total ← cast_le bytes 19 21;
  media ← cast_le bytes 21 22;
  spf ← cast_le bytes 22 24;
  spt ← cast_le bytes 24 26;
  heads ← cast_le bytes 26 28;
  hidden ← cast_le bytes 28 32;
  large ← cast_le bytes 32 36;
  ebpb ← cast_slice bytes 36 90;
  mret (mk_bpb oem bps spc reserved fats root total media spf spt heads hidden large ebpb).

(** The fields of the extended blocks that the driver uses. *)
Record Fat16EBPB := mk_ebpb16 { f16_signature : Z; f16_volume_label : list Z; f16_system_identifier : list Z }.
Record Fat32EBPB := mk_ebpb32 {
  sectors_per_fat_ext : Z;
  root_dir_cluster : Z;
  fsinfo_sector : Z;
  f32_volume_label : list Z;
  f32_system_identifier : list Z;
}.
Definition cast_ebpb16 (bytes : list Z) : outcome Fat16EBPB :=
  sig ← cast_le bytes 2 3;
  label ← cast_slice bytes 7 18;
  ident ← cast_slice bytes 18 26;
  mret (mk_ebpb16 sig label ident).
Definition cast_ebpb32 (bytes : list Z) : outcome Fat32EBPB :=
  spf ← cast_le bytes 0 4;
  root ← cast_le bytes 8 12;
  fsinfo ← cast_le bytes 12 14;
  label ← cast_slice bytes 35 46;
  ident ← cast_slice bytes 46 54;
  mret (mk_ebpb32 spf root fsinfo label ident).

Inductive FatType := Fat12 (e : Fat16EBPB) | Fat16 (e : Fat16EBPB) | Fat32 (e : Fat32EBPB).

Record FSInfo := mk_fsinfo {
  lead_signature : Z;
  mid_signature : Z;
  last_known_free_cluster : Z;
  look_for_free_clusters : Z;
  fsinfo_reserved2 : list Z;
  trail_signature : Z;
}.
(** [bytes[508..]] must be exactly four bytes. *)
Definition FSInfo_from_bytes (bytes : list Z) : outcome FSInfo :=
  rassert (512 <=? len bytes) ;;
  lead ← read_le bytes 0 4;
  mid ← read_le bytes 484 488;
  last ← read_le bytes 488 492;
  look ← read_le bytes 492 496;
  reserved ← slice bytes 496 508;
  trail ← slice_from bytes 508;
  rassert (len trail =? 4) ;;
  mret (mk_fsinfo lead mid last look reserved (le_value trail)).

Record FileEntry := mk_file_entry {
  file_name : list Z;
  extension : list Z;
  fe_attributes : Z;
  high_first_cluster_number : Z;
  low_first_cluster_number : Z;
  file_size : Z;
}.
(** [transmute] of 32 bytes. *)
Definition file_entry_of (bytes : list Z) : outcome FileEntry :=
  name ← slice bytes 0 8;
  ext ← slice bytes 8 11;
  attr ← index bytes 11;
  high ← read_le bytes 20 22;
  low ← read_le bytes 26 28;
  size ← read_le bytes 28 32;
  mret (mk_file_entry name ext attr high low size).

Definition cluster (e : FileEntry) : Z :=
  Z.lor (low_first_cluster_number e) (u32 (Z.shiftl (high_first_cluster_number e) 16)).

Definition ATTR_DIRECTORY : Z := 0x10.
Definition ATTR_LONG_NAME : Z := 0x0F.

(** The 13 UTF-16 units of a long-name entry. *)
Fixpoint units (bytes : list Z) : list Z :=
  match bytes with
  | lo :: hi :: rest => (lo + 2^8 * hi) :: units rest
  | _ => []
  end.
Definition long_name_units (bytes : list Z) : outcome (list Z) :=
  first ← slice bytes 1 11;
  second ← slice bytes 14 26;
  final ← slice bytes 28 32;
  mret (units first ++ units second ++ units final).

Record FatFs (D : Type) := mk_fatfs {
  partition : Partition D;
  fs_info : option FSInfo;
  fat : option (list Z);
  bpb : BIOSParameterBlock;
  fat_start : Z;
  fat_type : FatType;
  cluster_size : Z;
  sectors_per_fat : Z;
}.
Arguments mk_fatfs {D}.
Arguments partition {D}.
Arguments fs_info {D}.
Arguments fat {D}.
Arguments bpb {D}.
Arguments fat_start {D}.
Arguments fat_type {D}.
Arguments cluster_size {D}.
Arguments sectors_per_fat {D}.

Definition set_fat {D} (f : option (list Z)) (fs : FatFs D) : FatFs D :=
  mk_fatfs (partition fs) (fs_info fs) f (bpb fs) (fat_start fs) (fat_type fs)
    (cluster_size fs) (sectors_per_fat fs).

(** ** Mounting *)

(** The root directory's sectors, in [u16] arithmetic. *)
Definition root_dir_sectors (b : BIOSParameterBlock) : outcome Z :=
  rdiv (u16 (u16 (root_directory_count b * 32) + u16 (bytes_per_sector b - 1))) (bytes_per_sector b).

(** The number of clusters decides the type. *)
Definition fat_type_of (total_clusters : Z) (ebpb : list Z) : outcome FatType :=
  if total_clusters <? 4085 then Fat12 <$> cast_ebpb16 ebpb
  else if total_clusters <? 65525 then Fat16 <$> cast_ebpb16 ebpb
  else Fat32 <$> cast_ebpb32 ebpb.

Definition system_identifier (t : FatType) : list Z :=
  match t with
  | Fat12 e | Fat16 e => f16_system_identifier e
  | Fat32 e => f32_system_identifier e
  end.
Definition type_name (t : FatType) : str :=
  match t with
  | Fat12 _ => chars "FAT12"
  | Fat16 _ => chars "FAT16"
  | Fat32 _ => chars "FAT32"
  end.

Definition FatFs_new {D} `{BlockDevice D} (p : Partition D) : outcome (FatFs D) :=
  bpb_bytes ← expect (partition_read p 0 1);
  bpb ← cast_bpb bpb_bytes;
  '(total_sectors, fat_size) ←
    (if total_sectors bpb =? 0 then
       ext ← cast_le (ebpb_bytes bpb) 0 4; mret (large_sector_count bpb, ext)
     else mret (total_sectors bpb, bpb_sectors_per_fat bpb));
  root_dir_sectors ← root_dir_sectors bpb;
  let total_data_sectors := u32 (total_sectors -
    u32 (u32 (reserved_sectors bpb + u32 (fat_count bpb * fat_size)) + root_dir_sectors)) in
  total_clusters ← rdiv total_data_sectors (sectors_per_cluster bpb);
  fat_type ← fat_type_of total_clusters (ebpb_bytes bpb);
  ident ← of_option Err (from_utf8 (system_identifier fat_type));
  reject_if (negb (contains (type_name fat_type) ident)) ;;
  fs_info ←
    (match fat_type with
     | Fat32 e =>
         fsinfo_bytes ← expect (partition_read p (fsinfo_sector e) 1);
         Some <$> FSInfo_from_bytes fsinfo_bytes
     | _ => mret None
     end);
  let sectors_per_fat :=
    match fat_type with Fat32 e => sectors_per_fat_ext e | _ => bpb_sectors_per_fat bpb end in
  mret (mk_fatfs p fs_info None bpb (reserved_sectors bpb) fat_type
    (sectors_per_cluster bpb * 512) sectors_per_fat).

Section fat.
Context {D : Type} `{BlockDevice D}.
(** [KERNEL_FEATURES.fat_in_mem] *)
Context (fat_in_mem : bool).
(** [str::to_uppercase], whose tables are the standard library's. *)
Context (to_uppercase : str → str).

(** ** Clusters *)

Definition first_data_sector (fs : FatFs D) : outcome Z :=
  root ← root_dir_sectors (bpb fs);
  mret (u64 (u64 (reserved_sectors (bpb fs) + u64 (fat_count (bpb fs) * sectors_per_fat fs)) + root)).

Definition cluster_to_sector (fs : FatFs D) (cluster : Z) : outcome Z :=
  first ← first_data_sector fs;
  mret (u64 (u64 (u64 (cluster - 2) * sectors_per_cluster (bpb fs)) + first)).

Definition sector_to_cluster (fs : FatFs D) (sector : Z) : outcome Z :=
  first ← first_data_sector fs;
  q ← rdiv (u64 (sector - first)) (sectors_per_cluster (bpb fs));
  mret (u64 (q + 2)).

Definition read_cluster (fs : FatFs D) (cluster : Z) : outcome (list Z) :=
  sector ← cluster_to_sector fs cluster;
  partition_read (partition fs) sector (sectors_per_cluster (bpb fs)).

(** ** The allocation table *)

Definition entry_size (t : FatType) : Z := match t with Fat32 _ => 4 | _ => 2 end.
(** What is kept of an entry found in memory, and on disk. *)
Definition entry_mask (t : FatType) (v : Z) : Z :=
  match t with
  | Fat12 _ => Z.land v 0x0FFF
  | Fat16 _ => Z.land v 0xFFFF
  | Fat32 _ => Z.land v 0x0FFFFFFF
  end.
Definition disk_mask (t : FatType) (v : Z) : Z :=
  match t with
  | Fat12 _ => Z.land v 0x0FFF
  | Fat16 _ => v
  | Fat32 _ => Z.land v 0x0FFFFFFF
  end.

Definition get_next_cluster (fs : FatFs D) (cluster : Z) : outcome Z :=
  if fat_in_mem then
    table ← of_option Panic (fat fs);
    entry ← index table cluster;
    mret (entry_mask (fat_type fs) entry)
  else
    let size := entry_size (fat_type fs) in
    let entry_offset := u64 (cluster * size) in
    let entry_offset_in_sector := entry_offset mod 512 in
    sector_data ← expect (partition_read (partition fs) (u64 (fat_start fs + entry_offset / 512)) 2);
    entry ← read_le sector_data entry_offset_in_sector (entry_offset_in_sector + size);
    mret (disk_mask (fat_type fs) entry).

(** [for j in 0..(512 / cluster_bytes)] *)
Definition fat_sector_entries (size : Z) (sector : list Z) : outcome (list Z) :=
  foldM (λ acc j,
    entry ← read_le sector (j * size) (j * size + size);
    mret (acc ++ [entry])) [] (seqZ 0 (512 / size)).

(** [for i in 0..self.sectors_per_fat] *)
Definition load_fat (fs : FatFs D) : outcome (list Z) :=
  foldM (λ acc i,
    sector ← expect (partition_read (partition fs) (u64 (fat_start fs + i)) 1);
    entries ← fat_sector_entries (entry_size (fat_type fs)) sector;
    mret (acc ++ entries)) [] (seqZ 0 (sectors_per_fat fs)).

(** Returns the pointer the VFS keeps, the file system itself. *)
Definition fat_mount : prog (FatFs D) unit :=
  fs ← get;
  table ← (if fat_in_mem then table ← lift (load_fat fs); mret (Some table) else mret None);
  modify (set_fat table).
Definition fat_unmount : prog (FatFs D) unit := modify (set_fat None).

(** ** Directories *)

(** The names of one entry: the long name so far, latest entry first in the
    source's backwards loop, without padding. *)
Definition long_name (parts : list (list Z)) : outcome str :=
  of_option Panic (from_utf16 (filter (λ x, x ≠ 0xFFFF ∧ x ≠ 0) (concat (rev parts)))).

Definition short_name (e : FileEntry) : outcome str :=
  name ← of_option Panic (from_utf8 (file_name e));
  ext ← of_option Panic (from_utf8 (extension e));
  let name := trim_end name in
  let ext := trim_end ext in
  mret (if bool_decide (ext = []) then name else name ++ [46] ++ ext).

(** The [loop]: [long_filename] are the units of the long-name entries just
    read, [long_filename_string] the last long name completed. *)
Fixpoint find_entry_loop (fuel : nat) (data : list Z) (name : str) (i : Z)
    (long_filename : list (list Z)) (long_filename_string : option str) : outcome FileEntry :=
  match fuel with
  | O => NoFuel
  | S fuel' =>
      bytes ← slice data (i * 32) ((i + 1) * 32);
      first_byte ← index bytes 0;
      if first_byte =? 0x00 then Err
      else if first_byte =? 0xE5 then
        find_entry_loop fuel' data name (i + 1) long_filename long_filename_string
      else
        attribute ← index bytes 11;
        if attribute =? ATTR_LONG_NAME then
          part ← long_name_units bytes;
          find_entry_loop fuel' data name (i + 1) (long_filename ++ [part]) long_filename_string
        else
          entry ← file_entry_of bytes;
          long_filename_string ←
            (if bool_decide (long_filename = []) then mret long_filename_string
             else Some <$> long_name long_filename);
          formatted ← short_name entry;
          let matches :=
            match long_filename_string with
            | Some filename => bool_decide (filename = name)
            | None => bool_decide (to_uppercase name = formatted)
            end in
          if matches then mret entry
          else find_entry_loop fuel' data name (i + 1) [] long_filename_string
  end.

(** One entry per 32 bytes of the cluster. *)
Definition find_entry_in_directory (fs : FatFs D) (cluster : Z) (name : str) : outcome FileEntry :=
  data ← read_cluster fs cluster;
  find_entry_loop (S (Z.to_nat (len data / 32))) data name 0 [] None.

(** ** Files *)

Inductive File := Archive (e : FileEntry) | Dir (cluster : Z).

Definition fat_root (fs : FatFs D) : outcome (File * VNodeType) :=
  root_cluster ←
    (match fat_type fs with
     | Fat32 e => mret (root_dir_cluster e)
     | _ => sector_to_cluster fs
              (u64 (reserved_sectors (bpb fs) + u64 (fat_count (bpb fs) * sectors_per_fat fs)))
     end);
  mret (Dir root_cluster, Directory).

Definition is_end_of_chain (t : FatType) (cluster : Z) : bool :=
  match t with
  | Fat12 _ => EOC_12 <=? cluster
  | Fat16 _ => EOC_16 <=? cluster
  | Fat32 _ => EOC_32 <=? cluster
  end.

(** [while cluster_offset > 0] *)
Fixpoint skip_clusters (n : nat) (fs : FatFs D) (cluster : Z) : outcome Z :=
  match n with
  | O => mret cluster
  | S n' => next ← get_next_cluster fs cluster; skip_clusters n' fs next
  end.

Fixpoint read_loop (fuel : nat) (fs : FatFs D) (cluster count offset copied_bytes : Z) (file : list Z)
    : outcome (list Z) :=
  match fuel with
  | O => NoFuel
  | S fuel' =>
      cluster_data ← read_cluster fs cluster;
      let remaining := u64 (count - copied_bytes) in
      let to_copy :=
        if cluster_size fs <? remaining then u64 (cluster_size fs - offset) else remaining in
      bytes ← slice cluster_data offset (u64 (offset + to_copy));
      let file := file ++ bytes in
      next ← get_next_cluster fs cluster;
      if is_end_of_chain (fat_type fs) next then mret file
      else read_loop fuel' fs next count 0 (u64 (copied_bytes + to_copy)) file
  end.

(** [fuel] bounds the length of the cluster chain: on a cyclic one the source
    loops for ever. *)
Definition file_read (fuel : nat) (fs : FatFs D) (self : File) (count offset : Z) : outcome (list Z) :=
  match self with
  | Archive archive =>
      let first := Z.lor (u32 (Z.shiftl (high_first_cluster_number archive) 16))
                     (low_first_cluster_number archive) in
      cluster_offset ← rdiv offset (cluster_size fs);
      cluster ← skip_clusters (Z.to_nat cluster_offset) fs first;
      read_loop fuel fs cluster count offset 0 []
  | Dir _ => Panic
  end.

Definition file_lookup (fs : FatFs D) (self : File) (nm : str) : outcome (File * VNodeType) :=
  match self with
  | Dir directory =>
      entry ← find_entry_in_directory fs directory nm;
      mret (if fe_attributes entry =? ATTR_DIRECTORY then (Dir (cluster entry), Directory)
            else (Archive entry, Regular))
  | Archive _ => Panic
  end.

Definition file_len (self : File) : outcome Z :=
  match self with Archive archive => mret (file_size archive) | Dir _ => Panic end.
End fat.

(** * Volumes *)

(** The numbers a formatter writes: no field overflows what the driver computes
    with it, and the allocation table lies inside the partition. *)
Record geometry {D} (fs : FatFs D) : Prop := {
  ge_bps : 0 < bytes_per_sector (bpb fs) < 2^16;
  ge_spc : 0 < sectors_per_cluster (bpb fs) < 2^8;
  ge_reserved : 0 ≤ reserved_sectors (bpb fs) < 2^16;
  ge_fats : 0 ≤ fat_count (bpb fs) < 2^8;
  ge_root : 0 ≤ root_directory_count (bpb fs) ∧
    root_directory_count (bpb fs) * 32 + bytes_per_sector (bpb fs) - 1 < 2^16;
  ge_spf : 0 ≤ sectors_per_fat fs < 2^32;
  ge_start : fat_start fs = reserved_sectors (bpb fs);
  ge_cluster : cluster_size fs = sectors_per_cluster (bpb fs) * 512;
}.

Definition root_dir_count {D} (fs : FatFs D) : Z :=
  (root_directory_count (bpb fs) * 32 + bytes_per_sector (bpb fs) - 1) / bytes_per_sector (bpb fs).
Definition data_start {D} (fs : FatFs D) : Z :=
  reserved_sectors (bpb fs) + fat_count (bpb fs) * sectors_per_fat fs + root_dir_count fs.
(** Where cluster [c] starts. *)
Definition cluster_start {D} (fs : FatFs D) (c : Z) : Z :=
  data_start fs + (c - 2) * sectors_per_cluster (bpb fs).

Section volume.
Context {D : Type} `{BlockDevice D} (fs : FatFs D) (Hgeo : geometry fs).

Lemma root_dir_sectors_Ok : root_dir_sectors (bpb fs) = Ok (root_dir_count fs).
Proof.
  destruct Hgeo as [? ? ? ? ? ? ? ?]. unfold root_dir_sectors, rdiv, root_dir_count.
  rewrite (proj2 (Z.eqb_neq _ _)) by lia. do 2 f_equal.
  rewrite (u16_small (bytes_per_sector _ - 1)), (u16_small (_ * 32)), u16_small by lia. lia.
Qed.

Lemma data_start_bounds : 0 ≤ root_dir_count fs < 2^16 ∧ 0 ≤ data_start fs < 2^41.
Proof.
  destruct Hgeo as [? ? ? ? ? ? ? ?]. unfold data_start, root_dir_count in *.
  set (x := root_directory_count (bpb fs) * 32 + bytes_per_sector (bpb fs) - 1) in *.
  assert (0 ≤ x / bytes_per_sector (bpb fs) < 2^16) by
    (split; [apply Z.div_pos; lia|apply Z.div_lt_upper_bound; nia]).
  assert (0 ≤ fat_count (bpb fs) * sectors_per_fat fs ≤ 2^8 * 2^32) by nia. lia.
Qed.

Lemma first_data_sector_Ok : first_data_sector fs = Ok (data_start fs).
Proof.
  destruct data_start_bounds as [Hr Hd]. destruct Hgeo as [? ? ? ? ? ? ? ?].
  unfold first_data_sector. rewrite root_dir_sectors_Ok. cbn [mbind outcome_bind mret outcome_ret].
  assert (0 ≤ fat_count (bpb fs) * sectors_per_fat fs ≤ 2^8 * 2^32) by nia. unfold data_start in *.
  f_equal. rewrite (u64_small (fat_count _ * _)), (u64_small (reserved_sectors _ + _)), u64_small by lia. done.
Qed.

Lemma cluster_start_bounds c : 2 ≤ c < 2^32 → 0 ≤ cluster_start fs c < 2^42.
Proof.
  intros Hc. destruct data_start_bounds as [_ Hd]. destruct Hgeo as [? ? ? ? ? ? ? ?].
  unfold cluster_start. nia.
Qed.

Lemma cluster_to_sector_Ok c : 2 ≤ c < 2^32 → cluster_to_sector fs c = Ok (cluster_start fs c).
Proof.
  intros Hc. pose proof (cluster_start_bounds c Hc). destruct data_start_bounds as [_ Hd].
  destruct Hgeo as [? ? ? ? ? ? ? ?]. unfold cluster_to_sector. rewrite first_data_sector_Ok.
  cbn [mbind outcome_bind mret outcome_ret]. f_equal. unfold cluster_start in *.
  rewrite (u64_small (c - 2)), (u64_small ((c - 2) * _)) by nia. rewrite u64_small; lia.
Qed.

Lemma sector_to_cluster_Ok c : 2 ≤ c < 2^32 → sector_to_cluster fs (cluster_start fs c) = Ok c.
Proof.
  intros Hc. pose proof (cluster_start_bounds c Hc). destruct data_start_bounds as [_ Hd].
  destruct Hgeo as [? ? ? ? ? ? ? ?]. unfold sector_to_cluster. rewrite first_data_sector_Ok.
  cbn [mbind outcome_bind]. unfold cluster_start in *.
  replace (data_start fs + _ - data_start fs) with ((c - 2) * sectors_per_cluster (bpb fs)) by lia.
  unfold rdiv. rewrite (proj2 (Z.eqb_neq _ _)) by lia. cbn [mbind outcome_bind mret outcome_ret].
  rewrite (u64_small (_ * _)) by nia. rewrite Z.div_mul, u64_small by lia. f_equal. lia.
Qed.
End volume.

(** ** Clusters on the disk *)

(** The bytes of a cluster, and the entry of a cluster in the first table. *)
Definition cluster_bytes {D} (fs : FatFs D) (img : list Z) (c : Z) : outcome (list Z) :=
  slice img (SECTOR * cluster_start fs c) (SECTOR * (cluster_start fs c + sectors_per_cluster (bpb fs))).
Definition table_entry {D} (fs : FatFs D) (img : list Z) (c : Z) : outcome Z :=
  read_le img (SECTOR * fat_start fs + c * entry_size (fat_type fs))
    (SECTOR * fat_start fs + (c + 1) * entry_size (fat_type fs)).

(** Cluster [c] has an entry in the table. *)
Definition in_table {D} (fs : FatFs D) (c : Z) : Prop :=
  0 ≤ c ∧ (c + 1) * entry_size (fat_type fs) ≤ SECTOR * sectors_per_fat fs.

Section image.
Context {D : Type} `{BlockDevice D} (fs : FatFs D) (Hgeo : geometry fs).
Context (img : list Z) `{!PartitionSpec (partition fs) img}.
(** The table is inside the partition, and not at its very end. *)
Context (Htable : SECTOR * (fat_start fs + sectors_per_fat fs + 1) ≤ len img).

Lemma read_cluster_Ok c : 2 ≤ c < 2^32 →
  SECTOR * (cluster_start fs c + sectors_per_cluster (bpb fs)) ≤ len img →
  read_cluster fs c = cluster_bytes fs img c.
Proof using Hgeo PartitionSpec0.
  intros Hc Hin. unfold read_cluster. rewrite cluster_to_sector_Ok by done. cbn [mbind outcome_bind].
  pose proof (cluster_start_bounds fs Hgeo c Hc). pose proof (ge_spc fs Hgeo).
  by rewrite (part_read (img:=img)) by lia.
Qed.

Lemma cluster_bytes_Ok c : 2 ≤ c < 2^32 →
  SECTOR * (cluster_start fs c + sectors_per_cluster (bpb fs)) ≤ len img →
  ∃ data, read_cluster fs c = Ok data ∧ cluster_bytes fs img c = Ok data ∧ len data = cluster_size fs.
Proof using Hgeo PartitionSpec0.
  intros Hc Hin. rewrite read_cluster_Ok by done. pose proof (cluster_start_bounds fs Hgeo c Hc).
  pose proof (ge_spc fs Hgeo). pose proof (ge_cluster fs Hgeo) as Hs. unfold SECTOR in *.
  unfold cluster_bytes. eexists. unfold SECTOR. rewrite slice_Ok by lia. split; [done|]. split; [done|].
  unfold len. rewrite length_take, length_drop. unfold len in *. lia.
Qed.

Lemma entry_size_cases : entry_size (fat_type fs) = 2 ∨ entry_size (fat_type fs) = 4.
Proof. destruct (fat_type fs); auto. Qed.

(** Both ways of following the table read the same entry. *)
Lemma next_on_disk c : in_table fs c →
  get_next_cluster false fs c = v ← table_entry fs img c; mret (disk_mask (fat_type fs) v).
Proof using Hgeo PartitionSpec0 Htable.
  intros [Hc Hin]. unfold get_next_cluster, table_entry.
  pose proof (ge_start fs Hgeo). pose proof (ge_reserved fs Hgeo). pose proof (ge_spf fs Hgeo).
  pose proof entry_size_cases as Hes. set (es := entry_size (fat_type fs)) in *. unfold SECTOR in *.
  assert (0 ≤ c * es < 2^42) by (destruct Hes as [-> | ->]; lia).
  rewrite (u64_small (c * es)) by lia.
  pose proof (Z_div_mod_eq_full (c * es) 512). pose proof (Z.mod_pos_bound (c * es) 512 eq_refl).
  assert (c * es / 512 < sectors_per_fat fs) by lia.
  assert (c * es mod 512 + es ≤ 512).
  { assert (c * es mod 512 mod es = 0) as Hm.
    { rewrite <- Z.mod_mul with (a := c) (b := es) by lia. apply Z.mod_mod_divide.
      destruct Hes as [-> | ->]; [by exists 256|by exists 128]. }
    destruct Hes as [E | E]; rewrite E in *.
    - pose proof (Z_div_mod_eq_full ((c * 2) mod 512) 2). lia.
    - pose proof (Z_div_mod_eq_full ((c * 4) mod 512) 4). lia. }
  rewrite u64_small by lia. rewrite (part_read (img:=img)) by (unfold SECTOR; lia). unfold SECTOR.
  destruct (slice img _ _) as [sector| | | |] eqn:Hsl; try (by rewrite slice_Ok in Hsl by lia).
  cbn [expect mbind outcome_bind]. unfold read_le.
  rewrite (slice_of_slice _ _ _ _ _ _ Hsl) by lia.
  replace (512 * (fat_start fs + c * es / 512) + (c * es) mod 512) with (512 * fat_start fs + c * es) by lia.
  replace (512 * (fat_start fs + c * es / 512) + ((c * es) mod 512 + es)) with (512 * fat_start fs + (c + 1) * es) by lia.
  done.
Qed.
End image.

(** ** The table in memory *)

Lemma fat_sector_entries_spec sector es : len sector = 512 → es = 2 ∨ es = 4 →
  ∃ l, fat_sector_entries es sector = Ok l ∧ len l = 512 / es ∧
    ∀ j, 0 ≤ j < 512 / es → index l j = read_le sector (j * es) (j * es + es).
Proof.
  intros Hl Hes. assert (512 / es * es = 512) as H512 by (by destruct Hes as [-> | ->]).
  apply (foldM_seqZ (λ i l, len l = i ∧ ∀ j, 0 ≤ j < i → index l j = read_le sector (j * es) (j * es + es))).
  - split; [done|intros; lia].
  - intros i l Hi [Hll Hj]. unfold read_le. rewrite slice_Ok by nia. cbn [fmap outcome_fmap mbind outcome_bind].
    eexists. split; [done|]. rewrite len_app, len_cons, len_nil. split; [lia|].
    intros j Hj'. destruct (decide (j = i)) as [->|].
    + rewrite index_app_r, index_singleton by lia. rewrite slice_Ok by nia. done.
    + rewrite index_app_l by lia. apply Hj. lia.
  - destruct Hes as [-> | ->]; done.
Qed.

Section table.
Context {D : Type} `{BlockDevice D} (fs : FatFs D) (Hgeo : geometry fs).
Context (img : list Z) `{!PartitionSpec (partition fs) img}.
Context (Htable : SECTOR * (fat_start fs + sectors_per_fat fs + 1) ≤ len img).

Lemma load_fat_spec : ∃ table, load_fat fs = Ok table ∧
  ∀ c, in_table fs c → index table c = table_entry fs img c.
Proof using Hgeo PartitionSpec0 Htable.
  unfold in_table, table_entry. pose proof (entry_size_cases fs) as Hes.
  set (es := entry_size (fat_type fs)) in *.
  pose proof (ge_start fs Hgeo). pose proof (ge_reserved fs Hgeo). pose proof (ge_spf fs Hgeo) as Hspf.
  assert (512 / es * es = 512) as H512 by (by destruct Hes as [-> | ->]). unfold SECTOR in *.
  destruct (foldM_seqZ (λ i l, len l = i * (512 / es) ∧ ∀ c, 0 ≤ c < len l →
      index l c = read_le img (512 * fat_start fs + c * es) (512 * fat_start fs + (c + 1) * es))
    (λ acc i, sector ← expect (partition_read (partition fs) (u64 (fat_start fs + i)) 1);
      entries ← fat_sector_entries es sector; mret (acc ++ entries)) (sectors_per_fat fs) [])
    as (table & E & Hl & Hi).
  - split; [done|]. rewrite (@len_nil Z). intros; lia.
  - intros i l Hi [Hl Hc]. rewrite u64_small by lia. rewrite (part_read (img:=img)) by (unfold SECTOR; lia).
    unfold SECTOR. destruct (slice img _ _) as [sector| | | |] eqn:Hsl; try (by rewrite slice_Ok in Hsl by lia).
    cbn [expect mbind outcome_bind]. pose proof (slice_len _ _ _ _ Hsl) as Hsec.
    destruct (fat_sector_entries_spec sector es) as (es_l & -> & Hel & Hei); [lia|done|].
    eexists. split; [done|]. rewrite len_app. split; [lia|]. intros c Hcc.
    destruct (decide (c < len l)); [rewrite index_app_l by done; apply Hc; lia|].
    rewrite index_app_r, Hei by lia. unfold read_le. rewrite (slice_of_slice _ _ _ _ _ _ Hsl) by nia.
    f_equal. f_equal; nia.
  - lia.
  - exists table. split; [done|]. intros c [Hc Hin]. apply Hi. nia.
Qed.

Context (Hbytes : Forall is_byte img).

Lemma table_entry_range c v : table_entry fs img c = Ok v →
  0 ≤ c → 0 ≤ v < 2 ^ (8 * entry_size (fat_type fs)).
Proof using Hbytes.
  unfold table_entry, read_le. destruct (slice _ _ _) as [l| | | |] eqn:E; try done.
  intros [= <-] Hc. pose proof (slice_len _ _ _ _ E) as Hl.
  replace (entry_size (fat_type fs)) with (len l) by lia. apply le_value_range.
  unfold slice in E. case_decide; [|done]. injection E as <-. apply Forall_take, Forall_drop, Hbytes.
Qed.

Lemma masks_agree v : 0 ≤ v < 2 ^ (8 * entry_size (fat_type fs)) →
  entry_mask (fat_type fs) v = disk_mask (fat_type fs) v.
Proof.
  unfold entry_mask, disk_mask, entry_size. destruct (fat_type fs); try done. intros Hv.
  change 0xFFFF with (2^16 - 1). rewrite land_ones_mod by done. by apply Z.mod_small.
Qed.
End table.

(** ** Reading a file *)

(** Following the table from [c] visits exactly [cs] and then an end mark. *)
Fixpoint chain_from {D} `{BlockDevice D} (mem : bool) (fs : FatFs D) (c : Z) (cs : list Z) : Prop :=
  match cs with
  | [] => ∃ next, get_next_cluster mem fs c = Ok next ∧ is_end_of_chain (fat_type fs) next = true
  | c' :: cs' =>
      get_next_cluster mem fs c = Ok c' ∧ is_end_of_chain (fat_type fs) c' = false ∧
      chain_from mem fs c' cs'
  end.

Section reading.
Context {D : Type} `{BlockDevice D} (mem : bool) (fs : FatFs D).

Definition reads (c : Z) (d : list Z) : Prop :=
  read_cluster fs c = Ok d ∧ len d = cluster_size fs.

Lemma take_drop_first (d rest : list Z) o rem : 0 ≤ o ≤ len d → 0 ≤ rem →
  take (Z.to_nat rem) (drop (Z.to_nat o) (d ++ rest)) =
    take (Z.to_nat rem) (drop (Z.to_nat o) d) ++ take (Z.to_nat (rem - (len d - o))) rest.
Proof.
  intros Ho Hr. rewrite drop_app_le by (unfold len in Ho; lia). rewrite take_app. f_equal.
  f_equal. rewrite length_drop. unfold len in *. lia.
Qed.

Lemma read_loop_spec fuel c cs ds count o copied file :
  chain_from mem fs c cs → Forall2 reads (c :: cs) ds →
  0 < cluster_size fs < 2^32 → 0 ≤ o < cluster_size fs → 0 ≤ copied ≤ count → count < 2^63 →
  o + (count - copied) ≤ cluster_size fs ∨ cluster_size fs < count - copied →
  (length cs < fuel)%nat →
  read_loop mem fuel fs c count o copied file =
    Ok (file ++ take (Z.to_nat (count - copied)) (drop (Z.to_nat o) (concat ds))).
Proof.
  revert fuel c ds o copied file. induction cs as [|c' cs IH];
    intros fuel c ds o copied file Hch Hds Hcs Ho Hcop Hcnt Hfit Hf;
    (destruct fuel as [|fuel]; [cbn in Hf; lia|]);
    apply Forall2_cons_inv_l in Hds as (d & ds' & [Hr Hl] & Hds & ->); cbn [read_loop concat];
    rewrite Hr; cbn [mbind outcome_bind]; rewrite (u64_small (count - copied)) by lia;
    rewrite take_drop_first by lia; rewrite Hl; set (rem := count - copied) in *.
  all: assert (∃ n, (if cluster_size fs <? rem then u64 (cluster_size fs - o) else rem) = n ∧
      slice d o (u64 (o + n)) = Ok (take (Z.to_nat rem) (drop (Z.to_nat o) d)) ∧
      0 ≤ n ≤ rem ∧ (n = rem ∨ n = cluster_size fs - o) ∧ (n = rem → rem ≤ cluster_size fs - o)) as (n & -> & -> & Hn & Hn2 & Hn3).
  1, 3: destruct (cluster_size fs <? rem) eqn:C; eexists; (split; [reflexivity|]);
    rewrite ?(u64_small (cluster_size fs - o)) by lia; rewrite u64_small, slice_Ok by lia;
    (split; [|lia]); f_equal;
    [rewrite !take_ge; [done|rewrite length_drop; unfold len in Hl; lia..]|f_equal; lia].
  - destruct Hch as (next & -> & Hend). cbn [mbind outcome_bind]. rewrite Hend.
    inversion Hds; subst. cbn [concat]. by rewrite take_nil, app_nil_r.
  - destruct Hch as (-> & Hend & Hch). cbn [mbind outcome_bind]. rewrite Hend.
    rewrite u64_small by lia. rewrite (IH fuel c' ds') by (done || lia || (cbn in Hf; lia)).
    rewrite drop_0, <- app_assoc. do 3 f_equal.
    destruct Hn2 as [-> | ->]; [|f_equal; lia]. specialize (Hn3 eq_refl).
    replace (count - (copied + rem)) with 0 by lia.
    by replace (Z.to_nat (rem - (cluster_size fs - o))) with 0%nat by lia.
Qed.
End reading.

(** Cluster [c] lies in the data area of the partition. *)
Definition in_data {D} (fs : FatFs D) (img : list Z) (c : Z) : Prop :=
  2 ≤ c < 2^32 ∧ SECTOR * (cluster_start fs c + sectors_per_cluster (bpb fs)) ≤ len img.

#[export] Instance in_data_dec {D} (fs : FatFs D) img c : Decision (in_data fs img c).
Proof. unfold in_data. apply _. Defined.

Lemma in_data_reads {D} `{BlockDevice D} (fs : FatFs D) img `{!PartitionSpec (partition fs) img} cs :
  geometry fs → Forall (in_data fs img) cs →
  ∃ ds, Forall2 (λ c d, cluster_bytes fs img c = Ok d) cs ds ∧ Forall2 (reads fs) cs ds.
Proof.
  intros Hg. induction 1 as [|c cs [Hc Hin] _ (ds & H1 & H2)]; [by exists []|].
  destruct (cluster_bytes_Ok fs Hg img c Hc Hin) as (d & ? & ? & ?).
  exists (d :: ds). split; by constructor.
Qed.

Lemma skip_clusters_reads {D} `{BlockDevice D} mem (fs : FatFs D) n c cs ds :
  chain_from mem fs c cs → Forall2 (reads fs) (c :: cs) ds → (n ≤ length cs)%nat →
  ∃ c' d, skip_clusters mem n fs c = Ok c' ∧ reads fs c' d.
Proof.
  revert n c ds. induction cs as [|c' cs IH]; intros n c ds Hch H2 Hn;
    apply Forall2_cons_inv_l in H2 as (d & ds' & Hr & H2 & ->); (destruct n as [|n]; [by exists c, d|]).
  - cbn in Hn. lia.
  - destruct Hch as (E & _ & Hch). cbn [skip_clusters]. rewrite E. cbn [mbind outcome_bind].
    apply (IH n c' ds'); [done|done|cbn in Hn; lia].
Qed.

Lemma first_cluster_comm e :
  Z.lor (u32 (Z.shiftl (high_first_cluster_number e) 16)) (low_first_cluster_number e) = cluster e.
Proof. apply Z.lor_comm. Qed.

Lemma cluster_size_bounds {D} (fs : FatFs D) : geometry fs → 0 < cluster_size fs < 2^32.
Proof. intros Hg. pose proof (ge_cluster fs Hg). pose proof (ge_spc fs Hg). lia. Qed.

(** From inside the first cluster, when the bytes end in it or are more than one. *)
Lemma file_read_first {D} `{BlockDevice D} mem (fs : FatFs D) fuel entry cs ds count offset :
  geometry fs → chain_from mem fs (cluster entry) cs → Forall2 (reads fs) (cluster entry :: cs) ds →
  (length cs < fuel)%nat → 0 ≤ count < 2^63 → 0 ≤ offset < cluster_size fs →
  offset + count ≤ cluster_size fs ∨ cluster_size fs < count →
  file_read mem fuel fs (Archive entry) count offset = Ok (take (Z.to_nat count) (drop (Z.to_nat offset) (concat ds))).
Proof.
  intros Hg Hch Hds Hf Hc Ho Hfit. pose proof (cluster_size_bounds fs Hg) as Hcs.
  unfold file_read, rdiv. rewrite first_cluster_comm, (proj2 (Z.eqb_neq _ _)) by lia.
  cbn [mbind outcome_bind]. rewrite Z.div_small by lia. change (Z.to_nat 0) with 0%nat. cbn [skip_clusters mbind outcome_bind mret outcome_ret].
  rewrite (read_loop_spec mem fs fuel (cluster entry) cs ds) by (done || lia).
  by rewrite Z.sub_0_r.
Qed.


Lemma mounted_next {D} `{BlockDevice D} (fs : FatFs D) img `{!PartitionSpec (partition fs) img} :
  geometry fs → SECTOR * (fat_start fs + sectors_per_fat fs + 1) ≤ len img → Forall is_byte img →
  ∃ table, load_fat fs = Ok table ∧ ∀ c, in_table fs c →
    get_next_cluster true (set_fat (Some table) fs) c = get_next_cluster false fs c.
Proof.
  intros Hg Ht Hb. destruct (load_fat_spec fs Hg img Ht) as (table & Hl & Hi).
  exists table. split; [done|]. intros c Hc.
  rewrite (next_on_disk fs Hg img Ht c Hc). unfold get_next_cluster. cbn [fat set_fat fat_type].
  cbn [of_option mbind outcome_bind]. rewrite (Hi c Hc).
  destruct (table_entry fs img c) as [v| | | |] eqn:E; try done. cbn [mbind outcome_bind mret outcome_ret].
  destruct Hc as [Hc0 _]. pose proof (table_entry_range fs img Hb c v E Hc0).
  by rewrite masks_agree.
Qed.

(** C26: after [mount] has loaded the allocation table, following a cluster in
    memory gives exactly what following it on the disk gives. *)
Theorem mounted_table_agrees {D} `{BlockDevice D} (fs : FatFs D) img `{!PartitionSpec (partition fs) img} c :
  geometry fs → SECTOR * (fat_start fs + sectors_per_fat fs + 1) ≤ len img → Forall is_byte img →
  in_table fs c →
  ∃ fs', fat_mount true fs = (Ok tt, fs') ∧
    get_next_cluster true fs' c = get_next_cluster false fs c.
Proof.
  intros Hg Ht Hb Hc. destruct (mounted_next fs img Hg Ht Hb) as (table & Hl & Hi).
  exists (set_fat (Some table) fs). split; [|by apply Hi]. unfold fat_mount. prun. by rewrite Hl.
Qed.

(** The two conversions between clusters and sectors invert each other. *)
Lemma cluster_sector_roundtrip {D} (fs : FatFs D) c : geometry fs → 2 ≤ c < 2^32 →
  (s ← cluster_to_sector fs c; sector_to_cluster fs s) = Ok c.
Proof.
  intros Hg Hc. rewrite cluster_to_sector_Ok by done. cbn [mbind outcome_bind].
  by apply sector_to_cluster_Ok.
Qed.

(** ** Directories *)

(** A long-name record: 13 UTF-16 units around the fixed bytes. *)
Record lfn := mk_lfn { l_order : Z; l_checksum : Z; l_units : list Z }.
Definition units_bytes (us : list Z) : list Z := concat (le_bytes 2 <$> us).
Definition lfn_bytes (l : lfn) : list Z :=
  [l_order l] ++ units_bytes (take 5 (l_units l)) ++ [ATTR_LONG_NAME; 0; l_checksum l] ++
  units_bytes (take 6 (drop 5 (l_units l))) ++ [0; 0] ++ units_bytes (drop 11 (l_units l)).
Record lfn_wf (l : lfn) : Prop := {
  lw_order : l_order l ≠ 0 ∧ l_order l ≠ 0xE5;
  lw_units : length (l_units l) = 13%nat ∧ Forall (fits 16) (l_units l);
}.

(** A short record, with the times and dates the driver does not use. *)
Definition entry_record (times dates : list Z) (e : FileEntry) : list Z :=
  file_name e ++ extension e ++ [fe_attributes e] ++ times ++ le_bytes 2 (high_first_cluster_number e) ++
  dates ++ le_bytes 2 (low_first_cluster_number e) ++ le_bytes 4 (file_size e).
Record entry_wf (e : FileEntry) : Prop := {
  ew_name : len (file_name e) = 8 ∧ len (extension e) = 3;
  ew_first : ∃ b l, file_name e = b :: l ∧ b ≠ 0 ∧ b ≠ 0xE5;
  ew_attributes : fe_attributes e ≠ ATTR_LONG_NAME;
  ew_utf8 : from_utf8 (file_name e) ≠ None ∧ from_utf8 (extension e) ≠ None;
  ew_numbers : fits 16 (high_first_cluster_number e) ∧ fits 16 (low_first_cluster_number e) ∧
    fits 32 (file_size e);
}.

(** What a directory lists: freed records, and entries with their long-name
    records before them (in disk order: the last part first). *)
Inductive dir_item :=
  | Freed (rest : list Z)
  | Named (parts : list lfn) (times dates : list Z) (e : FileEntry).

Definition item_records (i : dir_item) : list (list Z) :=
  match i with
  | Freed rest => [0xE5 :: rest]
  | Named parts times dates e => (lfn_bytes <$> parts) ++ [entry_record times dates e]
  end.
Definition name_units (parts : list lfn) : list Z :=
  filter (λ x, x ≠ 0xFFFF ∧ x ≠ 0) (concat (rev (l_units <$> parts))).
Definition item_wf (i : dir_item) : Prop :=
  match i with
  | Freed rest => len rest = 31
  | Named parts times dates e =>
      Forall lfn_wf parts ∧ from_utf16 (name_units parts) ≠ None ∧
      len times = 8 ∧ len dates = 4 ∧ entry_wf e
  end.

(** A directory cluster: the items, then a record starting with 0. *)
Definition dir_bytes (items : list dir_item) (end_rest rest : list Z) : list Z :=
  concat (concat (item_records <$> items)) ++ (0 :: end_rest) ++ rest.

(** The specification: [stale] is the last long name met. *)
Definition long_of (parts : list lfn) (stale : option str) : option str :=
  if bool_decide (parts = []) then stale else from_utf16 (name_units parts).
Definition short_of (e : FileEntry) : str := match short_name e with Ok s => s | _ => [] end.
Definition item_matches (upper : str → str) (name : str) (long : option str) (e : FileEntry) : bool :=
  match long with
  | Some l => bool_decide (l = name)
  | None => bool_decide (upper name = short_of e)
  end.
Fixpoint find_spec (upper : str → str) (name : str) (stale : option str) (items : list dir_item)
    : outcome FileEntry :=
  match items with
  | [] => Err
  | Freed _ :: items' => find_spec upper name stale items'
  | Named parts _ _ e :: items' =>
      let long := long_of parts stale in
      if item_matches upper name long e then Ok e else find_spec upper name long items'
  end.

Lemma units_bytes_inv us rest : Forall (fits 16) us → units (units_bytes us ++ rest) = us ++ units rest.
Proof.
  unfold units_bytes. induction 1 as [|u us Hu _ IH]; [done|].
  rewrite fmap_cons. cbn [concat]. rewrite <- app_assoc.
  change (le_bytes 2 u) with [u mod 2^8; (u / 2^8) mod 2^8]. cbn [app units]. rewrite IH. f_equal. pose proof (Z_div_mod_eq_full u (2^8)). unfold fits in Hu.
  rewrite (Z.mod_small (u / 2^8)); [lia|]. split; [apply Z.div_pos; lia|apply Z.div_lt_upper_bound; lia].
Qed.
Lemma len_units_bytes us : len (units_bytes us) = 2 * len us.
Proof.
  unfold units_bytes. induction us as [|u us IH]; [done|]. rewrite fmap_cons. cbn [concat].
  rewrite len_app, len_le_bytes, len_cons, IH. lia.
Qed.

Lemma lfn_bytes_len l : lfn_wf l → len (lfn_bytes l) = 32.
Proof.
  intros [_ [Hl _]]. unfold lfn_bytes. rewrite !len_app, !len_units_bytes, !len_cons, len_nil.
  unfold len. rewrite !length_take, !length_drop, Hl. done.
Qed.

Lemma long_name_units_lfn l : lfn_wf l → long_name_units (lfn_bytes l) = Ok (l_units l).
Proof.
  intros [_ [Hl Hu]]. unfold long_name_units, lfn_bytes.
  assert (∀ us, Forall (fits 16) us → units (units_bytes us) = us) as Hinv.
  { intros us Hus. pose proof (units_bytes_inv us [] Hus) as E. by rewrite !app_nil_r in E. }
  assert (len (units_bytes (take 5 (l_units l))) = 10) as H1
    by (rewrite len_units_bytes; unfold len; by rewrite length_take, Hl).
  assert (len (units_bytes (take 6 (drop 5 (l_units l)))) = 12) as H2
    by (rewrite len_units_bytes; unfold len; by rewrite length_take, length_drop, Hl).
  assert (len (units_bytes (drop 11 (l_units l))) = 4) as H3
    by (rewrite len_units_bytes; unfold len; by rewrite length_drop, Hl).
  rewrite <- (app_nil_r (units_bytes (drop 11 _))).
  assert (len [l_order l] = 1) as H4 by done. assert (len [ATTR_LONG_NAME; 0; l_checksum l] = 3) as H5 by done.
  assert (len [0; 0] = 2) as H6 by done.
  layout. rewrite !Hinv by (repeat (apply Forall_take || apply Forall_drop); done).
  cbn [mret outcome_ret]. f_equal. replace (drop 11 (l_units l)) with (drop 6 (drop 5 (l_units l))) by apply drop_drop.
  by rewrite (take_drop 6), (take_drop 5).
Qed.

Lemma entry_record_len times dates e : len times = 8 → len dates = 4 → entry_wf e →
  len (entry_record times dates e) = 32.
Proof.
  intros Ht Hd [[Hn He] _ _ _ _]. unfold entry_record.
  by rewrite !len_app, !len_le_bytes, Hn, He, Ht, Hd, len_cons, len_nil.
Qed.
Lemma file_entry_of_record times dates e : len times = 8 → len dates = 4 → entry_wf e →
  file_entry_of (entry_record times dates e) = Ok e ∧ index (entry_record times dates e) 11 = Ok (fe_attributes e).
Proof.
  intros Ht Hd [[Hn He] _ _ _ (H1 & H2 & H3)].
  assert (index (entry_record times dates e) 11 = Ok (fe_attributes e)) as Ha.
  { unfold entry_record. rewrite index_app_r, Hn, index_app_r, He by lia. done. }
  split; [|done]. unfold file_entry_of. rewrite Ha. unfold entry_record.
  rewrite <- (app_nil_r (le_bytes 4 _)). assert (len [fe_attributes e] = 1) as H4 by done.
  layout. by destruct e.
Qed.

Section directory.
Context (upper : str → str) (data : list Z) (name : str).

Lemma record_at pre r post i : data = pre ++ r ++ post → len pre = i * 32 → len r = 32 →
  slice data (i * 32) ((i + 1) * 32) = Ok r.
Proof. intros -> Hp Hr. apply slice_app_middle; lia. Qed.

Lemma lfn_step fuel l pre post i pending stale : lfn_wf l → data = pre ++ lfn_bytes l ++ post →
  len pre = i * 32 →
  find_entry_loop upper (S fuel) data name i pending stale =
    find_entry_loop upper fuel data name (i + 1) (pending ++ [l_units l]) stale.
Proof.
  intros Hw E Hp. cbn [find_entry_loop].
  rewrite (record_at pre (lfn_bytes l) post i E Hp (lfn_bytes_len l Hw)). cbn [mbind outcome_bind].
  pose proof (lw_order l Hw) as [H0 H5]. pose proof (lw_units l Hw) as [Hl _].
  assert (index (lfn_bytes l) 0 = Ok (l_order l)) as -> by done. cbn [mbind outcome_bind].
  rewrite !(proj2 (Z.eqb_neq _ _)) by done.
  assert (index (lfn_bytes l) 11 = Ok ATTR_LONG_NAME) as ->.
  { unfold lfn_bytes. rewrite index_app_r, index_app_r; rewrite ?len_units_bytes; unfold len;
      rewrite ?length_take, ?Hl; done. }
  cbn [mbind outcome_bind]. rewrite Z.eqb_refl, long_name_units_lfn by done. done.
Qed.

Lemma lfns_step parts fuel pre post i pending stale : Forall lfn_wf parts →
  data = pre ++ concat (lfn_bytes <$> parts) ++ post → len pre = i * 32 →
  find_entry_loop upper (length parts + fuel) data name i pending stale =
    find_entry_loop upper fuel data name (i + len parts) (pending ++ (l_units <$> parts)) stale.
Proof.
  intros Hw. revert pre i pending. induction Hw as [|l parts Hl _ IH]; intros pre i pending E Hp.
  - rewrite app_nil_r, (@len_nil lfn), Z.add_0_r. done.
  - cbn [length Nat.add]. rewrite fmap_cons in E. cbn [concat] in E. rewrite <- app_assoc in E.
    rewrite (lfn_step _ l pre (concat (lfn_bytes <$> parts) ++ post)) by done.
    rewrite (IH (pre ++ lfn_bytes l)).
    + rewrite len_cons, fmap_cons, <- app_assoc. cbn [app]. f_equal. lia.
    + by rewrite E, <- app_assoc.
    + rewrite len_app, lfn_bytes_len by done. lia.
Qed.

Lemma short_name_Ok e : entry_wf e → short_name e = Ok (short_of e).
Proof.
  intros [_ _ _ [H1 H2] _]. unfold short_of, short_name.
  destruct (from_utf8 (file_name e)), (from_utf8 (extension e)); done.
Qed.

Lemma entry_step fuel parts times dates e pre post i stale :
  item_wf (Named parts times dates e) → data = pre ++ entry_record times dates e ++ post →
  len pre = i * 32 →
  find_entry_loop upper (S fuel) data name i (l_units <$> parts) stale =
    if item_matches upper name (long_of parts stale) e then Ok e
    else find_entry_loop upper fuel data name (i + 1) [] (long_of parts stale).
Proof.
  intros (Hps & Hn & Ht & Hd & He) E Hp. cbn [find_entry_loop].
  rewrite (record_at pre _ post i E Hp (entry_record_len _ _ _ Ht Hd He)). cbn [mbind outcome_bind].
  destruct (file_entry_of_record times dates e Ht Hd He) as [-> ->].
  destruct (ew_first e He) as (b & l & Eb & Hb0 & Hb5).
  assert (index (entry_record times dates e) 0 = Ok b) as -> by (unfold entry_record; by rewrite Eb).
  cbn [mbind outcome_bind]. rewrite !(proj2 (Z.eqb_neq _ _)) by (done || apply (ew_attributes e He)).
  rewrite (short_name_Ok e He). unfold long_of.
  assert (bool_decide (l_units <$> parts = []) = bool_decide (parts = [])) as ->
    by (apply bool_decide_ext; by destruct parts).
  unfold long_name. fold (name_units parts).
  case_bool_decide; cbn [mbind outcome_bind fmap outcome_fmap mret outcome_ret].
  - unfold item_matches. by destruct stale.
  - destruct (from_utf16 (name_units parts)) as [long|]; [|done]. done.
Qed.

Lemma concat_records (rs : list (list Z)) : Forall (λ r, len r = 32) rs → len (concat rs) = 32 * len rs.
Proof. apply len_concat. Qed.
Lemma lfns_records parts : Forall lfn_wf parts → Forall (λ r, len r = 32) (lfn_bytes <$> parts).
Proof. intros H. apply Forall_fmap. eapply Forall_impl; [exact H|]. apply lfn_bytes_len. Qed.
Lemma item_records_len it : item_wf it → Forall (λ r, len r = 32) (item_records it).
Proof.
  destruct it as [fr|parts times dates e]; cbn [item_records].
  - intros Hf. cbn in Hf. repeat constructor. rewrite len_cons. lia.
  - intros (Hps & _ & Ht & Hd & He). apply Forall_app. split; [by apply lfns_records|].
    repeat constructor. by apply entry_record_len.
Qed.

Lemma items_spec items fuel pre i stale end_rest rest : Forall item_wf items →
  data = pre ++ dir_bytes items end_rest rest → len pre = i * 32 → len end_rest = 31 →
  (length (concat (item_records <$> items)) < fuel)%nat →
  find_entry_loop upper fuel data name i [] stale = find_spec upper name stale items.
Proof.
  intros Hw. unfold dir_bytes. revert fuel pre i stale.
  induction Hw as [|it items Hit _ IH]; intros fuel pre i stale E Hp Hend Hf; cbn [find_spec].
  { destruct fuel as [|fuel]; [cbn in Hf; lia|]. cbn [find_entry_loop].
    rewrite (record_at pre (0 :: end_rest) rest i) by (done || rewrite len_cons; lia). done. }
  rewrite fmap_cons in E, Hf. cbn [concat] in E, Hf. rewrite concat_app in E. rewrite length_app in Hf.
  rewrite <- app_assoc in E. destruct it as [fr|parts times dates e]; cbn [item_records] in E, Hf.
  - destruct fuel as [|fuel]; [cbn in Hf; lia|]. cbn [concat app length] in E, Hf. rewrite app_nil_r in E.
    cbn in Hit. cbn [find_entry_loop].
    rewrite (record_at pre (0xE5 :: fr) _ i E) by (done || rewrite len_cons; lia).
    cbn [mbind outcome_bind]. assert (index (0xE5 :: fr) 0 = Ok 0xE5) as -> by done. cbn [mbind outcome_bind].
    change (0xE5 =? 0) with false. change (0xE5 =? 0xE5) with true. cbv iota.
    apply (IH fuel (pre ++ 0xE5 :: fr)); [by rewrite E, <- app_assoc|rewrite len_app, len_cons; lia|done|lia].
  - rewrite concat_app, length_app, length_fmap in *. cbn [concat length app] in E, Hf.
    rewrite app_nil_r, <- app_assoc in E. pose proof Hit as (Hps & _ & Ht & Hd & He).
    pose proof (concat_records _ (lfns_records parts Hps)) as Hlp.
    assert (len (lfn_bytes <$> parts) = len parts) as Hlp2 by (unfold len; by rewrite length_fmap).
    replace fuel with (length parts + S (fuel - length parts - 1))%nat by lia.
    rewrite (lfns_step parts _ pre _ i [] stale Hps E Hp), app_nil_l.
    rewrite (entry_step _ parts times dates e (pre ++ concat (lfn_bytes <$> parts))
      (concat (concat (item_records <$> items)) ++ (0 :: end_rest) ++ rest)); try done.
    + case_match; [done|].
      apply (IH _ ((pre ++ concat (lfn_bytes <$> parts)) ++ entry_record times dates e));
        [by rewrite E, <- !app_assoc|rewrite !len_app, entry_record_len by done; lia|done|lia].
    + by rewrite E, <- app_assoc.
    + rewrite len_app. lia.
Qed.
End directory.

(** An entry's own name. *)
Fixpoint first_match (upper : str → str) (name : str) (items : list dir_item) : outcome FileEntry :=
  match items with
  | [] => Err
  | Freed _ :: items' => first_match upper name items'
  | Named parts _ _ e :: items' =>
      if item_matches upper name (long_of parts None) e then Ok e else first_match upper name items'
  end.
Definition has_long_name (i : dir_item) : bool :=
  match i with Named (_ :: _) _ _ _ => true | _ => false end.
Definition has_short_name (i : dir_item) : bool :=
  match i with Named [] _ _ _ => true | _ => false end.

Lemma find_spec_long upper name stale items : Forall (λ i, has_short_name i = false) items →
  find_spec upper name stale items = first_match upper name items.
Proof.
  intros H. revert stale. induction H as [|[fr|[|l parts] times dates e] items Hi _ IH]; intros stale;
    cbn [find_spec first_match]; [done|apply IH|done|].
  assert (long_of (l :: parts) stale = long_of (l :: parts) None) as -> by done. by rewrite IH.
Qed.
Lemma find_spec_short upper name items k : Forall (λ i, has_long_name i = false) items →
  (∀ stale, find_spec upper name stale k = first_match upper name k) →
  find_spec upper name None (items ++ k) = first_match upper name (items ++ k).
Proof.
  intros H Hk. induction H as [|[fr|[|l parts] times dates e] items Hi _ IH];
    cbn [find_spec first_match app]; [apply Hk|apply IH| |done].
  assert (long_of [] None = None) as -> by done. by rewrite IH.
Qed.

Lemma find_entry_Ok {D} `{BlockDevice D} upper (fs : FatFs D) c name items end_rest rest :
  read_cluster fs c = Ok (dir_bytes items end_rest rest) →
  Forall item_wf items → len end_rest = 31 →
  find_entry_in_directory upper fs c name = find_spec upper name None items.
Proof.
  intros Hr Hw He. unfold find_entry_in_directory. rewrite Hr. cbn [mbind outcome_bind].
  apply (items_spec upper _ name items _ [] 0 None end_rest rest); try done.
  assert (len (concat (concat (item_records <$> items))) = 32 * len (concat (item_records <$> items))) as Hl.
  { apply concat_records, Forall_concat, Forall_fmap. eapply Forall_impl; [exact Hw|]. apply item_records_len. }
  unfold dir_bytes. rewrite !len_app, Hl, len_cons, He. pose proof (len_nonneg rest).
  apply Nat.lt_succ_r. unfold len at 1.
  assert (len (concat (item_records <$> items)) ≤
    (32 * len (concat (item_records <$> items)) + (1 + 31 + len rest)) / 32) as Hq
    by (apply Z.div_le_lower_bound; lia).
  unfold len in *. lia.
Qed.


(** ** The root directory of FAT12 and FAT16 *)

(** Dividing a number just below 2^64 by a power of two. *)
Lemma div_below_2_64 root spc k : 0 ≤ k ≤ 8 → spc = 2^k → 0 ≤ root < 2^16 →
  let q := (root + spc - 1) / spc in
  2^64 = 2^(64 - k) * spc ∧ 0 ≤ q < 2^(64 - k) ∧ 0 ≤ q * spc - root < spc ∧
  u64 (- root) / spc = if decide (root = 0) then 0 else 2^(64 - k) - q.
Proof.
  intros Hk Hspc Hr q. assert (1 ≤ spc ≤ 2^8) as Hs
    by (rewrite Hspc; split; [apply (Z.pow_le_mono_r 2 0); lia|apply Z.pow_le_mono_r; lia]).
  assert (2^64 = 2^(64 - k) * spc) as E64 by (rewrite Hspc, <- Z.pow_add_r by lia; f_equal; lia).
  assert (0 ≤ q) by (apply Z.div_pos; lia). set (m := 2^(64 - k)) in *.
  pose proof (Z_div_mod_eq_full (root + spc - 1) spc) as Hdm. fold q in Hdm.
  pose proof (Z.mod_pos_bound (root + spc - 1) spc ltac:(lia)) as Hmod.
  assert (q < m) by nia. split; [done|]. split; [done|]. split; [lia|].
  case_decide as C; [by rewrite C, Z.div_0_l by lia|].
  assert (u64 (- root) = 2^64 - root) as ->.
  { unfold u64. symmetry. apply Z.mod_unique with (-1); [left|]; lia. }
  symmetry. apply Z.div_unique with (q * spc - root); [left|]; nia.
Qed.

(** On FAT12 and FAT16 the root directory is reached through a cluster
    number below 2, by arithmetic modulo 2^64: when the cluster size is a power
    of two, that number leads to the data area's start less the root directory's
    size rounded up to whole clusters, so to the root directory itself exactly
    when its size is a whole number of clusters. *)
Lemma root_directory_sector {D} (fs : FatFs D) k :
  geometry fs → (∀ e, fat_type fs ≠ Fat32 e) → 0 ≤ k → sectors_per_cluster (bpb fs) = 2^k →
  let spc := sectors_per_cluster (bpb fs) in
  let rounded := (root_dir_count fs + spc - 1) / spc * spc in
  rounded ≤ data_start fs →
  ∃ c, fat_root fs = Ok (Dir c, Directory) ∧
    cluster_to_sector fs c = Ok (data_start fs - rounded) ∧
    (data_start fs - rounded = reserved_sectors (bpb fs) + fat_count (bpb fs) * sectors_per_fat fs ↔
     (spc | root_dir_count fs)).
Proof.
  intros Hg Ht Hk Hspc spc rounded Hle. destruct (data_start_bounds fs Hg) as [Hr Hd].
  pose proof (ge_spc fs Hg) as Hs. fold spc in Hs, Hspc. set (root := root_dir_count fs) in *.
  assert (k ≤ 8) as Hk8 by (apply (Z.pow_le_mono_r_iff 2); lia).
  destruct (div_below_2_64 root spc k) as (E64 & Hq & Hqr & Hdiv); [lia|done|done|].
  set (q := (root + spc - 1) / spc) in *. assert (rounded = q * spc) as Er by done.
  set (v := if decide (root = 0) then 0 else 2^(64 - k) - q) in *.
  exists (u64 (v + 2)). split; [|split].
  - assert (u64 (u64 (reserved_sectors (bpb fs) + u64 (fat_count (bpb fs) * sectors_per_fat fs)) - data_start fs)
      / spc = v) as Hv.
    { assert (0 ≤ fat_count (bpb fs) * sectors_per_fat fs < 2^41) by (destruct Hg; nia).
      pose proof (ge_reserved fs Hg). unfold data_start. fold root.
      rewrite (u64_small (fat_count _ * _)), (u64_small (reserved_sectors _ + _)) by lia.
      by replace (_ - _) with (- root) by lia. }
    unfold fat_root. destruct (fat_type fs) as [e|e|e] eqn:Et; [| |by destruct (Ht e)].
    all: unfold sector_to_cluster; rewrite (first_data_sector_Ok fs Hg); cbn [mbind outcome_bind];
      unfold rdiv; rewrite (proj2 (Z.eqb_neq _ _)) by lia; cbn [mbind outcome_bind mret outcome_ret];
      fold spc; by rewrite Hv.
  - unfold cluster_to_sector. rewrite (first_data_sector_Ok fs Hg). cbn [mbind outcome_bind mret outcome_ret].
    f_equal. fold spc. unfold u64. rewrite Zminus_mod_idemp_l, Z.add_simpl_r.
    rewrite Zplus_mod_idemp_l, <- Zplus_mod_idemp_l, Zmult_mod_idemp_l, Zplus_mod_idemp_l.
    unfold v. case_decide as C.
    + rewrite Z.mul_0_l, Z.add_0_l, Er. assert (q * spc = 0) by nia. rewrite Z.mod_small; lia.
    + replace ((_ - q) * spc + data_start fs) with (data_start fs - rounded + 1 * 2^64)
        by (rewrite E64, Er; ring).
      rewrite Z_mod_plus_full. apply Z.mod_small. assert (0 ≤ rounded) by (rewrite Er; nia). lia.
  - unfold data_start. fold root. split; [intros E; exists q; lia|].
    intros [x Hx]. assert (0 ≤ (q - x) * spc < spc) by (rewrite Hx in Hqr; lia).
    assert (q = x) by nia. subst x. lia.
Qed.

(** ** The boot sector *)

Definition boot_sector (jmp : list Z) (b : BIOSParameterBlock) (rest : list Z) : list Z :=
  jmp ++ oem_identifier b ++ le_bytes 2 (bytes_per_sector b) ++ le_bytes 1 (sectors_per_cluster b) ++
  le_bytes 2 (reserved_sectors b) ++ le_bytes 1 (fat_count b) ++ le_bytes 2 (root_directory_count b) ++
  le_bytes 2 (total_sectors b) ++ le_bytes 1 (media_descriptor_type b) ++
  le_bytes 2 (bpb_sectors_per_fat b) ++ le_bytes 2 (sectors_per_track b) ++ le_bytes 2 (head_count b) ++
  le_bytes 4 (hidden_sectors b) ++ le_bytes 4 (large_sector_count b) ++ ebpb_bytes b ++ rest.

Record bpb_wf (b : BIOSParameterBlock) : Prop := {
  bw_lists : len (oem_identifier b) = 8 ∧ len (ebpb_bytes b) = 54;
  bw_8 : fits 8 (sectors_per_cluster b) ∧ fits 8 (fat_count b) ∧ fits 8 (media_descriptor_type b);
  bw_16 : fits 16 (bytes_per_sector b) ∧ fits 16 (reserved_sectors b) ∧ fits 16 (root_directory_count b) ∧
    fits 16 (total_sectors b) ∧ fits 16 (bpb_sectors_per_fat b) ∧ fits 16 (sectors_per_track b) ∧
    fits 16 (head_count b);
  bw_32 : fits 32 (hidden_sectors b) ∧ fits 32 (large_sector_count b);
  bw_root : 0 < bytes_per_sector b ∧ root_directory_count b * 32 + bytes_per_sector b - 1 < 2^16;
  bw_spc : 0 < sectors_per_cluster b;
}.

Lemma cast_bpb_sector jmp b rest : len jmp = 3 → bpb_wf b → cast_bpb (boot_sector jmp b rest) = Ok b.
Proof.
  intros Hj [[H1 H2] (? & ? & ?) (? & ? & ? & ? & ? & ? & ?) (? & ?) _ _].
  unfold cast_bpb, cast_le, cast_slice, boot_sector. layout. by destruct b.
Qed.

Lemma cast_ebpb16_fields ext ident pad : len ext = 18 → len ident = 8 →
  ∃ e, cast_ebpb16 (ext ++ ident ++ pad) = Ok e ∧ f16_system_identifier e = ident.
Proof.
  intros He Hi. pose proof (len_nonneg pad). unfold cast_ebpb16, cast_le, cast_slice.
  rewrite (slice_Ok _ 2 3), (slice_Ok _ 7 18), (slice_app_middle ext ident pad)
    by (rewrite ?len_app; lia).
  cbn [fmap outcome_fmap mbind outcome_bind mret outcome_ret]. by eexists.
Qed.

(** The clusters of the data area. *)
Definition data_clusters (b : BIOSParameterBlock) : Z :=
  (total_sectors b - (reserved_sectors b + fat_count b * bpb_sectors_per_fat b +
    (root_directory_count b * 32 + bytes_per_sector b - 1) / bytes_per_sector b)) / sectors_per_cluster b.


(** ** A concrete volume *)

(** A FAT12 partition of eight sectors at the second sector of a disk: boot
    sector, table, root directory, and a file in clusters 2 and 3. *)
Definition demo_bpb : BIOSParameterBlock :=
  mk_bpb (chars "TOTO-OS ") 512 1 1 1 16 8 0xF8 1 0 0 0 0
    (replicate 18 0 ++ chars "FAT12   " ++ replicate 28 0).
Definition demo_boot : list Z := boot_sector [0xEB; 0x3C; 0x90] demo_bpb (replicate 422 0).
Definition demo_table : list Z := concat (le_bytes 2 <$> [0x0FF8; 0x0FFF; 3; 0x0FFF]) ++ replicate 504 0.
Definition demo_entry : FileEntry := mk_file_entry (chars "KERNEL  ") (chars "ELF") 0x20 0 2 700.
Definition demo_items : list dir_item := [Freed (replicate 31 0); Named [] (replicate 8 0) (replicate 4 0) demo_entry].
Definition demo_root : list Z := dir_bytes demo_items (replicate 31 0) (replicate 416 0).
Definition demo_volume : list Z :=
  demo_boot ++ demo_table ++ demo_root ++ replicate 512 1 ++ replicate 512 2 ++ replicate 1536 0.
Definition demo_fat_disk : list Z := replicate 512 0 ++ demo_volume.
Definition demo_fat_partition : Partition (list Z) :=
  MBRPart (mk_mbr_partition 0x80 [0; 0; 0] 0x01 [0; 0; 0] 1 8) demo_fat_disk.
Definition demo_ext : list Z := replicate 18 0.
Definition demo_fs : FatFs (list Z) :=
  mk_fatfs demo_fat_partition None None demo_bpb 1 (Fat12 (mk_ebpb16 0 (replicate 11 0) (chars "FAT12   "))) 512 1.

Lemma demo_fat_spec : PartitionSpec demo_fat_partition demo_volume.
Proof.
  assert (DiskSpec demo_fat_disk demo_fat_disk) as Hd.
  { apply ram_disk_spec; [exists 9; by vm_compute|by vm_compute]. }
  apply (mbr_image demo_fat_disk demo_fat_disk (DiskSpec0:=Hd)); [done|done|by vm_compute|by vm_compute].
Qed.
Lemma demo_geometry : geometry demo_fs.
Proof. by constructor. Qed.
Lemma demo_in_table : in_table demo_fs 2.
Proof. by vm_compute. Qed.
Lemma demo_chain : chain_from false demo_fs (cluster demo_entry) [3].
Proof. split; [by vm_compute|]. split; [by vm_compute|]. exists 0x0FFF. split; by vm_compute. Qed.
Lemma demo_in_data : Forall (in_data demo_fs demo_volume) [cluster demo_entry; 3].
Proof. repeat constructor; by vm_compute. Qed.


Lemma mounted_table_agrees_witness :
  ∃ fs', fat_mount true demo_fs = (Ok tt, fs') ∧ get_next_cluster true fs' 2 = Ok 3.
Proof.
  destruct (mounted_table_agrees demo_fs demo_volume (PartitionSpec0:=demo_fat_spec) 2) as (fs' & E1 & E2).
  - exact demo_geometry.
  - by vm_compute.
  - apply (bool_decide_unpack _). by vm_compute.
  - exact demo_in_table.
  - exists fs'. split; [exact E1|]. rewrite E2. by vm_compute.
Defined.

Lemma cluster_sector_roundtrip_witness :
  (s ← cluster_to_sector demo_fs 3; sector_to_cluster demo_fs s) = Ok 3.
Proof. apply (cluster_sector_roundtrip demo_fs 3); [exact demo_geometry|lia]. Defined.

Lemma demo_items_wf : Forall item_wf demo_items.
Proof.
  constructor; [done|]. constructor; [|constructor]. split; [constructor|]. split; [done|].
  split; [done|]. split; [done|]. constructor; try done. by eexists _, _.
Qed.


Lemma root_directory_sector_witness :
  ∃ c, fat_root demo_fs = Ok (Dir c, Directory) ∧ cluster_to_sector demo_fs c = Ok 2.
Proof.
  destruct (root_directory_sector demo_fs 0) as (c & E & H & _).
  - exact demo_geometry.
  - done.
  - done.
  - done.
  - by vm_compute.
  - exists c. split; [exact E|]. rewrite H. by vm_compute.
Defined.

Lemma demo_bpb_wf : bpb_wf demo_bpb.
Proof. constructor; by vm_compute. Qed.

