(* ===== verification/FatVfs.v ===== *)
(** The FAT driver behind the VFS: its [FsOps] instance (the trait impls at the
    end of src/src/drivers/fs/fat.rs) keeps the contract of Vfs.v on a volume
    whose directories and chains are well formed, so paths opened and files read
    through the tree give what is on the disk. *)

From S2P Require Import Prelude Uuid Storage Vfs Fat.

Section driver.
Context {D : Type} `{BlockDevice D} (fat_in_mem : bool) (to_uppercase : str → str) (fuel : nat).

(** [impl FsOps for FatFs] and [impl VNodeOperations for File]. *)
Definition fat_driver : FsOps (FatFs D) File := {|
  fs_mount := fat_mount fat_in_mem;
  fs_unmount := fat_unmount;
  fs_root := λ f, (fat_root f, f);
  inode_open := mret tt;
  inode_close := mret tt;
  inode_len := file_len;
  inode_read := λ i count offset f, (file_read fat_in_mem fuel f i count offset, f);
  inode_lookup := λ i nm f, (file_lookup to_uppercase f i nm, f);
|}.
#[local] Existing Instance fat_driver.

(** ** Volumes *)

(** What a volume holds: its root directory's cluster, the entries of each
    directory, and the chain after the first cluster of each file. *)
Record volume := mk_volume {
  vo_root : Z;
  vo_dirs : gmap Z (list dir_item);
  vo_files : gmap Z (list Z);
}.

Context (fs0 : FatFs D) (img : list Z) (vol : volume).

(** The entry points at a directory or a chain of the volume. *)
Definition entry_closed (e : FileEntry) : Prop :=
  if fe_attributes e =? ATTR_DIRECTORY then is_Some (vo_dirs vol !! cluster e)
  else file_size e = 0 ∨ is_Some (vo_files vol !! cluster e).
Definition item_closed (i : dir_item) : Prop :=
  match i with Freed _ => True | Named _ _ _ e => entry_closed e end.

Record volume_wf : Prop := {
  vw_root : fat_root fs0 = Ok (Dir (vo_root vol), Directory) ∧ is_Some (vo_dirs vol !! vo_root vol);
  vw_dirs : ∀ c items, vo_dirs vol !! c = Some items →
    ∃ end_rest rest, read_cluster fs0 c = Ok (dir_bytes items end_rest rest) ∧
      Forall item_wf items ∧ Forall item_closed items ∧ len end_rest = 31;
  vw_files : ∀ c cs, vo_files vol !! c = Some cs →
    chain_from false fs0 c cs ∧ Forall (in_data fs0 img) (c :: cs) ∧ Forall (in_table fs0) (c :: cs) ∧
    (length cs < fuel)%nat;
  vw_geometry : geometry fs0;
  vw_table : SECTOR * (fat_start fs0 + sectors_per_fat fs0 + 1) ≤ len img;
  vw_bytes : Forall is_byte img;
}.

(** ** What the driver's users see *)

Definition file_of (e : FileEntry) : File :=
  if fe_attributes e =? ATTR_DIRECTORY then Dir (cluster e) else Archive e.
Definition file_typ_of (i : File) : VNodeType :=
  match i with
  | Dir c => if bool_decide (is_Some (vo_dirs vol !! c)) then Directory else Bad
  | Archive e =>
      if bool_decide (fits 32 (file_size e) ∧ (file_size e = 0 ∨ is_Some (vo_files vol !! cluster e)))
      then Regular else Bad
  end.
Definition file_entry (i : File) (nm : str) : option File :=
  match i with
  | Dir c =>
      items ← vo_dirs vol !! c;
      match find_spec to_uppercase nm None items with Ok e => Some (file_of e) | _ => None end
  | Archive _ => None
  end.
(** The clusters of a file, one after the other. *)
Definition file_bytes (i : File) : list Z :=
  match i with
  | Archive e =>
      match vo_files vol !! cluster e with
      | Some cs => concat ((λ c, match cluster_bytes fs0 img c with Ok l => l | _ => [] end) <$> (cluster e :: cs))
      | None => []
      end
  | Dir _ => []
  end.
(** Reads that start in the first cluster and end in it, or are more than one. *)
Definition file_serves (_ : File) (count offset : Z) : bool :=
  (offset <? cluster_size fs0) && ((offset + count <=? cluster_size fs0) || (cluster_size fs0 <? count)).
Definition fat_view (f : FatFs D) : FsView File := mk_view (Dir (vo_root vol)) file_typ_of file_entry file_bytes file_serves.

(** The states of the driver: only the table in memory varies. *)
Definition mounted_table : option (list Z) :=
  if fat_in_mem then match load_fat fs0 with Ok t => Some t | _ => None end else None.
Definition fat_ok (mounted : bool) (f : FatFs D) : Prop :=
  ∃ table, f = set_fat table fs0 ∧ (mounted = true → table = mounted_table).

Context `{!PartitionSpec (partition fs0) img} (Hvol : volume_wf).

Lemma find_spec_cases nm stale items : Forall item_closed items → Forall item_wf items →
  find_spec to_uppercase nm stale items = Err ∨
  ∃ e, find_spec to_uppercase nm stale items = Ok e ∧ entry_closed e ∧ entry_wf e.
Proof.
  intros Hc Hw. revert stale. induction items as [|[r|parts times dates e] items IH]; intros stale; [by left| |];
    apply Forall_cons in Hc as [Hc1 Hc]; apply Forall_cons in Hw as [Hw1 Hw]; cbn [find_spec]; [by apply IH|].
  case_match; [|by apply IH]. right. exists e. split; [done|]. split; [done|]. apply Hw1.
Qed.

Lemma file_of_typ e : entry_closed e → entry_wf e →
  file_typ_of (file_of e) = (if fe_attributes e =? ATTR_DIRECTORY then Directory else Regular).
Proof.
  intros Hc Hw. unfold file_of, entry_closed in *. destruct (_ =? _) eqn:C; cbn [file_typ_of].
  - by rewrite bool_decide_true.
  - rewrite bool_decide_true; [done|]. split; [apply (ew_numbers e Hw)|done].
Qed.

Lemma lookup_Ok table c items nm : vo_dirs vol !! c = Some items →
  file_lookup to_uppercase (set_fat table fs0) (Dir c) nm =
    match file_entry (Dir c) nm with Some j => Ok (j, file_typ_of j) | None => Err end.
Proof using Hvol.
  intros Hd. destruct (vw_dirs Hvol c items Hd) as (er & rest & Hr & Hw & Hc & He).
  unfold file_lookup. rewrite (find_entry_Ok to_uppercase (set_fat table fs0) c nm items er rest Hr Hw He).
  cbn [file_entry]. rewrite Hd. cbn [option_bind mbind].
  destruct (find_spec_cases nm None items Hc Hw) as [-> |(e & -> & Hec & Hew)]; [done|].
  cbn [mbind outcome_bind mret outcome_ret]. rewrite file_of_typ by done. unfold file_of. by destruct (_ =? _).
Qed.

Lemma mount_Ok table : ∃ f', fat_mount fat_in_mem (set_fat table fs0) = (Ok tt, f') ∧ f' = set_fat mounted_table fs0.
Proof using Hvol PartitionSpec0.
  destruct (load_fat_spec fs0 (vw_geometry Hvol) img (vw_table Hvol)) as (t & Hl & _).
  unfold mounted_table, fat_mount. eexists. split; [|reflexivity]. destruct fat_in_mem; prun; [|done].
  assert (load_fat (set_fat table fs0) = Ok t) as -> by done. by rewrite Hl.
Qed.

(** Mounted, the driver follows the chains that are on the disk. *)
Lemma mounted_chain c cs : chain_from false fs0 c cs → Forall (in_table fs0) (c :: cs) →
  chain_from fat_in_mem (set_fat mounted_table fs0) c cs.
Proof using Hvol PartitionSpec0.
  assert (∀ c, in_table fs0 c →
    get_next_cluster fat_in_mem (set_fat mounted_table fs0) c = get_next_cluster false fs0 c) as Hnext.
  { unfold mounted_table. destruct fat_in_mem; [|done].
    destruct (mounted_next fs0 img (vw_geometry Hvol) (vw_table Hvol) (vw_bytes Hvol)) as (t & -> & Hn).
    exact Hn. }
  revert c. induction cs as [|c' cs IH]; intros c Hch [Hc Hcs]%Forall_cons; cbn [chain_from] in *.
  - by rewrite Hnext.
  - rewrite Hnext by done. destruct Hch as (? & ? & ?). split; [done|]. split; [done|]. by apply IH.
Qed.

Lemma read_Ok e count offset : file_typ_of (Archive e) = Regular → file_size e ≠ 0 → 0 ≤ count < 2^63 → 0 ≤ offset →
  file_serves (Archive e) count offset = true →
  file_read fat_in_mem fuel (set_fat mounted_table fs0) (Archive e) count offset =
    Ok (take (Z.to_nat count) (drop (Z.to_nat offset) (file_bytes (Archive e)))).
Proof using Hvol PartitionSpec0.
  cbn [file_typ_of]. case_bool_decide as Hb; [|done]. intros _ Hs Hc Ho Hserves.
  destruct Hb as [_ [|[cs Hcs]]]; [done|]. cbn [file_bytes]. rewrite Hcs.
  destruct (vw_files Hvol _ _ Hcs) as (Hch & Hin & Htab & Hf).
  destruct (in_data_reads fs0 img _ (vw_geometry Hvol) Hin) as (ds & Hb & Hr).
  apply andb_true_iff in Hserves as [Ho2%Z.ltb_lt Hfit].
  rewrite (file_read_first fat_in_mem _ fuel e cs ds count offset).
  - do 4 f_equal. clear -Hb. induction Hb as [|c d l k E _ IH]; [done|]. rewrite fmap_cons, E. f_equal. exact IH.
  - by destruct (vw_geometry Hvol).
  - by apply mounted_chain.
  - exact Hr.
  - exact Hf.
  - exact Hc.
  - by split.
  - apply orb_true_iff in Hfit as [?%Z.leb_le|?%Z.ltb_lt]; [by left|by right].
Qed.

Lemma fat_keeps_contract : FsSpec (FatFs D) File fat_ok fat_view.
Proof using Hvol PartitionSpec0.
  destruct (vw_root Hvol) as [Hroot [items0 Hitems0]]. constructor.
  - intros m f _. cbn. by rewrite Hitems0.
  - intros m f i nm j _ Hi Hj. cbn in Hi, Hj. destruct i as [e|c]; [done|]. cbn [file_entry] in Hj.
    destruct (vo_dirs vol !! c) as [items|] eqn:Hd; [|done]. cbn [option_bind mbind] in Hj.
    destruct (vw_dirs Hvol c items Hd) as (er & rest & _ & Hw & Hc & _).
    destruct (find_spec_cases nm None items Hc Hw) as [E|(e & E & Hec & Hew)]; rewrite E in Hj; [done|].
    injection Hj as <-. cbn. rewrite file_of_typ by done. case_match; auto.
  - intros m f (table & -> & _). destruct (mount_Ok table) as (f' & E & ->). eexists. split; [exact E|].
    split; [|done]. by eexists.
  - intros m f (table & -> & Ht). eexists. split; [|split; [by exists table|done]]. cbn. by rewrite <- Hroot.
  - intros f i nm (table & -> & Ht) Hi. eexists. split; [|split; [by exists table|done]]. cbn in *.
    destruct i as [e|c]; cbn [file_typ_of] in Hi; [by case_match|].
    case_bool_decide as Hd; [|done]. destruct Hd as [items Hd]. by rewrite (lookup_Ok table c items nm Hd).
  - intros f i nm (table & -> & Ht) Hi. cbn in *. destruct i as [e|c]; [done|].
    cbn [file_typ_of] in Hi. by case_match.
  - done.
  - intros f i n count (table & -> & Ht) Hi Hn Hpos Hc. change (file_serves i count 0 = true). unfold file_serves.
    destruct (cluster_size_bounds fs0 (vw_geometry Hvol)). lia.
  - intros f i n count offset (table & -> & Ht) Hi Hn Hpos Hc Ho Hb Hserves. rewrite (Ht eq_refl) in *.
    eexists. split; [|split; [by exists mounted_table|done]]. cbn in *. destruct i as [e|c]; [|done].
    injection Hn as <-. cbn [v_data fat_view]. rewrite read_Ok; [done|done|lia| |done|done].
    cbn [file_typ_of] in Hi. case_bool_decide as Hb'; [|done]. destruct Hb' as [Hb' _]. unfold fits in Hb'. lia.
Qed.

(** The FAT driver keeps the contract of the VFS on every well-formed volume:
    it mounts, answers lookups from the directories on the disk, and reads from
    the start of a file return the bytes of its clusters. *)
Lemma fat_contract : FsSpec (FatFs D) File fat_ok fat_view.
Proof using Hvol PartitionSpec0. exact fat_keeps_contract. Qed.

End driver.

(** ** The concrete volume *)

Definition demo_vol : volume := mk_volume 1 {[ 1 := demo_items ]} {[ 2 := [3] ]}.

Lemma demo_vol_wf : volume_wf 4 demo_fs demo_volume demo_vol.
Proof.
  constructor.
  - split; [by vm_compute|by eexists].
  - intros c items Hc. cbn in Hc. apply lookup_singleton_Some in Hc as [<- <-]. exists (replicate 31 0), (replicate 416 0).
    split; [by vm_compute|]. split; [exact demo_items_wf|]. split; [|done].
    constructor; [done|]. constructor; [|constructor]. right. by eexists.
  - intros c cs Hc. cbn in Hc. apply lookup_singleton_Some in Hc as [<- <-]. split; [exact demo_chain|]. split; [exact demo_in_data|].
    split; [|cbn; lia]. constructor; [exact demo_in_table|]. constructor; [by vm_compute|constructor].
  - exact demo_geometry.
  - by vm_compute.
  - apply (bool_decide_unpack _). by vm_compute.
Qed.

Lemma fat_contract_witness : ∃ f', @fs_mount _ _ (fat_driver true (λ s, s) 4) demo_fs = (Ok tt, f').
Proof.
  destruct (fat_contract true (λ s, s) 4 demo_fs demo_volume demo_vol (PartitionSpec0:=demo_fat_spec) demo_vol_wf)
    as [_ _ H _ _ _ _].
  destruct (H false demo_fs) as (f' & E & _); [by exists None|]. exists f'. exact E.
Defined.

