(* ===== verification/Squashfs.v ===== *)
(** src/src/drivers/fs/initramfs/: the squashfs driver of the initramfs.

    The archive lies in memory at [start].  Its inode and directory tables are
    lists of metadata blocks ([Chunk], chunk_reader.rs), unpacked in place the
    first time they are read, so a lookup changes the file system's state; file
    contents are read through raw pointers.  The methods are those of [FsOps]. *)

From S2P Require Import Prelude Mem Gzip Vfs.

(** * Superblock (superblock.rs) *)

Inductive SquashfsCompressionType := CGzip | CLzma | CLzo | CXz | CLz4 | CZstd.
#[export] Instance SquashfsCompressionType_eq_dec : EqDecision SquashfsCompressionType.
Proof. solve_decision. Defined.

Definition compression_from (value : Z) : outcome SquashfsCompressionType :=
  if value =? 1 then Ok CGzip else if value =? 2 then Ok CLzma else if value =? 3 then Ok CLzo
  else if value =? 4 then Ok CXz else if value =? 5 then Ok CLz4 else if value =? 6 then Ok CZstd
  else Panic.

(** [SquashfsFlags], as the bits they are. *)
Definition UncompressedInodes : Z := 0x0001.
Definition UncompressedDataBlocks : Z := 0x0002.
Definition ReservedFlag : Z := 0x0004.
Definition UncompressedFragments : Z := 0x0008.
Definition UnusedFragments : Z := 0x0010.
Definition FragmentsAlwaysPresent : Z := 0x0020.
Definition DeduplicatedData : Z := 0x0040.
Definition PresentNFSTable : Z := 0x0080.
Definition UncompressedXattrs : Z := 0x0100.
Definition NoXattrs : Z := 0x0200.
Definition PresentCompressorOptions : Z := 0x0400.
Definition UncompressedIDTable : Z := 0x0800.

Record SquashfsFeatures := mk_features {
  uncompressed_inodes : bool;
  uncompressed_data_blocks : bool;
  features_reserved : bool;
  uncompressed_fragments : bool;
  unused_fragments : bool;
  fragments_always_present : bool;
  deduplicated_data : bool;
  nfs_table_present : bool;
  uncompressed_xattrs : bool;
  no_xattrs : bool;
  compressor_options_present : bool;
  uncompressed_id_table : bool;
}.

Record SquashfsSuperblock := mk_superblock {
  magic : Z;
  inode_count : Z;
  mod_time : Z;
  block_size : Z;
  frag_count : Z;
  compressor : SquashfsCompressionType;
  block_log : Z;
  sb_flags : Z;
  id_count : Z;
  ver_major : Z;
  ver_minor : Z;
  root_inode : Z;
  bytes_used : Z;
  id_table : Z;
  xattr_table : Z;
  inode_table : Z;
  dir_table : Z;
  frag_table : Z;
  export_table : Z;
}.

Definition SUPERBLOCK_SIZE : Z := 96.

Definition SquashfsSuperblock_new (bytes : list Z) : outcome SquashfsSuperblock :=
  magic_ ← read_le bytes 0 4;
  inode_count_ ← read_le bytes 4 8;
  mod_time_ ← read_le bytes 8 12;
  block_size_ ← read_le bytes 12 16;
  frag_count_ ← read_le bytes 16 20;
  compressor_ ← read_le bytes 20 22;
  compressor_ ← compression_from compressor_;
  block_log_ ← read_le bytes 22 24;
  flags_ ← read_le bytes 24 26;
  id_count_ ← read_le bytes 26 28;
  ver_major_ ← read_le bytes 28 30;
  ver_minor_ ← read_le bytes 30 32;
  root_inode_ ← read_le bytes 32 40;
  bytes_used_ ← read_le bytes 40 48;
  id_table_ ← read_le bytes 48 56;
  xattr_table_ ← read_le bytes 56 64;
  inode_table_ ← read_le bytes 64 72;
  dir_table_ ← read_le bytes 72 80;
  frag_table_ ← read_le bytes 80 88;
  export_table_ ← read_le bytes 88 96;
  reject_if (negb (magic_ =? 0x73717368)) ;;
  reject_if (negb (ver_major_ =? 4) || negb (ver_minor_ =? 0)) ;;
  reject_if (1048576 <? block_size_) ;;
  reject_if (20 <? block_log_) ;;
  reject_if (negb (block_size_ =? u32 (Z.shiftl 1 block_log_))) ;;
  reject_if (block_size_ =? 0) ;;
  reject_if (negb (Z.land (block_size_ - 1) block_size_ =? 0)) ;;
  mret (mk_superblock magic_ inode_count_ mod_time_ block_size_ frag_count_ compressor_ block_log_ flags_
    id_count_ ver_major_ ver_minor_ root_inode_ bytes_used_ id_table_ xattr_table_ inode_table_ dir_table_
    frag_table_ export_table_).

Definition features (sb : SquashfsSuperblock) : SquashfsFeatures :=
  let has flag := negb (Z.land (sb_flags sb) flag =? 0) in
  mk_features (has UncompressedInodes) (has UncompressedDataBlocks) (has ReservedFlag)
    (has UncompressedFragments) (has UnusedFragments) (has FragmentsAlwaysPresent) (has DeduplicatedData)
    (has PresentNFSTable) (has UncompressedXattrs) (has NoXattrs) (has PresentCompressorOptions)
    (has UncompressedIDTable).

(** * Metadata blocks (chunk_reader.rs) *)

Definition HEADER_SIZE : Z := 2.

(** A block with its two header bytes. *)
Definition Chunk : Type := list Z.

Definition chunk_header (c : Chunk) : outcome Z := read_le c 0 HEADER_SIZE.
Definition chunk_len (c : Chunk) : outcome Z := h ← chunk_header c; mret (Z.land h 0x7FFF).
Definition chunk_is_compressed (c : Chunk) : outcome bool := h ← chunk_header c; mret (Z.land h 0x8000 =? 0).

Section chunks.
Context (decompressor : list Z → outcome (list Z)).

(** [unwrap]ping the decompressor's answer. *)
Definition unwrap_err {A} (o : outcome A) : outcome A := match o with Err => Panic | _ => o end.

Definition chunk_decompress (c : Chunk) : outcome Chunk :=
  compressed ← chunk_is_compressed c;
  if compressed : bool then
    packed ← slice_from c HEADER_SIZE;
    decompressed_data ← unwrap_err (decompressor packed);
    let header := Z.lor (u16 (len decompressed_data)) 0x8000 in
    mret (le_bytes 2 header ++ decompressed_data)
  else mret c.

(** [ChunkReader::new]; every turn consumes a header. *)
Fixpoint chunks_loop (fuel : nat) (data : list Z) (offset : Z) (chunks : list Chunk) : outcome (list Chunk) :=
  match fuel with
  | O => NoFuel
  | S fuel' =>
      if offset =? len data then mret chunks else
      h ← read_le data offset (offset + HEADER_SIZE);
      let length := Z.land h 0x7FFF + HEADER_SIZE in
      c ← slice data offset (offset + length);
      chunks_loop fuel' data (offset + length) (chunks ++ [c])
  end.
Definition ChunkReader_new (data : list Z) : outcome (list Chunk) :=
  chunks_loop (S (length data)) data 0 [].

(** [self.chunks[i].decompress(&self.decompressor)] *)
Definition decompress_at (i : Z) : prog (list Chunk) unit :=
  chunks ← get;
  c ← lift (index chunks i);
  c ← lift (chunk_decompress c);
  chunks ← lift (store chunks i c);
  put chunks.
Definition chunk_at (i : Z) : prog (list Chunk) Chunk := chunks ← get; lift (index chunks i).

(** The search for the block that starts at byte [chunk] of the table; it takes every
    block to be as long as the first. *)
Fixpoint find_chunk (fuel : nat) (chunk chunk_idx total_length : Z) : prog (list Chunk) Z :=
  if total_length =? chunk then mret chunk_idx else
  match fuel with
  | O => lift NoFuel
  | S fuel' =>
      c ← chunk_at 0;
      l ← lift (chunk_len c);
      find_chunk fuel' chunk (u64 (chunk_idx + 1)) (u64 (total_length + (l + HEADER_SIZE)))
  end.

Fixpoint available_loop (fuel : nat) (chunk chunks_to_read available_bytes size : Z) : prog (list Chunk) Z :=
  if available_bytes <? size then
    match fuel with
    | O => lift NoFuel
    | S fuel' =>
        decompress_at (chunk + chunks_to_read) ;;
        c ← chunk_at (chunk + chunks_to_read);
        l ← lift (chunk_len c);
        available_loop fuel' chunk (chunks_to_read + 1) (available_bytes + l) size
    end
  else mret chunks_to_read.

Fixpoint collect_chunks (idxs : list Z) (offset size : Z) (data : list Z) : prog (list Chunk) (list Z) :=
  match idxs with
  | [] => mret data
  | i :: idxs' =>
      decompress_at i ;;
      c ← chunk_at i;
      l ← lift (chunk_len c);
      let block_start := offset + HEADER_SIZE in
      let block_end := l + HEADER_SIZE in
      let block_end := if size <? u64 (block_end - block_start) then block_start + size else block_end in
      part ← lift (slice c block_start block_end);
      collect_chunks idxs' 0 size (data ++ part)
  end.

(** [get_slice]; the second loop indexes past the table before its fuel ends. *)
Definition get_slice (fuel : nat) (chunk offset size : Z) : prog (list Chunk) (list Z) :=
  chunk ← find_chunk fuel chunk 0 0;
  decompress_at chunk ;;
  c ← chunk_at chunk;
  rest ← lift (slice_from c offset);
  chunks ← get;
  chunks_to_read ← available_loop (S (length chunks)) chunk 1 (len rest) size;
  collect_chunks (seqZ chunk chunks_to_read) offset size [].
End chunks.

(** * Inodes and directory entries *)

Inductive InodeFileType :=
  BasicDirectoryType | BasicFileType | BasicSymlink | BasicBlockDevice | BasicCharDevice | BasicPipe
| BasicSocked | ExtendedDirectoryType | ExtendedFile | ExtendedSymlink | ExtendedBlockDevice
| ExtendedPipe | ExtendedSocked.
#[export] Instance InodeFileType_eq_dec : EqDecision InodeFileType.
Proof. solve_decision. Defined.

Definition file_type_from (value : Z) : outcome InodeFileType :=
  if value <=? 0 then Panic else
  of_option Panic
    ([BasicDirectoryType; BasicFileType; BasicSymlink; BasicBlockDevice; BasicCharDevice; BasicPipe; BasicSocked;
      ExtendedDirectoryType; ExtendedFile; ExtendedSymlink; ExtendedBlockDevice; ExtendedPipe; ExtendedSocked]
     !! Z.to_nat (value - 1)).

Record InodeHeader := mk_inode_header { file_type : InodeFileType; mtime : Z; inode_num : Z }.

Record BasicDirectoryInode := mk_basic_dir {
  bd_header : InodeHeader; bd_block_index : Z; bd_link_count : Z; bd_file_size : Z; bd_block_offset : Z; bd_parent_inode : Z }.
Record ExtendedDirectoryInode := mk_extended_dir {
  ed_header : InodeHeader; ed_link_count : Z; ed_file_size : Z; ed_block_index : Z; ed_parent_inode : Z;
  ed_index_count : Z; ed_block_offset : Z; ed_xattr_index : Z }.
Record BasicFileInode := mk_basic_file {
  bf_header : InodeHeader; block_start : Z; frag_idx : Z; bf_block_offset : Z; bf_file_size : Z }.

Inductive Inode :=
  | BasicFile (file : BasicFileInode)
  | BasicDirectory (dir : BasicDirectoryInode)
  | ExtendedDirectory (dir : ExtendedDirectoryInode).

(** The [repr(C)] sizes. *)
Definition BASIC_DIRECTORY_SIZE : Z := 32.
Definition EXTENDED_DIRECTORY_SIZE : Z := 40.
Definition BASIC_FILE_SIZE : Z := 32.
Definition DIRECTORY_HEADER_SIZE : Z := 12.

Definition InodeHeader_from_bytes (bytes : list Z) : outcome InodeHeader :=
  t ← read_le bytes 0 2;
  t ← file_type_from t;
  m ← read_le bytes 8 12;
  n ← read_le bytes 12 16;
  mret (mk_inode_header t m n).

Definition BasicDirectoryInode_from_bytes (bytes : list Z) : outcome BasicDirectoryInode :=
  header ← InodeHeader_from_bytes bytes;
  block_index ← read_le bytes 16 20;
  link_count ← read_le bytes 20 24;
  file_size ← read_le bytes 24 26;
  block_offset ← read_le bytes 26 28;
  parent_inode ← read_le bytes 28 32;
  mret (mk_basic_dir header block_index link_count file_size block_offset parent_inode).

Definition ExtendedDirectoryInode_from_bytes (bytes : list Z) : outcome ExtendedDirectoryInode :=
  header ← InodeHeader_from_bytes bytes;
  link_count ← read_le bytes 16 20;
  file_size ← read_le bytes 20 24;
  block_index ← read_le bytes 24 28;
  parent_inode ← read_le bytes 28 32;
  index_count ← read_le bytes 32 34;
  block_offset ← read_le bytes 34 36;
  xattr_index ← read_le bytes 36 40;
  mret (mk_extended_dir header link_count file_size block_index parent_inode index_count block_offset xattr_index).

Definition BasicFileInode_from_bytes (bytes : list Z) : outcome BasicFileInode :=
  header ← InodeHeader_from_bytes bytes;
  start ← read_le bytes 16 20;
  frag ← read_le bytes 20 24;
  block_offset ← read_le bytes 24 28;
  file_size ← read_le bytes 28 32;
  mret (mk_basic_file header start frag block_offset file_size).

Definition Inode_from (value : list Z) : outcome Inode :=
  t ← read_le value 0 2;
  t ← file_type_from t;
  match t with
  | BasicDirectoryType => BasicDirectory <$> BasicDirectoryInode_from_bytes value
  | ExtendedDirectoryType => ExtendedDirectory <$> ExtendedDirectoryInode_from_bytes value
  | BasicFileType => BasicFile <$> BasicFileInode_from_bytes value
  | _ => Panic
  end.

Record DirectoryTableHeader := mk_dir_header { entry_count : Z; dh_start : Z; dh_inode_num : Z }.
Definition DirectoryTableHeader_from (value : list Z) : outcome DirectoryTableHeader :=
  c ← read_le value 0 4;
  s ← read_le value 4 8;
  n ← read_le value 8 12;
  mret (mk_dir_header (u32 (c + 1)) s n).

(** [inode_offset] as the 16 bits it is. *)
Record DirectoryTableEntry := mk_dir_entry {
  de_offset : Z; de_inode_offset : Z; de_inode_type : InodeFileType; de_name_size : Z; de_name : str }.
Definition DirectoryTableEntry_from_bytes (bytes : list Z) : outcome DirectoryTableEntry :=
  offset ← read_le bytes 0 2;
  inode_offset ← read_le bytes 2 4;
  t ← read_le bytes 4 6;
  t ← file_type_from t;
  name_size ← read_le bytes 6 8;
  name ← slice bytes 8 (name_size + 1 + 8);
  name ← of_option Panic (from_utf8 name);
  mret (mk_dir_entry offset inode_offset t name_size name).

(** * The file system (mod.rs) *)

Inductive Table := TInode | TDir | TFrag | TExport | TID | TXattr.

(** [decompressor] is [uncompress_data]. *)
Record Squashfs := mk_squashfs {
  superblock : SquashfsSuperblock;
  start : Z;
  data_table : list Z;
  inode_chunks : list Chunk;
  directory_chunks : list Chunk;
  fragment_table : option (list Z);
  export_data : option (list Z);
  id_data : list Z;
  xattr_data : option (list Z);
}.
Definition set_inode_chunks (c : list Chunk) (f : Squashfs) : Squashfs :=
  mk_squashfs (superblock f) (start f) (data_table f) c (directory_chunks f) (fragment_table f) (export_data f)
    (id_data f) (xattr_data f).
Definition set_directory_chunks (c : list Chunk) (f : Squashfs) : Squashfs :=
  mk_squashfs (superblock f) (start f) (data_table f) (inode_chunks f) c (fragment_table f) (export_data f)
    (id_data f) (xattr_data f).

(** The local variables of [Squashfs::new]; the readers start uninitialised. *)
Record loaded := mk_loaded {
  l_inode : option (list Chunk); l_dir : option (list Chunk); l_frag : option (list Z);
  l_export : option (list Z); l_id : list Z; l_xattr : option (list Z) }.

Definition load_table (table : Table) (whole_table : list Z) (l : loaded) : outcome loaded :=
  match table with
  | TInode =>
      c ← ChunkReader_new whole_table;
      mret (mk_loaded (Some c) (l_dir l) (l_frag l) (l_export l) (l_id l) (l_xattr l))
  | TDir =>
      c ← ChunkReader_new whole_table;
      mret (mk_loaded (l_inode l) (Some c) (l_frag l) (l_export l) (l_id l) (l_xattr l))
  | TFrag => mret (mk_loaded (l_inode l) (l_dir l) (Some whole_table) (l_export l) (l_id l) (l_xattr l))
  | TExport => mret (mk_loaded (l_inode l) (l_dir l) (l_frag l) (Some whole_table) (l_id l) (l_xattr l))
  | TID => mret (mk_loaded (l_inode l) (l_dir l) (l_frag l) (l_export l) whole_table (l_xattr l))
  | TXattr => mret (mk_loaded (l_inode l) (l_dir l) (l_frag l) (l_export l) (l_id l) (Some whole_table))
  end.

(** A table reaches to the next one, the last to the end. *)
Fixpoint load_tables (squashfs_data : list Z) (tables : list (Table * Z)) (l : loaded) : outcome loaded :=
  match tables with
  | [] => mret l
  | (table, offset) :: rest =>
      whole_table ←
        match rest with
        | [] => slice_from squashfs_data offset
        | (_, next) :: _ => slice squashfs_data offset next
        end;
      l ← load_table table whole_table l;
      load_tables squashfs_data rest l
  end.

Definition tables_of (sb : SquashfsSuperblock) : list (Table * Z) :=
  [(TInode, inode_table sb); (TDir, dir_table sb)] ++
  (if negb (frag_table sb =? u64_max) then [(TFrag, frag_table sb)] else []) ++
  (if negb (export_table sb =? u64_max) then [(TExport, export_table sb)] else []) ++
  [(TID, id_table sb)] ++
  (if negb (xattr_table sb =? u64_max) then [(TXattr, xattr_table sb)] else []).

Section squashfs.
(** The bytes at each address, and the turns the searches may take. *)
Context (ram : Z → Z) (fuel : nat).

Definition Squashfs_new (ptr : Z) : outcome Squashfs :=
  let length := read_mem ram (ptr + 40) 8 in
  let squashfs_data := read_bytes ram ptr (Z.to_nat length) in
  sb ← SquashfsSuperblock_new squashfs_data;
  rassert (bool_decide (compressor sb = CGzip)) ;;
  data ← slice squashfs_data SUPERBLOCK_SIZE (inode_table sb);
  l ← load_tables squashfs_data (tables_of sb) (mk_loaded None None None None [] None);
  inodes ← of_option Undef (l_inode l);
  dirs ← of_option Undef (l_dir l);
  mret (mk_squashfs sb ptr data inodes dirs (l_frag l) (l_export l) (l_id l) (l_xattr l)).

(** [init]: [module] is the address of "initramfs.img", if the boot loader has it. *)
Definition initramfs_init (module : option Z) : outcome Squashfs :=
  ptr ← of_option Panic module;
  unwrap_err (Squashfs_new ptr).

Definition get_inode_block_offset (inode : Z) : Z * Z :=
  (Z.land (Z.shiftr inode 16) 0x0000FFFFFFFFFFFF, Z.land inode 0xFFFF).

(** [get_slice] on one of the two tables. *)
Definition on_inodes {A} (m : prog (list Chunk) A) : prog Squashfs A := λ f,
  let '(r, c) := m (inode_chunks f) in (r, set_inode_chunks c f).
Definition on_directories {A} (m : prog (list Chunk) A) : prog Squashfs A := λ f,
  let '(r, c) := m (directory_chunks f) in (r, set_directory_chunks c f).
Definition inode_slice (block offset size : Z) : prog Squashfs (list Z) :=
  on_inodes (get_slice uncompress_data fuel block offset size).
Definition directory_slice (block offset size : Z) : prog Squashfs (list Z) :=
  on_directories (get_slice uncompress_data fuel block offset size).

(** [u16::from_le_bytes(bytes.try_into().unwrap())] *)
Definition u16_of (bytes : list Z) : outcome Z := rassert (len bytes =? 2) ;; mret (le_value bytes).

Definition read_inode (inode : Z) : prog Squashfs Inode :=
  let '(inode_block, inode_offset) := get_inode_block_offset inode in
  b ← inode_slice inode_block inode_offset 2;
  t ← lift (u16_of b);
  t ← lift (file_type_from t);
  inode_size ← lift
    match t with
    | BasicDirectoryType => Ok BASIC_DIRECTORY_SIZE
    | ExtendedDirectoryType => Ok EXTENDED_DIRECTORY_SIZE
    | BasicFileType => Ok BASIC_FILE_SIZE
    | _ => Panic
    end;
  inode_bytes ← inode_slice inode_block inode_offset inode_size;
  lift (Inode_from inode_bytes).

Definition read_root_dir : prog Squashfs Inode := sb ← gets superblock; read_inode (root_inode sb).

Fixpoint find_entry_loop (turns : nat) (directory_block directory_offset dir_size : Z) (name : str)
    (header : DirectoryTableHeader) (i offset : Z) : prog Squashfs Inode :=
  match turns with
  | O => lift NoFuel
  | S turns' =>
      if (i =? entry_count header) && negb (offset =? dir_size) then
        bytes ← directory_slice directory_block (u16 (directory_offset + u16 offset)) DIRECTORY_HEADER_SIZE;
        header ← lift (DirectoryTableHeader_from bytes);
        find_entry_loop turns' directory_block directory_offset dir_size name header 0 (offset + DIRECTORY_HEADER_SIZE)
      else if dir_size <=? offset then err
      else
        b ← directory_slice directory_block (u16 (directory_offset + u16 (u16 offset + 6))) 2;
        n ← lift (u16_of b);
        let name_size := n + 1 in
        b ← directory_slice directory_block (u16 (directory_offset + u16 offset)) (8 + name_size);
        entry ← lift (DirectoryTableEntry_from_bytes b);
        let offset := offset + (8 + name_size) in
        if bool_decide (de_name entry = name) then
          read_inode (Z.lor (Z.shiftl (dh_start header) 16) (de_offset entry))
        else find_entry_loop turns' directory_block directory_offset dir_size name header (u32 (i + 1)) offset
  end.

Definition find_entry_in_directory (dir : Inode) (name : str) : prog Squashfs Inode :=
  p ← lift
    match dir with
    | BasicDirectory d => Ok (Z.lor (Z.shiftl (bd_block_index d) 16) (bd_block_offset d), bd_file_size d)
    | ExtendedDirectory d => Ok (Z.lor (Z.shiftl (ed_block_index d) 16) (ed_block_offset d), ed_file_size d)
    | BasicFile _ => Err
    end;
  let '(dir_inode, dir_size) := (p : Z * Z) in
  if dir_size =? 0 then err else
  let '(directory_block, directory_offset) := get_inode_block_offset dir_inode in
  bytes ← directory_slice directory_block directory_offset DIRECTORY_HEADER_SIZE;
  header ← lift (DirectoryTableHeader_from bytes);
  find_entry_loop fuel directory_block directory_offset dir_size name header 0 DIRECTORY_HEADER_SIZE.

(** Data that does not unpack is taken as it is. *)
Definition get_decompressed_table (f : Squashfs) (table : list Z) (is_metadata : bool)
    (is_compressed : option bool) : outcome (list Z) :=
  header ← read_le table 0 2;
  table_is_compressed ←
    (if negb is_metadata then of_option Panic is_compressed else Ok (Z.land header 0x8000 =? 0));
  bytes ← (if is_metadata then slice_from table 2 else Ok table);
  if table_is_compressed : bool then
    match compressor (superblock f) with
    | CGzip => match uncompress_data bytes with Err => Ok bytes | o => o end
    | _ => Ok []
    end
  else Ok bytes.

(** The bytes [read] cuts a file's contents from. *)
Definition file_block (f : Squashfs) (file : BasicFileInode) : outcome (list Z) :=
  let feats := features (superblock f) in
  if frag_idx file =? u32_max then
    get_decompressed_table f (data_table f) false (Some (negb (uncompressed_data_blocks feats)))
  else
    ft ← of_option Panic (fragment_table f);
    ft ← get_decompressed_table f ft false (Some (negb (uncompressed_fragments feats)));
    p ← read_le ft (frag_idx file) (u32 (frag_idx file + 8));
    let fragment_pointer := u64 (start f + p) in
    let fragment_block_size := Z.land (read_mem ram fragment_pointer 2) 0x7FFF + 2 in
    let fragment_block_raw := read_bytes ram fragment_pointer (Z.to_nat fragment_block_size) in
    fragment_block ← get_decompressed_table f fragment_block_raw true None;
    fragment_start ← read_le fragment_block 0 8;
    fragment_size ← read_le fragment_block 8 12;
    let fragment_compressed := Z.land fragment_size (Z.shiftl 1 24) =? 0 in
    let fragment_size := Z.land fragment_size 0xFEFFFFFF in
    let data_table_raw := read_bytes ram (u64 (start f + fragment_start)) (Z.to_nat fragment_size) in
    get_decompressed_table f data_table_raw false (Some fragment_compressed).

Definition squash_read (f : Squashfs) (i : Inode) (count offset : Z) : outcome (list Z) :=
  match i with
  | BasicFile file =>
      rassert (count <? 2^63) ;;
      data ← file_block f file;
      let block_offset := u64 (bf_block_offset file + offset) in
      slice data block_offset (u64 (block_offset + count))
  | _ => Panic
  end.

Definition inode_typ (i : Inode) : VNodeType := match i with BasicFile _ => Regular | _ => Directory end.

Definition squash_lookup (i : Inode) (nm : str) : prog Squashfs (Inode * VNodeType) :=
  match i with
  | BasicFile _ => panic
  | _ => j ← find_entry_in_directory i nm; mret (j, inode_typ j)
  end.

Definition squash_len (i : Inode) : outcome Z :=
  match i with BasicFile file => Ok (bf_file_size file) | _ => Panic end.

(** [impl FsOps for Squashfs] and [impl VNodeOperations for Inode]. *)
Definition squash_driver : FsOps Squashfs Inode := {|
  fs_mount := mret tt;
  fs_unmount := mret tt;
  fs_root := (i ← read_root_dir; mret (i, Directory));
  inode_open := mret tt;
  inode_close := mret tt;
  inode_len := squash_len;
  inode_read := λ i count offset f, (squash_read f i count offset, f);
  inode_lookup := squash_lookup;
|}.
End squashfs.

(** * The superblock's layout *)

Definition compression_code (c : SquashfsCompressionType) : Z :=
  match c with CGzip => 1 | CLzma => 2 | CLzo => 3 | CXz => 4 | CLz4 => 5 | CZstd => 6 end.

Definition superblock_bytes (sb : SquashfsSuperblock) : list Z :=
  le_bytes 4 (magic sb) ++ le_bytes 4 (inode_count sb) ++ le_bytes 4 (mod_time sb) ++ le_bytes 4 (block_size sb) ++
  le_bytes 4 (frag_count sb) ++ le_bytes 2 (compression_code (compressor sb)) ++ le_bytes 2 (block_log sb) ++
  le_bytes 2 (sb_flags sb) ++ le_bytes 2 (id_count sb) ++ le_bytes 2 (ver_major sb) ++ le_bytes 2 (ver_minor sb) ++
  le_bytes 8 (root_inode sb) ++ le_bytes 8 (bytes_used sb) ++ le_bytes 8 (id_table sb) ++ le_bytes 8 (xattr_table sb) ++
  le_bytes 8 (inode_table sb) ++ le_bytes 8 (dir_table sb) ++ le_bytes 8 (frag_table sb) ++ le_bytes 8 (export_table sb).

Record superblock_fits (sb : SquashfsSuperblock) : Prop := {
  sf_magic : fits 32 (magic sb); sf_inode_count : fits 32 (inode_count sb); sf_mod_time : fits 32 (mod_time sb);
  sf_block_size : fits 32 (block_size sb); sf_frag_count : fits 32 (frag_count sb); sf_block_log : fits 16 (block_log sb);
  sf_flags : fits 16 (sb_flags sb); sf_id_count : fits 16 (id_count sb); sf_major : fits 16 (ver_major sb);
  sf_minor : fits 16 (ver_minor sb); sf_root : fits 64 (root_inode sb); sf_used : fits 64 (bytes_used sb);
  sf_id : fits 64 (id_table sb); sf_xattr : fits 64 (xattr_table sb); sf_inodes : fits 64 (inode_table sb);
  sf_dirs : fits 64 (dir_table sb); sf_frags : fits 64 (frag_table sb); sf_export : fits 64 (export_table sb);
}.

(** What the format says of the fields the driver checks. *)
Definition superblock_valid (sb : SquashfsSuperblock) : bool :=
  bool_decide (magic sb = 0x73717368 ∧ ver_major sb = 4 ∧ ver_minor sb = 0 ∧
    0 ≤ block_log sb ≤ 20 ∧ block_size sb = 2^block_log sb).

Lemma compression_from_code c : compression_from (compression_code c) = Ok c.
Proof. by destruct c. Qed.

Lemma power_of_two_land k : 0 ≤ k → Z.land (2^k - 1) (2^k) = 0.
Proof.
  intros Hk. rewrite Z.land_comm. rewrite land_ones_mod by done. apply Z.mod_same. lia.
Qed.

(** Parsing does not get past the last field when it is not there. *)
Lemma superblock_short bytes : len bytes < SUPERBLOCK_SIZE → SquashfsSuperblock_new bytes = Panic.
Proof.
  intros Hl. unfold SquashfsSuperblock_new, SUPERBLOCK_SIZE in *.
  assert (∀ a b, (∃ v, read_le bytes a b = Ok v) ∨ read_le bytes a b = Panic) as Hr.
  { intros a b. unfold read_le, slice. case_decide; [left; by eexists|by right]. }
  assert (∀ c, (∃ v, compression_from c = Ok v) ∨ compression_from c = Panic) as Hc.
  { intros c. unfold compression_from. repeat case_match; eauto. }
  assert (read_le bytes 88 96 = Panic) as Hlast by (unfold read_le, slice; rewrite decide_False by lia; done).
  repeat lazymatch goal with
  | |- (read_le bytes 88 96 ≫= _) = _ => by rewrite Hlast
  | |- (read_le bytes ?a ?b ≫= _) = _ => destruct (Hr a b) as [[? ->]| ->]; [|done]; cbn [mbind outcome_bind]
  | |- (compression_from ?c ≫= _) = _ => destruct (Hc c) as [[? ->]| ->]; [|done]; cbn [mbind outcome_bind]
  end.
Qed.

Lemma superblock_new_Ok sb rest : superblock_fits sb →
  SquashfsSuperblock_new (superblock_bytes sb ++ rest) = if superblock_valid sb then Ok sb else Err.
Proof.
  intros [F1 F2 F3 F4 F5 F6 F7 F8 F9 F10 F11 F12 F13 F14 F15 F16 F17 F18].
  assert (fits (8 * Z.of_nat 2) (compression_code (compressor sb))) as FC by (destruct (compressor sb); done).
  unfold SquashfsSuperblock_new, superblock_bytes. rewrite <- !app_assoc. layout.
  rewrite compression_from_code. cbn [mbind outcome_bind].
  assert (∀ b (k : unit → outcome SquashfsSuperblock), (reject_if b ≫= k) = if b then Err else k tt) as Hrej by by intros [] k.
  rewrite !Hrej. clear Hrej. unfold superblock_valid.
  destruct (Z.eqb_spec (magic sb) 0x73717368) as [E1|E1]; cbn [negb]; [|rewrite bool_decide_false; [done|tauto]].
  destruct (Z.eqb_spec (ver_major sb) 4) as [E2|E2]; cbn [negb orb]; [|rewrite bool_decide_false; [done|tauto]].
  destruct (Z.eqb_spec (ver_minor sb) 0) as [E3|E3]; cbn [negb orb]; [|rewrite bool_decide_false; [done|tauto]].
  destruct (Z.ltb_spec 20 (block_log sb)) as [E4|E4].
  { rewrite bool_decide_false by lia. by destruct (1048576 <? block_size sb). }
  unfold fits in F6. assert (0 < 2^block_log sb ≤ 2^20) as Hp by (split; [|apply Z.pow_le_mono_r]; lia).
  rewrite Z.shiftl_1_l, u32_small by lia.
  destruct (Z.eqb_spec (block_size sb) (2^block_log sb)) as [E5|E5]; cbn [negb].
  - rewrite bool_decide_true by (split_and!; done || lia). rewrite E5, Z.land_comm, Z.land_comm, power_of_two_land by lia.
    assert ((1048576 <? 2^block_log sb) = false) as -> by lia. assert ((2^block_log sb =? 0) = false) as -> by lia.
    cbn. rewrite <- E5. by destruct sb.
  - rewrite bool_decide_false by tauto. by destruct (1048576 <? block_size sb).
Qed.

(** C36: the driver accepts a superblock exactly when the format allows its magic
    number, version and block size, and then reads back every field; on fewer than
    its 96 bytes it panics. *)
Theorem superblock_new_spec sb rest bytes : superblock_fits sb →
  SquashfsSuperblock_new (superblock_bytes sb ++ rest) = (if superblock_valid sb then Ok sb else Err) ∧
  (len bytes < SUPERBLOCK_SIZE → SquashfsSuperblock_new bytes = Panic).
Proof. intros Hf. split; [by apply superblock_new_Ok|apply superblock_short]. Qed.

(** * Metadata blocks *)

(** A stored block, and a block that unpacks to [bytes]. *)
Definition raw_chunk (bytes : list Z) : Chunk := le_bytes 2 (Z.lor (len bytes) 0x8000) ++ bytes.

Lemma raw_header (bytes : list Z) : len bytes < 2^15 → Z.lor (len bytes) 0x8000 = len bytes + 2^15.
Proof.
  intros Hl. pose proof (len_nonneg bytes). rewrite Z.lor_comm. change 0x8000 with (Z.shiftl 1 15).
  rewrite shiftl_or_add by (unfold fits; lia). lia.
Qed.

Lemma len_raw_chunk bytes : len (raw_chunk bytes) = 2 + len bytes.
Proof. unfold raw_chunk. by rewrite len_app, len_le_bytes. Qed.

Lemma raw_chunk_header bytes : len bytes < 2^15 → chunk_header (raw_chunk bytes) = Ok (len bytes + 2^15).
Proof.
  intros Hl. pose proof (len_nonneg bytes). unfold chunk_header, HEADER_SIZE, raw_chunk. rewrite raw_header by done.
  unfold read_le. rewrite slice_here by done. cbn [fmap outcome_fmap]. f_equal.
  apply le_value_le_bytes. change (8 * Z.of_nat 2) with 16. unfold fits. lia.
Qed.

Lemma raw_chunk_len bytes : len bytes < 2^15 → chunk_len (raw_chunk bytes) = Ok (len bytes).
Proof.
  intros Hl. pose proof (len_nonneg bytes). unfold chunk_len. rewrite raw_chunk_header by done. cbn. f_equal.
  change 0x7FFF with (2^15 - 1). rewrite land_ones_mod by done.
  replace (len bytes + 2^15) with (len bytes + 1 * 2^15) by lia. rewrite Z.mod_add, Z.mod_small by lia. done.
Qed.

Section plain.
Context (dec : list Z → outcome (list Z)).

Definition plain (c : Chunk) (bytes : list Z) : Prop :=
  chunk_decompress dec c = Ok (raw_chunk bytes) ∧ len bytes < 2^15.

Lemma plain_raw bytes : len bytes < 2^15 → plain (raw_chunk bytes) bytes.
Proof.
  intros Hl. split; [|done]. unfold chunk_decompress, chunk_is_compressed. rewrite raw_chunk_header by done. cbn.
  assert (Z.land (len bytes + 2^15) 0x8000 =? 0 = false) as ->; [|done].
  rewrite <- raw_header by done. apply Z.eqb_neq. intros E.
  assert (Z.testbit (Z.land (Z.lor (len bytes) 0x8000) 0x8000) 15 = true) as Hb; [|by rewrite E in Hb].
  rewrite Z.land_spec, Z.lor_spec. by destruct (Z.testbit (len bytes) 15).
Qed.

(** A packed block of the archive. *)
Lemma plain_packed packed bytes : 0 < len packed < 2^15 → len bytes < 2^15 → dec packed = Ok bytes →
  plain (le_bytes 2 (len packed) ++ packed) bytes.
Proof.
  intros Hp Hl Hd. split; [|done]. unfold chunk_decompress, chunk_is_compressed, chunk_header, HEADER_SIZE, read_le.
  rewrite slice_here by done. cbn [fmap outcome_fmap mbind outcome_bind]. rewrite le_value_le_bytes by (unfold fits; change (8 * Z.of_nat 2) with 16; lia).
  assert (Z.land (len packed) 0x8000 =? 0 = true) as E.
  { apply Z.eqb_eq, Z.bits_inj'. intros i Hi. rewrite Z.land_spec, Z.testbit_0_l.
    destruct (decide (i = 15)) as [->|Hn].
    - by rewrite (testbit_above (len packed) 15) by (unfold fits; lia).
    - change 0x8000 with (2^15). by rewrite Z.pow2_bits_false, andb_false_r. }
  cbn [mret outcome_ret mbind outcome_bind]. rewrite E. unfold slice_from. rewrite len_app, len_le_bytes.
  rewrite (slice_skip (le_bytes 2 (len packed)) packed 2 _ 2 0 (len packed)) by (done || lia).
  rewrite <- (app_nil_r packed) at 1. rewrite slice_here by done. cbn [mbind outcome_bind unwrap_err].
  rewrite Hd. cbn. unfold raw_chunk. pose proof (len_nonneg bytes). by rewrite u16_small by lia.
Qed.

(** Splitting a table into its blocks. *)
Lemma chunks_loop_spec (fuel : nat) pre chunks done_ :
  Forall (λ c, ∃ h b, fits 16 h ∧ c = le_bytes 2 h ++ b ∧ Z.land h 0x7FFF = len b) chunks → (length chunks < fuel)%nat →
  chunks_loop fuel (pre ++ concat chunks) (len pre) done_ = Ok (done_ ++ chunks).
Proof.
  intros Hc. revert fuel pre done_. induction Hc as [|c chunks (h & b & Hh & -> & Hl) _ IH]; intros fuel pre done_ Hf;
    (destruct fuel as [|fuel]; [cbn in Hf; lia|]); cbn [chunks_loop concat].
  - rewrite !app_nil_r, Z.eqb_refl. done.
  - pose proof (len_nonneg b). rewrite !len_app, len_le_bytes.
    pose proof (len_nonneg (concat chunks)) as Hnn.
    rewrite (proj2 (Z.eqb_neq (len pre) _)) by lia.
    unfold read_le, HEADER_SIZE. rewrite <- app_assoc.
    rewrite (slice_app_middle pre (le_bytes 2 h)) by (rewrite ?len_le_bytes; done).
    cbn [fmap outcome_fmap mbind outcome_bind]. rewrite le_value_le_bytes by done. rewrite Hl.
    rewrite (app_assoc (le_bytes 2 h)), (slice_app_middle pre (le_bytes 2 h ++ b)) by (rewrite ?len_app, ?len_le_bytes; lia).
    cbn [mbind outcome_bind].
    replace (len pre + (len b + 2)) with (len (pre ++ le_bytes 2 h ++ b)) by (rewrite !len_app, len_le_bytes; lia).
    rewrite app_assoc, IH by (cbn in Hf; lia). by rewrite <- app_assoc.
Qed.

(** ** Reading slices *)

Lemma decompress_at_Ok (pre post : list Chunk) c bytes i : plain c bytes → i = len pre →
  decompress_at dec i (pre ++ c :: post) = (Ok tt, pre ++ raw_chunk bytes :: post).
Proof.
  intros [Hc Hl] ->. unfold decompress_at. prun.
  assert (index (pre ++ c :: post) (len pre) = Ok c) as ->.
  { by rewrite index_app_r, Z.sub_diag. }
  cbn. rewrite Hc. cbn. rewrite store_Ok by (rewrite len_app, len_cons; pose proof (len_nonneg pre); pose proof (len_nonneg post); lia).
  cbn. rewrite to_nat_len. do 2 f_equal. by rewrite insert_app_r_alt, Nat.sub_diag by lia.
Qed.

Lemma chunk_at_Ok (pre post : list Chunk) c i : i = len pre → chunk_at i (pre ++ c :: post) = (Ok c, pre ++ c :: post).
Proof. intros ->. unfold chunk_at. prun. by rewrite index_app_r, Z.sub_diag. Qed.

(** One turn of the copying loop. *)
Lemma collect_step (pre post : list Chunk) c bytes idxs offset size data :
  plain c bytes → 0 ≤ offset ≤ len bytes → 0 ≤ size < 2^32 →
  collect_chunks dec (len pre :: idxs) offset size data (pre ++ c :: post) =
  collect_chunks dec idxs 0 size (data ++ take (Z.to_nat size) (drop (Z.to_nat offset) bytes)) (pre ++ raw_chunk bytes :: post).
Proof.
  intros Hc Ho Hs. pose proof Hc as [_ Hl]. pose proof (len_nonneg bytes). cbn [collect_chunks].
  rewrite (bind_Ok _ _ _ _ _ (decompress_at_Ok pre post c bytes _ Hc eq_refl)).
  rewrite (bind_Ok _ _ _ _ _ (chunk_at_Ok pre post _ _ eq_refl)).
  rewrite raw_chunk_len by done. rewrite (bind_Ok (lift (Ok _)) _ _ _ _ eq_refl). cbv zeta. unfold HEADER_SIZE.
  rewrite u64_small by lia. set (e := if _ : bool then _ else _).
  assert (e = offset + 2 + Z.min size (len bytes - offset)) as ->.
  { subst e. destruct (Z.ltb_spec size (len bytes + 2 - (offset + 2))); lia. }
  assert (slice (raw_chunk bytes) (offset + 2) (offset + 2 + Z.min size (len bytes - offset)) =
    Ok (take (Z.to_nat size) (drop (Z.to_nat offset) bytes))) as ->.
  { unfold raw_chunk. rewrite (slice_skip _ _ _ _ 2 offset (offset + Z.min size (len bytes - offset))) by (rewrite ?len_le_bytes; lia).
    rewrite slice_Ok by lia. f_equal. destruct (decide (size ≤ len bytes - offset)).
    - f_equal. lia.
    - rewrite !take_ge; [done|rewrite length_drop; unfold len in *; lia..]. }
  done.
Qed.

Lemma available_rest bytes offset : 0 ≤ offset ≤ len bytes →
  ∃ rest, slice_from (raw_chunk bytes) offset = Ok rest ∧ len rest = 2 + len bytes - offset.
Proof.
  intros Ho. destruct (slice_from (raw_chunk bytes) offset) as [r| | | |] eqn:E; unfold slice_from in E;
    try (rewrite slice_Ok in E by (rewrite ?len_raw_chunk; lia); done).
  exists r. split; [done|]. apply slice_len in E. rewrite E, len_raw_chunk. done.
Qed.

(** A slice of the first block.  The two bytes of its header count as available: a
    slice that ends one or two bytes past the block comes out short. *)
Lemma get_slice_first fuel c post bytes offset size : plain c bytes → 0 ≤ offset ≤ len bytes → 0 ≤ size →
  offset + size ≤ len bytes + 2 →
  get_slice dec fuel 0 offset size (c :: post) =
    (Ok (take (Z.to_nat size) (drop (Z.to_nat offset) bytes)), raw_chunk bytes :: post).
Proof.
  intros Hc Ho Hs Hin. pose proof Hc as [_ Hl]. unfold get_slice.
  assert (find_chunk fuel 0 0 0 (c :: post) = (Ok 0, c :: post)) as E by by destruct fuel.
  rewrite (bind_Ok _ _ _ _ _ E). rewrite (bind_Ok _ _ _ _ _ (decompress_at_Ok [] post c bytes 0 Hc eq_refl)).
  rewrite (bind_Ok _ _ _ _ _ (chunk_at_Ok [] post _ 0 eq_refl)).
  destruct (available_rest bytes offset) as (rest & Er & Hr); [lia|]. rewrite Er. rewrite (bind_Ok (lift (Ok _)) _ _ _ _ eq_refl).
  rewrite (bind_Ok get _ _ _ _ eq_refl). cbn [available_loop]. assert ((len rest <? size) = false) as -> by lia.
  rewrite (bind_Ok (mret _) _ _ _ _ eq_refl). change (seqZ 0 1) with [len (@nil Chunk)].
  rewrite (collect_step [] post (raw_chunk bytes) bytes); [done|by apply plain_raw|lia|lia].
Qed.

(** C37: a slice that starts in the first block and ends at most two bytes past it
    leaves the block unpacked and the others alone, and reading it again gives the
    same.  It is the bytes asked for when the block has them all, and silently short
    otherwise, since the two bytes of the block's header count as available. *)
Theorem get_slice_spec fuel c post bytes offset size : plain c bytes → 0 ≤ offset ≤ len bytes → 0 ≤ size →
  offset + size ≤ len bytes + 2 →
  ∃ r, get_slice dec fuel 0 offset size (c :: post) = (Ok r, raw_chunk bytes :: post) ∧
    get_slice dec fuel 0 offset size (raw_chunk bytes :: post) = (Ok r, raw_chunk bytes :: post) ∧
    len r = Z.min size (len bytes - offset) ∧
    (offset + size ≤ len bytes → slice bytes offset (offset + size) = Ok r).
Proof.
  intros Hc Ho Hs Hin. exists (take (Z.to_nat size) (drop (Z.to_nat offset) bytes)). pose proof Hc as [_ Hl].
  split; [by apply get_slice_first|]. split; [apply get_slice_first; [by apply plain_raw|done..]|]. split.
  - unfold len in *. rewrite length_take, length_drop. lia.
  - intros Hi. rewrite slice_Ok by lia. do 2 f_equal. lia.
Qed.

(** The search for a block other than the first steps by the length of the first,
    which is another once that has been unpacked: it passes every block that does
    not lie at a multiple of it, until the counter wraps around. *)
Lemma find_chunk_lost c post l chunk fuel k : chunk_len c = Ok l → 0 ≤ l → ¬ (l + 2 | chunk) → 0 ≤ k →
  (Z.of_nat fuel + k) * (l + 2) < 2^64 →
  find_chunk fuel chunk k (k * (l + 2)) (c :: post) = (NoFuel, c :: post).
Proof.
  intros Hc Hl Hd. revert k. induction fuel as [|fuel IH]; intros k Hk Hw; cbn [find_chunk].
  - destruct (Z.eqb_spec (k * (l + 2)) chunk) as [<-|]; [|done]. by destruct Hd; apply Z.divide_factor_r.
  - destruct (Z.eqb_spec (k * (l + 2)) chunk) as [<-|]; [by destruct Hd; apply Z.divide_factor_r|].
    rewrite (bind_Ok _ _ _ _ _ (chunk_at_Ok [] post c 0 eq_refl)), Hc, (bind_Ok (lift (Ok _)) _ _ _ _ eq_refl).
    unfold HEADER_SIZE. rewrite !u64_small by nia. replace (k * (l + 2) + (l + 2)) with ((k + 1) * (l + 2)) by lia.
    apply IH; lia.
Qed.

(** A slice of any block but the first is not found, unless the block happens to
    start at a multiple of the first block's length, which itself changes when that
    block is unpacked: the search for it runs on, as long as its counter does not
    wrap around, and reads nothing. *)
Lemma later_block_lost fuel c post l chunk offset size : chunk_len c = Ok l → 0 ≤ l → ¬ (l + 2 | chunk) →
  Z.of_nat fuel * (l + 2) < 2^64 → get_slice dec fuel chunk offset size (c :: post) = (NoFuel, c :: post).
Proof.
  intros Hc Hl Hd Hw. unfold get_slice. assert (find_chunk fuel chunk 0 0 (c :: post) = (NoFuel, c :: post)) as E.
  { replace 0 with (0 * (l + 2)) at 2 by lia. apply find_chunk_lost; done || lia. }
  unfold mbind, prog_bind. by rewrite E.
Qed.

(** A slice that starts where the first block ends is taken from the second. *)
Lemma get_slice_next fuel c c2 post bytes bytes2 size : plain c bytes → plain c2 bytes2 → 2 < size ≤ len bytes2 →
  get_slice dec fuel 0 (len bytes) size (c :: c2 :: post) =
    (Ok (take (Z.to_nat size) bytes2), raw_chunk bytes :: raw_chunk bytes2 :: post).
Proof.
  intros Hc Hc2 Hs. pose proof Hc as [_ Hl]. pose proof Hc2 as [_ Hl2]. pose proof (len_nonneg bytes). unfold get_slice.
  assert (find_chunk fuel 0 0 0 (c :: c2 :: post) = (Ok 0, c :: c2 :: post)) as E by by destruct fuel.
  rewrite (bind_Ok _ _ _ _ _ E). rewrite (bind_Ok _ _ _ _ _ (decompress_at_Ok [] (c2 :: post) c bytes 0 Hc eq_refl)).
  rewrite (bind_Ok _ _ _ _ _ (chunk_at_Ok [] (c2 :: post) _ 0 eq_refl)).
  destruct (available_rest bytes (len bytes)) as (rest & Er & Hr); [lia|]. rewrite Er. rewrite (bind_Ok (lift (Ok _)) _ _ _ _ eq_refl).
  rewrite (bind_Ok get _ _ _ _ eq_refl). cbn [available_loop app]. assert ((len rest <? size) = true) as -> by lia.
  change (0 + 1) with (len [raw_chunk bytes]). rewrite bind_assoc.
  rewrite (bind_Ok _ _ _ _ _ (decompress_at_Ok [raw_chunk bytes] post c2 bytes2 _ Hc2 eq_refl)). rewrite bind_assoc.
  rewrite (bind_Ok _ _ _ _ _ (chunk_at_Ok [raw_chunk bytes] post _ _ eq_refl)), bind_assoc.
  rewrite raw_chunk_len by done. rewrite (bind_Ok (lift (Ok _)) _ _ _ _ eq_refl). cbn [length available_loop].
  assert ((len rest + len bytes2 <? size) = false) as -> by lia. rewrite (bind_Ok (mret _) _ _ _ _ eq_refl).
  change (seqZ 0 (1 + 1)) with [len (@nil Chunk); len [raw_chunk bytes]].
  rewrite (collect_step [] (raw_chunk bytes2 :: post) (raw_chunk bytes) bytes); [|by apply plain_raw|lia..].
  rewrite drop_ge by (rewrite to_nat_len; lia).
  rewrite (collect_step [raw_chunk bytes] post (raw_chunk bytes2) bytes2); [by rewrite take_nil|by apply plain_raw|lia..].
Qed.
End plain.

(** * Inodes *)

Definition type_code (t : InodeFileType) : Z :=
  match t with
  | BasicDirectoryType => 1 | BasicFileType => 2 | BasicSymlink => 3 | BasicBlockDevice => 4 | BasicCharDevice => 5
  | BasicPipe => 6 | BasicSocked => 7 | ExtendedDirectoryType => 8 | ExtendedFile => 9 | ExtendedSymlink => 10
  | ExtendedBlockDevice => 11 | ExtendedPipe => 12 | ExtendedSocked => 13
  end.
Lemma file_type_from_code t : file_type_from (type_code t) = Ok t.
Proof. by destruct t. Qed.
Lemma type_code_fits t : fits (8 * Z.of_nat 2) (type_code t).
Proof. by destruct t. Qed.

(** The fields of the format, [perm] being the three the driver does not keep. *)
Definition header_bytes (h : InodeHeader) (perm : list Z) : list Z :=
  le_bytes 2 (type_code (file_type h)) ++ perm ++ le_bytes 4 (mtime h) ++ le_bytes 4 (inode_num h).
Definition inode_record (i : Inode) (perm : list Z) : list Z :=
  match i with
  | BasicFile f =>
      header_bytes (bf_header f) perm ++ le_bytes 4 (block_start f) ++ le_bytes 4 (frag_idx f) ++
      le_bytes 4 (bf_block_offset f) ++ le_bytes 4 (bf_file_size f)
  | BasicDirectory d =>
      header_bytes (bd_header d) perm ++ le_bytes 4 (bd_block_index d) ++ le_bytes 4 (bd_link_count d) ++
      le_bytes 2 (bd_file_size d) ++ le_bytes 2 (bd_block_offset d) ++ le_bytes 4 (bd_parent_inode d)
  | ExtendedDirectory d =>
      header_bytes (ed_header d) perm ++ le_bytes 4 (ed_link_count d) ++ le_bytes 4 (ed_file_size d) ++
      le_bytes 4 (ed_block_index d) ++ le_bytes 4 (ed_parent_inode d) ++ le_bytes 2 (ed_index_count d) ++
      le_bytes 2 (ed_block_offset d) ++ le_bytes 4 (ed_xattr_index d)
  end.

Definition header_fits (h : InodeHeader) (t : InodeFileType) : Prop :=
  file_type h = t ∧ fits 32 (mtime h) ∧ fits 32 (inode_num h).
Definition inode_fits (i : Inode) : Prop :=
  match i with
  | BasicFile f => header_fits (bf_header f) BasicFileType ∧ fits 32 (block_start f) ∧ fits 32 (frag_idx f) ∧
      fits 32 (bf_block_offset f) ∧ fits 32 (bf_file_size f)
  | BasicDirectory d => header_fits (bd_header d) BasicDirectoryType ∧ fits 32 (bd_block_index d) ∧
      fits 32 (bd_link_count d) ∧ fits 16 (bd_file_size d) ∧ fits 16 (bd_block_offset d) ∧ fits 32 (bd_parent_inode d)
  | ExtendedDirectory d => header_fits (ed_header d) ExtendedDirectoryType ∧ fits 32 (ed_link_count d) ∧
      fits 32 (ed_file_size d) ∧ fits 32 (ed_block_index d) ∧ fits 32 (ed_parent_inode d) ∧
      fits 16 (ed_index_count d) ∧ fits 16 (ed_block_offset d) ∧ fits 32 (ed_xattr_index d)
  end.

Definition inode_size (i : Inode) : Z := match i with ExtendedDirectory _ => 40 | _ => 32 end.
Definition inode_type (i : Inode) : InodeFileType :=
  match i with BasicFile _ => BasicFileType | BasicDirectory _ => BasicDirectoryType | ExtendedDirectory _ => ExtendedDirectoryType end.

Lemma len_inode_record i perm : len perm = 6 → len (inode_record i perm) = inode_size i.
Proof. intros Hp. destruct i; cbn [inode_record inode_size]; unfold header_bytes; by rewrite !len_app, !len_le_bytes, Hp. Qed.

Lemma header_from_bytes h t perm rest : header_fits h t → len perm = 6 →
  InodeHeader_from_bytes (header_bytes h perm ++ rest) = Ok h.
Proof.
  intros (Ht & Hm & Hn) Hp. pose proof (type_code_fits (file_type h)). unfold InodeHeader_from_bytes, header_bytes.
  rewrite <- !app_assoc. layout. rewrite file_type_from_code. cbn. by destruct h.
Qed.

Lemma inode_from_record i perm rest : inode_fits i → len perm = 6 → Inode_from (inode_record i perm ++ rest) = Ok i.
Proof.
  intros Hf Hp. unfold Inode_from. destruct i as [f|d|d]; cbn [inode_fits inode_record] in *; destruct Hf as (Hh & Hf); destruct_and! Hf;
    pose proof Hh as (Ht & Hm & Hn); rewrite <- !app_assoc.
  all: match goal with |- context [header_bytes ?h ?p ++ ?r] =>
    assert (read_le (header_bytes h p ++ r) 0 2 = Ok (type_code (file_type h))) as ->
      by (unfold header_bytes; rewrite <- !app_assoc; pose proof (type_code_fits (file_type h)); by layout) end.
  all: cbn [mbind outcome_bind]; rewrite file_type_from_code, Ht; cbn [mbind outcome_bind].
  1: unfold BasicFileInode_from_bytes. 2: unfold BasicDirectoryInode_from_bytes. 3: unfold ExtendedDirectoryInode_from_bytes.
  all: rewrite (header_from_bytes _ _ _ _ Hh Hp); cbn [mbind outcome_bind].
  all: match goal with |- context [header_bytes ?h ?p ++ ?r] =>
    assert (len (header_bytes h p) = 16) as H16 by (unfold header_bytes; by rewrite !len_app, !len_le_bytes, Hp);
    generalize dependent (header_bytes h p); intros hb H16 end.
  all: clear Hh Ht Hm Hn Hp; layout; cbn; match goal with x : BasicFileInode |- _ => by destruct x | x : BasicDirectoryInode |- _ => by destruct x | x : ExtendedDirectoryInode |- _ => by destruct x end.
Qed.

Lemma record_type i perm : inode_fits i → slice (inode_record i perm) 0 2 = Ok (le_bytes 2 (type_code (inode_type i))).
Proof.
  intros Hf. destruct i as [f|d|d]; cbn [inode_record inode_type inode_fits] in *; destruct Hf as ((<- & _) & _);
    unfold header_bytes; rewrite <- !app_assoc; by apply slice_here.
Qed.

Lemma u16_of_bytes x : fits (8 * Z.of_nat 2) x → u16_of (le_bytes 2 x) = Ok x.
Proof. intros Hx. unfold u16_of. rewrite len_le_bytes. cbn [rassert mbind outcome_bind Z.eqb Z.of_nat]. by rewrite le_value_le_bytes. Qed.

(** * Archives *)

(** A directory listing: runs of entries that share a header.  Names are the bytes
    stored. *)
Record sq_entry := mk_sq_entry { se_offset : Z; se_inode_offset : Z; se_type : InodeFileType; se_name : list Z }.
Record sq_run := mk_sq_run { run_start : Z; run_inode_num : Z; run_entries : list sq_entry }.

Definition entry_bytes (e : sq_entry) : list Z :=
  le_bytes 2 (se_offset e) ++ le_bytes 2 (se_inode_offset e) ++ le_bytes 2 (type_code (se_type e)) ++
  le_bytes 2 (len (se_name e) - 1) ++ se_name e.
Definition run_header (r : sq_run) : list Z :=
  le_bytes 4 (len (run_entries r) - 1) ++ le_bytes 4 (run_start r) ++ le_bytes 4 (run_inode_num r).
Definition run_bytes (r : sq_run) : list Z := run_header r ++ concat (entry_bytes <$> run_entries r).
Definition listing_bytes (runs : list sq_run) : list Z := concat (run_bytes <$> runs).
Definition listing_entries (runs : list sq_run) : list sq_entry := concat (run_entries <$> runs).

(** The plain contents of the first inode block, of the first two directory blocks
    and of the fragment block; the inodes by where they lie, the listings by where
    they start. *)
Record archive := mk_archive {
  ar_inodes : list Z;
  ar_dirs : list Z;
  ar_next : list Z;
  ar_frag : list Z;
  ar_table : gmap Z Inode;
  ar_listings : gmap Z (list sq_run);
}.

Section driver.
Context (ram : Z → Z) (fuel : nat) (f0 : Squashfs) (ar : archive).

Notation is_plain := (plain uncompress_data).

(** The directory an inode stands for; the format counts three bytes more. *)
Definition listing_at (block offset size : Z) : option (list sq_run) :=
  runs ← ar_listings ar !! offset;
  if decide (block = 0 ∧ size = len (listing_bytes runs) + 3) then Some runs else None.
Definition dir_of (i : Inode) : option (list sq_run) :=
  match i with
  | BasicDirectory d => listing_at (bd_block_index d) (bd_block_offset d) (bd_file_size d)
  | ExtendedDirectory d => listing_at (ed_block_index d) (ed_block_offset d) (ed_file_size d)
  | BasicFile _ => None
  end.

(** A file that lies in the first fragment. *)
Definition file_ok (f : BasicFileInode) : Prop :=
  frag_idx f = 0 ∧ 0 ≤ bf_block_offset f ∧ 0 ≤ bf_file_size f ∧ bf_block_offset f + bf_file_size f ≤ len (ar_frag ar) ∧
  len (ar_frag ar) < 2^32.
#[local] Instance file_ok_dec f : Decision (file_ok f).
Proof. unfold file_ok. apply _. Defined.
Definition inode_ok (i : Inode) : Prop :=
  match i with BasicFile f => file_ok f | _ => is_Some (dir_of i) end.

Record entry_wf (e : sq_entry) : Prop := {
  ew_offset : fits 16 (se_offset e);
  ew_inode_offset : fits 16 (se_inode_offset e);
  ew_name : 1 ≤ len (se_name e) ≤ 2^16;
  ew_utf8 : is_Some (from_utf8 (se_name e));
  ew_inode : is_Some (ar_table ar !! se_offset e);
}.
Record run_wf (r : sq_run) : Prop := {
  rw_start : run_start r = 0;
  rw_num : fits 32 (run_inode_num r);
  rw_count : 1 ≤ len (run_entries r) < 2^32;
  rw_entries : Forall entry_wf (run_entries r);
}.

(** The twelve bytes after a listing, which the driver takes for one more header:
    they are there, and do not claim 2^32 entries. *)
Definition trailer_ok (stop : Z) : Prop :=
  (stop + 12 ≤ len (ar_dirs ar) ∧ le_value (take 4 (drop (Z.to_nat stop) (ar_dirs ar))) ≠ u32_max) ∨
  (stop = len (ar_dirs ar) ∧ 12 ≤ len (ar_next ar) ∧ le_value (take 4 (ar_next ar)) ≠ u32_max).

Record archive_wf (sb : SquashfsSuperblock) : Prop := {
  aw_bytes : Forall is_byte (ar_dirs ar) ∧ Forall is_byte (ar_next ar);
  aw_table : ∀ off i, ar_table ar !! off = Some i → 0 ≤ off ∧ inode_fits i ∧ inode_ok i ∧
    ∃ perm, len perm = 6 ∧ slice (ar_inodes ar) off (off + inode_size i) = Ok (inode_record i perm);
  aw_listings : ∀ o runs, ar_listings ar !! o = Some runs → 0 ≤ o ∧
    slice (ar_dirs ar) o (o + len (listing_bytes runs)) = Ok (listing_bytes runs) ∧ Forall run_wf runs ∧
    trailer_ok (o + len (listing_bytes runs)) ∧ (length runs + length (listing_entries runs) + 2 < fuel)%nat;
  aw_root : ∃ i, ar_table ar !! root_inode sb = Some i ∧ is_Some (dir_of i);
}.

(** The states of the driver: blocks unpacked or not. *)
Definition squash_ok (f : Squashfs) : Prop := ∃ c cs d d2 ds,
  f = set_directory_chunks (d :: d2 :: ds) (set_inode_chunks (c :: cs) f0) ∧
  is_plain c (ar_inodes ar) ∧ is_plain d (ar_dirs ar) ∧ is_plain d2 (ar_next ar).

Lemma slice_take {A} (l r : list A) a n : slice l a (a + n) = Ok r → 0 ≤ n → 0 ≤ a ∧ a + n ≤ len l ∧
  r = take (Z.to_nat n) (drop (Z.to_nat a) l).
Proof.
  unfold slice. destruct (decide _) as [H|]; [|done]. intros [= <-] Hn. split; [lia|]. split; [lia|]. do 2 f_equal. lia.
Qed.

Lemma inode_slice_Ok f off n r : squash_ok f → slice (ar_inodes ar) off (off + n) = Ok r → 0 ≤ n →
  ∃ f', inode_slice fuel 0 off n f = (Ok r, f') ∧ squash_ok f'.
Proof.
  intros (c & cs & d & d2 & ds & -> & Hc & Hd & Hd2) Hs Hn. destruct (slice_take _ _ _ _ Hs Hn) as (H0 & H1 & ->).
  unfold inode_slice, on_inodes. cbn [inode_chunks set_inode_chunks set_directory_chunks].
  rewrite (get_slice_first _ fuel c cs (ar_inodes ar)); [|done|lia..].
  eexists. split; [reflexivity|]. exists (raw_chunk (ar_inodes ar)), cs, d, d2, ds. split; [done|].
  split; [|done]. apply plain_raw, Hc.
Qed.

Lemma directory_slice_Ok f off n r : squash_ok f → slice (ar_dirs ar) off (off + n) = Ok r → 0 ≤ n →
  ∃ f', directory_slice fuel 0 off n f = (Ok r, f') ∧ squash_ok f'.
Proof.
  intros (c & cs & d & d2 & ds & -> & Hc & Hd & Hd2) Hs Hn. destruct (slice_take _ _ _ _ Hs Hn) as (H0 & H1 & ->).
  unfold directory_slice, on_directories. cbn [directory_chunks set_inode_chunks set_directory_chunks].
  rewrite (get_slice_first _ fuel d (d2 :: ds) (ar_dirs ar)); [|done|lia..].
  eexists. split; [reflexivity|]. exists c, cs, (raw_chunk (ar_dirs ar)), d2, ds. split; [done|].
  split; [done|]. split; [|done]. apply plain_raw, Hd.
Qed.

Lemma read_inode_Ok sb f off i : archive_wf sb → squash_ok f → ar_table ar !! off = Some i → off < 2^16 →
  ∃ f', read_inode fuel off f = (Ok i, f') ∧ squash_ok f'.
Proof.
  intros Hw Hf Hi Hoff. destruct (aw_table _ Hw off i Hi) as (H0 & Hfit & _ & perm & Hp & Hs).
  assert (get_inode_block_offset off = (0, off)) as Eo.
  { unfold get_inode_block_offset. f_equal.
    - rewrite Z.shiftr_div_pow2, Z.div_small by lia. done.
    - change 0xFFFF with (2^16 - 1). rewrite land_ones_mod, Z.mod_small by lia. done. }
  unfold read_inode. rewrite Eo.
  assert (slice (ar_inodes ar) off (off + 2) = Ok (le_bytes 2 (type_code (inode_type i)))) as Ht.
  { pose proof (slice_of_slice _ _ _ _ 0 2 Hs) as E. rewrite Z.add_0_r in E.
    rewrite <- E by (destruct i; cbn; lia). by apply record_type. }
  destruct (inode_slice_Ok f off 2 _ Hf Ht) as (f1 & E1 & Hf1); [lia|]. rewrite (bind_Ok _ _ _ _ _ E1).
  rewrite (u16_of_bytes _ (type_code_fits _)), (bind_Ok (lift (Ok _)) _ _ _ _ eq_refl), file_type_from_code, (bind_Ok (lift (Ok _)) _ _ _ _ eq_refl).
  destruct (inode_slice_Ok f1 off (inode_size i) _ Hf1 Hs) as (f2 & E2 & Hf2); [by destruct i|].
  exists f2. split; [|done]. pose proof (inode_from_record i perm [] Hfit Hp) as Hr. rewrite app_nil_r in Hr.
  destruct i; cbn [inode_type inode_size] in *; rewrite (bind_Ok (lift (Ok _)) _ _ _ _ eq_refl);
    rewrite (bind_Ok _ _ _ _ _ E2); unfold lift; by rewrite Hr.
Qed.

(** ** Looking a name up *)

(** The first entry of that name. *)
Definition has_name (nm : str) (e : sq_entry) : bool := bool_decide (from_utf8 (se_name e) = Some nm).
Fixpoint find_name (nm : str) (es : list sq_entry) : option Inode :=
  match es with
  | [] => None
  | e :: es' => if has_name nm e then ar_table ar !! se_offset e else find_name nm es'
  end.

Lemma entry_from_bytes e rest : entry_wf e →
  ∃ d, DirectoryTableEntry_from_bytes (entry_bytes e ++ rest) = Ok d ∧ de_offset d = se_offset e ∧
    from_utf8 (se_name e) = Some (de_name d).
Proof.
  intros [H1 H2 H3 [nm H4] H5]. unfold DirectoryTableEntry_from_bytes, entry_bytes. rewrite <- !app_assoc.
  pose proof (type_code_fits (se_type e)). assert (fits (8 * Z.of_nat 2) (len (se_name e) - 1)) by (unfold fits; lia).
  layout. rewrite file_type_from_code. cbn [mbind outcome_bind].
  set (p := le_bytes 2 (se_offset e) ++ le_bytes 2 (se_inode_offset e) ++ le_bytes 2 (type_code (se_type e)) ++
    le_bytes 2 (len (se_name e) - 1)).
  replace (le_bytes 2 (se_offset e) ++ _) with (p ++ se_name e ++ rest) by (unfold p; by rewrite <- !app_assoc).
  assert (len p = 8) as Hp by (unfold p; by rewrite !len_app, !len_le_bytes).
  rewrite (slice_app_middle p (se_name e) rest) by lia. cbn [mbind outcome_bind]. rewrite H4. eexists. split; [reflexivity|done].
Qed.

Lemma len_entry_bytes e : len (entry_bytes e) = 8 + len (se_name e).
Proof. unfold entry_bytes. rewrite !len_app, !len_le_bytes. lia. Qed.

Context (sb : SquashfsSuperblock) (Hw : archive_wf sb).

Lemma dirs_below f : squash_ok f → len (ar_dirs ar) < 2^15.
Proof using. by intros (c & cs & d & d2 & ds & _ & _ & [_ ?] & _). Qed.

Section listing.
Context (o : Z) (runs : list sq_run) (Hruns : ar_listings ar !! o = Some runs).

Lemma at_listing pre mid post : listing_bytes runs = pre ++ mid ++ post →
  slice (ar_dirs ar) (o + len pre) (o + len pre + len mid) = Ok mid ∧ 0 ≤ o ∧
  o + len pre + len mid + len post ≤ len (ar_dirs ar).
Proof using Hw Hruns.
  intros E. destruct (aw_listings _ Hw o runs Hruns) as (H0 & Hs & _).
  pose proof (slice_take _ _ _ _ Hs (len_nonneg _)) as (_ & H1 & _). rewrite E, !len_app in H1. split; [|lia].
  pose proof (slice_of_slice _ _ _ _ (len pre) (len pre + len mid) Hs) as Es. rewrite E in Es at 2.
  rewrite <- Z.add_assoc, <- Es by (rewrite ?E, ?len_app; pose proof (len_nonneg pre); pose proof (len_nonneg mid);
    pose proof (len_nonneg post); lia).
  by apply slice_app_middle.
Qed.

Lemma record_step turns nm h i e pre rest f : squash_ok f → entry_wf e → listing_bytes runs = pre ++ entry_bytes e ++ rest →
  dh_start h = 0 → i ≠ entry_count h →
  ∃ f', squash_ok f' ∧
    find_entry_loop fuel (S turns) 0 o (len (listing_bytes runs) + 3) nm h i (len pre) f =
    if has_name nm e then read_inode fuel (se_offset e) f'
    else find_entry_loop fuel turns 0 o (len (listing_bytes runs) + 3) nm h (u32 (i + 1)) (len (pre ++ entry_bytes e)) f'.
Proof using Hw Hruns.
  intros Hf He E Hh Hi. destruct (at_listing pre _ rest E) as (Hs & H0 & Hlim). pose proof (dirs_below f Hf) as Hd.
  pose proof (len_nonneg pre) as Hpre. pose proof (len_nonneg rest) as Hrest. pose proof (ew_name e He) as Hn.
  rewrite len_entry_bytes in *. cbn [find_entry_loop].
  rewrite (proj2 (Z.eqb_neq i _) Hi). cbn [andb].
  assert ((len (listing_bytes runs) + 3 <=? len pre) = false) as -> by (rewrite E, !len_app, len_entry_bytes; lia).
  rewrite (u16_small (len pre)), (u16_small (len pre + 6)), !u16_small by lia.
  assert (slice (ar_dirs ar) (o + (len pre + 6)) (o + (len pre + 6) + 2) = Ok (le_bytes 2 (len (se_name e) - 1))) as Hs2.
  { pose proof (slice_of_slice _ _ _ _ 6 8 Hs) as Es.
    replace (o + (len pre + 6)) with (o + len pre + 6) by lia. replace (o + len pre + 6 + 2) with (o + len pre + 8) by lia.
    rewrite <- Es by lia. unfold entry_bytes. assert (fits (8 * Z.of_nat 2) (len (se_name e) - 1)) by (unfold fits; lia).
    repeat layout_step. done. }
  destruct (directory_slice_Ok f _ 2 _ Hf Hs2) as (f1 & E1 & Hf1); [lia|]. rewrite (bind_Ok _ _ _ _ _ E1).
  rewrite u16_of_bytes, (bind_Ok (lift (Ok _)) _ _ _ _ eq_refl) by (unfold fits; lia). cbv zeta.
  replace (8 + (len (se_name e) - 1 + 1)) with (8 + len (se_name e)) by lia.
  destruct (directory_slice_Ok f1 _ _ _ Hf1 Hs) as (f2 & E2 & Hf2); [lia|]. rewrite (bind_Ok _ _ _ _ _ E2).
  destruct (entry_from_bytes e [] He) as (d & Ed & Eo & En). rewrite app_nil_r in Ed. rewrite Ed.
  rewrite (bind_Ok (lift (Ok _)) _ _ _ _ eq_refl). exists f2. split; [done|].
  assert (bool_decide (de_name d = nm) = has_name nm e) as ->.
  { unfold has_name. apply bool_decide_ext. rewrite En. split; [by intros ->|by intros [= ->]]. }
  rewrite len_app, len_entry_bytes, Hh, Eo. destruct (has_name nm e); [|done]. f_equal.
Qed.

Lemma run_header_from r : run_wf r → ∃ h, DirectoryTableHeader_from (run_header r) = Ok h ∧
  dh_start h = 0 ∧ entry_count h = len (run_entries r).
Proof using.
  intros [Hs Hn Hc _]. rewrite <- (app_nil_r (run_header r)). unfold DirectoryTableHeader_from, run_header. rewrite <- !app_assoc.
  assert (fits (8 * Z.of_nat 4) (len (run_entries r) - 1)) by (unfold fits; change (8 * Z.of_nat 4) with 32; lia).
  assert (fits (8 * Z.of_nat 4) (run_start r)) by (rewrite Hs; done). layout. cbn. eexists. split; [reflexivity|].
  split; [done|]. cbn. replace (len (run_entries r) - 1 + 1) with (len (run_entries r)) by lia. apply u32_small. lia.
Qed.

Lemma len_run_header r : len (run_header r) = 12.
Proof using. unfold run_header. by rewrite !len_app, !len_le_bytes. Qed.

(** The header of the next run, at the end of a run. *)
Lemma header_step turns nm h r pre rest f : squash_ok f → run_wf r → listing_bytes runs = pre ++ run_bytes r ++ rest →
  ∃ f' h', squash_ok f' ∧ dh_start h' = 0 ∧ entry_count h' = len (run_entries r) ∧
    find_entry_loop fuel (S turns) 0 o (len (listing_bytes runs) + 3) nm h (entry_count h) (len pre) f =
    find_entry_loop fuel turns 0 o (len (listing_bytes runs) + 3) nm h' 0 (len (pre ++ run_header r)) f'.
Proof using Hw Hruns.
  intros Hf Hr E. unfold run_bytes in E. rewrite <- app_assoc in E. destruct (at_listing pre _ _ E) as (Hs & H0 & Hlim).
  pose proof (dirs_below f Hf) as Hd. pose proof (len_nonneg pre). rewrite len_run_header in *.
  match type of Hlim with context [len (?a ++ ?b)] => pose proof (len_nonneg (a ++ b)) end.
  destruct (run_header_from r Hr) as (h' & Eh & Hst & Hct).
  destruct (directory_slice_Ok f _ 12 _ Hf Hs) as (f1 & E1 & Hf1); [lia|]. exists f1, h'. split; [done|]. split; [done|]. split; [done|].
  cbn [find_entry_loop]. rewrite Z.eqb_refl. cbn [andb].
  assert (len pre ≤ len (listing_bytes runs)) as Hle.
  { rewrite E, (len_app pre). match goal with |- _ ≤ _ + len ?x => pose proof (len_nonneg x) end. lia. }
  rewrite (proj2 (Z.eqb_neq (len pre) _)) by lia. cbn [negb].
  rewrite (u16_small (len pre)), u16_small by lia. unfold DIRECTORY_HEADER_SIZE. rewrite (bind_Ok _ _ _ _ _ E1), Eh.
  rewrite (bind_Ok (lift (Ok _)) _ _ _ _ eq_refl), len_app, len_run_header. done.
Qed.

(** The header the driver reads past the last run. *)
Lemma trailer_read f : squash_ok f → ∃ f' b h, squash_ok f' ∧
  directory_slice fuel 0 (o + len (listing_bytes runs)) 12 f = (Ok b, f') ∧
  DirectoryTableHeader_from b = Ok h ∧ entry_count h ≠ 0.
Proof using Hw Hruns.
  intros Hf. destruct (aw_listings _ Hw o runs Hruns) as (H0 & _ & _ & Ht & _). destruct (aw_bytes _ Hw) as [Hb Hb2].
  pose proof (len_nonneg (listing_bytes runs)). set (stop := o + len (listing_bytes runs)) in *.
  assert (∀ b : list Z, Forall is_byte b → len b = 12 → le_value (take 4 b) ≠ u32_max →
    ∃ h, DirectoryTableHeader_from b = Ok h ∧ entry_count h ≠ 0) as Hparse.
  { intros b Hby Hl Hne. unfold DirectoryTableHeader_from, read_le. rewrite !slice_Ok by lia. cbn.
    eexists. split; [reflexivity|]. cbn. change (Z.to_nat (4 - 0)) with 4%nat. change (drop (Z.to_nat 0) b) with b.
    assert (0 ≤ le_value (take 4 b) < 2^32) as Hr.
    { pose proof (le_value_range (take 4 b)) as Hr. replace (8 * len (take 4 b)) with 32 in Hr.
      - apply Hr. by apply Forall_take.
      - unfold len in *. rewrite length_take. lia. }
    unfold u32_max in Hne. rewrite u32_small by lia. lia. }
  destruct Ht as [[Hin Hne]|(Hend & Hl2 & Hne)].
  - assert (slice (ar_dirs ar) stop (stop + 12) = Ok (take 12 (drop (Z.to_nat stop) (ar_dirs ar)))) as Hs.
    { rewrite slice_Ok by lia. do 2 f_equal. lia. }
    destruct (directory_slice_Ok f stop 12 _ Hf Hs) as (f' & E & Hf'); [lia|].
    destruct (Hparse (take 12 (drop (Z.to_nat stop) (ar_dirs ar)))) as (h & Eh & Hc).
    + by apply Forall_take, Forall_drop.
    + unfold len in *. rewrite length_take, length_drop. lia.
    + by rewrite take_take.
    + by eexists f', _, h.
  - destruct (Hparse (take 12 (ar_next ar))) as (h & Eh & Hc).
    + by apply Forall_take.
    + unfold len in *. rewrite length_take. lia.
    + by rewrite take_take.
    + destruct Hf as (c & cs & d & d2 & ds & -> & Hpc & Hpd & Hpd2).
      exists (set_directory_chunks (raw_chunk (ar_dirs ar) :: raw_chunk (ar_next ar) :: ds) (set_inode_chunks (c :: cs) f0)), (take 12 (ar_next ar)), h.
      split; [|split; [|done]].
      * exists c, cs, (raw_chunk (ar_dirs ar)), (raw_chunk (ar_next ar)), ds. split; [done|]. split; [done|].
        split; apply plain_raw; [apply Hpd|apply Hpd2].
      * unfold directory_slice, on_directories. cbn [directory_chunks set_inode_chunks set_directory_chunks]. rewrite Hend.
        rewrite (get_slice_next uncompress_data fuel d d2 ds (ar_dirs ar) (ar_next ar) 12); done || lia.
Qed.

Lemma end_step turns nm h f : squash_ok f → ∃ f', squash_ok f' ∧
  find_entry_loop fuel (S (S turns)) 0 o (len (listing_bytes runs) + 3) nm h (entry_count h) (len (listing_bytes runs)) f = (Err, f').
Proof using Hw Hruns.
  intros Hf. destruct (trailer_read f Hf) as (f' & b & h' & Hf' & E & Eh & Hc). exists f'. split; [done|].
  destruct (aw_listings _ Hw o runs Hruns) as (H0 & Hs & _). pose proof (dirs_below f Hf).
  pose proof (slice_take _ _ _ _ Hs (len_nonneg _)) as (_ & H1 & _). pose proof (len_nonneg (listing_bytes runs)).
  cbn [find_entry_loop]. rewrite Z.eqb_refl. cbn [andb].
  assert ((len (listing_bytes runs) =? len (listing_bytes runs) + 3) = false) as -> by lia. cbn [negb].
  assert (u16 (o + u16 (len (listing_bytes runs))) = o + len (listing_bytes runs)) as -> by (rewrite (u16_small (len (listing_bytes runs))), u16_small; lia).
  unfold DIRECTORY_HEADER_SIZE. rewrite (bind_Ok _ _ _ _ _ E), Eh.
  rewrite (bind_Ok (lift (Ok _)) _ _ _ _ eq_refl). rewrite (proj2 (Z.eqb_neq 0 _)) by done. cbn [andb].
  assert ((len (listing_bytes runs) + 3 <=? len (listing_bytes runs) + 12) = true) as -> by lia. done.
Qed.

(** From inside a run, with entries [es] of it and the runs [rs] to come. *)
Definition finds (nm : str) (rs : list sq_run) (es : list sq_entry) : Prop := ∀ turns h pre f, squash_ok f →
  listing_bytes runs = pre ++ concat (entry_bytes <$> es) ++ listing_bytes rs → dh_start h = 0 →
  len es ≤ entry_count h < 2^32 → (length es + length rs + length (listing_entries rs) + 2 ≤ turns)%nat →
  ∃ f', squash_ok f' ∧
    find_entry_loop fuel turns 0 o (len (listing_bytes runs) + 3) nm h (entry_count h - len es) (len pre) f =
    (of_option Err (find_name nm (es ++ listing_entries rs)), f').

Lemma finds_entry nm rs es e : entry_wf e → finds nm rs es → finds nm rs (e :: es).
Proof using Hw Hruns.
  intros He IH turns h pre f Hf E Hh Hc Ht. destruct turns as [|turns]; [cbn in Ht; lia|].
  rewrite fmap_cons in E. cbn [concat] in E. rewrite <- app_assoc in E. rewrite len_cons in *. pose proof (len_nonneg es).
  destruct (record_step turns nm h (entry_count h - (1 + len es)) e pre _ f Hf He E Hh) as (f1 & Hf1 & ->); [lia|].
  cbn [app find_name]. destruct (has_name nm e).
  - destruct (ew_inode e He) as [i Hi]. rewrite Hi. cbn [of_option].
    destruct (read_inode_Ok sb f1 (se_offset e) i Hw Hf1 Hi) as (f2 & E2 & Hf2); [apply (ew_offset e He)|]. by exists f2.
  - rewrite u32_small by lia. replace (entry_count h - (1 + len es) + 1) with (entry_count h - len es) by lia.
    apply IH; [done|by rewrite <- app_assoc|done|lia|]. cbn in Ht. lia.
Qed.

Lemma finds_all nm rs es : Forall entry_wf es → Forall run_wf rs → finds nm rs es.
Proof using Hw Hruns.
  intros Hes Hrs. revert es Hes. induction Hrs as [|r rs Hr _ IH]; intros es Hes; induction Hes as [|e es He Hes IHes].
  2, 4: by apply finds_entry.
  all: intros turns h pre f Hf E Hh Hc Ht; change (len (@nil sq_entry)) with 0 in *; rewrite Z.sub_0_r; cbn [fmap list_fmap concat app] in *.
  - destruct turns as [|[|turns]]; [cbn in Ht; lia..|]. change (listing_bytes []) with (@nil Z) in E. rewrite app_nil_r in E.
    destruct (end_step turns nm h f Hf) as (f1 & Hf1 & E1). exists f1. split; [done|]. rewrite <- E. exact E1.
  - destruct turns as [|turns]; [cbn in Ht; lia|].
    change (listing_bytes (r :: rs)) with (run_bytes r ++ listing_bytes rs) in E.
    destruct (header_step turns nm h r pre (listing_bytes rs) f Hf Hr E) as (f1 & h1 & Hf1 & Hh1 & Hc1 & ->).
    change (listing_entries (r :: rs)) with (run_entries r ++ listing_entries rs) in *. rewrite length_app in Ht. cbn [length] in Ht.
    pose proof (rw_count r Hr). pose proof (IH _ (rw_entries r Hr) turns h1 (pre ++ run_header r) f1 Hf1) as IH1.
    rewrite Hc1, Z.sub_diag in IH1. apply IH1; [|done|lia|lia].
    rewrite E. unfold run_bytes. by rewrite <- !app_assoc.
Qed.

End listing.

Lemma low_block o : 0 ≤ o < 2^16 → get_inode_block_offset o = (0, o).
Proof using.
  intros Ho. unfold get_inode_block_offset. f_equal.
  - rewrite Z.shiftr_div_pow2, Z.div_small by lia. done.
  - change 0xFFFF with (2^16 - 1). rewrite land_ones_mod, Z.mod_small by lia. done.
Qed.

(** The first header, and what follows. *)
Lemma search_Ok o runs nm f : ar_listings ar !! o = Some runs → squash_ok f →
  ∃ b h f1 f2, directory_slice fuel 0 o 12 f = (Ok b, f1) ∧ DirectoryTableHeader_from b = Ok h ∧ squash_ok f2 ∧
    find_entry_loop fuel fuel 0 o (len (listing_bytes runs) + 3) nm h 0 12 f1 =
      (of_option Err (find_name nm (listing_entries runs)), f2).
Proof using Hw.
  intros Hruns Hf. destruct (aw_listings _ Hw o runs Hruns) as (H0 & Hs & Hrw & _ & Hfuel).
  destruct runs as [|r rs].
  - destruct (trailer_read o [] Hruns f Hf) as (f1 & b & h & Hf1 & E1 & Eh & Hc).
    change (len (listing_bytes [])) with 0 in E1. rewrite Z.add_0_r in E1. exists b, h, f1, f1.
    split; [done|]. split; [done|]. split; [done|]. revert Hfuel. generalize fuel at 1 3. intros [|fl] Hfuel; [lia|].
    cbn [find_entry_loop]. by rewrite (proj2 (Z.eqb_neq 0 _)).
  - apply Forall_cons in Hrw as [Hr Hrs].
    assert (listing_bytes (r :: rs) = [] ++ run_header r ++ concat (entry_bytes <$> run_entries r) ++ listing_bytes rs) as E.
    { cbn [app]. change (listing_bytes (r :: rs)) with (run_bytes r ++ listing_bytes rs). unfold run_bytes. by rewrite <- app_assoc. }
    destruct (at_listing o (r :: rs) Hruns [] _ _ E) as (Hh & _ & _). change (len []) with 0 in Hh. rewrite Z.add_0_r, len_run_header in Hh.
    destruct (directory_slice_Ok f o 12 _ Hf Hh) as (f1 & E1 & Hf1); [lia|].
    destruct (run_header_from r Hr) as (h & Eh & Hst & Hct). pose proof (rw_count r Hr).
    destruct (finds_all o (r :: rs) Hruns nm rs (run_entries r) (rw_entries r Hr) Hrs fuel h (run_header r) f1 Hf1) as (f2 & Hf2 & E2);
      [done|done|lia| |].
    { change (listing_entries (r :: rs)) with (run_entries r ++ listing_entries rs) in Hfuel. rewrite length_app in Hfuel. cbn in Hfuel. lia. }
    rewrite Hct, Z.sub_diag, len_run_header in E2. exists (run_header r), h, f1, f2. done.
Qed.

Lemma find_file_Ok i runs nm f : squash_ok f → dir_of i = Some runs →
  ∃ f', squash_ok f' ∧ find_entry_in_directory fuel i nm f = (of_option Err (find_name nm (listing_entries runs)), f').
Proof using Hw.
  intros Hf Hi. assert (∃ block o size, listing_at block o size = Some runs ∧ block = 0 ∧ size = len (listing_bytes runs) + 3 ∧
    ar_listings ar !! o = Some runs ∧
    (match i with BasicDirectory d => Ok (Z.lor (Z.shiftl (bd_block_index d) 16) (bd_block_offset d), bd_file_size d)
     | ExtendedDirectory d => Ok (Z.lor (Z.shiftl (ed_block_index d) 16) (ed_block_offset d), ed_file_size d)
     | BasicFile _ => Err end) = Ok (Z.lor (Z.shiftl block 16) o, size)) as (block & o & size & _ & -> & -> & Hl & Em).
  { assert (∀ block o size, listing_at block o size = Some runs → block = 0 ∧ size = len (listing_bytes runs) + 3 ∧ ar_listings ar !! o = Some runs) as Hat.
    { intros block o size H. unfold listing_at in H. destruct (ar_listings ar !! o) as [rs|]; [|done]. cbn [mbind option_bind] in H.
      case_decide as Hd; [|done]. injection H as ->. destruct Hd. done. }
    destruct i as [|d|d]; [done|..]; cbn [dir_of] in Hi; destruct (Hat _ _ _ Hi) as (? & ? & ?); by do 3 eexists. }
  destruct (aw_listings _ Hw o runs Hl) as (H0 & Hs & _). pose proof (slice_take _ _ _ _ Hs (len_nonneg _)) as (_ & H1 & _).
  pose proof (dirs_below f Hf). pose proof (len_nonneg (listing_bytes runs)).
  destruct (search_Ok o runs nm f Hl Hf) as (b & h & f1 & f2 & E1 & Eh & Hf2 & E2). exists f2. split; [done|].
  unfold find_entry_in_directory. rewrite Em, (bind_Ok (lift (Ok _)) _ _ _ _ eq_refl). change (Z.shiftl 0 16) with 0. rewrite Z.lor_0_l.
  rewrite (proj2 (Z.eqb_neq (_ + 3) 0)), low_block by lia. unfold DIRECTORY_HEADER_SIZE.
  rewrite (bind_Ok _ _ _ _ _ E1), Eh, (bind_Ok (lift (Ok _)) _ _ _ _ eq_refl). exact E2.
Qed.
End driver.

(** * Concrete blocks *)

Definition sample_superblock : SquashfsSuperblock :=
  mk_superblock 0x73717368 2 0 0x20000 1 CGzip 17 0xC0 1 4 0 0 200 180 u64_max 100 120 160 u64_max.
Lemma superblock_new_spec_witness :
  SquashfsSuperblock_new (superblock_bytes sample_superblock ++ [1; 2; 3]) = Ok sample_superblock ∧
  SquashfsSuperblock_new [1; 2; 3] = Panic.
Proof.
  destruct (superblock_new_spec sample_superblock [1; 2; 3] [1; 2; 3]) as [E1 E2].
  - split; split; by vm_compute.
  - split; [rewrite E1; by vm_compute|by apply E2].
Defined.

(** Two blocks of four bytes; the second starts at byte 6 of the table. *)
Definition sample_chunks : list Chunk := [raw_chunk [1; 2; 3; 4]; raw_chunk [5; 6; 7; 8]].
Lemma get_slice_spec_witness : ∃ r, get_slice uncompress_data 9 0 3 3 sample_chunks = (Ok r, sample_chunks) ∧ len r = 1.
Proof.
  destruct (get_slice_spec uncompress_data 9 (raw_chunk [1; 2; 3; 4]) [raw_chunk [5; 6; 7; 8]] [1; 2; 3; 4] 3 3) as (r & E & _ & Hl & _).
  - by apply plain_raw.
  - done.
  - done.
  - done.
  - exists r. split; [exact E|]. by rewrite Hl.
Defined.

(** Of blocks of four and five bytes the third starts at byte 13. *)
Lemma later_block_lost_witness : ∃ cks,
  get_slice uncompress_data 1000 13 0 2 [raw_chunk [1; 2; 3; 4]; raw_chunk [1; 2; 3; 4; 5]; raw_chunk [9; 9]] = (NoFuel, cks).
Proof.
  eexists. apply (later_block_lost uncompress_data 1000 (raw_chunk [1; 2; 3; 4]) _ 4).
  - by vm_compute.
  - done.
  - intros [k Hk]. lia.
  - done.
Defined.
