(* ===== verification/Initramfs.v ===== *)
(** The initramfs behind the VFS: a well-formed squashfs archive in memory is
    accepted by [Squashfs::new] (src/src/drivers/fs/initramfs/mod.rs), the driver
    then keeps the contract of Vfs.v, and files opened by path after boot's
    [init] and mount are the archive's. *)

From S2P Require Import Prelude Mem Gzip Vfs Squashfs.

(** * File contents *)

(** Stored bytes that unpack to [bytes]. *)
Definition unpacks (compressed : bool) (stored bytes : list Z) : Prop :=
  if compressed then uncompress_data stored = Ok bytes else stored = bytes.

(** The first entry of the fragment table, and the block it points at. *)
Record fragment_wf (ram : Z → Z) (ptr : Z) (sb : SquashfsSuperblock) (table frag : list Z) : Prop := {
  fw_table : ∃ (p : Z) (ft : list Z) (h : Z) (packed entry : list Z) (fs fsz : Z) (stored rest : list Z),
    table = le_bytes 8 p ++ ft ∧ fits 64 p ∧
    (uncompressed_fragments (features sb) = true ∨ uncompress_data table = Err) ∧
    holds ram (u64 (ptr + p)) (le_bytes 2 h ++ packed) ∧ fits 16 h ∧ Z.land h 0x7FFF = len packed ∧
    unpacks (Z.land h 0x8000 =? 0) packed entry ∧
    entry = le_bytes 8 fs ++ le_bytes 4 fsz ++ rest ∧ fits 64 fs ∧ fits 32 fsz ∧
    holds ram (u64 (ptr + fs)) stored ∧ Z.land fsz 0xFEFFFFFF = len stored ∧ 2 ≤ len stored ∧
    unpacks (Z.land fsz (Z.shiftl 1 24) =? 0) stored frag;
}.

Lemma decompressed_table_Ok f (table packed bytes : list Z) (meta : bool) (c : option bool) : compressor (superblock f) = CGzip → 2 ≤ len table →
  (if meta then ∃ h, table = le_bytes 2 h ++ packed ∧ fits 16 h ∧ c = None ∧ unpacks (Z.land h 0x8000 =? 0) packed bytes
   else ∃ b, table = packed ∧ c = Some b ∧ unpacks b packed bytes) →
  get_decompressed_table f table meta c = Ok bytes.
Proof.
  intros Hg Hl H. unfold get_decompressed_table.
  assert (∃ hd, read_le table 0 2 = Ok hd) as [hd Ehd] by (unfold read_le; rewrite slice_Ok by lia; by eexists).
  rewrite Ehd. cbn [mbind outcome_bind]. destruct meta; cbn [negb].
  - destruct H as (h & -> & Hh & -> & Hu). unfold read_le in Ehd. rewrite slice_here in Ehd by done.
    change (Ok (le_value (le_bytes 2 h)) = Ok hd) in Ehd. rewrite le_value_le_bytes in Ehd by done. injection Ehd as <-.
    cbn [mbind outcome_bind].
    unfold slice_from. rewrite (slice_skip (le_bytes 2 h) packed 2 _ 2 0 (len packed)) by (rewrite ?len_app, ?len_le_bytes; lia).
    rewrite <- (app_nil_r packed) at 1. rewrite slice_here by done. cbn [mbind outcome_bind].
    unfold unpacks in Hu. destruct (Z.land h 0x8000 =? 0); [by rewrite Hg, Hu|by rewrite Hu].
  - destruct H as (b & -> & -> & Hu). cbn [of_option mbind outcome_bind]. unfold unpacks in Hu.
    destruct b; [by rewrite Hg, Hu|by rewrite Hu].
Qed.

Lemma file_block_Ok ram f table frag file : fragment_wf ram (start f) (superblock f) table frag → compressor (superblock f) = CGzip →
  fragment_table f = Some table → frag_idx file = 0 → file_block ram f file = Ok frag.
Proof.
  intros [(p & ft & h & packed & entry & fs & fsz & stored & rest & -> & Hp & Hu & Hh & Hfh & Hl & Hun & Ee & Hfs & Hfz & Hst & Hls & H2 & Hfrag)] Hg Et H0.
  unfold file_block. rewrite H0, Et. cbn [Z.eqb of_option mbind outcome_bind u32_max].
  assert (get_decompressed_table f (le_bytes 8 p ++ ft) false (Some (negb (uncompressed_fragments (features (superblock f))))) =
    Ok (le_bytes 8 p ++ ft)) as ->.
  { unfold get_decompressed_table, read_le. rewrite slice_Ok by (rewrite ?len_app, ?len_le_bytes; pose proof (len_nonneg ft); lia).
    cbn [mbind outcome_bind fmap outcome_fmap negb of_option].
    destruct Hu as [->|Hu]; [done|]. rewrite Hg, Hu. by destruct (negb _). }
  cbn [mbind outcome_bind].
  assert (read_le (le_bytes 8 p ++ ft) 0 (u32 (0 + 8)) = Ok p) as -> by (change (u32 (0 + 8)) with 8; by layout).
  cbn [mbind outcome_bind].
  assert (len packed < 2^15) as Hpk.
  { rewrite <- Hl. change 0x7FFF with (2^15 - 1). rewrite land_ones_mod by done. by apply Z.mod_pos_bound. }
  assert (read_mem ram (u64 (start f + p)) 2 = h) as ->.
  { apply holds_le; [done|]. by apply holds_app in Hh as [? _]. }
  rewrite Hl. assert (read_bytes ram (u64 (start f + p)) (Z.to_nat (len packed + 2)) = le_bytes 2 h ++ packed) as ->.
  { unfold holds in Hh. rewrite length_app, length_le_bytes in Hh. rewrite <- Hh at 1. f_equal. unfold len. lia. }
  rewrite (decompressed_table_Ok f _ packed entry true None); [|done| |by exists h].
  2: { rewrite len_app, len_le_bytes. pose proof (len_nonneg packed). lia. }
  cbn [mbind outcome_bind]. rewrite Ee.
  assert (read_le (le_bytes 8 fs ++ le_bytes 4 fsz ++ rest) 0 8 = Ok fs) as -> by by layout.
  assert (read_le (le_bytes 8 fs ++ le_bytes 4 fsz ++ rest) 8 12 = Ok fsz) as -> by by layout.
  cbn [mbind outcome_bind]. rewrite Hls.
  assert (read_bytes ram (u64 (start f + fs)) (Z.to_nat (len stored)) = stored) as -> by by rewrite to_nat_len.
  apply (decompressed_table_Ok f _ stored); [done..|]. by eexists.
Qed.

(** * The contract *)

Section driver.
Context (ram : Z → Z) (fuel : nat) (f0 : Squashfs) (ar : archive) (root : Inode) (ft : list Z).
#[local] Instance driver_ops : FsOps Squashfs Inode := squash_driver ram fuel.

(** What a well-formed archive holds, as the VFS sees it. *)
Definition squash_typ (i : Inode) : VNodeType :=
  match i with
  | BasicFile file => if decide (file_ok ar file) then Regular else Bad
  | _ => if bool_decide (is_Some (dir_of ar i)) then Directory else Bad
  end.
Definition squash_entry (i : Inode) (nm : str) : option Inode :=
  runs ← dir_of ar i; find_name ar nm (listing_entries runs).
Definition squash_data (i : Inode) : list Z :=
  match i with
  | BasicFile file => take (Z.to_nat (bf_file_size file)) (drop (Z.to_nat (bf_block_offset file)) (ar_frag ar))
  | _ => []
  end.
Definition archive_view : FsView Inode := mk_view root squash_typ squash_entry squash_data (λ _ _ _, true).
Definition squash_inv (mounted : bool) (f : Squashfs) : Prop := squash_ok f0 ar f.

Context (Hw : archive_wf fuel ar (superblock f0)) (Hroot : ar_table ar !! root_inode (superblock f0) = Some root)
  (Hfrag : fragment_wf ram (start f0) (superblock f0) ft (ar_frag ar))
  (Hft : fragment_table f0 = Some ft) (Hg : compressor (superblock f0) = CGzip).

Lemma table_typ off i : ar_table ar !! off = Some i → squash_typ i = inode_typ i.
Proof using Hw.
  intros Hi. destruct (aw_table _ _ _ Hw off i Hi) as (_ & _ & Hok & _). unfold squash_typ.
  destruct i; cbn [inode_ok inode_typ] in *; [by rewrite decide_True|by rewrite bool_decide_true..].
Qed.

Lemma entry_in_table i nm j : squash_entry i nm = Some j → ∃ off, ar_table ar !! off = Some j.
Proof using.
  unfold squash_entry. destruct (dir_of ar i) as [runs|]; [|done]. cbn [mbind option_bind].
  induction (listing_entries runs) as [|e es IH]; [done|]. cbn [find_name]. destruct (has_name nm e); [by eexists|done].
Qed.

Lemma read_root f : squash_ok f0 ar f → ∃ f', read_root_dir fuel f = (Ok root, f') ∧ squash_ok f0 ar f'.
Proof using Hw Hroot.
  intros Hf. unfold read_root_dir. rewrite (bind_Ok (gets _) _ _ _ _ eq_refl).
  assert (superblock f = superblock f0) as -> by by destruct Hf as (c & cs & d & d2 & ds & -> & _).
  apply (read_inode_Ok fuel f0 ar (superblock f0)); [done..|]. destruct (aw_table _ _ _ Hw _ _ Hroot) as (H0 & _ & _ & perm & _ & Hs).
  destruct Hf as (c & cs & _ & _ & _ & _ & [_ Hl] & _). destruct (slice_take _ _ _ _ Hs) as (_ & Hb & _); [by destruct root|].
  assert (0 < inode_size root) by by destruct root. lia.
Qed.

Lemma read_file_Ok f file count offset : squash_ok f0 ar f → file_ok ar file → 0 ≤ count → 0 ≤ offset → offset + count ≤ bf_file_size file →
  squash_read ram f (BasicFile file) count offset = Ok (take (Z.to_nat count) (drop (Z.to_nat offset) (squash_data (BasicFile file)))).
Proof using Hfrag Hft Hg.
  intros Hf (H0 & H1 & H2 & H3 & H4) Hc Ho Hb. unfold squash_read.
  assert ((count <? 2^63) = true) as -> by lia. cbn [rassert mbind outcome_bind].
  assert (file_block ram f (file) = Ok (ar_frag ar)) as ->.
  { destruct Hf as (c & cs & d & d2 & ds & -> & _). by apply (file_block_Ok ram _ ft). } cbn [mbind outcome_bind]. rewrite !u64_small by lia.
  rewrite slice_Ok by lia. f_equal. cbn [squash_data]. rewrite skipn_firstn_comm, take_take, drop_drop. f_equal; [lia|f_equal; lia].
Qed.

Lemma lookup_dir_Ok f i nm : squash_ok f0 ar f → squash_typ i = Directory →
  ∃ f', squash_lookup fuel i nm f =
    (match squash_entry i nm with Some j => Ok (j, squash_typ j) | None => Err end, f') ∧ squash_ok f0 ar f'.
Proof using Hw.
  intros Hf Ht. assert (is_Some (dir_of ar i)) as [runs Hr].
  { destruct i as [file|d|d]; cbn [squash_typ] in Ht; [by case_decide|by case_bool_decide..]. }
  destruct (find_file_Ok fuel f0 ar _ Hw i runs nm f Hf Hr) as (f' & Hf' & E). exists f'. split; [|done].
  assert (squash_entry i nm = find_name ar nm (listing_entries runs)) as Ee by (unfold squash_entry; by rewrite Hr).
  assert (squash_lookup fuel i nm f = (j ← find_entry_in_directory fuel i nm; mret (j, inode_typ j)) f) as ->
    by (destruct i; [done|reflexivity..]).
  rewrite Ee. destruct (find_name ar nm (listing_entries runs)) as [j|] eqn:Ej.
  - rewrite (bind_Ok _ _ _ _ _ E). apply entry_in_table in Ee as [off Hj].
    by rewrite (table_typ off j Hj).
  - by rewrite (bind_Err _ _ _ _ E).
Qed.

Lemma squash_keeps_contract : FsSpec Squashfs Inode squash_inv (λ _, archive_view).
Proof using Hw Hroot Hfrag Hft Hg.
  constructor.
  - intros m f _. destruct (aw_root _ _ _ Hw) as (i & Hi & Hd). cbn. replace root with i by congruence.
    unfold squash_typ. destruct i; [by destruct Hd|by rewrite bool_decide_true..].
  - intros m f i nm j _ _ Hj. cbn in *. apply entry_in_table in Hj as [off Hj]. rewrite (table_typ off j Hj).
    destruct j; cbn; auto.
  - intros m f Hf. by exists f.
  - intros m f Hf. destruct (read_root f Hf) as (f' & E & Hf'). exists f'. split; [|done].
    cbn [fs_root driver_ops squash_driver]. by rewrite (bind_Ok _ _ _ _ _ E).
  - intros f i nm Hf Ht. destruct (lookup_dir_Ok f i nm Hf Ht) as (f' & E & Hf'). by exists f'.
  - intros f i nm Hf Ht. cbn in *. unfold squash_typ in Ht. destruct i; [done|by case_bool_decide..].
  - done.
  - done.
  - intros f i n count offset Hf Ht Hn Hpos Hc Ho Hb _. exists f. split; [|done]. cbn in *.
    destruct i as [file|d|d]; [|done..]. injection Hn as <-. unfold squash_typ in Ht. case_decide as Hok; [|done].
    by rewrite read_file_Ok.
Qed.
End driver.

(** * Loading the archive *)

(** The table after the fragment table. *)
Definition after_frags (sb : SquashfsSuperblock) : Z := if export_table sb =? u64_max then id_table sb else export_table sb.
(** A metadata block as the format stores it. *)
Definition block_wf (c : Chunk) : Prop := ∃ (h : Z) (b : list Z), fits 16 h ∧ c = le_bytes 2 h ++ b ∧ Z.land h 0x7FFF = len b.

(** The bytes [data] lie at [ptr]; the tables follow one another in the order the
    driver expects, and the inode and directory tables are whole blocks. *)
Record image_wf (ram : Z → Z) (ptr : Z) (sb : SquashfsSuperblock) (data : list Z)
    (icks dcks : list Chunk) (ft : list Z) : Prop := {
  iw_memory : holds ram ptr data;
  iw_superblock : ∃ rest, data = superblock_bytes sb ++ rest;
  iw_fits : superblock_fits sb;
  iw_valid : superblock_valid sb = true;
  iw_gzip : compressor sb = CGzip;
  iw_used : bytes_used sb = len data;
  iw_order : SUPERBLOCK_SIZE ≤ inode_table sb ≤ dir_table sb ∧ dir_table sb ≤ frag_table sb ≤ after_frags sb ∧
    after_frags sb ≤ id_table sb ≤ len data ∧ frag_table sb ≠ u64_max ∧
    (xattr_table sb ≠ u64_max → id_table sb ≤ xattr_table sb ≤ len data);
  iw_inodes : slice data (inode_table sb) (dir_table sb) = Ok (concat icks) ∧ Forall block_wf icks;
  iw_dirs : slice data (dir_table sb) (frag_table sb) = Ok (concat dcks) ∧ Forall block_wf dcks;
  iw_frags : slice data (frag_table sb) (after_frags sb) = Ok ft;
}.

Lemma reader_new cks : Forall block_wf cks → ChunkReader_new (concat cks) = Ok cks.
Proof.
  intros H. unfold ChunkReader_new. change 0 with (len (@nil Z)). change (concat cks) with ([] ++ concat cks) at 2.
  rewrite (chunks_loop_spec _ [] cks []); [done|done|].
  induction H as [|c cks (h & b & _ & -> & _) _ IH]; [cbn; lia|]. cbn [concat length]. rewrite length_app.
  rewrite length_app, length_le_bytes. lia.
Qed.

Lemma used_bytes ram ptr sb rest : fits 64 (bytes_used sb) → holds ram ptr (superblock_bytes sb ++ rest) →
  read_mem ram (ptr + 40) 8 = bytes_used sb.
Proof.
  intros Hf Hh. unfold superblock_bytes in Hh. rewrite <- !app_assoc in Hh. apply holds_le; [done|].
  do 12 (apply holds_app in Hh as [_ Hh]; rewrite len_le_bytes in Hh). apply holds_app in Hh as [Hh _].
  replace (ptr + 40) with (ptr + Z.of_nat 4 + Z.of_nat 4 + Z.of_nat 4 + Z.of_nat 4 + Z.of_nat 4 + Z.of_nat 2 + Z.of_nat 2 +
    Z.of_nat 2 + Z.of_nat 2 + Z.of_nat 2 + Z.of_nat 2 + Z.of_nat 8) by lia. exact Hh.
Qed.

Lemma squashfs_new_Ok ram ptr sb data icks dcks ft : image_wf ram ptr sb data icks dcks ft →
  ∃ f, Squashfs_new ram ptr = Ok f ∧ superblock f = sb ∧ start f = ptr ∧ inode_chunks f = icks ∧
    directory_chunks f = dcks ∧ fragment_table f = Some ft.
Proof.
  intros [Hm [rest Hd] Hf Hv Hg Hu (Ho1 & Ho2 & Ho3 & Hnf & Hx) [Hi Hic] [Hdi Hdc] Hfr].
  unfold SUPERBLOCK_SIZE in Ho1. unfold Squashfs_new. rewrite Hd in Hm. rewrite (used_bytes ram ptr sb rest (sf_used _ Hf) Hm), Hu, to_nat_len.
  rewrite <- Hd in Hm. rewrite Hm, Hd, superblock_new_Ok, Hv, <- Hd by done. cbn [mbind outcome_bind].
  rewrite bool_decide_true by done. cbn [rassert mbind outcome_bind].
  assert (∃ d, slice data SUPERBLOCK_SIZE (inode_table sb) = Ok d) as [d ->] by (unfold SUPERBLOCK_SIZE; rewrite slice_Ok by lia; by eexists).
  cbn [mbind outcome_bind]. unfold tables_of, after_frags in *. rewrite (proj2 (Z.eqb_neq (frag_table sb) _)) by done. cbn [negb app].
  assert ((xattr_table sb =? u64_max) = false → id_table sb ≤ xattr_table sb ≤ len data) as Hx' by (intros ?%Z.eqb_neq; auto).
  clear Hx. destruct (export_table sb =? u64_max), (xattr_table sb =? u64_max); cbn [negb app load_tables];
    try specialize (Hx' eq_refl);
    rewrite Hi, Hdi; cbn [mbind outcome_bind load_table]; rewrite (reader_new _ Hic), (reader_new _ Hdc); cbn [mbind outcome_bind mret outcome_ret].
  all: rewrite Hfr; cbn [mbind outcome_bind]; unfold slice_from; rewrite !slice_Ok by lia; cbn; eexists; split_and!; reflexivity.
Qed.

(** The first blocks of a table unpack to the given contents. *)
Definition blocks_hold (cks : list Chunk) (contents : list (list Z)) : Prop :=
  ∃ first rest, cks = first ++ rest ∧ Forall2 (plain uncompress_data) first contents.

(** A well-formed archive is loaded into a file system that keeps the contract. *)
Lemma initramfs_ready ram fuel ptr sb data icks dcks ft ar root :
  image_wf ram ptr sb data icks dcks ft →
  blocks_hold icks [ar_inodes ar] → blocks_hold dcks [ar_dirs ar; ar_next ar] →
  archive_wf fuel ar sb → ar_table ar !! root_inode sb = Some root → fragment_wf ram ptr sb ft (ar_frag ar) →
  let _ := squash_driver ram fuel in
  ∃ f, initramfs_init ram (Some ptr) = Ok f ∧ squash_inv f ar false f ∧
    FsSpec Squashfs Inode (squash_inv f ar) (λ _, archive_view ar root).
Proof.
  intros Hi (l1 & cs & Ec & Hc) (l2 & ds & Ed & Hd) Hw Hroot Hfrag ops.
  destruct (squashfs_new_Ok ram ptr sb data icks dcks ft Hi) as (f & E & <- & Eptr & Ei & Edc & Eft).
  inversion Hc as [|c ? ? ? Hc1 Hnil]; subst. inversion Hnil; subst. inversion Hd as [|d ? ? ? Hd1 Hd']; subst.
  inversion Hd' as [|d2 ? ? ? Hd2 Hnil2]; subst. inversion Hnil2; subst.
  exists f. split; [unfold initramfs_init; cbn; by rewrite E|]. split.
  - exists c, cs, d, d2, ds. split; [|done]. cbn in Ei, Edc. rewrite <- Ei, <- Edc. by destruct f.
  - by apply (squash_keeps_contract ram fuel f ar root ft Hw Hroot Hfrag Eft (iw_gzip _ _ _ _ _ _ _ Hi)).
Qed.


(** * A concrete archive *)

(** One directory with one file "init" of five bytes, in the only fragment. *)
Definition demo_file : BasicFileInode := mk_basic_file (mk_inode_header BasicFileType 0 2) 0 0 0 5.
Definition demo_root : Inode := BasicDirectory (mk_basic_dir (mk_inode_header BasicDirectoryType 0 1) 0 2 27 0 3).
Definition demo_runs : list sq_run := [mk_sq_run 0 1 [mk_sq_entry 32 1 BasicFileType (chars "init")]].
Definition demo_perm : list Z := replicate 6 0.
Definition demo_archive : archive :=
  mk_archive (inode_record demo_root demo_perm ++ inode_record (BasicFile demo_file) demo_perm) (listing_bytes demo_runs)
    (le_bytes 8 96 ++ le_bytes 4 (5 + 2^24) ++ le_bytes 4 0) (chars "hello")
    {[ 0 := demo_root; 32 := BasicFile demo_file ]} {[ 0 := demo_runs ]}.
Definition demo_sb : SquashfsSuperblock :=
  mk_superblock 0x73717368 2 0 0x20000 1 CGzip 17 0 1 4 0 0 227 219 u64_max 101 167 211 u64_max.
Definition demo_icks : list Chunk := [raw_chunk (ar_inodes demo_archive)].
Definition demo_dcks : list Chunk := [raw_chunk (ar_dirs demo_archive); raw_chunk (ar_next demo_archive)].
Definition demo_data : list Z :=
  superblock_bytes demo_sb ++ chars "hello" ++ concat demo_icks ++ concat demo_dcks ++ le_bytes 8 193 ++ le_bytes 8 0.
Definition demo_memory (a : Z) : Z := nth (Z.to_nat (a - 0x1000)) demo_data 0.

Lemma demo_superblock_fits : superblock_fits demo_sb.
Proof. split; split; by vm_compute. Qed.

Lemma demo_blocks : Forall block_wf demo_icks ∧ Forall block_wf demo_dcks.
Proof.
  split; repeat constructor; do 2 eexists; (split; [|split; [reflexivity|]]); [split| |split| |split|]; by vm_compute.
Qed.

Lemma demo_image : image_wf demo_memory 0x1000 demo_sb demo_data demo_icks demo_dcks (le_bytes 8 193).
Proof.
  destruct demo_blocks. split.
  - by vm_compute.
  - by eexists.
  - exact demo_superblock_fits.
  - by vm_compute.
  - by vm_compute.
  - by vm_compute.
  - split_and!; computed.
  - split; [by vm_compute|done].
  - split; [by vm_compute|done].
  - by vm_compute.
Qed.

Lemma demo_inode_fits : inode_fits demo_root ∧ inode_fits (BasicFile demo_file).
Proof. split; cbn; split_and!; computed. Qed.

Lemma demo_run_wf : Forall (run_wf demo_archive) demo_runs.
Proof.
  constructor; [|constructor]. split; [done|split; computed|split; computed|].
  constructor; [|constructor]. split; [split; computed|split; computed|split; computed|by eexists|by eexists].
Qed.

Lemma demo_archive_wf : archive_wf 10 demo_archive demo_sb.
Proof.
  destruct demo_inode_fits as [Hr Hf]. split.
  - split; apply (bool_decide_unpack _); by vm_compute.
  - intros off i Hi. cbn in Hi. apply lookup_insert_Some in Hi as [[<- <-]|[_ [<- <-]%lookup_singleton_Some]].
    + split; [done|]. split; [done|]. split; [by eexists|]. exists demo_perm. by split.
    + split; [done|]. split; [done|]. split; [split_and!; computed|]. exists demo_perm. by split.
  - intros o runs Hl. cbn in Hl. apply lookup_singleton_Some in Hl as [<- <-]. split; [done|]. split; [done|].
    split; [exact demo_run_wf|]. split; [|cbn; lia]. right. split_and!; computed.
  - exists demo_root. split; [done|by eexists].
Qed.

Lemma demo_fragment : fragment_wf demo_memory 0x1000 demo_sb (le_bytes 8 193) (ar_frag demo_archive).
Proof.
  split. exists 193, [], (16 + 2^15), (ar_next demo_archive), (ar_next demo_archive), 96, (5 + 2^24), (chars "hello"), (le_bytes 4 0).
  split; [done|]. split; [split; computed|]. split; [right; by vm_compute|]. split; [by vm_compute|]. split; [split; computed|].
  split; [by vm_compute|]. split; [by vm_compute|]. split; [by vm_compute|]. split; [split; computed|]. split; [split; computed|].
  split; [by vm_compute|]. split; [by vm_compute|]. split; [computed|]. by vm_compute.
Qed.

