(* ===== verification/Io.v ===== *)
(** src/src/arch/x86_64/io.rs: port and memory-mapped device access.

    The devices themselves are parameters: [M] is the state of everything behind
    the ports, [IoPorts] the [in]/[out] instructions on it and [Mmio] the volatile
    accesses to device registers in memory.  A driver is a program over [M], and
    what it needs of its device is a hypothesis where the driver is verified. *)

From S2P Require Import Prelude.

(** The [in]/[out] instructions: [inb], [outb], [inw], [outw], [inl], [outl]. *)
Class IoPorts (M : Type) := {
  inb : Z → prog M Z;
  inw : Z → prog M Z;
  inl : Z → prog M Z;
  outb : Z → Z → prog M unit;
  outw : Z → Z → prog M unit;
  outl : Z → Z → prog M unit;
}.

(** Volatile 32-bit accesses at a virtual address. *)
Class Mmio (M : Type) := {
  mmio_read : Z → prog M Z;
  mmio_write : Z → Z → prog M unit;
}.

Section string_io.
Context {M : Type} `{IoPorts M}.

(** One word stored at byte [at_] of the buffer; there is no bounds check, so a
    store past its end is undefined. *)
Definition store_word (buffer : list Z) (at_ w : Z) : outcome (list Z) :=
  if decide (0 ≤ at_ ∧ at_ + 2 ≤ len buffer)
  then Ok (<[Z.to_nat (at_ + 1) := w / 2^8]> (<[Z.to_nat at_ := w mod 2^8]> buffer)) else Undef.

Definition load_word (buffer : list Z) (at_ : Z) : outcome Z :=
  if decide (0 ≤ at_ ∧ at_ + 2 ≤ len buffer)
  then le_value <$> slice buffer at_ (at_ + 2) else Undef.

(** [cld; rep insw] with the destination at byte [at_] of [buffer]. *)
Fixpoint insw (port : Z) (buffer : list Z) (at_ : Z) (count : nat) : prog M (list Z) :=
  match count with
  | O => mret buffer
  | S count' =>
      w ← inw port;
      buffer' ← lift (store_word buffer at_ w);
      insw port buffer' (at_ + 2) count'
  end.

(** [cld; rep outsb]. *)
Fixpoint outsb (port : Z) (bytes : list Z) : prog M unit :=
  match bytes with
  | [] => mret tt
  | b :: bytes' => outb port b ;; outsb port bytes'
  end.

(** [cld; rep outsw] with the source at byte [at_] of [buffer]. *)
Fixpoint outsw (port : Z) (buffer : list Z) (at_ : Z) (count : nat) : prog M unit :=
  match count with
  | O => mret tt
  | S count' =>
      w ← lift (load_word buffer at_);
      outw port w ;;
      outsw port buffer (at_ + 2) count'
  end.

Definition io_wait : prog M unit := outb 0x80 0.

End string_io.

(** ** Loops that poll a device *)

(** [while cond { body }]; the source puts no bound on the polls. *)
Fixpoint while_loop {S : Type} (fuel : nat) (cond : prog S bool) (body : prog S unit) : prog S unit :=
  match fuel with
  | O => lift NoFuel
  | Datatypes.S fuel' => 
      cond ≫= λ c : bool, if c then body ;; while_loop fuel' cond body else mret tt
  end.

(** The loop ends once the condition does, if each poll decreases a measure. *)
Lemma while_loop_Ok {S : Type} (I : S → Prop) (μ : S → nat) (cond : prog S bool) (body : prog S unit) s fuel :
  (∀ s, I s → (∃ s', cond s = (Ok false, s') ∧ I s') ∨
     ∃ s1 s', cond s = (Ok true, s1) ∧ body s1 = (Ok tt, s') ∧ I s' ∧ (μ s' < μ s)%nat) →
  I s → (μ s < fuel)%nat → ∃ s', while_loop fuel cond body s = (Ok tt, s') ∧ I s'.
Proof.
  intros Hstep. revert s. induction fuel as [|fuel IH]; intros s Hs Hf; [lia|]. cbn [while_loop].
  destruct (Hstep s Hs) as [(s' & E & Hi)|(s1 & s' & E & Eb & Hi & Hm)].
  - exists s'. by rewrite (bind_Ok _ _ _ _ _ E).
  - rewrite (bind_Ok _ _ _ _ _ E), (bind_Ok _ _ _ _ _ Eb). apply IH; [done|lia].
Qed.

(** ** Code on one part of the state *)

Definition on_fst {S T A : Type} (m : prog S A) : prog (S * T) A := λ st,
  let '(o, s') := m st.1 in (o, (s', st.2)).
Definition on_snd {S T A : Type} (m : prog T A) : prog (S * T) A := λ st,
  let '(o, t') := m st.2 in (o, (st.1, t')).

Lemma on_fst_eq {S T A} (m : prog S A) s (t : T) o s' : m s = (o, s') → on_fst m (s, t) = (o, (s', t)).
Proof. intros E. unfold on_fst. cbn. by rewrite E. Qed.
Lemma on_snd_eq {S T A} (m : prog T A) (s : S) t o t' : m t = (o, t') → on_snd m (s, t) = (o, (s, t')).
Proof. intros E. unfold on_snd. cbn. by rewrite E. Qed.
(** A step of one part. *)
Lemma step_fst {S T A B} (m : prog S A) (k : A → prog (S * T) B) s (t : T) a s' :
  m s = (Ok a, s') → (on_fst m ≫= k) (s, t) = k a (s', t).
Proof. intros E. by rewrite (bind_Ok _ _ _ _ _ (on_fst_eq m s t _ _ E)). Qed.
Lemma step_snd {S T A B} (m : prog T A) (k : A → prog (S * T) B) (s : S) t a t' :
  m t = (Ok a, t') → (on_snd m ≫= k) (s, t) = k a (s, t').
Proof. intros E. by rewrite (bind_Ok _ _ _ _ _ (on_snd_eq m s t _ _ E)). Qed.

Lemma repeat_n_add {S : Type} n k (body : prog S unit) s :
  repeat_n (n + k) body s = (repeat_n n body ;; repeat_n k body) s.
Proof.
  revert s. induction n as [|n IH]; intros s; [done|]. cbn [repeat_n Nat.add]. rewrite bind_assoc.
  unfold mbind at 1 2, prog_bind at 1 2. destruct (body s) as [[] ?]; auto.
Qed.
