(* ===== verification/Interrupts.v ===== *)
(** src/src/arch/x86_64/gdt.rs, interrupts/mod.rs, interrupts/exceptions.rs: the
    descriptor tables the kernel boots with.

    [Cpu] holds the statics [GDT], [GDTR], [IDT], [IDT_PTR] and the two table
    registers; a handler is its address.  The tables are read back the way the
    processor reads them, from their bytes. *)

From S2P Require Import Prelude.

(** ** The interrupt descriptor table *)

Record IdtEntry := mk_idt_entry {
  base_lo : Z;
  sel : Z;
  ist : Z;
  idt_flags : Z;
  idt_base_mid : Z;
  base_hi : Z;
  always0 : Z;
}.

Definition IdtEntry_new : IdtEntry := mk_idt_entry 0 0 0 0 0 0 0.

(** [repr(C, packed)] *)
Definition IdtEntry_bytes (e : IdtEntry) : list Z :=
  le_bytes 2 (base_lo e) ++ le_bytes 2 (sel e) ++ [ist e; idt_flags e] ++
  le_bytes 2 (idt_base_mid e) ++ le_bytes 4 (base_hi e) ++ le_bytes 4 (always0 e).

Definition IDT_ENTRY_SIZE : Z := 16.

(** [InterruptIndex as u8] *)
Inductive InterruptIndex := Timer | Keyboard.
Definition as_u8 (i : InterruptIndex) : Z :=
  match i with Timer => 32 | Keyboard => 33 end.

(** ** The global descriptor table *)

Record GDTDescriptor := mk_gdt_descriptor {
  limit : Z;
  base_low : Z;
  base_mid : Z;
  access : Z;
  granularity : Z;
  base_high : Z;
}.

Definition GDTDescriptor_default : GDTDescriptor := mk_gdt_descriptor 0 0 0 0 0 0.

Definition GDTDescriptor_bytes (d : GDTDescriptor) : list Z :=
  le_bytes 2 (limit d) ++ le_bytes 2 (base_low d) ++
  [base_mid d; access d; granularity d; base_high d].

Record TSSDescriptor := mk_tss_descriptor {
  tss_length : Z;
  tss_base_low : Z;
  tss_base_mid : Z;
  flags1 : Z;
  flags2 : Z;
  tss_base_high : Z;
  base_upper : Z;
  tss_reserved : Z;
}.

Definition TSSDescriptor_default : TSSDescriptor := mk_tss_descriptor 0 0 0 0 0 0 0 0.

Definition TSSDescriptor_bytes (d : TSSDescriptor) : list Z :=
  le_bytes 2 (tss_length d) ++ le_bytes 2 (tss_base_low d) ++
  [tss_base_mid d; flags1 d; flags2 d; tss_base_high d] ++
  le_bytes 4 (base_upper d) ++ le_bytes 4 (tss_reserved d).

Record GDT := mk_gdt { descriptors : list GDTDescriptor; tss : TSSDescriptor }.

Definition GDT_default : GDT := mk_gdt (replicate 11 GDTDescriptor_default) TSSDescriptor_default.

Definition GDT_bytes (g : GDT) : list Z :=
  concat (GDTDescriptor_bytes <$> descriptors g) ++ TSSDescriptor_bytes (tss g).

(** ** The statics and the table registers *)

(** A table pointer is its limit and base; [idtr] and [gdtr] are the registers
    [lidt] and [lgdt] load, and [cs] the code selector the far return sets. *)
Record Cpu := mk_cpu {
  IDT : list IdtEntry;
  IDT_PTR : Z * Z;
  idtr : Z * Z;
  GDT_ : option GDT;
  GDTR : Z * Z;
  gdtr : Z * Z;
  cs : Z;
  data_segments : Z;
}.

(** Where the linker puts the statics and the handlers. *)
Record Symbols := {
  idt_address : Z;
  gdt_address : Z;
  null_interrupt_handler : Z;
  syscall : Z;
  generic_handler : Z;
  div_error : Z;
  invalid_opcode : Z;
  double_fault : Z;
  general_protection_fault : Z;
  page_fault : Z;
  keyboard_interrupt_handler : Z;
}.

(** At reset: the statics' initial values; the registers are the boot loader's. *)
Definition cpu_reset (idtr0 gdtr0 : Z * Z) (cs0 ds0 : Z) : Cpu :=
  mk_cpu (replicate 256 IdtEntry_new) (IDT_ENTRY_SIZE * 256 - 1, 0) idtr0 None (0, 0) gdtr0 cs0 ds0.

Definition set_IDT (f : list IdtEntry → list IdtEntry) : prog Cpu unit := modify (λ c,
  mk_cpu (f (IDT c)) (IDT_PTR c) (idtr c) (GDT_ c) (GDTR c) (gdtr c) (cs c) (data_segments c)).

Definition idt_set_gate (num function_ptr : Z) : prog Cpu unit :=
  let base := function_ptr in
  let entry := mk_idt_entry (Z.land base 0xFFFF) 0x28 0 0xEE
    (Z.land (Z.shiftr base 16) 0xFFFF) (Z.land (Z.shiftr base 32) 0xFFFFFFFF) 0 in
  c ← get;
  idt ← lift (store (IDT c) num entry);
  set_IDT (λ _, idt).

Section init.
Context (sym : Symbols).

(** [lidt]: the register takes what [IDT_PTR] holds. *)
Definition lidt : prog Cpu unit := modify (λ c,
  mk_cpu (IDT c) (IDT_PTR c) (IDT_PTR c) (GDT_ c) (GDTR c) (gdtr c) (cs c) (data_segments c)).

Definition idt_init : prog Cpu unit :=
  modify (λ c, mk_cpu (IDT c) ((IDT_PTR c).1, idt_address sym) (idtr c) (GDT_ c) (GDTR c)
    (gdtr c) (cs c) (data_segments c)) ;;
  set_IDT (λ idt, replicate (Z.to_nat (len idt)) IdtEntry_new) ;;
  for_each (seqZ 0 256) (λ num, idt_set_gate num (null_interrupt_handler sym)) ;;
  idt_set_gate 0x80 (syscall sym) ;;
  lidt.

Definition exceptions_init : prog Cpu unit :=
  for_each (seqZ 0 32) (λ i, idt_set_gate i (generic_handler sym)) ;;
  idt_set_gate 0x00 (div_error sym) ;;
  idt_set_gate 0x06 (invalid_opcode sym) ;;
  idt_set_gate 0x08 (double_fault sym) ;;
  idt_set_gate 0x0D (general_protection_fault sym) ;;
  idt_set_gate 0x0E (page_fault sym).

(** [gdt.descriptors[i]] takes all six fields. *)
Definition set_descriptor (i : Z) (d : GDTDescriptor) (g : GDT) : outcome GDT :=
  ds ← store (descriptors g) i d; mret (mk_gdt ds (tss g)).

Definition gdt_reload : prog Cpu unit := modify (λ c,
  mk_cpu (IDT c) (IDT_PTR c) (idtr c) (GDT_ c) (GDTR c) (GDTR c) 0x28 0x30).

Definition gdt_entries (gdt : GDT) : outcome GDT :=
  gdt ← set_descriptor 0 (mk_gdt_descriptor 0 0 0 0 0 0) gdt;
  gdt ← set_descriptor 1 (mk_gdt_descriptor 0xFFFF 0 0 0x9A 0 0) gdt;
  gdt ← set_descriptor 2 (mk_gdt_descriptor 0xFFFF 0 0 0x92 0 0) gdt;
  gdt ← set_descriptor 3 (mk_gdt_descriptor 0xFFFF 0 0 0x9A 0xCF 0) gdt;
  gdt ← set_descriptor 4 (mk_gdt_descriptor 0xFFFF 0 0 0x92 0xCF 0) gdt;
  gdt ← set_descriptor 5 (mk_gdt_descriptor 0 0 0 0x9A 0x20 0) gdt;
  gdt ← set_descriptor 6 (mk_gdt_descriptor 0 0 0 0x92 0 0) gdt;
  gdt ← set_descriptor 9 (mk_gdt_descriptor 0 0 0 0xFA 0x20 0) gdt;
  gdt ← set_descriptor 10 (mk_gdt_descriptor 0 0 0 0xF2 0 0) gdt;
  mret (mk_gdt (descriptors gdt) (mk_tss_descriptor 104 0 0 0x89 0 0 0 0)).

Definition gdt_init : prog Cpu unit :=
  gdt ← lift (gdt_entries GDT_default);
  modify (λ c, mk_cpu (IDT c) (IDT_PTR c) (idtr c) (Some gdt)
    (len (GDT_bytes gdt) - 1, gdt_address sym) (gdtr c) (cs c) (data_segments c)) ;;
  gdt_reload.

(** The tables part of [_start], in its order. *)
Definition boot_tables : prog Cpu unit :=
  gdt_init ;; idt_init ;; exceptions_init.

End init.

(** ** The system call stub *)

Inductive reg := RDI | RSI | RDX | RCX.
#[export] Instance reg_eq_dec : EqDecision reg.
Proof. solve_decision. Defined.

Inductive instr := Push (r : reg) | Pop (r : reg) | Call.

(** The naked function's instructions, up to its [iretq]. *)
Definition syscall_code : list instr :=
  [Push RDI; Push RSI; Push RDX; Push RCX; Call; Pop RDI; Pop RSI; Pop RDX; Pop RCX].

(** Registers and stack; [callee] is what [syscall_handler], whose arguments are
    the four registers, leaves in them (they are caller-saved). *)
Definition exec (callee : (reg → Z) → reg → Z) (i : instr) (st : (reg → Z) * list Z) :
    outcome ((reg → Z) * list Z) :=
  match i with
  | Push r => Ok (st.1, st.1 r :: st.2)
  | Pop r => match st.2 with
             | x :: stack => Ok (λ r', if decide (r' = r) then x else st.1 r', stack)
             | [] => Undef
             end
  | Call => Ok (callee st.1, st.2)
  end.

Definition run_syscall (callee : (reg → Z) → reg → Z) (st : (reg → Z) * list Z) :
    outcome ((reg → Z) * list Z) :=
  foldM (λ st i, exec callee i st) st syscall_code.

(** ** Reading the tables as the processor does *)

Record Gate := mk_gate { target : Z; selector : Z; gate_type : Z; dpl : Z; present : bool }.

Definition decode_gate (bytes : list Z) : outcome Gate :=
  lo ← read_le bytes 0 2;
  sel ← read_le bytes 2 4;
  attr ← index bytes 5;
  mid ← read_le bytes 6 8;
  hi ← read_le bytes 8 12;
  mret (mk_gate (lo + 2^16 * mid + 2^32 * hi) sel (Z.land attr 0xF)
    (Z.land (Z.shiftr attr 5) 3) (Z.testbit attr 7)).

Definition IDT_bytes (idt : list IdtEntry) : list Z := concat (IdtEntry_bytes <$> idt).

(** The descriptor of vector [n], within the limit of the table. *)
Definition gate_at (c : Cpu) (n : Z) : outcome Gate :=
  if 16 * n + 15 <=? (idtr c).1
  then b ← slice (IDT_bytes (IDT c)) (16 * n) (16 * n + 16); decode_gate b else Err.

(** A selector of the global table names a present 64-bit ring-0 code segment. *)
Definition long_mode_code (g : GDT) (sel : Z) : outcome bool :=
  if len (GDT_bytes g) <? sel + 8 then Err else
  b ← slice (GDT_bytes g) sel (sel + 8);
  access ← index b 5;
  granularity ← index b 6;
  mret (bool_decide (Z.land access 0xF8 = 0x98) && Z.testbit granularity 5 &&
        negb (Z.testbit granularity 6)).

(** The handler a vector is meant to have after the boot sequence. *)
Definition boot_handler (sym : Symbols) (n : Z) : Z :=
  if n =? 0x00 then div_error sym
  else if n =? 0x06 then invalid_opcode sym
  else if n =? 0x08 then double_fault sym
  else if n =? 0x0D then general_protection_fault sym
  else if n =? 0x0E then page_fault sym
  else if n <? 32 then generic_handler sym
  else if n =? 0x80 then syscall sym
  else null_interrupt_handler sym.

Definition symbols_wf (sym : Symbols) : Prop :=
  fits 64 (null_interrupt_handler sym) ∧ fits 64 (syscall sym) ∧ fits 64 (generic_handler sym) ∧
  fits 64 (div_error sym) ∧ fits 64 (invalid_opcode sym) ∧ fits 64 (double_fault sym) ∧
  fits 64 (general_protection_fault sym) ∧ fits 64 (page_fault sym).

(** ** Lemmas *)

Definition gate (f : Z) : IdtEntry :=
  mk_idt_entry (Z.land f 0xFFFF) 0x28 0 0xEE (Z.land (Z.shiftr f 16) 0xFFFF)
    (Z.land (Z.shiftr f 32) 0xFFFFFFFF) 0.

Definition with_IDT (c : Cpu) (idt : list IdtEntry) : Cpu :=
  mk_cpu idt (IDT_PTR c) (idtr c) (GDT_ c) (GDTR c) (gdtr c) (cs c) (data_segments c).

Lemma idt_set_gate_Ok num f c : 0 ≤ num < len (IDT c) →
  idt_set_gate num f c = (Ok tt, with_IDT c (<[Z.to_nat num := gate f]> (IDT c))).
Proof. intros H. unfold idt_set_gate. cbn. prun. rewrite (store_Ok _ _ _ H). reflexivity. Qed.

(** Setting the first [n] gates. *)
Lemma set_gates_Ok f n c : Z.of_nat n ≤ len (IDT c) →
  for_each (seqZ 0 (Z.of_nat n)) (λ num, idt_set_gate num f) c =
  (Ok tt, with_IDT c (replicate n (gate f) ++ drop n (IDT c))).
Proof.
  induction n as [|n IH]; intros Hn; [by destruct c|].
  rewrite seqZ_S, for_each_app. erewrite bind_Ok by (apply IH; lia).
  cbn [for_each]. pose proof (len_nonneg (IDT c)).
  assert (Datatypes.length (replicate n (gate f) ++ drop n (IDT c)) = Datatypes.length (IDT c)) as E.
  { rewrite length_app, length_replicate, length_drop. unfold len in Hn. lia. }
  erewrite bind_Ok; [|apply idt_set_gate_Ok; unfold len; cbn; rewrite E; unfold len in Hn; lia].
  cbn. unfold mret, prog_ret. do 3 f_equal. unfold with_IDT. cbn. f_equal.
  replace (Z.to_nat (0 + Z.of_nat n)) with (Datatypes.length (replicate n (gate f)) + 0)%nat
    by (rewrite length_replicate; lia).
  rewrite insert_app_r. destruct (drop n (IDT c)) as [|x l] eqn:Ed.
  { apply (f_equal Datatypes.length) in Ed. rewrite length_drop in Ed. unfold len in Hn. cbn in Ed. lia. }
  assert (drop (S n) (IDT c) = l) as -> by (replace (S n) with (n + 1)%nat by lia; by rewrite <- drop_drop, Ed).
  rewrite (app_comm_cons _ l), replicate_cons_app, <- app_assoc. done.
Qed.

Lemma land_ones_mod_16 x : Z.land x 0xFFFF = x mod 2^16.
Proof. apply (land_ones_mod x 16). lia. Qed.
Lemma land_ones_mod_32 x : Z.land x 0xFFFFFFFF = x mod 2^32.
Proof. apply (land_ones_mod x 32). lia. Qed.

Lemma gate_bytes_len f : len (IdtEntry_bytes f) = 16.
Proof. unfold IdtEntry_bytes. by autorewrite with len. Qed.

Lemma decode_gate_bytes f : fits 64 f →
  decode_gate (IdtEntry_bytes (gate f)) = Ok (mk_gate f 0x28 0xE 3 true).
Proof.
  intros Hf. unfold decode_gate, IdtEntry_bytes, gate.
  cbn [base_lo sel ist idt_flags idt_base_mid base_hi always0].
  rewrite !land_ones_mod_16, land_ones_mod_32, !Z.shiftr_div_pow2 by lia.
  assert (fits (8 * Z.of_nat 2) (f mod 2^16)) by apply u16_range.
  assert (fits (8 * Z.of_nat 2) ((f / 2^16) mod 2^16)) by apply u16_range.
  assert (fits (8 * Z.of_nat 4) ((f / 2^32) mod 2^32)) by apply u32_range.
  assert (fits (8 * Z.of_nat 2) 0x28) by (unfold fits; cbn; lia).
  assert (len [0; 0xEE] = 2) as Hattr by done. set (attr := [0; 0xEE]) in *.
  layout. rewrite index_app_r by (rewrite len_le_bytes; lia).
  rewrite len_le_bytes, index_app_r by (rewrite len_le_bytes; lia).
  rewrite len_le_bytes, index_app_l by (rewrite Hattr; lia).
  assert (index attr (5 - Z.of_nat 2 - Z.of_nat 2) = Ok 0xEE) as -> by done. cbn [mbind outcome_bind].
  layout. do 2 f_equal. unfold fits in Hf.
  rewrite (Z.mod_small (f / 2^32)) by (split; [apply Z.div_pos; lia|apply Z.div_lt_upper_bound; lia]).
  pose proof (Z.div_mod f (2^16) ltac:(lia)) as E1. pose proof (Z.div_mod (f / 2^16) (2^16) ltac:(lia)) as E2.
  rewrite Z.div_div in E2 by lia. change (2^16 * 2^16) with (2^32) in E2. lia.
Qed.


Lemma idt_init_Ok sym c : len (IDT c) = 256 →
  idt_init sym c = (Ok tt, mk_cpu
    (<[128%nat := gate (syscall sym)]> (replicate 256 (gate (null_interrupt_handler sym))))
    ((IDT_PTR c).1, idt_address sym) ((IDT_PTR c).1, idt_address sym)
    (GDT_ c) (GDTR c) (gdtr c) (cs c) (data_segments c)).
Proof.
  intros Hl. unfold idt_init. erewrite bind_Ok by done. erewrite bind_Ok by done. cbn [IDT]. rewrite Hl.
  erewrite bind_Ok by (apply (set_gates_Ok _ 256); done).
  erewrite bind_Ok by (apply idt_set_gate_Ok; done). done.
Qed.

Lemma exceptions_init_Ok sym c : len (IDT c) = 256 →
  exceptions_init sym c = (Ok tt, with_IDT c
    (<[14%nat := gate (page_fault sym)]> (<[13%nat := gate (general_protection_fault sym)]>
    (<[8%nat := gate (double_fault sym)]> (<[6%nat := gate (invalid_opcode sym)]>
    (<[0%nat := gate (div_error sym)]>
    (replicate 32 (gate (generic_handler sym)) ++ drop 32 (IDT c)))))))).
Proof.
  intros Hl. unfold exceptions_init.
  assert (len (replicate 32 (gate (generic_handler sym)) ++ drop 32 (IDT c)) = 256) as E.
  { unfold len in *. rewrite length_app, length_replicate, length_drop. lia. }
  erewrite bind_Ok by (apply (set_gates_Ok _ 32); cbn; lia).
  do 4 erewrite bind_Ok by (apply idt_set_gate_Ok; cbn; autorewrite with len in *; lia).
  rewrite idt_set_gate_Ok by (cbn; autorewrite with len in *; lia). done.
Qed.

(** The table is one gate per vector, each to the vector's handler. *)
Lemma boot_tables_Ok sym c : len (IDT c) = 256 → (IDT_PTR c).1 = IDT_ENTRY_SIZE * 256 - 1 →
  ∃ gdt, gdt_entries GDT_default = Ok gdt ∧ boot_tables sym c = (Ok tt,
    mk_cpu ((λ n, gate (boot_handler sym n)) <$> seqZ 0 256) (4095, idt_address sym) (4095, idt_address sym)
      (Some gdt) (103, gdt_address sym) (103, gdt_address sym) 0x28 0x30).
Proof.
  intros Hl Hp. destruct (gdt_entries GDT_default) as [gdt| | | |] eqn:Eg; try done.
  exists gdt. split; [done|]. unfold boot_tables, gdt_init. rewrite Eg.
  assert (len (GDT_bytes gdt) - 1 = 103) as El by (injection Eg as <-; done).
  erewrite bind_Ok by (erewrite bind_Ok by done; cbn [lift modify]; rewrite El; done).
  erewrite bind_Ok by (apply idt_init_Ok; done).
  rewrite exceptions_init_Ok by done. unfold with_IDT. cbn [IDT IDT_PTR idtr GDT_ GDTR gdtr cs data_segments].
  by rewrite Hp.
Qed.

Lemma gate_at_boot sym c n : symbols_wf sym → idtr c = (4095, idt_address sym) →
  IDT c = (λ n, gate (boot_handler sym n)) <$> seqZ 0 256 → 0 ≤ n < 256 →
  gate_at c n = Ok (mk_gate (boot_handler sym n) 0x28 0xE 3 true).
Proof.
  intros Hs Hr Hi Hn. unfold gate_at. rewrite Hr, (proj2 (Z.leb_le _ _)) by (cbn; lia).
  unfold IDT_bytes. replace (16 * n) with (16 * Z.of_nat (Z.to_nat n)) by lia.
  erewrite slice_concat.
  - cbn [mbind outcome_bind]. apply decode_gate_bytes. unfold symbols_wf in Hs. unfold boot_handler.
    repeat case_match; naive_solver.
  - rewrite Hi, <- list_fmap_compose. apply Forall_fmap, Forall_true. intros x. apply gate_bytes_len.
  - rewrite Hi, <- list_fmap_compose, list_lookup_fmap.
    assert (seqZ 0 256 !! Z.to_nat n = Some n) as -> by (apply lookup_seqZ; lia). done.
Qed.

(** C29: After the tables part of [_start], every vector's descriptor, read from
    the table [idtr] points at, is a present 64-bit interrupt gate to exactly the
    handler the boot sequence means it to have (the exception's, the system call
    stub at 0x80, the null handler elsewhere), through the selector [cs] holds,
    which names a present 64-bit ring-0 code segment of the loaded GDT; there is
    no further vector. *)
Theorem boot_tables_spec sym idtr0 gdtr0 cs0 ds0 : symbols_wf sym →
  ∃ c gdt, boot_tables sym (cpu_reset idtr0 gdtr0 cs0 ds0) = (Ok tt, c) ∧
    (idtr c).2 = idt_address sym ∧ GDT_ c = Some gdt ∧
    gdtr c = (len (GDT_bytes gdt) - 1, gdt_address sym) ∧ long_mode_code gdt (cs c) = Ok true ∧
    (∀ n, 0 ≤ n < 256 → gate_at c n = Ok (mk_gate (boot_handler sym n) (cs c) 0xE 3 true)) ∧
    gate_at c 256 = Err.
Proof.
  intros Hs. destruct (boot_tables_Ok sym (cpu_reset idtr0 gdtr0 cs0 ds0)) as (gdt & Eg & E); [done..|].
  eexists _, gdt. split; [exact E|]. injection Eg as <-.
  split; [done|]. split; [done|]. split; [done|]. split; [vm_compute; done|].
  split; [|done]. intros n Hn. by apply gate_at_boot.
Qed.

Definition demo_symbols : Symbols :=
  {| idt_address := 0xFFFFFFFF80010000; gdt_address := 0xFFFFFFFF80020000;
     null_interrupt_handler := 0xFFFFFFFF80001000; syscall := 0xFFFFFFFF80002000;
     generic_handler := 0xFFFFFFFF80003000; div_error := 0xFFFFFFFF80004000;
     invalid_opcode := 0xFFFFFFFF80005000; double_fault := 0xFFFFFFFF80006000;
     general_protection_fault := 0xFFFFFFFF80007000; page_fault := 0xFFFFFFFF80008000;
     keyboard_interrupt_handler := 0xFFFFFFFF80009000 |}.

Lemma boot_tables_spec_witness : ∃ c gdt,
  boot_tables demo_symbols (cpu_reset (0, 0) (0, 0) 0x28 0x30) = (Ok tt, c) ∧
    (idtr c).2 = 0xFFFFFFFF80010000 ∧ GDT_ c = Some gdt ∧
    gdtr c = (len (GDT_bytes gdt) - 1, 0xFFFFFFFF80020000) ∧ long_mode_code gdt (cs c) = Ok true ∧
    (∀ n, 0 ≤ n < 256 → gate_at c n = Ok (mk_gate (boot_handler demo_symbols n) (cs c) 0xE 3 true)) ∧
    gate_at c 256 = Err.
Proof.
  apply (boot_tables_spec demo_symbols (0, 0) (0, 0) 0x28 0x30). vm_compute. repeat split; discriminate.
Defined.

(** The system call stub pops the four saved registers in the order it pushed
    them: it leaves the stack as it found it, but returns with [rdi] and [rcx], and
    [rsi] and [rdx], exchanged, whatever the handler did. *)
Lemma syscall_exchanges callee regs stack :
  ∃ regs', run_syscall callee (regs, stack) = Ok (regs', stack) ∧
    regs' RDI = regs RCX ∧ regs' RCX = regs RDI ∧ regs' RSI = regs RDX ∧ regs' RDX = regs RSI.
Proof. eexists. repeat split. Qed.
