(* ===== verification/Acpi.v ===== *)
(** src/src/drivers/acpi.rs: the ACPI tables the firmware leaves in memory.

    Memory is [ram], by virtual address; a Rust reference into a table is the
    address it holds. *)

From S2P Require Import Prelude Mem.

(** ** Tables *)

Record SDTHeader := mk_sdt_header {
  signature : list Z;
  sdt_length : Z;
  revision : Z;
  checksum : Z;
  oemid : list Z;
  oem_table_id : list Z;
  oem_revision : Z;
  creator_id : Z;
  creator_revision : Z;
}.

Definition SDT_HEADER_SIZE : Z := 36.

(** [&*ptr.cast::<SDTHeader>()], packed. *)
Definition read_header (ram : Z → Z) (ptr : Z) : SDTHeader :=
  mk_sdt_header (read_bytes ram ptr 4) (read_mem ram (ptr + 4) 4) (ram (ptr + 8)) (ram (ptr + 9))
    (read_bytes ram (ptr + 10) 6) (read_bytes ram (ptr + 16) 8) (read_mem ram (ptr + 24) 4)
    (read_mem ram (ptr + 28) 4) (read_mem ram (ptr + 32) 4).

(** [inner] is the address of the table's own fields and [extra] the address and
    length of what follows them. *)
Record SDT := mk_sdt {
  sdt_header : SDTHeader;
  inner : Z;
  extra : option (Z * Z);
}.

(** [RSDT] and [XSDT] keep one pointer as their [inner]. *)
Inductive RootSDT := RSDT (sdt : SDT) | XSDT (sdt : SDT).

(** What the boot loader's [RSDP] says. *)
Record RSDP := mk_rsdp { rsdp_revision : Z; rsdt_addr : Z; xsdt_addr : Z }.

Record ACPI := mk_acpi { root_sdt : RootSDT; tables : list (list Z) }.

Section acpi.
Context (ram : Z → Z) (hhdm_offset : Z).

(** [SDT::<T>::new], for a [T] of [size] bytes. *)
Definition SDT_new (size ptr : Z) : outcome SDT :=
  let ptr := to_higher_half hhdm_offset ptr in
  let len := read_mem ram (ptr + 4) 4 in
  rassert (SDT_HEADER_SIZE <=? len) ;;
  let extra :=
    if SDT_HEADER_SIZE + size <? len
    then Some (ptr + SDT_HEADER_SIZE + size, len - (SDT_HEADER_SIZE + size)) else None in
  mret (mk_sdt (read_header ram ptr) (ptr + SDT_HEADER_SIZE) extra).

Definition root_header (r : RootSDT) : SDTHeader :=
  match r with RSDT rsdt => sdt_header rsdt | XSDT xsdt => sdt_header xsdt end.

Definition root_len (r : RootSDT) : Z :=
  let ptr_size := match r with RSDT _ => 4 | XSDT _ => 8 end in
  u64 (sdt_length (root_header r) - SDT_HEADER_SIZE) / ptr_size.

(** [for _ in 0..idx { offset += header.length }] *)
Fixpoint skip_tables (root_ptr : Z) (idx : nat) (offset : Z) : Z :=
  match idx with
  | O => offset
  | S idx' => skip_tables root_ptr idx' (offset + sdt_length (read_header ram (root_ptr + offset)))
  end.

Definition root_get (r : RootSDT) (idx : Z) : outcome Z :=
  let pointers := match r with
    | RSDT rsdt => read_mem ram (inner rsdt) 4
    | XSDT xsdt => read_mem ram (inner xsdt) 8
    end in
  let root_ptr := u64 (pointers + hhdm_offset) in
  rassert (negb (is_null root_ptr)) ;;
  mret (root_ptr + skip_tables root_ptr (Z.to_nat idx) 0).

(** [(0..root_sdt.len()).map(..).collect()] *)
Definition read_signatures (r : RootSDT) : outcome (list (list Z)) :=
  foldM (λ acc i, sdt_ptr ← root_get r i; mret (acc ++ [read_bytes ram sdt_ptr 4])) []
    (seqZ 0 (root_len r)).

Definition resolve_acpi (rsdp : option RSDP) : outcome ACPI :=
  rsdp ← of_option Panic rsdp;
  root_sdt ← (if rsdp_revision rsdp =? 0
    then RSDT <$> SDT_new 4 (rsdt_addr rsdp)
    else XSDT <$> SDT_new 8 (xsdt_addr rsdp));
  tables ← read_signatures root_sdt;
  mret (mk_acpi root_sdt tables).

(** [for (i, table) in ACPI.tables.iter().enumerate()] *)
Fixpoint find_table_loop (acpi : ACPI) (size : Z) (name : list Z) (i : Z) (ts : list (list Z)) :
    outcome (option SDT) :=
  match ts with
  | [] => mret None
  | table :: ts' =>
      if decide (table = name) then
        ptr ← root_get (root_sdt acpi) i;
        table ← SDT_new size (to_lower_half hhdm_offset ptr);
        mret (Some table)
      else find_table_loop acpi size name (i + 1) ts'
  end.

Definition find_table (acpi : ACPI) (size : Z) (table_name : list Z) : outcome (option SDT) :=
  rassert (len table_name =? 4) ;;
  find_table_loop acpi size table_name 0 (tables acpi).

End acpi.

(** ** Looking tables up *)

(** The memory from [ptr] on is a run of tables, each a signature and a length. *)
Fixpoint laid_out (ram : Z → Z) (ptr : Z) (ts : list (list Z * Z)) : Prop :=
  match ts with
  | [] => True
  | (sig, l) :: ts' =>
      read_bytes ram ptr 4 = sig ∧ read_mem ram (ptr + 4) 4 = l ∧ SDT_HEADER_SIZE ≤ l ∧
      laid_out ram (ptr + l) ts'
  end.

Definition total (ts : list (list Z * Z)) : Z := foldr (λ t acc, t.2 + acc) 0 ts.

Lemma total_app ts us : total (ts ++ us) = total ts + total us.
Proof. unfold total. induction ts as [|t ts IH]; cbn; [done|]. rewrite IH. lia. Qed.

Lemma laid_out_nonneg ram ptr ts : laid_out ram ptr ts → 0 ≤ total ts.
Proof.
  revert ptr. induction ts as [|[sig l] ts IH]; intros ptr; [done|]. intros (_ & _ & Hl & Ht).
  apply IH in Ht. unfold total in *. unfold SDT_HEADER_SIZE in Hl. cbn. lia.
Qed.

Lemma laid_out_lookup ram ptr ts us sig l : laid_out ram ptr (ts ++ (sig, l) :: us) →
  read_bytes ram (ptr + total ts) 4 = sig ∧ read_mem ram (ptr + total ts + 4) 4 = l ∧ SDT_HEADER_SIZE ≤ l ∧
  0 ≤ total ts ∧ total ts + l ≤ total (ts ++ (sig, l) :: us).
Proof.
  revert ptr. induction ts as [|[sig' l'] ts IH]; intros ptr; cbn [app laid_out].
  - intros (H1 & H2 & H3 & H4). apply laid_out_nonneg in H4. unfold total in *. cbn.
    rewrite Z.add_0_r. repeat split; (done || lia).
  - intros (_ & _ & H3 & (E1 & E2 & E3 & E4 & E5)%IH). unfold total, SDT_HEADER_SIZE in *. cbn in *.
    rewrite Z.add_assoc. repeat split; (done || lia).
Qed.

Lemma skip_tables_laid_out ram ptr ts us : laid_out ram ptr (ts ++ us) →
  skip_tables ram ptr (Datatypes.length ts) 0 = total ts.
Proof.
  rewrite <- (Z.add_0_l (total ts)).
  assert (∀ off, laid_out ram (ptr + off) (ts ++ us) →
    skip_tables ram ptr (Datatypes.length ts) off = off + total ts) as H.
  { induction ts as [|[sig l] ts IH]; intros off Hl; cbn; [lia|]. destruct Hl as (_ & El & _ & Ht).
    rewrite El, IH by (by rewrite Z.add_assoc). unfold total. cbn. lia. }
  intros Hl. apply H. by rewrite Z.add_0_r.
Qed.

Section lookup.
Context (ram : Z → Z) (hhdm_offset : Z).

(** The root table at physical address [root]: its length counts [n] pointers, the
    first of them the physical address of [base]. *)
Definition root_table (pointer_size : nat) (root n base : Z) : Prop :=
  let ptr := to_higher_half hhdm_offset root in
  read_mem ram (ptr + 4) 4 = SDT_HEADER_SIZE + Z.of_nat pointer_size * n ∧
  u64 (read_mem ram (ptr + SDT_HEADER_SIZE) pointer_size + hhdm_offset) = base.

(** The firmware hands over either root. *)
Definition root_of (rsdp : RSDP) (n base : Z) : Prop :=
  if rsdp_revision rsdp =? 0 then root_table 4 (rsdt_addr rsdp) n base
  else root_table 8 (xsdt_addr rsdp) n base.

Lemma root_get_laid_out r base ts us :
  u64 (match r with RSDT s => read_mem ram (inner s) 4 | XSDT s => read_mem ram (inner s) 8 end
    + hhdm_offset) = base → base ≠ 0 → laid_out ram base (ts ++ us) →
  root_get ram hhdm_offset r (len ts) = Ok (base + total ts).
Proof.
  intros Eb H0 Hl. unfold root_get. cbn. unfold len. rewrite Nat2Z.id, Eb.
  unfold is_null. rewrite (proj2 (Z.eqb_neq _ _)) by done. cbn.
  by erewrite skip_tables_laid_out.
Qed.

Lemma read_signatures_laid_out r base ts :
  u64 (match r with RSDT s => read_mem ram (inner s) 4 | XSDT s => read_mem ram (inner s) 8 end
    + hhdm_offset) = base → base ≠ 0 → laid_out ram base ts → root_len r = len ts →
  read_signatures ram hhdm_offset r = Ok (fst <$> ts).
Proof.
  intros Eb H0 Hl Hn. unfold read_signatures. rewrite Hn.
  edestruct (foldM_seqZ (λ i acc, acc = fst <$> take (Z.to_nat i) ts)) as (b & -> & Hb); cycle 3.
  - rewrite Hb. unfold len. by rewrite Nat2Z.id, take_ge.
  - done.
  - intros i b Hi ->. destruct (lookup_lt_is_Some_2 ts (Z.to_nat i)) as [[sig l] Hx]; [unfold len in Hi; lia|].
    pose proof (take_drop_middle _ _ _ Hx) as Et. rewrite <- Et in Hl.
    assert (i = len (take (Z.to_nat i) ts)) as Ei.
    { unfold len in *. rewrite length_take. lia. }
    eexists. split.
    + rewrite Ei at 1. erewrite root_get_laid_out by done. cbn. done.
    + apply laid_out_lookup in Hl as (-> & _). replace (Z.to_nat (i + 1)) with (S (Z.to_nat i)) by lia.
      erewrite take_S_r by done. by rewrite fmap_app.
  - apply len_nonneg.
Qed.

Lemma resolve_acpi_laid_out rsdp base ts : root_of rsdp (len ts) base → len ts < 2^28 →
  base ≠ 0 → laid_out ram base ts →
  ∃ r, resolve_acpi ram hhdm_offset (Some rsdp) = Ok (mk_acpi r (fst <$> ts)) ∧
    u64 (match r with RSDT s => read_mem ram (inner s) 4 | XSDT s => read_mem ram (inner s) 8 end
      + hhdm_offset) = base.
Proof.
  intros Hr Hn H0 Hl. pose proof (len_nonneg ts). unfold resolve_acpi, root_of in *. cbn [of_option mbind outcome_bind].
  destruct (rsdp_revision rsdp =? 0); destruct Hr as [El Eb]; unfold SDT_new;
    rewrite El; unfold rassert; rewrite (proj2 (Z.leb_le _ _)) by (unfold SDT_HEADER_SIZE; lia);
    cbn [mbind outcome_bind fmap outcome_fmap mret outcome_ret];
    (erewrite read_signatures_laid_out; [|exact Eb|done|exact Hl|];
     [eexists; split; [reflexivity|exact Eb]|]);
    unfold root_len, root_header, read_header; cbn [sdt_header sdt_length]; rewrite El;
    rewrite u64_small by (unfold SDT_HEADER_SIZE; lia);
    unfold SDT_HEADER_SIZE; symmetry; apply Z.div_unique with 0; lia.
Qed.

Lemma SDT_new_laid_out size base ts sig l us : 0 ≤ base → base + total (ts ++ (sig, l) :: us) < 2^64 →
  laid_out ram base (ts ++ (sig, l) :: us) →
  let ptr := base + total ts in
  SDT_new ram hhdm_offset size (to_lower_half hhdm_offset ptr) = Ok (mk_sdt (read_header ram ptr)
    (ptr + SDT_HEADER_SIZE)
    (if SDT_HEADER_SIZE + size <? l
     then Some (ptr + SDT_HEADER_SIZE + size, l - (SDT_HEADER_SIZE + size)) else None)).
Proof.
  intros H0 Hm Hl ptr. apply laid_out_lookup in Hl as (_ & El & Hs & ? & ?).
  unfold SDT_HEADER_SIZE in Hs. unfold SDT_new.
  assert (to_higher_half hhdm_offset (to_lower_half hhdm_offset ptr) = ptr) as ->.
  { unfold to_higher_half, to_lower_half, u64. rewrite Zplus_mod_idemp_l, Z.sub_add. apply Z.mod_small. lia. }
  subst ptr. rewrite El. unfold rassert. by rewrite (proj2 (Z.leb_le _ _)).
Qed.

Lemma find_table_loop_absent acpi size name ts i : name ∉ ts →
  find_table_loop ram hhdm_offset acpi size name i ts = Ok None.
Proof.
  revert i. induction ts as [|t ts IH]; intros i; [done|]. intros [H1 H2]%not_elem_of_cons. cbn.
  rewrite decide_False by done. by apply IH.
Qed.
Lemma find_table_loop_skip acpi size name ts us i : name ∉ ts →
  find_table_loop ram hhdm_offset acpi size name i (ts ++ us) =
  find_table_loop ram hhdm_offset acpi size name (i + len ts) us.
Proof.
  revert i. induction ts as [|t ts IH]; intros i; [by rewrite len_nil, Z.add_0_r|].
  intros [H1 H2]%not_elem_of_cons. cbn [app find_table_loop].
  rewrite decide_False, IH, len_cons by done. by rewrite Z.add_assoc.
Qed.

(** C35: When the firmware's tables lie one after another from the address the
    root's first pointer gives (the only pointer the code reads), [find_table]
    returns the first table with the asked signature, with its header, its fields
    and what follows them, and [None] when no table has it; it never panics. *)
Theorem find_table_spec rsdp base ts : root_of rsdp (len ts) base → len ts < 2^28 → base ≠ 0 →
  laid_out ram base ts → base + total ts < 2^64 →
  ∃ acpi, resolve_acpi ram hhdm_offset (Some rsdp) = Ok acpi ∧ tables acpi = fst <$> ts ∧
    ∀ size name, len name = 4 →
      (name ∉ fst <$> ts → find_table ram hhdm_offset acpi size name = Ok None) ∧
      (∀ before l after, ts = before ++ (name, l) :: after → name ∉ fst <$> before →
        let ptr := base + total before in
        find_table ram hhdm_offset acpi size name = Ok (Some (mk_sdt (read_header ram ptr)
          (ptr + SDT_HEADER_SIZE)
          (if SDT_HEADER_SIZE + size <? l
           then Some (ptr + SDT_HEADER_SIZE + size, l - (SDT_HEADER_SIZE + size)) else None)))).
Proof.
  intros Hr Hn H0 Hl Hm. assert (0 ≤ base) as Hb.
  { unfold root_of, root_table in Hr. destruct (_ =? 0); destruct Hr as [_ <-]; apply u64_range. }
  destruct (resolve_acpi_laid_out _ _ _ Hr Hn H0 Hl) as (r & E & Ep). eexists. split; [exact E|].
  split; [done|]. intros size name H4. unfold find_table, rassert. rewrite H4. cbn [Z.eqb Pos.eqb mbind outcome_bind tables].
  split; [apply find_table_loop_absent|]. intros before l after -> Hne.
  rewrite fmap_app, find_table_loop_skip by done. cbn [fmap list_fmap find_table_loop fst root_sdt].
  rewrite decide_True by done.
  assert (len (fst <$> before) = len before) as -> by (unfold len; by rewrite length_fmap).
  rewrite Z.add_0_l. erewrite root_get_laid_out by done. cbn [mbind outcome_bind].
  by erewrite SDT_new_laid_out by done.
Qed.

End lookup.

(** Two tables after the RSDT, in the direct map at 0x1000. *)
Definition demo_table (sig : string) (body : list Z) : list Z :=
  chars sig ++ le_bytes 4 (36 + len body) ++ replicate 28 0 ++ body.
Definition demo_memory : list Z :=
  demo_table "RSDT" (le_bytes 4 0x2C ++ le_bytes 4 0x53) ++ demo_table "FACP" [1; 2; 3] ++
  demo_table "APIC" [4; 5; 6; 7].
Definition demo_ram (a : Z) : Z := default 0 (demo_memory !! Z.to_nat (a - 0x1000)).
Definition demo_tables : list (list Z * Z) := [(chars "FACP", 39); (chars "APIC", 40)].

Lemma find_table_spec_witness : ∃ acpi,
  resolve_acpi demo_ram 0x1000 (Some (mk_rsdp 0 0 0)) = Ok acpi ∧
  tables acpi = [chars "FACP"; chars "APIC"] ∧
  find_table demo_ram 0x1000 acpi 3 (chars "HPET") = Ok None ∧
  find_table demo_ram 0x1000 acpi 3 (chars "APIC") = Ok (Some (mk_sdt (read_header demo_ram (0x102C + 39))
    (0x102C + 39 + 36) (Some (0x102C + 39 + 36 + 3, 1)))).
Proof.
  destruct (find_table_spec demo_ram 0x1000 (mk_rsdp 0 0 0) 0x102C demo_tables) as (acpi & E & Et & Hf).
  - vm_compute. split; reflexivity.
  - reflexivity.
  - discriminate.
  - vm_compute. repeat split; discriminate.
  - reflexivity.
  - exists acpi. split; [exact E|]. split; [exact Et|]. split.
    + destruct (Hf 3 (chars "HPET") eq_refl) as [H _]. apply H. vm_compute.
      intros X. repeat (apply elem_of_cons in X as [X|X]; [discriminate|]). by apply elem_of_nil in X.
    + destruct (Hf 3 (chars "APIC") eq_refl) as [_ H]. apply (H [(chars "FACP", 39)] 40 []); [reflexivity|].
      vm_compute. intros X. repeat (apply elem_of_cons in X as [X|X]; [discriminate|]). by apply elem_of_nil in X.
Defined.
