(* ===== verification/Apic.v ===== *)
(** src/src/arch/x86_64/interrupts/apic.rs: the interrupt controllers.

    The MADT is bytes in memory ([ram], by virtual address); the controllers are
    reached through [Mmio] and [IoPorts], the MSRs through [Msr], and what the boot
    loader reports about the processors is [Smp]. *)

From S2P Require Import Prelude Mem Io Acpi.

(** [rdmsr]/[wrmsr]: low and high halves. *)
Class Msr (M : Type) := {
  rdmsr : Z → prog M (Z * Z);
  wrmsr : Z → Z → Z → prog M unit;
}.

(** ** The records of the MADT *)

Record LAPIC := mk_lapic { acpi_processor_id : Z; apic_id : Z; lapic_flags : Z }.
Record IOAPIC := mk_ioapic { ioapic_id : Z; ioapic_reserved : Z; ioapic_ptr : Z; global_interrupt_base : Z }.
Record IOAPICSourceOverride := mk_override {
  bus_source : Z;
  irq_source : Z;
  global_system_interrupt : Z;
  override_flags : Z;
}.

#[export] Instance LAPIC_eq_dec : EqDecision LAPIC.
Proof. solve_decision. Defined.

(** The locals the loop over the table updates. *)
Record Found := mk_found {
  cpus : list LAPIC;
  io_apic : option IOAPIC;
  io_apic_source_override : option IOAPICSourceOverride;
  lapic_ptr : Z;
}.

Section madt.
Context (ram : Z → Z) (hhdm_offset : Z).

(** One turn of the loop, without the step to the next record. *)
Definition madt_entry (ptr : Z) (a : Found) : Found :=
  let ty := ram ptr in
  if ty =? 0 then
    if Z.land (ram (ptr + 4)) 1 =? 0 then a
    else mk_found
      (cpus a ++ [mk_lapic (ram (ptr + 2)) (ram (ptr + 3)) (read_mem ram (ptr + 4) 4)])
      (io_apic a) (io_apic_source_override a) (lapic_ptr a)
  else if ty =? 1 then mk_found (cpus a)
    (Some (mk_ioapic (ram (ptr + 2)) (ram (ptr + 3))
      (u64 (read_mem ram (ptr + 4) 4 + hhdm_offset)) (read_mem ram (ptr + 8) 4)))
    (io_apic_source_override a) (lapic_ptr a)
  else if ty =? 2 then mk_found (cpus a) (io_apic a)
    (Some (mk_override (ram (ptr + 2)) (ram (ptr + 3)) (read_mem ram (ptr + 4) 4)
      (read_mem ram (ptr + 8) 2)))
    (lapic_ptr a)
  else if ty =? 5 then mk_found (cpus a) (io_apic a) (io_apic_source_override a)
    (u64 (read_mem ram (ptr + 4) 8 + hhdm_offset))
  else a.

(** [while ptr < ptr_end]; a record of length 0 is read for ever. *)
Fixpoint madt_loop (fuel : nat) (ptr ptr_end : Z) (a : Found) : outcome Found :=
  if ptr <? ptr_end then
    match fuel with
    | O => NoFuel
    | S fuel' => madt_loop fuel' (ptr + ram (ptr + 1)) ptr_end (madt_entry ptr a)
    end
  else Ok a.

End madt.

(** ** The controllers *)

Record APIC := mk_apic { apic_io_apic : IOAPIC; local_apic : Z; apic_cpus : list LAPIC }.

Definition IA32_APIC_BASE_MSR : Z := 0x1B.
Definition IA32_APIC_BASE_MSR_ENABLE : Z := 0x800.
Definition PIC_CMD_MASTER : Z := 0x20.
Definition PIC_CMD_SLAVE : Z := 0xA0.
Definition PIC_DATA_MASTER : Z := 0x21.
Definition PIC_DATA_SLAVE : Z := 0xA1.

(** The table's own fields, [local_apic_address] and [flags]. *)
Definition MADT_SIZE : Z := 8.

(** The boot loader's processor list: the id of the boot processor and of each
    processor, the second for [cpu.id]. *)
Record Smp := mk_smp { bsp_lapic_id : Z; smp_cpus : list Z }.

Section apic.
Context {M : Type} `{IoPorts M, Mmio M, Msr M}.

Definition read_ioapic (a : APIC) (reg : Z) : prog M Z :=
  let ptr := ioapic_ptr (apic_io_apic a) in
  mmio_write ptr (Z.land reg 0xFF) ;;
  mmio_read (ptr + 4 * 4).

Definition write_ioapic (a : APIC) (reg value : Z) : prog M unit :=
  let ptr := ioapic_ptr (apic_io_apic a) in
  mmio_write ptr (Z.land reg 0xFF) ;;
  mmio_write (ptr + 4 * 4) value.

Definition read_lapic (a : APIC) (reg : Z) : prog M Z := mmio_read (local_apic a + reg).
Definition write_lapic (a : APIC) (reg value : Z) : prog M unit := mmio_write (local_apic a + reg) value.

Definition lapic_send_ipi (a : APIC) (dest_id vec : Z) : prog M unit :=
  write_lapic a 0x310 (u32 (Z.shiftl dest_id 24)) ;;
  write_lapic a 0x300 vec.

Definition set_interrupt (a : APIC) (int_num redirtion_num : Z) : prog M unit :=
  let retbl_offset := 0x10 + int_num * 2 in
  v ← read_ioapic a retbl_offset;
  let interrupts_vt := Z.lor (Z.land (Z.land v 0x7FFF) 0xFF00) (0x20 + redirtion_num) in
  write_ioapic a retbl_offset interrupts_vt.

Definition end_of_interrupt (a : APIC) : prog M unit := write_lapic a 0xB0 0x00.

(** The static [APIC] is a [OnceCell], whose [Deref] panics before it is set. *)
Definition signal_end_of_interrupt (cell : option APIC) : prog M unit :=
  match cell with Some a => end_of_interrupt a | None => panic end.

Definition disable_pic : prog M unit :=
  outb PIC_CMD_MASTER 0x11 ;;
  outb PIC_CMD_SLAVE 0x11 ;;
  outb PIC_DATA_MASTER 0x20 ;;
  outb PIC_DATA_SLAVE 0x28 ;;
  outb PIC_DATA_MASTER 0x04 ;;
  outb PIC_DATA_SLAVE 0x02 ;;
  outb PIC_DATA_MASTER 0x01 ;;
  outb PIC_DATA_SLAVE 0x01 ;;
  outb PIC_DATA_MASTER 0xFF ;;
  outb PIC_DATA_SLAVE 0xFF.

Definition get_apic_base : prog M Z :=
  r ← rdmsr IA32_APIC_BASE_MSR; mret (Z.land r.1 0xFFFFF000).

Definition set_apic_base (apic : Z) : prog M unit :=
  let eax := Z.lor (Z.land apic 0xFFFFF0000) IA32_APIC_BASE_MSR_ENABLE in
  wrmsr IA32_APIC_BASE_MSR (u32 eax) 0.

(** [has_apic] is bit 9 of CPUID leaf 1's [edx]. *)
Definition has_apic (edx : Z) : bool := Z.testbit edx 9.

(** [APIC::new]; it returns the processors it sends to [test] as well. *)
Definition apic_new (fuel : nat) (cpuid_edx : Z)
    (acpi : ACPI) (ram : Z → Z)
    (hhdm_offset : Z) (smp_request : option Smp) : prog M (APIC * list Z) :=
  disable_pic ;;
  (if has_apic cpuid_edx then mret tt else err) ;;
  apic_base ← get_apic_base;
  set_apic_base apic_base ;;
  madt ← lift (find_table ram hhdm_offset acpi MADT_SIZE (chars "APIC"));
  madt ← lift (of_option Err madt);
  let lapic_ptr0 := u64 (read_mem ram (inner madt) 4 + hhdm_offset) in
  extra ← lift (of_option Panic (extra madt));
  let ptr := extra.1 in
  let ptr_end := ptr + u64 (sdt_length (sdt_header madt) - 44) in
  found ← lift (madt_loop ram hhdm_offset fuel ptr ptr_end (mk_found [] None None lapic_ptr0));
  io_apic ← lift (of_option Err (io_apic found));
  lift (of_option Err (io_apic_source_override found)) ;;
  let apic := mk_apic io_apic (lapic_ptr found) (cpus found) in
  v ← read_lapic apic 0xF0;
  write_lapic apic 0xF0 (Z.lor v 0x100) ;;
  read_ioapic apic 0x01 ;;
  smp ← lift (of_option Panic smp_request);
  let woken := filter (λ id, id ≠ bsp_lapic_id smp) (smp_cpus smp) in
  set_interrupt apic 0x01 0x01 ;;
  mret (apic, woken).

(** ** Bringing ACPI up *)

(** [GenericAddressStructure]: five bytes. *)
Definition GAS_SIZE : Z := 5.

(** The packed [FADT]: its fields and their sizes, in order. *)
Definition FADT : list (string * Z) := [
  ("firmware_ctrl", 4); ("dsdt", 4); ("_reserved", 1); ("preferred_power_management_profile", 1);
  ("sci_interrupt", 2); ("smi_cmd_port", 4); ("acpi_enable", 1); ("acpi_disable", 1);
  ("s4biox_req", 1); ("pstate_control", 1); ("pm1a_event_block", 4); ("pm1b_event_block", 4);
  ("pm1a_control_block", 4); ("pm1b_control_block", 4); ("pm2_control_block", 4);
  ("pm_timer_block", 4); ("gpe0_block", 4); ("gpe1_block", 4); ("pm1_event_length", 1);
  ("pm1_control_length", 1); ("pm2_control_length", 1); ("pm_timer_length", 1);
  ("gpe0_length", 1); ("gpe1_length", 1); ("gpe1_base", 1); ("c_state_control", 1);
  ("worst_c2_latency", 2); ("worst_c3_length", 2); ("flush_size", 2); ("flush_stride", 2);
  ("duty_offset", 1); ("duty_width", 1); ("day_alarm", 1); ("month_alarm", 1); ("century", 1);
  ("boot_architecture_flags", 2); ("_reserved2", 1); ("flags", 4); ("reset_reg", GAS_SIZE);
  ("reset_value", 1); ("_reserved3", 3); ("x_firmware_control", 8); ("x_dstd", 8);
  ("x_pm1a_event_block", GAS_SIZE); ("x_pm1b_event_block", GAS_SIZE);
  ("x_pm1a_control_block", GAS_SIZE); ("x_pm1b_control_block", GAS_SIZE);
  ("x_pm2_control_block", GAS_SIZE); ("x_pm_timer_block", GAS_SIZE); ("x_gpe0_block", GAS_SIZE);
  ("x_gpe1_block", GAS_SIZE)].

Fixpoint field_offset (fields : list (string * Z)) (field : string) : Z :=
  match fields with
  | [] => 0
  | (f, size) :: fields' => if bool_decide (f = field) then 0 else size + field_offset fields' field
  end.
Definition FADT_SIZE : Z := foldr (λ f acc, f.2 + acc) 0 FADT.

(** The fields [init_acpi] uses. *)
Definition smi_cmd_port (ram : Z → Z) (fadt : SDT) : Z :=
  read_mem ram (inner fadt + field_offset FADT "smi_cmd_port") 4.
Definition acpi_enable (ram : Z → Z) (fadt : SDT) : Z :=
  ram (inner fadt + field_offset FADT "acpi_enable").
Definition pm1a_control_block (ram : Z → Z) (fadt : SDT) : Z :=
  read_mem ram (inner fadt + field_offset FADT "pm1a_control_block") 4.

(** The statics [ACPI] and [APIC], next to the hardware; [OnceCell::set] panics the
    second time. *)
Definition set_cell {T} (new_data : T) : prog (option T) unit := λ c,
  match c with None => (Ok tt, Some new_data) | Some _ => (Panic, c) end.

Definition init_acpi (fuel : nat) (cpuid_edx : Z) (rsdp : option RSDP) (ram : Z → Z)
    (hhdm_offset : Z) (smp_request : option Smp) : prog (M * (option ACPI * option APIC)) (list Z) :=
  acpi ← lift (resolve_acpi ram hhdm_offset rsdp);
  on_snd (on_fst (set_cell acpi)) ;;
  for_each (tables acpi) (λ t, lift (match from_utf8 t with Some _ => Ok tt | None => Panic end)) ;;
  fadt ← lift (find_table ram hhdm_offset acpi FADT_SIZE (chars "FACP"));
  fadt ← lift (of_option Panic fadt);
  on_fst (outb (u16 (smi_cmd_port ram fadt)) (acpi_enable ram fadt)) ;;
  on_fst (while_loop fuel
    (v ← inw (u16 (pm1a_control_block ram fadt)); mret (Z.land v 1 =? 0)) (mret tt)) ;;
  apic ← on_fst (attempt (apic_new fuel cpuid_edx acpi ram hhdm_offset smp_request));
  apic ← lift (of_option Panic apic);
  on_snd (on_snd (set_cell apic.1)) ;;
  mret apic.2.

End apic.

(** The layout agrees with the specification's offsets of the fields used. *)
Example fadt_layout : FADT_SIZE = 145 ∧ field_offset FADT "smi_cmd_port" = 12 ∧
  field_offset FADT "acpi_enable" = 16 ∧ field_offset FADT "pm1a_control_block" = 28.
Proof. done. Qed.

(** ** The table the loop reads *)

Inductive MadtRecord :=
  | LocalApic (l : LAPIC)
  | IoApic (id reserved addr base : Z)
  | SourceOverride (o : IOAPICSourceOverride)
  | LapicAddress (addr : Z)
  | OtherRecord (ty : Z) (body : list Z).

Definition record_bytes (r : MadtRecord) : list Z :=
  match r with
  | LocalApic l => [0; 8; acpi_processor_id l; apic_id l] ++ le_bytes 4 (lapic_flags l)
  | IoApic id reserved addr base => [1; 12; id; reserved] ++ le_bytes 4 addr ++ le_bytes 4 base
  | SourceOverride o => [2; 10; bus_source o; irq_source o] ++
      le_bytes 4 (global_system_interrupt o) ++ le_bytes 2 (override_flags o)
  | LapicAddress addr => [5; 12; 0; 0] ++ le_bytes 8 addr
  | OtherRecord ty body => [ty; 2 + len body] ++ body
  end.

Definition record_wf (r : MadtRecord) : Prop :=
  match r with
  | LocalApic l => fits 32 (lapic_flags l)
  | IoApic _ _ addr base => fits 32 addr ∧ fits 32 base
  | SourceOverride o => fits 32 (global_system_interrupt o) ∧ fits 16 (override_flags o)
  | LapicAddress addr => fits 64 addr
  | OtherRecord ty body => ty ∉ [0; 1; 2; 5] ∧ len body ≤ 253
  end.

(** What a record adds: enabled processors in table order, the last I/O APIC, the
    last override, the last LAPIC address. *)
Definition add_record (hhdm_offset : Z) (a : Found) (r : MadtRecord) : Found :=
  match r with
  | LocalApic l => if Z.odd (lapic_flags l)
      then mk_found (cpus a ++ [l]) (io_apic a) (io_apic_source_override a) (lapic_ptr a) else a
  | IoApic id reserved addr base => mk_found (cpus a)
      (Some (mk_ioapic id reserved (u64 (addr + hhdm_offset)) base)) (io_apic_source_override a) (lapic_ptr a)
  | SourceOverride o => mk_found (cpus a) (io_apic a) (Some o) (lapic_ptr a)
  | LapicAddress addr => mk_found (cpus a) (io_apic a) (io_apic_source_override a) (u64 (addr + hhdm_offset))
  | OtherRecord _ _ => a
  end.

Lemma land_1_odd x : (Z.land x 1 =? 0) = negb (Z.odd x).
Proof. change 1 with (2^1 - 1) at 1. rewrite land_ones_mod, Zmod_odd by lia. by destruct (Z.odd x). Qed.

Lemma le_head n x : le_bytes (S n) x = x mod 2^8 :: le_bytes n (x / 2^8).
Proof. done. Qed.

Lemma odd_mod_256 x : Z.odd (x mod 2^8) = Z.odd x.
Proof. rewrite <- !Z.bit0_odd. apply Z.mod_pow2_bits_low. lia. Qed.

Lemma madt_entry_record ram hhdm ptr r a : record_wf r → holds ram ptr (record_bytes r) →
  madt_entry ram hhdm ptr a = add_record hhdm a r ∧ ram (ptr + 1) = len (record_bytes r).
Proof.
  intros Hwf Hr. unfold madt_entry.
  destruct r as [[p i fl]|id rs ad b|[bs irq gsi fl]|ad|ty body]; cbn [record_bytes app acpi_processor_id apic_id
    lapic_flags bus_source irq_source global_system_interrupt override_flags] in *;
    rewrite ?holds_cons, ?holds_app, ?len_le_bytes, <- ?Z.add_assoc in Hr; cbn in Hwf;
    repeat match type of Hr with context [?x + ?y] =>
      let z := eval compute in (x + y) in match z with Zpos _ => change (x + y) with z in Hr end end.
  - destruct Hr as (-> & E1 & E2 & E3 & E4). assert (ram (ptr + 4) = fl mod 2^8) as E5.
    { rewrite le_head, holds_cons in E4. apply E4. }
    cbn [Z.eqb]. rewrite land_1_odd, E5, odd_mod_256. split; [|done].
    cbn [add_record lapic_flags]. destruct (Z.odd fl); [|done]. cbn [negb].
    by rewrite E2, E3, (holds_le _ _ 4 _ Hwf E4).
  - destruct Hr as (-> & E1 & E2 & E3 & E4 & E5), Hwf as [W1 W2]. split; [|done]. cbn.
    by rewrite E2, E3, (holds_le _ _ 4 _ W1 E4), (holds_le _ _ 4 _ W2 E5).
  - destruct Hr as (-> & E1 & E2 & E3 & E4 & E5), Hwf as [W1 W2]. split; [|done]. cbn.
    by rewrite E2, E3, (holds_le _ _ 4 _ W1 E4), (holds_le _ _ 2 _ W2 E5).
  - destruct Hr as (-> & E1 & E2 & E3 & E4). split; [|done]. cbn. by rewrite (holds_le _ _ 8 _ Hwf E4).
  - destruct Hr as (-> & E1 & E2), Hwf as [W1 W2]. rewrite !len_cons. split; [|lia].
    rewrite !not_elem_of_cons in W1. destruct W1 as (? & ? & ? & ? & _).
    by rewrite !(proj2 (Z.eqb_neq _ _)) by done.
Qed.

(** C33: Over a table of well-formed records the loop of [APIC::new] ends, within
    one turn per record, having collected the enabled processors in order and the
    last I/O APIC, interrupt override and LAPIC address. *)
Theorem madt_loop_spec ram hhdm ptr rs a fuel : Forall record_wf rs →
  holds ram ptr (concat (record_bytes <$> rs)) → (Datatypes.length rs ≤ fuel)%nat →
  madt_loop ram hhdm fuel ptr (ptr + len (concat (record_bytes <$> rs))) a =
  Ok (foldl (add_record hhdm) a rs).
Proof.
  intros Hwf. revert ptr a fuel. induction Hwf as [|r rs Hr _ IH]; intros ptr a fuel Hh Hf.
  - cbn. rewrite len_nil, Z.add_0_r. destruct fuel; cbn; by rewrite Z.ltb_irrefl.
  - cbn [fmap list_fmap concat foldl Datatypes.length] in *. apply holds_app in Hh as [H1 H2].
    destruct (madt_entry_record ram hhdm ptr r a Hr H1) as [Ee El]. destruct fuel as [|fuel]; [lia|].
    cbn [madt_loop]. rewrite len_app, Ee, El, Z.add_assoc, (IH _ _ fuel H2) by lia.
    rewrite (proj2 (Z.ltb_lt _ _)); [done|].
    pose proof (len_nonneg (concat (record_bytes <$> rs))). assert (0 < len (record_bytes r)); [|lia].
    destruct r; cbn [record_bytes app]; rewrite len_cons; match goal with |- context [len ?l] => pose proof (len_nonneg l) end; lia.
Qed.

(** Two processors, the second disabled, between an I/O APIC and an override. *)
Definition demo_records : list MadtRecord :=
  [LocalApic (mk_lapic 0 0 1); IoApic 2 0 0xFEC00000 0; LocalApic (mk_lapic 1 1 0);
   OtherRecord 4 [255; 5; 0; 1]; SourceOverride (mk_override 0 0 2 0)].
Definition madt_ram (a : Z) : Z :=
  default 0 (concat (record_bytes <$> demo_records) !! Z.to_nat (a - 0x2000)).

Lemma madt_loop_spec_witness :
  madt_loop madt_ram 0xFFFF800000000000 5 0x2000 (0x2000 + 44) (mk_found [] None None 0) =
  Ok (mk_found [mk_lapic 0 0 1] (Some (mk_ioapic 2 0 (0xFFFF800000000000 + 0xFEC00000) 0))
    (Some (mk_override 0 0 2 0)) 0).
Proof.
  apply (madt_loop_spec madt_ram 0xFFFF800000000000 0x2000 demo_records (mk_found [] None None 0) 5).
  - repeat constructor; cbn; try discriminate; rewrite ?not_elem_of_cons; repeat split; try discriminate.
    apply not_elem_of_nil.
  - vm_compute. reflexivity.
  - cbn. lia.
Defined.
