(* ===== verification/Serial.v ===== *)
(** src/src/drivers/serial.rs: the COM1 console, and the [print!] macro of
    src/src/main.rs on top of it. *)

From S2P Require Import Prelude Io.

Definition PORT : Z := 0x3f8.

Section serial.
Context {M : Type} `{IoPorts M}.

(** Returns the status and the new value of [POISONED]. *)
Definition init_serial : prog (M * bool) Z :=
  on_fst (outb (PORT + 7) 0x42) ;;
  v ← on_fst (inb (PORT + 7));
  if negb (v =? 0x42) then mret 1 else
  on_fst (outb (PORT + 1) 0x00 ;;
    outb (PORT + 3) 0x80 ;;
    outb PORT 0x03 ;;
    outb (PORT + 1) 0x00 ;;
    outb (PORT + 3) 0x03 ;;
    outb (PORT + 2) 0xC7 ;;
    outb (PORT + 4) 0x0B ;;
    outb (PORT + 4) 0x1E ;;
    outb PORT 0xAE) ;;
  v ← on_fst (inb PORT);
  if negb (v =? 0xAE) then on_snd (put true) ;; mret 1 else
  on_fst (outb (PORT + 4) 0x0F) ;;
  mret 0.

(** The port read is [(PORT + 5) & 0x20]. *)
Definition is_transmit_empty : prog M bool :=
  v ← inb (Z.land (PORT + 5) 0x20); mret (v =? 0).

(** [while is_transmit_empty() {}] *)
Definition wait_transmit (fuel : nat) : prog M unit := while_loop fuel is_transmit_empty (mret tt).

Definition write_string (fuel : nat) (string : list Z) : prog M unit :=
  wait_transmit fuel ;;
  outsb PORT string.

(** The recursive call is for a carriage return, which makes no further one. *)
Fixpoint write_serial_at (depth : nat) (fuel : nat) (character : Z) : prog M unit :=
  match depth with
  | O => lift NoFuel
  | S depth' =>
      wait_transmit fuel ;;
      (if character =? 10 then write_serial_at depth' fuel 13 else mret tt) ;;
      outb PORT character
  end.
Definition write_serial : nat → Z → prog M unit := write_serial_at 2.

Definition serial_recieved : prog M bool :=
  v ← inb (PORT + 5); mret (Z.land v 0x01 =? 0).

Definition read_serial (fuel : nat) : prog M Z :=
  while_loop fuel serial_recieved (mret tt) ;;
  inb PORT.

(** [print!]: the formatted text, as bytes, with each line feed replaced. *)
Definition crlf (text : list Z) : list Z := text ≫= λ c, if c =? 10 then [10; 13] else [c].
Definition print (fuel : nat) (text : list Z) : prog M unit := write_string fuel (crlf text).

End serial.

(** ** What the console promises *)

(** [sent] is what the transmitter has been given.  Reading the polled port sends
    nothing and reads non-zero after at most [polls] reads; a byte written to the
    data port is sent; neither changes what [rest] observes of other devices. *)
Class Uart (M : Type) `{IoPorts M} {X} (sent : M → list Z) (polls : M → nat) (rest : M → X) := {
  uart_poll : ∀ m, ∃ v m', inb (Z.land (PORT + 5) 0x20) m = (Ok v, m') ∧ sent m' = sent m ∧
    (v = 0 → (polls m' < polls m)%nat) ∧ (polls m' ≤ polls m)%nat ∧ rest m' = rest m;
  uart_send : ∀ m c, ∃ m', outb PORT c m = (Ok tt, m') ∧ sent m' = sent m ++ [c] ∧
    (polls m' ≤ polls m)%nat ∧ rest m' = rest m;
}.

Section console.
Context {M X : Type} `{HM : IoPorts M} {sent : M → list Z} {polls : M → nat} {rest : M → X}
  `{!Uart M sent polls rest}.

(** [m'] is [m] after the console was given [bytes]. *)
Definition console_after (m : M) (bytes : list Z) (m' : M) : Prop :=
  sent m' = sent m ++ bytes ∧ (polls m' ≤ polls m)%nat ∧ rest m' = rest m.

Lemma console_after_trans m1 m2 m3 b c : console_after m1 b m2 → console_after m2 c m3 →
  console_after m1 (b ++ c) m3.
Proof.
  intros (E1 & ? & R1) (E2 & ? & R2). split; [by rewrite E2, E1, <- app_assoc|]. split; [lia|congruence].
Qed.

Lemma send_after m c : ∃ m', outb PORT c m = (Ok tt, m') ∧ console_after m [c] m'.
Proof. destruct (uart_send m c) as (m' & E & ? & ? & ?). by exists m'. Qed.

Lemma wait_transmit_Ok fuel m : (polls m < fuel)%nat →
  ∃ m', wait_transmit fuel m = (Ok tt, m') ∧ console_after m [] m'.
Proof.
  intros Hf. unfold wait_transmit.
  destruct (while_loop_Ok (console_after m []) polls is_transmit_empty (mret tt) m fuel)
    as (m' & E & Hi); [|by repeat split; rewrite ?app_nil_r|done|by exists m'].
  intros s Hs. destruct (uart_poll s) as (v & s' & E & Es & Hz & Hle & Hr).
  assert (console_after m [] s') as Hs'.
  { apply (console_after_trans m s s' [] []); [done|]. repeat split; [by rewrite app_nil_r|done..]. }
  unfold is_transmit_empty. destruct (Z.eqb_spec v 0) as [->|Hv].
  - right. exists s', s'. rewrite (bind_Ok _ _ _ _ _ E). cbn. repeat split; try apply Hs'. by apply Hz.
  - left. exists s'. rewrite (bind_Ok _ _ _ _ _ E), (proj2 (Z.eqb_neq _ _)) by done. done.
Qed.

Lemma outsb_Ok bytes m : ∃ m', outsb PORT bytes m = (Ok tt, m') ∧ console_after m bytes m'.
Proof.
  revert m. induction bytes as [|b bytes IH]; intros m; [exists m; by repeat split; rewrite ?app_nil_r|].
  destruct (send_after m b) as (m1 & E1 & A1). destruct (IH m1) as (m2 & E2 & A2).
  exists m2. cbn. rewrite (bind_Ok _ _ _ _ _ E1). split; [done|].
  apply (console_after_trans _ _ _ [b] bytes A1 A2).
Qed.

Lemma write_serial_Ok fuel c m : (polls m < fuel)%nat →
  ∃ m', write_serial fuel c m = (Ok tt, m') ∧ console_after m (if c =? 10 then [13; 10] else [c]) m'.
Proof.
  intros Hf. unfold write_serial, write_serial_at.
  destruct (wait_transmit_Ok fuel m Hf) as (m1 & E1 & A1). rewrite (bind_Ok _ _ _ _ _ E1).
  destruct (Z.eqb_spec c 10) as [->|Hc].
  - destruct (wait_transmit_Ok fuel m1) as (m2 & E2 & A2); [destruct A1 as (_ & ? & _); lia|].
    destruct (send_after m2 13) as (m3 & E3 & A3). destruct (send_after m3 10) as (m4 & E4 & A4).
    exists m4. erewrite bind_Ok; [|rewrite (bind_Ok _ _ _ _ _ E2); exact E3]. split; [exact E4|].
    exact (console_after_trans _ _ _ _ _ A1 (console_after_trans _ _ _ _ _ A2 (console_after_trans _ _ _ _ _ A3 A4))).
  - destruct (send_after m1 c) as (m2 & E2 & A2). exists m2. erewrite bind_Ok by done. split; [exact E2|].
    exact (console_after_trans _ _ _ _ _ A1 A2).
Qed.

Lemma print_Ok fuel text m : (polls m < fuel)%nat →
  ∃ m', print fuel text m = (Ok tt, m') ∧ console_after m (crlf text) m'.
Proof.
  intros Hf. unfold print, write_string. destruct (wait_transmit_Ok fuel m Hf) as (m1 & E1 & A1).
  destruct (outsb_Ok (crlf text) m1) as (m2 & E2 & A2). exists m2.
  rewrite (bind_Ok _ _ _ _ _ E1). split; [exact E2|]. exact (console_after_trans _ _ _ _ _ A1 A2).
Qed.

End console.
