(* ===== verification/Keyboard.v ===== *)
(** src/src/drivers/keyboard.rs: the PS/2 keyboard.

    The state is the hardware and the static [EXTENDED_KEY]; the [match] on the
    scancode is the table [keys], in the source's order. *)

From S2P Require Import Prelude Io Interrupts Acpi Apic Serial.

Definition KBD_DATA_PORT : Z := 0x60.
Definition KBD_COMMAND_AND_STATUS_PORT : Z := 0x64.

Record Key := mk_key { pressed : bool; name : string; character : option Z }.

#[export] Instance Key_eq_dec : EqDecision Key.
Proof. solve_decision. Defined.

(** An arm of the [match]: its name and character, or the extended key's and the
    plain key's where the arm tests [EXTENDED_KEY] and returns early. *)
Inductive Arm :=
  | Plain (k : string * option Z)
  | Extended (extended plain : string * option Z).

Definition ch (s : string) : Z := match chars s with [c] => c | _ => 0 end.

Definition keys_01_0F : list (Z * Arm) := [
  (0x01, Plain ("Esc", Some 0x1B));
  (0x02, Plain ("1", Some (ch "1")));
  (0x03, Plain ("2", Some (ch "2")));
  (0x04, Plain ("3", Some (ch "3")));
  (0x05, Plain ("4", Some (ch "4")));
  (0x06, Plain ("5", Some (ch "5")));
  (0x07, Plain ("6", Some (ch "6")));
  (0x08, Plain ("7", Some (ch "7")));
  (0x09, Plain ("8", Some (ch "8")));
  (0x0A, Plain ("9", Some (ch "9")));
  (0x0B, Plain ("0", Some (ch "0")));
  (0x0C, Plain ("-", Some (ch "-")));
  (0x0D, Plain ("=", Some (ch "=")));
  (0x0E, Plain ("Backspace", Some 0x08));
  (0x0F, Plain ("Tab", Some 0x09))].

Definition keys_10_1D : list (Z * Arm) := [
  (0x10, Plain ("q", Some (ch "q")));
  (0x11, Plain ("w", Some (ch "w")));
  (0x12, Plain ("e", Some (ch "e")));
  (0x13, Plain ("r", Some (ch "r")));
  (0x14, Plain ("t", Some (ch "t")));
  (0x15, Plain ("y", Some (ch "y")));
  (0x16, Plain ("u", Some (ch "u")));
  (0x17, Plain ("i", Some (ch "i")));
  (0x18, Plain ("o", Some (ch "o")));
  (0x19, Plain ("p", Some (ch "p")));
  (0x1A, Plain ("[", Some (ch "[")));
  (0x1B, Plain ("]", Some (ch "]")));
  (0x1C, Plain ("Enter", Some 0x0A));
  (0x1D, Extended ("RCtrl", None) ("LCtrl", None))].

Definition keys_1E_2D : list (Z * Arm) := [
  (0x1E, Plain ("a", Some (ch "a")));
  (0x1F, Plain ("s", Some (ch "s")));
  (0x20, Plain ("d", Some (ch "d")));
  (0x21, Plain ("f", Some (ch "f")));
  (0x22, Plain ("g", Some (ch "g")));
  (0x23, Plain ("h", Some (ch "h")));
  (0x24, Plain ("j", Some (ch "j")));
  (0x25, Plain ("k", Some (ch "k")));
  (0x26, Plain ("l", Some (ch "l")));
  (0x27, Plain (";", Some (ch ";")));
  (0x28, Plain ("'", Some (ch "'")));
  (0x29, Plain ("`", Some (ch "`")));
  (0x2A, Plain ("LShift", None));
  (0x2B, Plain ("\", Some (ch "\")));
  (0x2C, Plain ("z", Some (ch "z")));
  (0x2D, Plain ("x", Some (ch "x")))].

Definition keys_2E_3A : list (Z * Arm) := [
  (0x2E, Plain ("c", Some (ch "c")));
  (0x2F, Plain ("v", Some (ch "v")));
  (0x30, Plain ("b", Some (ch "b")));
  (0x31, Plain ("n", Some (ch "n")));
  (0x32, Plain ("m", Some (ch "m")));
  (0x33, Plain (",", Some (ch ",")));
  (0x34, Plain (".", Some (ch ".")));
  (0x35, Plain ("/", Some (ch "/")));
  (0x36, Plain ("RShift", None));
  (0x37, Plain ("*", Some (ch "*")));
  (0x38, Plain ("Alt", None));
  (0x39, Plain (" ", Some (ch " ")));
  (0x3A, Plain ("CapsLock", None))].

Definition keys_3B_46 : list (Z * Arm) := [
  (0x3B, Plain ("F1", None));
  (0x3C, Plain ("F2", None));
  (0x3D, Plain ("F3", None));
  (0x3E, Plain ("F4", None));
  (0x3F, Plain ("F5", None));
  (0x40, Plain ("F6", None));
  (0x41, Plain ("F7", None));
  (0x42, Plain ("F8", None));
  (0x43, Plain ("F9", None));
  (0x44, Plain ("F10", None));
  (0x45, Plain ("NumLock", None));
  (0x46, Plain ("ScrLock", None))].

Definition keys_47_4E : list (Z * Arm) := [
  (0x47, Extended ("Home", None) ("Keypad 7", Some (ch "7")));
  (0x48, Extended ("CurUp", None) ("Keypad 8", Some (ch "8")));
  (0x49, Extended ("PgUp", None) ("Keypad 9", Some (ch "9")));
  (0x4A, Plain ("-", Some (ch "-")));
  (0x4B, Extended ("CurLeft", None) ("Keypad 4", Some (ch "4")));
  (0x4C, Plain ("Keypad 5", Some (ch "5")));
  (0x4D, Extended ("CurRight", None) ("Keypad 6", Some (ch "6")));
  (0x4E, Plain ("+", Some (ch "+")))].

Definition keys_4F_58 : list (Z * Arm) := [
  (0x4F, Extended ("End", None) ("Keypad 1", Some (ch "1")));
  (0x50, Extended ("CurDown", None) ("Keypad 2", Some (ch "2")));
  (0x51, Extended ("PgDn", None) ("Keypad 3", Some (ch "3")));
  (0x52, Extended ("Insert", None) ("Keypad 0", Some (ch "0")));
  (0x53, Extended ("Del", None) ("Keypad .", Some (ch ".")));
  (0x57, Plain ("F11", None));
  (0x58, Plain ("F12", None))].

Definition keys : list (Z * Arm) :=
  keys_01_0F ++ keys_10_1D ++ keys_1E_2D ++ keys_2E_3A ++ keys_3B_46 ++ keys_47_4E ++ keys_4F_58.

Fixpoint find_arm (scancode : Z) (arms : list (Z * Arm)) : option Arm :=
  match arms with
  | [] => None
  | (code, arm) :: arms' => if scancode =? code then Some arm else find_arm scancode arms'
  end.

(** The state is [EXTENDED_KEY]. *)
Definition parse_key (scancode : Z) : prog bool (option Key) :=
  if scancode =? 0xE0 then modify negb ;; mret None else
  let pressed := Z.land scancode 0x80 =? 0x0 in
  let scancode := Z.land scancode (Z.lxor 0xFF (Z.shiftl 1 7)) in
  EXTENDED_KEY ← get;
  mret match find_arm scancode keys with
       | None => None
       | Some (Plain (name, c)) => Some (mk_key pressed name c)
       | Some (Extended (ename, ec) (name, c)) =>
           if EXTENDED_KEY : bool then Some (mk_key pressed ename ec) else Some (mk_key pressed name c)
       end.

Section keyboard.
Context {M : Type} `{IoPorts M, Mmio M}.

(** [cell] is the static [APIC]. *)
Definition keyboard_interrupt_handler (fuel : nat) (cell : option APIC) : prog (M * bool) unit :=
  on_fst (signal_end_of_interrupt cell) ;;
  scancode ← on_fst (inb KBD_DATA_PORT);
  key ← on_snd (parse_key scancode);
  match key with
  | None => mret tt
  | Some key =>
      if negb (pressed key) then mret tt else
      match character key with
      | Some c => on_fst (write_serial fuel (u8 c))
      | None => mret tt
      end
  end.

(** [init], over the hardware and the descriptor tables. *)
Definition init (fuel : nat) (sym : Symbols) : prog (M * Cpu) unit :=
  on_fst (while_loop fuel
    (v ← inb KBD_COMMAND_AND_STATUS_PORT; mret (negb (Z.land v 1 =? 0)))
    (inb KBD_DATA_PORT ;; mret tt)) ;;
  on_fst (outb KBD_COMMAND_AND_STATUS_PORT 0xA7) ;;
  on_fst (outb KBD_COMMAND_AND_STATUS_PORT 0xAD) ;;
  on_snd (idt_set_gate (as_u8 Keyboard) (Interrupts.keyboard_interrupt_handler sym)) ;;
  on_fst (outb KBD_COMMAND_AND_STATUS_PORT 0xA8) ;;
  on_fst (outb KBD_COMMAND_AND_STATUS_PORT 0xAE) ;;
  on_fst (inb KBD_COMMAND_AND_STATUS_PORT) ;;
  mret tt.

Definition set_leds (fuel : nat) (led_byte : Z) : prog M unit :=
  outb KBD_DATA_PORT 0xED ;;
  while_loop fuel (v ← inb KBD_DATA_PORT; mret (negb (v =? 0xFA))) (mret tt) ;;
  outb KBD_DATA_PORT led_byte.

End keyboard.

(** ** What a stream of scancodes types *)

(** A key event, and the bytes a set-1 keyboard sends for it: an extended key's
    code follows the prefix 0xE0, a release has bit 7 set. *)
Record Event := mk_event { ev_extended : bool; ev_code : Z; ev_pressed : bool }.
Definition event_bytes (e : Event) : list Z :=
  (if ev_extended e then [0xE0] else []) ++ [if ev_pressed e then ev_code e else ev_code e + 0x80].
Definition event_wf (e : Event) : Prop := 0 ≤ ev_code e < 0x60.

Definition key_char (extended : bool) (code : Z) : option Z :=
  match find_arm code keys with
  | Some (Plain (_, c)) => c
  | Some (Extended (_, ec) (_, c)) => if extended then ec else c
  | None => None
  end.
Definition console_bytes (c : option Z) : list Z :=
  match c with Some c => if c =? 10 then [13; 10] else [c] | None => [] end.

(** Each event is decoded as extended if the extended events up to it, itself
    included, are odd in number. *)
Fixpoint typed (extended : bool) (events : list Event) : list Z :=
  match events with
  | [] => []
  | e :: events' =>
      let extended' := xorb extended (ev_extended e) in
      (if ev_pressed e then console_bytes (key_char extended' (ev_code e)) else []) ++
      typed extended' events'
  end.
Definition parity (extended : bool) (events : list Event) : bool :=
  foldl (λ b e, xorb b (ev_extended e)) extended events.

(** What the code finds for a scancode below 0x60, pressed or released. *)
Lemma code_bits code : 0 ≤ code < 0x60 →
  code ≠ 0xE0 ∧ Z.land code 0x80 = 0 ∧ Z.land code (Z.lxor 0xFF (Z.shiftl 1 7)) = code ∧
  code + 0x80 ≠ 0xE0 ∧ Z.land (code + 0x80) 0x80 = 0x80 ∧
  Z.land (code + 0x80) (Z.lxor 0xFF (Z.shiftl 1 7)) = code.
Proof.
  intros Hc. assert (Forall (λ code, Z.land code 0x80 = 0 ∧ Z.land code (Z.lxor 0xFF (Z.shiftl 1 7)) = code ∧
    Z.land (code + 0x80) 0x80 = 0x80 ∧ Z.land (code + 0x80) (Z.lxor 0xFF (Z.shiftl 1 7)) = code)
    (seqZ 0 0x60)) as H by (apply (bool_decide_unpack _); vm_compute; exact I).
  rewrite Forall_forall in H. destruct (H code) as (? & ? & ? & ?); [apply elem_of_seqZ; lia|].
  repeat split; (done || lia).
Qed.

Definition arm_chars (a : Arm) : list (option Z) :=
  match a with Plain (_, c) => [c] | Extended (_, e) (_, c) => [e; c] end.

Lemma find_arm_elem code arms a : find_arm code arms = Some a → a ∈ snd <$> arms.
Proof.
  induction arms as [|[c b] arms IH]; cbn; [done|]. case_match.
  - intros [= ->]. apply elem_of_cons. by left.
  - intros H'. apply elem_of_cons. right. by apply IH.
Qed.

(** The characters of the table are single bytes. *)
Lemma key_char_byte extended code c : key_char extended code = Some c → u8 c = c.
Proof.
  unfold key_char. destruct (find_arm code keys) as [a|] eqn:E; [|done]. apply find_arm_elem in E.
  assert (Forall (λ a, Forall (λ oc, default 0 oc = u8 (default 0 oc)) (arm_chars a)) (snd <$> keys)) as H
    by (apply (bool_decide_unpack _); vm_compute; exact I).
  rewrite Forall_forall in H. apply H in E. destruct a as [[? oc]|[? oe] [? oc]]; cbn in E.
  - intros ->. apply Forall_inv in E. done.
  - apply Forall_cons in E as [E1 E2]. apply Forall_inv in E2. by destruct extended; intros ->.
Qed.

(** What [parse_key] returns for the code byte of an event. *)
Lemma parse_event ext code (pr : bool) : 0 ≤ code < 0x60 →
  ∃ k, parse_key (if pr then code else code + 0x80) ext = (Ok k, ext) ∧
    (k = None → key_char ext code = None) ∧
    ∀ key, k = Some key → pressed key = pr ∧ character key = key_char ext code.
Proof.
  intros Hc. destruct (code_bits code Hc) as (N1 & L1 & M1 & N2 & L2 & M2). unfold parse_key, key_char.
  assert (((if pr then code else code + 0x80) =? 0xE0) = false) as -> by (destruct pr; by apply Z.eqb_neq).
  assert (Z.land (if pr then code else code + 0x80) (Z.lxor 0xFF (Z.shiftl 1 7)) = code) as -> by (by destruct pr).
  assert ((Z.land (if pr then code else code + 0x80) 0x80 =? 0) = pr) as -> by (destruct pr; [by rewrite L1|by rewrite L2]).
  generalize (find_arm code keys). intros arm. prun. eexists. split; [reflexivity|].
  destruct arm as [[[n c]|[en ec] [n c]]|]; [|destruct ext|];
    (split; [done|]; intros key; intros [= <-]; done).
Qed.

Section typing.
Context {M : Type} `{HM : IoPorts M, !Mmio M} {sent : M → list Z} {polls : M → nat}.
(** The controller's output buffer, and how often the local APIC was told that an
    interrupt ended. *)
Context {queue : M → list Z} {eois : M → Z} (apic : APIC).
Context `{!Uart M sent polls (λ m, (queue m, eois m))}.

(** Reading the data port takes the oldest byte; a write to the local APIC's EOI
    register ends the interrupt.  Neither touches the console. *)
Class Ps2 := {
  kbd_data : ∀ m b q, queue m = b :: q → ∃ m', inb KBD_DATA_PORT m = (Ok b, m') ∧
    queue m' = q ∧ sent m' = sent m ∧ (polls m' ≤ polls m)%nat ∧ eois m' = eois m;
  apic_eoi : ∀ m, ∃ m', mmio_write (local_apic apic + 0xB0) 0x00 m = (Ok tt, m') ∧
    queue m' = queue m ∧ sent m' = sent m ∧ (polls m' ≤ polls m)%nat ∧ eois m' = eois m + 1;
}.
Context `{!Ps2}.

(** One interrupt takes the scancode off the controller. *)
Lemma interrupt_start m b q : queue m = b :: q → ∃ m1, queue m1 = q ∧ sent m1 = sent m ∧
  (polls m1 ≤ polls m)%nat ∧ eois m1 = eois m + 1 ∧ ∀ fuel ext,
  keyboard_interrupt_handler fuel (Some apic) (m, ext) =
  (key ← on_snd (parse_key b);
   match key with
   | None => mret tt
   | Some key =>
       if negb (pressed key) then mret tt else
       match character key with
       | Some c => on_fst (write_serial fuel (u8 c))
       | None => mret tt
       end
   end) (m1, ext).
Proof.
  intros Hq. destruct (apic_eoi m) as (m0 & E0 & Q0 & S0 & P0 & I0).
  destruct (kbd_data m0 b q) as (m1 & E1 & Q1 & S1 & P1 & I1); [congruence|].
  exists m1. repeat split; [congruence..|lia|lia|]. intros fuel ext. unfold keyboard_interrupt_handler.
  erewrite bind_Ok by (apply on_fst_eq; exact E0). by erewrite bind_Ok by (apply on_fst_eq; exact E1).
Qed.

Definition interrupts (fuel : nat) (n : nat) : prog (M * bool) unit :=
  repeat_n n (keyboard_interrupt_handler fuel (Some apic)).

(** The interrupts of one event. *)
Lemma event_Ok fuel m ext e q : event_wf e → queue m = event_bytes e ++ q → (polls m < fuel)%nat →
  ∃ m', interrupts fuel (length (event_bytes e)) (m, ext) = (Ok tt, (m', xorb ext (ev_extended e))) ∧
    queue m' = q ∧ (polls m' ≤ polls m)%nat ∧ eois m' = eois m + len (event_bytes e) ∧
    sent m' = sent m ++ if ev_pressed e then console_bytes (key_char (xorb ext (ev_extended e)) (ev_code e)) else [].
Proof.
  intros Hwf Hq Hf. unfold interrupts, event_bytes in *.
  assert (∀ m ext, (polls m < fuel)%nat →
    queue m = (if ev_pressed e then ev_code e else ev_code e + 128) :: q → ∃ m',
    repeat_n 1 (keyboard_interrupt_handler fuel (Some apic)) (m, ext) = (Ok tt, (m', ext)) ∧
    queue m' = q ∧ (polls m' ≤ polls m)%nat ∧ eois m' = eois m + 1 ∧
    sent m' = sent m ++ if ev_pressed e then console_bytes (key_char ext (ev_code e)) else []) as Hcode.
  { clear m ext Hq Hf. intros m ext Hf Hq. cbn [repeat_n].
    destruct (interrupt_start _ _ _ Hq) as (m1 & Q1 & S1 & P1 & I1 & E1).
    destruct (parse_event ext (ev_code e) (ev_pressed e) Hwf) as (k & Ek & Hn & Hk).
    destruct (ev_pressed e && bool_decide (is_Some (key_char ext (ev_code e)))) eqn:Et.
    - apply andb_true_iff in Et as [Ep [c Ec]%bool_decide_eq_true]. rewrite Ep, Ec in *.
      destruct k as [key|]; [|by specialize (Hn eq_refl)]. destruct (Hk key eq_refl) as [Hp Hc].
      destruct (write_serial_Ok fuel c m1) as (m2 & E2 & A1 & A2 & A3); [lia|]. injection A3 as A3 A4.
      assert (keyboard_interrupt_handler fuel (Some apic) (m, ext) = (Ok tt, (m2, ext))) as E3.
      { rewrite E1. erewrite bind_Ok by (apply on_snd_eq; exact Ek). cbv beta iota.
        rewrite Hp, Hc, (key_char_byte _ _ _ Ec). apply on_fst_eq, E2. }
      exists m2. rewrite (bind_Ok _ _ _ _ _ E3).
      repeat split; [congruence|lia|congruence|]. rewrite A1, S1. done.
    - exists m1. assert (ev_pressed e = true → key_char ext (ev_code e) = None) as Hnone.
      { intros Ep. rewrite Ep in Et. apply bool_decide_eq_false in Et.
        destruct (key_char _ _); [destruct Et; eauto|done]. }
      assert (keyboard_interrupt_handler fuel (Some apic) (m, ext) = (Ok tt, (m1, ext))) as E2.
      { rewrite E1. erewrite bind_Ok by (apply on_snd_eq; exact Ek). destruct k as [key|]; [|done].
        cbv beta iota. destruct (Hk key eq_refl) as [-> ->]. destruct (ev_pressed e); [|done]. by rewrite Hnone. }
      rewrite (bind_Ok _ _ _ _ _ E2). repeat split; [congruence|lia|congruence|]. rewrite S1.
      destruct (ev_pressed e); [rewrite Hnone by done|]; by rewrite app_nil_r. }
  destruct (ev_extended e); cbn [app length] in *.
  - destruct (interrupt_start _ _ _ Hq) as (m1 & Q1 & S1 & P1 & I1 & E1).
    destruct (Hcode m1 (negb ext)) as (m2 & E2 & Q2 & P2 & I2 & S2); [lia|done|].
    exists m2. rewrite repeat_n_S. rewrite (bind_Ok _ _ _ tt (m1, negb ext)) by (rewrite E1; done).
    rewrite E2, xorb_true_r, I2, I1, S2, S1. repeat split; [done|lia|]. unfold len. cbn. lia.
  - destruct (Hcode m ext) as (m2 & E2 & Q2 & P2 & I2 & S2); [done..|]. exists m2.
    by rewrite E2, xorb_false_r, I2, S2.
Qed.


End typing.

(** ** A machine with the two devices *)

Record ToyMachine := mk_toy { t_sent : list Z; t_queue : list Z; t_eois : Z; t_polls : nat }.

#[export] Instance toy_ports : IoPorts ToyMachine := {|
  inb port m :=
    if port =? 0x20 then
      (Ok (if t_polls m then 1 else 0), mk_toy (t_sent m) (t_queue m) (t_eois m) (pred (t_polls m)))
    else if port =? 0x60 then
      (Ok (default 0 (head (t_queue m))), mk_toy (t_sent m) (tail (t_queue m)) (t_eois m) (t_polls m))
    else (Ok 0, m);
  inw _ m := (Ok 0, m);
  inl _ m := (Ok 0, m);
  outb port c m :=
    if port =? PORT then (Ok tt, mk_toy (t_sent m ++ [c]) (t_queue m) (t_eois m) (t_polls m)) else (Ok tt, m);
  outw _ _ m := (Ok tt, m);
  outl _ _ m := (Ok tt, m)
|}.
#[export] Instance toy_mmio : Mmio ToyMachine := {|
  mmio_read _ m := (Ok 0, m);
  mmio_write addr _ m :=
    if addr =? 0xFEE000B0 then (Ok tt, mk_toy (t_sent m) (t_queue m) (t_eois m + 1) (t_polls m)) else (Ok tt, m)
|}.
Definition toy_apic : APIC := mk_apic (mk_ioapic 0 0 0xFEC00000 0) 0xFEE00000 [].

#[export] Instance toy_uart : Uart ToyMachine t_sent t_polls (λ m, (t_queue m, t_eois m)).
Proof.
  split.
  - intros m. eexists _, _. split; [reflexivity|]. cbn. destruct (t_polls m); cbn; repeat split; lia.
  - intros m c. eexists. split; [reflexivity|]. cbn. repeat split; lia.
Qed.
#[export] Instance toy_ps2 : Ps2 (sent:=t_sent) (polls:=t_polls) (queue:=t_queue) (eois:=t_eois) toy_apic.
Proof.
  split.
  - intros m b q Hq. eexists. split; [cbn; rewrite Hq; reflexivity|]. cbn. repeat split; lia.
  - intros m. eexists. split; [reflexivity|]. cbn. repeat split; lia.
Qed.

(** [a], Enter, and the cursor-up key held: its repeats alternate between the
    cursor key and the keypad's 8. *)
Definition demo_events : list Event :=
  [mk_event false 0x1E true; mk_event false 0x1E false; mk_event false 0x1C true;
   mk_event true 0x48 true; mk_event true 0x48 true; mk_event true 0x48 true; mk_event true 0x48 true].

