(* ===== verification/Pci.v ===== *)
(** src/src/drivers/pci.rs: enumeration of the PCI bus through the configuration
    ports.  The state is the hardware and the static [PCI_DEVICES]. *)

From S2P Require Import Prelude Io.

Definition PCI_CONFIG_PORT : Z := 0xCF8.
Definition PCI_DATA_PORT : Z := 0xCFC.

Record PciDevice := mk_pci {
  bus : Z;
  device : Z;
  func : Z;
  device_id : Z;
  vendor_id : Z;
  class_code : Z;
  subclass_code : Z;
  prog_if : Z;
  revision_id : Z;
}.

#[export] Instance PciDevice_eq_dec : EqDecision PciDevice.
Proof. solve_decision. Defined.

(** [address], with its fields or-ed in. *)
Definition config_address (bus device func offset : Z) : Z :=
  let address := 0 in
  let address := Z.lor address (Z.shiftl 1 31) in
  let address := Z.lor address (u32 (Z.shiftl bus 16)) in
  let address := Z.lor address (u32 (Z.shiftl device 11)) in
  let address := Z.lor address (u32 (Z.shiftl func 8)) in
  Z.lor address (Z.land offset 0xFC).

Section pci.
Context {M : Type} `{IoPorts M}.

Definition read_pci_config (bus device func offset : Z) : prog M Z :=
  outl PCI_CONFIG_PORT (config_address bus device func offset) ;;
  data ← inl PCI_DATA_PORT;
  mret (Z.shiftr data (u8 (Z.land offset 2 * 8))).

Definition read_pci_vendor_id (bus device func : Z) : prog M Z :=
  v ← read_pci_config bus device func 0x00; mret (u16 (Z.land v 0xFFFF)).
Definition read_pci_device_id (bus device func : Z) : prog M Z :=
  v ← read_pci_config bus device func 0x00; mret (u16 (Z.land (Z.shiftr v 16) 0xFFFF)).
Definition read_pci_class_code (bus device func : Z) : prog M Z :=
  v ← read_pci_config bus device func 0x08; mret (u8 (Z.land (Z.shiftr v 24) 0xFF)).
Definition read_pci_subclass_code (bus device func : Z) : prog M Z :=
  v ← read_pci_config bus device func 0x08; mret (u8 (Z.land (Z.shiftr v 16) 0xFF)).
Definition read_pci_prog_if (bus device func : Z) : prog M Z :=
  v ← read_pci_config bus device func 0x08; mret (u8 (Z.land (Z.shiftr v 8) 0xFF)).
Definition read_pci_revision_id (bus device func : Z) : prog M Z :=
  v ← read_pci_config bus device func 0x08; mret (u8 (Z.land v 0xFF)).
Definition read_pci_header_type (bus device func : Z) : prog M Z :=
  v ← read_pci_config bus device func 0x0C; mret (u8 (Z.land (Z.shiftr v 16) 0xFF)).
Definition read_pci_to_pci_secondary_bus (bus device func : Z) : prog M Z :=
  v ← read_pci_config bus device func 0x10; mret (u8 (Z.land v 0xFF)).

Definition _get_pci_bar_addresses (bus device func : Z) : prog M (list Z) :=
  bar0 ← read_pci_config bus device func 0x10;
  bar1 ← read_pci_config bus device func 0x14;
  bar2 ← read_pci_config bus device func 0x18;
  bar3 ← read_pci_config bus device func 0x1C;
  bar4 ← read_pci_config bus device func 0x20;
  bar5 ← read_pci_config bus device func 0x24;
  mret [bar0; bar1; bar2; bar3; bar4; bar5].

Definition PciDevice_new (bus device func : Z) : prog M PciDevice :=
  vendor_id ← read_pci_vendor_id bus device func;
  device_id ← read_pci_device_id bus device func;
  class_code ← read_pci_class_code bus device func;
  subclass_code ← read_pci_subclass_code bus device func;
  prog_if ← read_pci_prog_if bus device func;
  revision_id ← read_pci_revision_id bus device func;
  mret (mk_pci bus device func device_id vendor_id class_code subclass_code prog_if revision_id).

Definition check_function (bus device func : Z) : prog (M * list PciDevice) unit :=
  d ← on_fst (PciDevice_new bus device func);
  on_snd (modify (λ devices, devices ++ [d])) ;;
  class_code ← on_fst (read_pci_class_code bus device func);
  subclass_code ← on_fst (read_pci_subclass_code bus device func);
  if (class_code =? 0x06) && (subclass_code =? 0x04)
  then on_fst (read_pci_to_pci_secondary_bus bus device func) ;; mret tt
  else mret tt.

Definition check_device (bus device : Z) : prog (M * list PciDevice) unit :=
  let func := 0 in
  vendor_id ← on_fst (read_pci_vendor_id bus device func);
  if vendor_id =? 0xFFFF then mret tt else
  check_function bus device func ;;
  header_type ← on_fst (read_pci_header_type bus device func);
  if negb (Z.land header_type 0x80 =? 0) then
    for_each (seqZ 1 7) (λ func,
      vendor_id ← on_fst (read_pci_vendor_id bus device func);
      if negb (vendor_id =? 0xFFFF) then check_function bus device func else mret tt)
  else mret tt.

Definition check_bus (bus : Z) : prog (M * list PciDevice) unit :=
  for_each (seqZ 0 32) (check_device bus).

Definition enumerate_pci_bus : prog (M * list PciDevice) unit :=
  for_each (seqZ 0 256) check_bus.

End pci.

(** ** What enumeration finds *)

(** The host bridge: the data port reads the 32-bit register of the
    configuration space [config] that the last address written selects. *)
Class PciHost (M : Type) `{IoPorts M} (config : Z → Z) := {
  pci_read : ∀ m address, ∃ m1 m2, outl PCI_CONFIG_PORT address m = (Ok tt, m1) ∧
    inl PCI_DATA_PORT m1 = (Ok (config address), m2);
  pci_width : ∀ address, fits 32 (config address);
}.

(** The register at [offset] of a function, by the layout of the address: enable,
    bus, device, function, offset. *)
Definition register (config : Z → Z) (bus device func offset : Z) : Z :=
  config (2^31 + bus * 2^16 + device * 2^11 + func * 2^8 + offset).

(** A byte field of a register. *)
Definition byte_of (r i : Z) : Z := (r / 2^(8 * i)) mod 2^8.

Definition is_present (config : Z → Z) (bus device func : Z) : bool :=
  negb (register config bus device func 0 mod 2^16 =? 0xFFFF).
Definition multi_function (config : Z → Z) (bus device : Z) : bool :=
  Z.testbit (register config bus device 0 0x0C) 23.

(** The functions a device answers for: none without function 0, and only that one
    unless its header is multi-function. *)
Definition functions_of (config : Z → Z) (bus device : Z) : list Z :=
  if is_present config bus device 0 then
    0 :: (if multi_function config bus device
          then filter (λ func, is_present config bus device func = true) (seqZ 1 7) else [])
  else [].

Definition describe (config : Z → Z) (bus device func : Z) : PciDevice :=
  let id := register config bus device func 0 in
  let class := register config bus device func 8 in
  mk_pci bus device func (id / 2^16) (id mod 2^16) (byte_of class 3) (byte_of class 2)
    (byte_of class 1) (byte_of class 0).

Definition inventory (config : Z → Z) : list PciDevice :=
  bus ← seqZ 0 256; device ← seqZ 0 32; func ← functions_of config bus device;
  [describe config bus device func].

Lemma config_address_eq bus device func offset : fits 8 bus → fits 5 device → fits 3 func →
  fits 8 offset → offset mod 4 = 0 →
  config_address bus device func offset = 2^31 + bus * 2^16 + device * 2^11 + func * 2^8 + offset.
Proof.
  intros Hb Hd Hf Ho H4. unfold config_address, fits in *. rewrite !Z.shiftl_mul_pow2, !u32_small by lia.
  assert (Z.land offset 0xFC = offset) as ->.
  { change 0xFC with (2^8 - 1 - (2^2 - 1)). rewrite (land_lnot_low offset 2 8) by (done || lia). change (2^2) with 4. lia. }
  rewrite Z.lor_0_l, <- !Z.lor_assoc.
  replace (func * 2^8) with (Z.shiftl func 8) by (rewrite Z.shiftl_mul_pow2; lia).
  rewrite (shiftl_or_add func offset 8) by (unfold fits; lia).
  replace (device * 2^11) with (Z.shiftl device 11) by (rewrite Z.shiftl_mul_pow2; lia).
  rewrite (shiftl_or_add device (func * 2^8 + offset) 11) by (unfold fits; lia).
  replace (bus * 2^16) with (Z.shiftl bus 16) by (rewrite Z.shiftl_mul_pow2; lia).
  rewrite (shiftl_or_add bus (device * 2^11 + (func * 2^8 + offset)) 16) by (unfold fits; lia).
  change (1 * 2^31) with (Z.shiftl 1 31). rewrite shiftl_or_add by (unfold fits; lia).
  rewrite ?Z.shiftl_mul_pow2 by lia. lia.
Qed.

Section host.
Context {M : Type} `{HM : IoPorts M} {config : Z → Z} `{!PciHost M config}.

Lemma config_read m bus device func offset : fits 8 bus → fits 5 device → fits 3 func →
  offset ∈ [0; 8; 0xC; 0x10] →
  ∃ m', read_pci_config bus device func offset m = (Ok (register config bus device func offset), m').
Proof.
  intros Hb Hd Hf Ho. unfold read_pci_config.
  assert (fits 8 offset ∧ offset mod 4 = 0 ∧ u8 (Z.land offset 2 * 8) = 0) as (Ho1 & Ho2 & Ho3).
  { rewrite !elem_of_cons in Ho. unfold fits. destruct Ho as [->|[->|[->|[->|Ho]]]]; [done..|by apply elem_of_nil in Ho]. }
  rewrite config_address_eq, Ho3 by done.
  destruct (pci_read m (2^31 + bus * 2^16 + device * 2^11 + func * 2^8 + offset)) as (m1 & m2 & E1 & E2).
  exists m2. rewrite (bind_Ok _ _ _ _ _ E1), (bind_Ok _ _ _ _ _ E2). rewrite Z.shiftr_0_r. done.
Qed.

Lemma field_0 v k : Z.land v (2^k - 1) mod 2^k = v mod 2^k.
Proof.
  destruct (decide (0 ≤ k)); [by rewrite land_ones_mod, Zmod_mod|].
  rewrite (Z.pow_neg_r 2 k) by lia. by rewrite !Zmod_0_r, Z.land_m1_r.
Qed.

Lemma read_field_u8 v i : 0 ≤ i → u8 (Z.land (Z.shiftr v (8 * i)) 0xFF) = byte_of v i.
Proof. intros. unfold u8, byte_of. rewrite <- Z.shiftr_div_pow2 by lia. apply (field_0 _ 8). Qed.

Ltac pci_field :=
  intros Hb Hd Hf;
  unfold read_pci_vendor_id, read_pci_device_id, read_pci_class_code, read_pci_subclass_code,
    read_pci_prog_if, read_pci_revision_id, read_pci_header_type, read_pci_to_pci_secondary_bus;
  edestruct config_read as [m' E]; [exact Hb|exact Hd|exact Hf| |exists m'; erewrite bind_Ok by exact E];
  [rewrite !elem_of_cons; tauto|].

Lemma vendor_Ok m bus device func : fits 8 bus → fits 5 device → fits 3 func →
  ∃ m', read_pci_vendor_id bus device func m = (Ok (register config bus device func 0 mod 2^16), m').
Proof. pci_field. unfold u16. by rewrite (field_0 _ 16). Qed.
Lemma device_id_Ok m bus device func : fits 8 bus → fits 5 device → fits 3 func →
  ∃ m', read_pci_device_id bus device func m = (Ok (register config bus device func 0 / 2^16), m').
Proof.
  pci_field. unfold u16. rewrite (field_0 _ 16), Z.shiftr_div_pow2 by lia. rewrite Z.mod_small; [done|].
  destruct (pci_width (config := config) (2^31 + bus * 2^16 + device * 2^11 + func * 2^8 + 0)) as [H1 H2].
  unfold register. split; [apply Z.div_pos; lia|apply Z.div_lt_upper_bound; lia].
Qed.
Lemma class_Ok m bus device func : fits 8 bus → fits 5 device → fits 3 func →
  ∃ m', read_pci_class_code bus device func m = (Ok (byte_of (register config bus device func 8) 3), m').
Proof. pci_field. by rewrite (read_field_u8 _ 3). Qed.
Lemma subclass_Ok m bus device func : fits 8 bus → fits 5 device → fits 3 func →
  ∃ m', read_pci_subclass_code bus device func m = (Ok (byte_of (register config bus device func 8) 2), m').
Proof. pci_field. by rewrite (read_field_u8 _ 2). Qed.
Lemma prog_if_Ok m bus device func : fits 8 bus → fits 5 device → fits 3 func →
  ∃ m', read_pci_prog_if bus device func m = (Ok (byte_of (register config bus device func 8) 1), m').
Proof. pci_field. by rewrite (read_field_u8 _ 1). Qed.
Lemma revision_Ok m bus device func : fits 8 bus → fits 5 device → fits 3 func →
  ∃ m', read_pci_revision_id bus device func m = (Ok (byte_of (register config bus device func 8) 0), m').
Proof. pci_field. by rewrite <- (read_field_u8 _ 0), Z.shiftr_0_r. Qed.
Lemma header_Ok m bus device func : fits 8 bus → fits 5 device → fits 3 func →
  ∃ m', read_pci_header_type bus device func m = (Ok (byte_of (register config bus device func 0xC) 2), m').
Proof. pci_field. by rewrite (read_field_u8 _ 2). Qed.
Lemma secondary_Ok m bus device func : fits 8 bus → fits 5 device → fits 3 func →
  ∃ m', read_pci_to_pci_secondary_bus bus device func m = (Ok (byte_of (register config bus device func 0x10) 0), m').
Proof. pci_field. by rewrite <- (read_field_u8 _ 0), Z.shiftr_0_r. Qed.

Lemma PciDevice_new_Ok m bus device func : fits 8 bus → fits 5 device → fits 3 func →
  ∃ m', PciDevice_new bus device func m = (Ok (describe config bus device func), m').
Proof.
  intros Hb Hd Hf. unfold PciDevice_new.
  destruct (vendor_Ok m _ _ _ Hb Hd Hf) as [m1 E1]. pstep E1.
  destruct (device_id_Ok m1 _ _ _ Hb Hd Hf) as [m2 E2]. pstep E2.
  destruct (class_Ok m2 _ _ _ Hb Hd Hf) as [m3 E3]. pstep E3.
  destruct (subclass_Ok m3 _ _ _ Hb Hd Hf) as [m4 E4]. pstep E4.
  destruct (prog_if_Ok m4 _ _ _ Hb Hd Hf) as [m5 E5]. pstep E5.
  destruct (revision_Ok m5 _ _ _ Hb Hd Hf) as [m6 E6]. pstep E6. by exists m6.
Qed.

Lemma check_function_Ok m ds bus device func : fits 8 bus → fits 5 device → fits 3 func →
  ∃ m', check_function bus device func (m, ds) = (Ok tt, (m', ds ++ [describe config bus device func])).
Proof.
  intros Hb Hd Hf. unfold check_function.
  destruct (PciDevice_new_Ok m _ _ _ Hb Hd Hf) as [m1 E1]. pstep (on_fst_eq _ _ ds _ _ E1).
  erewrite bind_Ok by done.
  destruct (class_Ok m1 _ _ _ Hb Hd Hf) as [m2 E2]. erewrite bind_Ok by (apply on_fst_eq; exact E2).
  destruct (subclass_Ok m2 _ _ _ Hb Hd Hf) as [m3 E3]. erewrite bind_Ok by (apply on_fst_eq; exact E3).
  case_match; [|by exists m3].
  destruct (secondary_Ok m3 _ _ _ Hb Hd Hf) as [m4 E4]. erewrite bind_Ok by (apply on_fst_eq; exact E4).
  by exists m4.
Qed.

(** A loop whose turns each append to the list. *)
Lemma for_each_appends {A} (l : list A) (body : A → prog (M * list PciDevice) unit) (f : A → list PciDevice) m ds :
  (∀ x m ds, x ∈ l → ∃ m', body x (m, ds) = (Ok tt, (m', ds ++ f x))) →
  ∃ m', for_each l body (m, ds) = (Ok tt, (m', ds ++ (l ≫= f))).
Proof.
  revert m ds. induction l as [|x l IH]; intros m ds Hb; [exists m; by rewrite app_nil_r|].
  destruct (Hb x m ds) as [m1 E1]; [by constructor|]. cbn [for_each]. rewrite (bind_Ok _ _ _ _ _ E1).
  destruct (IH m1 (ds ++ f x)) as [m2 E2]; [intros y ? ? Hy; apply Hb; by constructor|].
  exists m2. rewrite E2. cbn. by rewrite <- app_assoc.
Qed.

Lemma check_device_Ok m ds bus device : fits 8 bus → fits 5 device →
  ∃ m', check_device bus device (m, ds) =
    (Ok tt, (m', ds ++ (describe config bus device <$> functions_of config bus device))).
Proof.
  intros Hb Hd. assert (fits 3 0) as H0 by (unfold fits; lia). unfold check_device, functions_of, is_present.
  destruct (vendor_Ok m _ _ _ Hb Hd H0) as [m1 E1]. erewrite bind_Ok by (apply on_fst_eq; exact E1).
  destruct (_ =? 0xFFFF); [exists m1; cbn; by rewrite app_nil_r|]. cbn [negb].
  destruct (check_function_Ok m1 ds _ _ _ Hb Hd H0) as [m2 E2]. rewrite (bind_Ok _ _ _ _ _ E2).
  destruct (header_Ok m2 _ _ _ Hb Hd H0) as [m3 E3]. erewrite bind_Ok by (apply on_fst_eq; exact E3).
  assert (negb (Z.land (byte_of (register config bus device 0 0xC) 2) 0x80 =? 0) = multi_function config bus device) as ->.
  { unfold byte_of, multi_function. set (r := register _ _ _ _ _).
    rewrite <- (Z.shiftr_div_pow2 r) by lia. change 0x80 with (Z.shiftl 1 7).
    assert (Z.land (Z.shiftr r (8 * 2) mod 2^8) (Z.shiftl 1 7) = if Z.testbit r 23 then 0x80 else 0) as ->.
    { apply Z.bits_inj'. intros i Hi. rewrite Z.land_spec, Z.shiftl_spec by lia.
      destruct (decide (i = 7)) as [->|].
      - rewrite Z.mod_pow2_bits_low, Z.shiftr_spec by lia. change (7 + 8 * 2) with 23.
        by destruct (Z.testbit r 23).
      - assert (Z.testbit 1 (i - 7) = false) as ->.
        { destruct (decide (i < 7)); [apply Z.testbit_neg_r; lia|]. apply Z.bits_above_log2; cbn; lia. }
        rewrite andb_false_r. destruct (Z.testbit r 23); [|by rewrite Z.testbit_0_l].
        change 0x80 with (2^7). symmetry. by apply Z.pow2_bits_false. }
    by destruct (Z.testbit r 23). }
  destruct (multi_function config bus device); [|exists m3; done].
  destruct (for_each_appends (seqZ 1 7) (λ func : Z,
      vendor_id ← on_fst (read_pci_vendor_id bus device func);
      if negb (vendor_id =? 0xFFFF) then check_function bus device func else mret tt)
    (λ func, if is_present config bus device func then [describe config bus device func] else [])
    m3 (ds ++ [describe config bus device 0])) as [m4 E4].
  - intros func m5 ds' Hf%elem_of_seqZ. assert (fits 3 func) as Hf' by (unfold fits; lia).
    destruct (vendor_Ok m5 _ _ _ Hb Hd Hf') as [m6 E6]. erewrite bind_Ok by (apply on_fst_eq; exact E6).
    unfold is_present. destruct (_ =? 0xFFFF); cbn [negb]; [exists m6; by rewrite app_nil_r|].
    by apply check_function_Ok.
  - exists m4. rewrite E4. cbn [fmap list_fmap]. rewrite <- app_assoc. do 4 f_equal.
    generalize (seqZ 1 7). intros l. induction l as [|x l IH]; [done|]. cbn [mbind list_bind].
    rewrite IH, filter_cons. unfold is_present. destruct (negb _) eqn:E; [by rewrite decide_True|by rewrite decide_False by congruence].
Qed.

(** C34: Enumeration appends exactly the functions of the configuration space that
    answer, in bus, device and function order, each described by its registers. *)
Theorem enumerate_finds m ds :
  ∃ m', enumerate_pci_bus (m, ds) = (Ok tt, (m', ds ++ inventory config)).
Proof.
  unfold enumerate_pci_bus, inventory.
  apply (for_each_appends _ _ (λ bus, device ← seqZ 0 32; func ← functions_of config bus device;
    [describe config bus device func])).
  intros bus m1 ds1 Hb%elem_of_seqZ. unfold check_bus.
  apply (for_each_appends _ _ (λ device, func ← functions_of config bus device;
    [describe config bus device func])).
  intros device m2 ds2 Hd%elem_of_seqZ.
  destruct (check_device_Ok m2 ds2 bus device) as [m3 E3]; [unfold fits; lia..|]. exists m3. by rewrite E3.
Qed.

End host.

(** A bridge that latches the address; a host bridge at 0:0.0 and a two-function
    device at 0:3. *)
Definition demo_config (address : Z) : Z :=
  let at_ device func offset := 2^31 + device * 2^11 + func * 2^8 + offset in
  if address =? at_ 0 0 0 then 0x12378086 else if address =? at_ 0 0 8 then 0x06000002
  else if address =? at_ 3 0 0 then 0x70008086 else if address =? at_ 3 0 8 then 0x06010000
  else if address =? at_ 3 0 0xC then 0x00800000
  else if address =? at_ 3 1 0 then 0x70108086 else if address =? at_ 3 1 8 then 0x01018000
  else if address mod 2^8 =? 0 then 0xFFFFFFFF else 0.

#[export] Instance latch_ports : IoPorts Z := {|
  inb _ m := (Ok 0, m);
  inw _ m := (Ok 0, m);
  inl _ m := (Ok (demo_config m), m);
  outb _ _ m := (Ok tt, m);
  outw _ _ m := (Ok tt, m);
  outl port v m := (Ok tt, if port =? PCI_CONFIG_PORT then v else m)
|}.
#[export] Instance latch_host : PciHost Z demo_config.
Proof.
  split; [by intros m a; exists a, a|]. intros a. unfold demo_config, fits. repeat case_match; lia.
Qed.

Lemma enumerate_finds_witness : ∃ m', enumerate_pci_bus (0, []) = (Ok tt, (m',
  [mk_pci 0 0 0 0x1237 0x8086 6 0 0 2; mk_pci 0 3 0 0x7000 0x8086 6 1 0 0;
   mk_pci 0 3 1 0x7010 0x8086 1 1 0x80 0])).
Proof.
  destruct (enumerate_finds (config := demo_config) 0 []) as [m' E]. exists m'. rewrite E.
  assert (inventory demo_config = [mk_pci 0 0 0 0x1237 0x8086 6 0 0 2; mk_pci 0 3 0 0x7000 0x8086 6 1 0 0;
   mk_pci 0 3 1 0x7010 0x8086 1 1 0x80 0]) as -> by (vm_compute; reflexivity).
  reflexivity.
Defined.
