(* ===== verification/Ide.v ===== *)
(** src/src/drivers/storage/ide.rs: the ATA disk driver.

    Definitions are programs over the hardware [M]; the disk's side of the
    protocol is the class [AtaDisk], against which the driver is verified.  What
    is done with a drive that was found is in Scan.v. *)

From S2P Require Import Prelude Mem Io Storage.

Definition ATA_SECTOR_SIZE : Z := 512.

Inductive ATADriveStatus :=
  Error | Index | Corrupt | DataReqReady | DriveSeekDone | WriteFault | Ready | Busy | NotPresent.
Definition status_u8 (s : ATADriveStatus) : Z :=
  match s with
  | Error => 0x01 | Index => 0x02 | Corrupt => 0x04 | DataReqReady => 0x08 | DriveSeekDone => 0x10
  | WriteFault => 0x20 | Ready => 0x40 | Busy => 0x80 | NotPresent => 0xFF
  end.
(** [impl PartialEq<ATADriveStatus> for u8] *)
Definition status_eq (v : Z) (s : ATADriveStatus) : bool := negb (Z.land v (status_u8 s) =? 0).

Inductive ATADriveCommand :=
  ReadPIO | ReadPIOExt | ReadDMA | ReadDMAExt | WritePIO | WritePIOExt | WriteDMA | WriteDMAExt
  | CacheFlush | CacheFlushExt | Packet | IdentifyPacket | Identify.
Definition command_u8 (c : ATADriveCommand) : Z :=
  match c with
  | ReadPIO => 0x20 | ReadPIOExt => 0x24 | ReadDMA => 0xC8 | ReadDMAExt => 0x25 | WritePIO => 0x30
  | WritePIOExt => 0x34 | WriteDMA => 0xCA | WriteDMAExt => 0x35 | CacheFlush => 0xE7
  | CacheFlushExt => 0xEA | Packet => 0xA0 | IdentifyPacket => 0xA1 | Identify => 0xEC
  end.

Inductive IDEDriveType := Pata | PataPi | Sata | SataPi.
Definition from_lba (lba_mid lba_high : Z) : option IDEDriveType :=
  if (lba_mid =? 0x00) && (lba_high =? 0x00) then Some Pata
  else if (lba_mid =? 0x14) && (lba_high =? 0xEB) then Some PataPi
  else if (lba_mid =? 0x3C) && (lba_high =? 0xC3) then Some Sata
  else if (lba_mid =? 0x69) && (lba_high =? 0x96) then Some SataPi
  else None.

Inductive ATADriveType := Parent | Child.
Definition drive_u8 (d : ATADriveType) : Z :=
  match d with Parent => Z.shiftl 0 4 | Child => Z.shiftl 1 4 end.

Inductive ATADriveDirection := Read | Write.

(** The data registers that the driver uses, and the control register. *)
Definition DATA : Z := 0x00.
Definition SECTOR_COUNT0 : Z := 0x02.
Definition LBA0 : Z := 0x03.
Definition LBA1 : Z := 0x04.
Definition LBA2 : Z := 0x05.
Definition DEVICE_SELECT : Z := 0x06.
Definition COMMAND_AND_STATUS : Z := 0x07.
Definition CONTROL_AND_ALT_STATUS : Z := 0x02.

Record ATABus := mk_bus { io_bar : Z; control_bar : Z }.
Definition ATABus_new (io_bar control_bar : Z) : ATABus :=
  mk_bus (Z.land io_bar 0xFFFC) (Z.land control_bar 0xFFFC).

Record ATADrive := mk_drive { bus : ATABus; identify_data : list Z; drive_type : ATADriveType }.

Section ata.
Context {M : Type} `{IoPorts M}.
(** How long the unbounded polls of the device may go on. *)
Context (fuel : nat).

Definition select (b : ATABus) (drive : Z) : prog M unit := outb (io_bar b + DEVICE_SELECT) drive.
Definition send_command (b : ATABus) (command : ATADriveCommand) : prog M unit :=
  outb (io_bar b + COMMAND_AND_STATUS) (command_u8 command).

Definition status (b : ATABus) : prog M Z :=
  repeat_n 4 (inb (control_bar b + CONTROL_AND_ALT_STATUS) ;; mret tt) ;;
  inb (io_bar b + COMMAND_AND_STATUS).

Fixpoint wait_loop (n : nat) (b : ATABus) : prog M unit :=
  match n with
  | O => lift NoFuel
  | S n' =>
      status ← status b;
      if status_eq status Error || status_eq status WriteFault then err
      else if status_eq status Busy then wait_loop n' b
      else if status_eq status DataReqReady then mret tt
      else wait_loop n' b
  end.
Definition wait_for_drive_ready : ATABus → prog M unit := wait_loop fuel.

Definition await_busy (b : ATABus) : prog M unit :=
  while_loop fuel (v ← status b; mret (status_eq v Busy)) (mret tt).

(** [while self.status() == Busy { .. }] of [identify] *)
Fixpoint identify_loop (n : nat) (b : ATABus) : prog M unit :=
  match n with
  | O => lift NoFuel
  | S n' =>
      v ← status b;
      if status_eq v Busy then
        lba_mid ← inb (io_bar b + LBA1);
        lba_high ← inb (io_bar b + LBA2);
        if negb (lba_mid =? 0) || negb (lba_high =? 0) then err else identify_loop n' b
      else mret tt
  end.

(** [for chunk in buffer.chunks_exact_mut(2)] *)
Fixpoint read_words (n : nat) (b : ATABus) : prog M (list Z) :=
  match n with
  | O => mret []
  | S n' =>
      word ← inw (io_bar b + DATA);
      rest ← read_words n' b;
      mret (le_bytes 2 word ++ rest)
  end.

Definition identify (b : ATABus) (drive : ATADriveType) : prog M (list Z) :=
  select b (Z.lor 0xA0 (drive_u8 drive)) ;;
  outb (io_bar b + SECTOR_COUNT0) 0 ;;
  outb (io_bar b + LBA0) 0 ;;
  outb (io_bar b + LBA1) 0 ;;
  outb (io_bar b + LBA2) 0 ;;
  outb (control_bar b + 0x0C - 0x0A) 2 ;;
  send_command b Identify ;;
  v ← status b;
  if v =? 0x00 then err else
  identify_loop fuel b ;;
  lba_mid ← inb (io_bar b + LBA1);
  lba_high ← inb (io_bar b + LBA2);
  match from_lba lba_mid lba_high with
  | Some Pata =>
      wait_for_drive_ready b ;;
      read_words 256 b
  | _ => err
  end.

(** [for _ in 0..sector_count]; the words are at [buffer_offset]. *)
Fixpoint transfer (n : nat) (b : ATABus) (direction : ATADriveDirection) (buffer : list Z)
    (buffer_offset : Z) : prog M (list Z) :=
  match n with
  | O => mret buffer
  | S n' =>
      wait_for_drive_ready b ;;
      buffer ← (match direction with
        | Read => insw (io_bar b + DATA) buffer (2 * buffer_offset) 256
        | Write => outsw (io_bar b + DATA) buffer (2 * buffer_offset) 256 ;; mret buffer
        end);
      transfer n' b direction buffer (buffer_offset + 256)
  end.

(** The buffer is returned as it ends up. *)
Definition ide_access (b : ATABus) (drive : ATADriveType) (sector sector_count : Z)
    (direction : ATADriveDirection) (buffer : list Z) : prog M (list Z) :=
  await_busy b ;;
  let using_lba48 := Z.shiftl 1 28 - 1 <=? sector in
  (if using_lba48 then
     select b (Z.lor 0x40 (drive_u8 drive)) ;;
     outb (io_bar b + SECTOR_COUNT0) (u8 (Z.shiftr sector_count 8)) ;;
     outb (io_bar b + LBA0) (u8 (Z.shiftr sector 24)) ;;
     outb (io_bar b + LBA1) (u8 (Z.shiftr sector 32)) ;;
     outb (io_bar b + LBA2) (u8 (Z.shiftr sector 40)) ;;
     outb (io_bar b + SECTOR_COUNT0) (u8 sector_count) ;;
     outb (io_bar b + LBA0) (u8 sector) ;;
     outb (io_bar b + LBA1) (u8 (Z.shiftr sector 8)) ;;
     outb (io_bar b + LBA2) (u8 (Z.shiftr sector 16)) ;;
     match direction with
     | Read => send_command b ReadPIOExt
     | Write => send_command b WritePIOExt
     end
   else
     select b (Z.lor (Z.lor 0xE0 (drive_u8 drive)) (Z.land (u8 (Z.shiftr sector 24)) 0x0F)) ;;
     outb (io_bar b + SECTOR_COUNT0) (u8 sector_count) ;;
     outb (io_bar b + LBA0) (u8 sector) ;;
     outb (io_bar b + LBA1) (u8 (Z.shiftr sector 8)) ;;
     outb (io_bar b + LBA2) (u8 (Z.shiftr sector 16)) ;;
     match direction with
     | Read => send_command b ReadPIO
     | Write => send_command b WritePIO
     end) ;;
  let array_size := u64 (sector_count * ATA_SECTOR_SIZE) in
  lift (rassert (array_size <=? len buffer)) ;;
  transfer (Z.to_nat sector_count) b direction buffer 0.

Definition bus_read (b : ATABus) (drive : ATADriveType) (sector sector_count : Z) : prog M (list Z) :=
  ide_access b drive sector sector_count Read
    (replicate (Z.to_nat (u64 (ATA_SECTOR_SIZE * sector_count))) 0).

Definition bus_write (b : ATABus) (drive : ATADriveType) (sector sector_count : Z) (buffer : list Z) :
    prog M unit :=
  if len buffer <? u64 (ATA_SECTOR_SIZE * sector_count) then err else
  ide_access b drive sector sector_count Write buffer ;; mret tt.

Definition software_reset (b : ATABus) : prog M unit :=
  outb (io_bar b + CONTROL_AND_ALT_STATUS) 0x04 ;;
  repeat_n 10 (status b ;; mret tt) ;;
  outb (io_bar b + CONTROL_AND_ALT_STATUS) 0x00.

(** ** Drives *)

Definition ATADrive_new (b : ATABus) (drive : ATADriveType) : prog M ATADrive :=
  identify_data ← identify b drive;
  capabilities_bytes ← lift (slice identify_data 98 100);
  lift (rassert (len capabilities_bytes =? 2)) ;;
  lo ← lift (index capabilities_bytes 0);
  hi ← lift (index capabilities_bytes 1);
  let capabilities := Z.lor lo (Z.shiftl hi 8) in
  if Z.land capabilities 0x200 =? 0 then err else
  mret (mk_drive b identify_data drive).

(** Words 60 and 61, read as one [u32]. *)
Definition ATADrive_sector_count (d : ATADrive) : Z := le_value (take 4 (drop 120 (identify_data d))).

Definition ATADrive_read (d : ATADrive) (sector sector_count : Z) : prog M (list Z) :=
  if ATADrive_sector_count d <? u64 (sector + sector_count) then err else
  software_reset (bus d) ;;
  bus_read (bus d) (drive_type d) sector sector_count.

Definition ATADrive_write (d : ATADrive) (sector : Z) (buffer : list Z) : prog M unit :=
  let sector_count := len buffer / 512 in
  software_reset (bus d) ;;
  bus_write (bus d) (drive_type d) sector sector_count buffer.

(** The first loop of [ide_initialize]: the drives found on the bus. *)
Definition probe_drives (bar0 bar1 : Z) : prog M (list ATADrive) :=
  let bus := ATABus_new (u16 bar0) (u16 bar1) in
  d0 ← attempt (ATADrive_new bus Parent);
  d1 ← attempt (ATADrive_new bus Child);
  mret (omap id [d0; d1]).

End ata.

(** ** The disk's side of the protocol *)

(** What the driver relies on of the device behind a bus.  [busy] bounds how many
    more status reads show BSY; [data] is what the current command still has to
    hand over and [want] how many words it still takes, for byte [at] of the disk on;
    both go in blocks of a sector. *)
Record ata_view := mk_view {
  v_select : Z;
  v_count : Z;
  v_lba0 : Z;
  v_lba1 : Z;
  v_lba2 : Z;
  v_busy : nat;
  v_data : list Z;
  v_want : nat;
  v_at : Z;
  v_disk : list Z;
}.

Definition set_busy (k : nat) (v : ata_view) : ata_view :=
  mk_view (v_select v) (v_count v) (v_lba0 v) (v_lba1 v) (v_lba2 v) k (v_data v) (v_want v) (v_at v) (v_disk v).
Definition set_v_data (d : list Z) (v : ata_view) : ata_view :=
  mk_view (v_select v) (v_count v) (v_lba0 v) (v_lba1 v) (v_lba2 v) (v_busy v) d (v_want v) (v_at v) (v_disk v).
(** It waits for [n] words. *)
Definition set_want (at_ : Z) (n : nat) (v : ata_view) : ata_view :=
  mk_view (v_select v) (v_count v) (v_lba0 v) (v_lba1 v) (v_lba2 v) (v_busy v) (v_data v) n at_ (v_disk v).
(** [l] with [bytes] from [at_] on. *)
Definition overwrite (l : list Z) (at_ : Z) (bytes : list Z) : list Z :=
  take (Z.to_nat at_) l ++ bytes ++ drop (Z.to_nat at_ + length bytes) l.
(** It takes one. *)
Definition take_word (w : Z) (v : ata_view) : ata_view :=
  mk_view (v_select v) (v_count v) (v_lba0 v) (v_lba1 v) (v_lba2 v) (v_busy v) (v_data v) (pred (v_want v)) (v_at v + 2)
    (overwrite (v_disk v) (v_at v) (le_bytes 2 w)).
(** A task-file register takes what is written to it. *)
Definition set_reg (r x : Z) (v : ata_view) : ata_view :=
  mk_view (if r =? DEVICE_SELECT then x else v_select v) (if r =? SECTOR_COUNT0 then x else v_count v)
    (if r =? LBA0 then x else v_lba0 v) (if r =? LBA1 then x else v_lba1 v)
    (if r =? LBA2 then x else v_lba2 v) (v_busy v) (v_data v) (v_want v) (v_at v) (v_disk v).

(** The sector and the number of sectors the registers address in LBA28. *)
Definition v_lba (v : ata_view) : Z :=
  v_lba0 v + 2^8 * v_lba1 v + 2^16 * v_lba2 v + 2^24 * (v_select v mod 2^4).
Definition v_sectors (v : ata_view) : Z := if v_count v =? 0 then 256 else v_count v.

(** No command is under way; the disk holds bytes. *)
Record idle_view (v : ata_view) : Prop := {
  iv_busy : v_busy v = O; iv_data : v_data v = []; iv_want : v_want v = O; iv_bytes : Forall is_byte (v_disk v);
}.

(** The registers select the drive and sectors it has. *)
Record addresses (drive : ATADriveType) (v : ata_view) : Prop := {
  ad_select : v_select v / 2^4 = (0xE0 + drive_u8 drive) / 2^4;
  ad_lba : 0 ≤ v_lba v;
  ad_count : fits 8 (v_count v);
  ad_end : ATA_SECTOR_SIZE * (v_lba v + v_sectors v) ≤ len (v_disk v);
}.

(** [ident] is the IDENTIFY block of the drive at position [drive] of the bus, and
    [limit] bounds how long it stays busy. *)
Class AtaDisk (M : Type) `{IoPorts M} (b : ATABus) (drive : ATADriveType) (ident : list Z)
    (limit : nat) (view : M → ata_view) := {
  ata_ident : Forall is_byte ident ∧ len ident = 512;
  ata_limit : ∀ m, (v_busy (view m) ≤ limit)%nat;
  (** Writing a register of the selected, idle drive. *)
  ata_register : ∀ m r x, idle_view (view m) → r ∈ [DEVICE_SELECT; SECTOR_COUNT0; LBA0; LBA1; LBA2] → fits 8 x →
    ∃ m', outb (io_bar b + r) x m = (Ok tt, m') ∧ view m' = set_reg r x (view m);
  (** The device control register only switches interrupts off. *)
  ata_control : ∀ m, ∃ m', outb (control_bar b + 0x0C - 0x0A) 2 m = (Ok tt, m') ∧ view m' = view m;
  (** The alternate status. *)
  ata_alt_status : ∀ m, ∃ s m', inb (control_bar b + CONTROL_AND_ALT_STATUS) m = (Ok s, m') ∧ view m' = view m;
  (** The status: BSY for a while, then DRQ as long as there is data to move. *)
  ata_status : ∀ m, ∃ s m', inb (io_bar b + COMMAND_AND_STATUS) m = (Ok s, m') ∧
    status_eq s Error = false ∧ status_eq s WriteFault = false ∧
    match v_busy (view m) with
    | O => status_eq s Busy = false ∧ status_eq s DataReqReady = bool_decide (v_data (view m) ≠ [] ∨ v_want (view m) ≠ O) ∧
        view m' = view m
    | S k => status_eq s Busy = true ∧ view m' = set_busy k (view m)
    end;
  (** The registers a drive's signature is read from. *)
  ata_signature : ∀ m r, r ∈ [LBA1; LBA2] → ∃ m', inb (io_bar b + r) m =
    (Ok (if r =? LBA1 then v_lba1 (view m) else v_lba2 (view m)), m') ∧ view m' = view m;
  (** READ SECTORS and WRITE SECTORS, in LBA mode. *)
  ata_read : ∀ m, idle_view (view m) → addresses drive (view m) →
    ∃ m' k data, outb (io_bar b + COMMAND_AND_STATUS) (command_u8 ReadPIO) m = (Ok tt, m') ∧
      slice (v_disk (view m)) (ATA_SECTOR_SIZE * v_lba (view m)) (ATA_SECTOR_SIZE * (v_lba (view m) + v_sectors (view m))) = Ok data ∧
      view m' = set_busy k (set_v_data data (view m));
  ata_write : ∀ m, idle_view (view m) → addresses drive (view m) →
    ∃ m' k, outb (io_bar b + COMMAND_AND_STATUS) (command_u8 WritePIO) m = (Ok tt, m') ∧
      view m' = set_busy k (set_want (ATA_SECTOR_SIZE * v_lba (view m)) (Z.to_nat (256 * v_sectors (view m))) (view m));
  (** IDENTIFY DEVICE. *)
  ata_identify : ∀ m, idle_view (view m) → v_select (view m) = 0xA0 + drive_u8 drive →
    ∃ m' k, outb (io_bar b + COMMAND_AND_STATUS) (command_u8 Identify) m = (Ok tt, m') ∧
      view m' = set_busy k (set_v_data ident (view m));
  (** The data port hands over two bytes; the drive may be busy between sectors. *)
  ata_data : ∀ m x y rest, v_busy (view m) = O → v_data (view m) = x :: y :: rest →
    ∃ m' k, inw (io_bar b + DATA) m = (Ok (x + 2^8 * y), m') ∧
      view m' = set_busy k (set_v_data rest (view m)) ∧
      ((¬ (ATA_SECTOR_SIZE | len rest) ∨ rest = []) → k = O);
  (** Or takes them; the drive may be busy after every sector, the last one included. *)
  ata_take : ∀ m w n, v_busy (view m) = O → v_data (view m) = [] → v_want (view m) = S n → fits 16 w →
    ∃ m' k, outw (io_bar b + DATA) w m = (Ok tt, m') ∧ view m' = set_busy k (take_word w (view m)) ∧
      (¬ (256 | Z.of_nat n) → k = O);
}.

Lemma byte_word x y : is_byte x → is_byte y → (x + 2^8 * y) mod 2^8 = x ∧ (x + 2^8 * y) / 2^8 = y.
Proof.
  unfold fits. intros Hx Hy. rewrite (Z.mul_comm (2^8) y). split.
  - rewrite Z_mod_plus_full. by apply Z.mod_small.
  - rewrite Z_div_plus_full, Z.div_small by lia. lia.
Qed.

Lemma split_at {A} n (l : list A) : (n ≤ length l)%nat → ∃ l1 l2, l = l1 ++ l2 ∧ len l1 = Z.of_nat n.
Proof.
  intros Hn. exists (take n l), (drop n l). split; [by rewrite take_drop|].
  unfold len. rewrite length_take. lia.
Qed.

Lemma len_overwrite l at_ bs : 0 ≤ at_ → at_ + len bs ≤ len l → len (overwrite l at_ bs) = len l.
Proof. intros. unfold overwrite, len in *. rewrite !length_app, length_take, length_drop. lia. Qed.

Lemma overwrite_nil l at_ : overwrite l at_ [] = l.
Proof. unfold overwrite. cbn. by rewrite Nat.add_0_r, take_drop. Qed.

Lemma overwrite_app l at_ b1 b2 : 0 ≤ at_ → at_ + len b1 + len b2 ≤ len l →
  overwrite (overwrite l at_ b1) (at_ + len b1) b2 = overwrite l at_ (b1 ++ b2).
Proof.
  intros H0 Hl. unfold overwrite, len in *.
  replace (Z.to_nat (at_ + Z.of_nat (length b1))) with (Z.to_nat at_ + length b1)%nat by lia.
  rewrite (app_assoc (take (Z.to_nat at_) l) b1). assert (Z.to_nat at_ + length b1 = length (take (Z.to_nat at_) l ++ b1))%nat as E
    by (rewrite length_app, length_take; lia).
  rewrite (take_app_length' _ _ _ E). rewrite drop_app_ge by lia. rewrite <- E, drop_drop, length_app, <- !app_assoc.
  do 4 f_equal. lia.
Qed.

Lemma overwrite_bytes l at_ bs : Forall is_byte l → Forall is_byte bs → Forall is_byte (overwrite l at_ bs).
Proof. intros. unfold overwrite. repeat apply Forall_app_2; auto using Forall_take, Forall_drop. Qed.

(** What was written is read back. *)
Lemma slice_overwrite l at_ bs : 0 ≤ at_ → at_ + len bs ≤ len l → slice (overwrite l at_ bs) at_ (at_ + len bs) = Ok bs.
Proof.
  intros. unfold overwrite. apply slice_app_middle; unfold len in *; rewrite ?length_take; lia.
Qed.

Lemma load_word_Ok buffer at_ : Forall is_byte buffer → 0 ≤ at_ → at_ + 2 ≤ len buffer → ∃ w,
  load_word buffer at_ = Ok w ∧ fits 16 w ∧ le_bytes 2 w = take 2 (drop (Z.to_nat at_) buffer).
Proof.
  intros Hb H0 Hl. set (bs := take 2 (drop (Z.to_nat at_) buffer)).
  assert (Forall is_byte bs) as Hbs by by apply Forall_take, Forall_drop.
  assert (length bs = 2%nat) as E by (unfold bs, len in *; rewrite length_take, length_drop; lia).
  exists (le_value bs). unfold load_word. rewrite decide_True by lia. rewrite slice_Ok by lia.
  replace (Z.to_nat (at_ + 2 - at_)) with 2%nat by lia. split; [done|].
  pose proof (le_value_range bs Hbs) as Hr. unfold len in Hr. rewrite E in Hr. split; [exact Hr|]. rewrite <- E. by apply le_bytes_value.
Qed.

(** What the select register holds for an LBA28 access. *)
Lemma select_bits drive hi : 0 ≤ hi < 16 →
  Z.lor (Z.lor 0xE0 (drive_u8 drive)) (Z.land hi 0x0F) / 2^4 = (0xE0 + drive_u8 drive) / 2^4 ∧
  Z.lor (Z.lor 0xE0 (drive_u8 drive)) (Z.land hi 0x0F) mod 2^4 = hi ∧
  fits 8 (Z.lor (Z.lor 0xE0 (drive_u8 drive)) (Z.land hi 0x0F)).
Proof.
  intros Hh. assert (Forall (λ hi,
    Z.lor (Z.lor 0xE0 (drive_u8 drive)) (Z.land hi 0x0F) / 2^4 = (0xE0 + drive_u8 drive) / 2^4 ∧
    Z.lor (Z.lor 0xE0 (drive_u8 drive)) (Z.land hi 0x0F) mod 2^4 = hi ∧
    fits 8 (Z.lor (Z.lor 0xE0 (drive_u8 drive)) (Z.land hi 0x0F))) (seqZ 0 16)) as HF
    by (destruct drive; apply (bool_decide_unpack _); vm_compute; exact I).
  rewrite Forall_forall in HF. apply HF, elem_of_seqZ. lia.
Qed.

Section protocol.
Context {M : Type} `{HM : IoPorts M} {b : ATABus} {drive : ATADriveType} {ident : list Z}
  {limit : nat} {view : M → ata_view} `{!AtaDisk M b drive ident limit view}.
Context (fuel : nat) (Hfuel : (limit < fuel)%nat).

Lemma set_busy_same v : set_busy (v_busy v) v = v.
Proof. by destruct v. Qed.
Lemma set_busy_twice j k v : set_busy j (set_busy k v) = set_busy j v.
Proof. done. Qed.

Lemma alt_status_Ok n m : ∃ m', repeat_n n (inb (control_bar b + CONTROL_AND_ALT_STATUS) ;; mret tt) m = (Ok tt, m') ∧
  view m' = view m.
Proof.
  revert m. induction n as [|n IH]; intros m; [by exists m|].
  destruct (ata_alt_status m) as (s & m1 & E1 & V1). destruct (IH m1) as (m2 & E2 & V2).
  exists m2. rewrite repeat_n_S, bind_assoc, (bind_Ok _ _ _ _ _ E1). split; [exact E2|congruence].
Qed.

(** One status read. *)
Lemma status_Ok m : ∃ s m', status b m = (Ok s, m') ∧ status_eq s Error = false ∧ status_eq s WriteFault = false ∧
  match v_busy (view m) with
  | O => status_eq s Busy = false ∧ status_eq s DataReqReady = bool_decide (v_data (view m) ≠ [] ∨ v_want (view m) ≠ O) ∧ view m' = view m
  | S k => status_eq s Busy = true ∧ view m' = set_busy k (view m)
  end.
Proof.
  destruct (alt_status_Ok 4 m) as (m1 & E1 & V1). destruct (ata_status m1) as (s & m2 & E2 & H1 & H2 & H3).
  rewrite V1 in H3. exists s, m2. unfold status. rewrite (bind_Ok _ _ _ _ _ E1). by repeat split.
Qed.

(** A status read that is only for the time it takes. *)
Lemma status_idle_Ok m : v_busy (view m) = O → ∃ s m', status b m = (Ok s, m') ∧ view m' = view m.
Proof. intros Hb. destruct (status_Ok m) as (s & m' & E & _ & _ & H). rewrite Hb in H. exists s, m'. naive_solver. Qed.

Lemma await_busy_Ok m : ∃ m', await_busy fuel b m = (Ok tt, m') ∧ view m' = set_busy O (view m).
Proof using Hfuel AtaDisk0.
  unfold await_busy. assert (v_busy (view m) < fuel)%nat as Hn by (pose proof (ata_limit m); lia).
  clear Hfuel. revert m Hn. induction fuel as [|n IH]; intros m Hn; [lia|]. cbn [while_loop].
  rewrite bind_assoc. destruct (status_Ok m) as (s & m1 & E & _ & _ & Hs). rewrite (bind_Ok _ _ _ _ _ E).
  destruct (v_busy (view m)) as [|k] eqn:Eb; [destruct Hs as (Hs & _ & V)|destruct Hs as (Hs & V)]; prun; rewrite Hs.
  - exists m1. split; [done|]. rewrite V. symmetry. rewrite <- Eb. apply set_busy_same.
  - destruct (IH m1) as (m2 & E2 & V2); [rewrite V; cbn; lia|]. exists m2. split; [exact E2|by rewrite V2, V].
Qed.

Lemma wait_ready_Ok m : v_data (view m) ≠ [] ∨ v_want (view m) ≠ O →
  ∃ m', wait_for_drive_ready fuel b m = (Ok tt, m') ∧ view m' = set_busy O (view m).
Proof using Hfuel AtaDisk0.
  unfold wait_for_drive_ready. assert (v_busy (view m) < fuel)%nat as Hn by (pose proof (ata_limit m); lia).
  clear Hfuel. revert m Hn. induction fuel as [|n IH]; intros m Hn Hd; [lia|]. cbn [wait_loop].
  destruct (status_Ok m) as (s & m1 & E & He & Hw & Hs). rewrite (bind_Ok _ _ _ _ _ E), He, Hw. cbn [orb].
  destruct (v_busy (view m)) as [|k] eqn:Eb; [destruct Hs as (Hs & Hr & V)|destruct Hs as (Hs & V)]; rewrite Hs.
  - rewrite Hr, bool_decide_true by done. exists m1. split; [done|]. rewrite V. symmetry. rewrite <- Eb. apply set_busy_same.
  - destruct (IH m1) as (m2 & E2 & V2); [rewrite V; cbn; lia|by rewrite V|].
    exists m2. split; [exact E2|by rewrite V2, V].
Qed.

(** Without data the wait never ends. *)
Lemma wait_ready_hangs n m : v_data (view m) = [] → v_want (view m) = O → ∃ m', wait_loop n b m = (NoFuel, m').
Proof using AtaDisk0.
  clear Hfuel. revert m. induction n as [|n IH]; intros m Hd Hw0; [by exists m|]. cbn [wait_loop].
  destruct (status_Ok m) as (s & m1 & E & He & Hw & Hs). rewrite (bind_Ok _ _ _ _ _ E), He, Hw. cbn [orb].
  destruct (v_busy (view m)) as [|k]; [destruct Hs as (Hs & Hr & V)|destruct Hs as (Hs & V)]; rewrite Hs.
  - rewrite Hr, bool_decide_false by tauto. apply IH; by rewrite V.
  - apply IH; by rewrite V.
Qed.

(** ** Sectors through the data port *)

(** [n] more words of the current sector. *)
Lemma insw_Ok n m l1 old l2 bs rest : v_busy (view m) = O → v_data (view m) = bs ++ rest →
  Forall is_byte bs → len bs = 2 * Z.of_nat n → len old = len bs → (n ≤ 256)%nat →
  (ATA_SECTOR_SIZE | len rest) →
  ∃ m' k, insw (io_bar b + DATA) (l1 ++ old ++ l2) (len l1) n m = (Ok (l1 ++ bs ++ l2), m') ∧
    view m' = set_busy k (set_v_data rest (view m)) ∧ (rest = [] → k = O).
Proof using AtaDisk0.
  clear Hfuel. revert m l1 old bs. induction n as [|n IH]; intros m l1 old bs Hb Hd Hbytes Hl Ho Hn Hr.
  - destruct bs; [|rewrite len_cons in Hl; pose proof (len_nonneg bs); lia].
    destruct old; [|rewrite len_cons, len_nil in Ho; pose proof (len_nonneg old); lia].
    exists m, O. split; [done|]. cbn in Hd. split; [|done]. rewrite <- Hd, <- Hb. by destruct (view m).
  - destruct bs as [|x [|y bs]]; rewrite ?len_cons, ?len_nil in *; [lia|lia|].
    destruct old as [|o1 [|o2 old]]; rewrite ?len_cons, ?len_nil in *; pose proof (len_nonneg bs); [lia|lia|].
    apply Forall_cons in Hbytes as [Hx Hbytes]. apply Forall_cons in Hbytes as [Hy Hbytes].
    destruct (byte_word x y Hx Hy) as [Ex Ey].
    destruct (ata_data m x y (bs ++ rest) Hb Hd) as (m1 & k & E1 & V1 & Hk). cbn [insw].
    rewrite (bind_Ok _ _ _ _ _ E1). unfold store_word. pose proof (len_nonneg l1). pose proof (len_nonneg l2).
    pose proof (len_nonneg old).
    rewrite decide_True by (rewrite !len_app, !len_cons; lia). rewrite Ex, Ey.
    assert (<[Z.to_nat (len l1 + 1) := y]> (<[Z.to_nat (len l1) := x]> (l1 ++ (o1 :: o2 :: old) ++ l2)) =
      (l1 ++ [x; y]) ++ old ++ l2) as ->.
    { replace (Z.to_nat (len l1 + 1)) with (length l1 + 1)%nat by (unfold len; lia).
      replace (Z.to_nat (len l1)) with (length l1 + 0)%nat by (unfold len; lia).
      rewrite !insert_app_r. by rewrite <- app_assoc. }
    cbn [lift]. unfold mbind, prog_bind at 1. cbn.
    replace (len l1 + 2) with (len (l1 ++ [x; y])) by (rewrite len_app; done).
    destruct n as [|n].
    + destruct bs; [|rewrite len_cons in Hl; pose proof (len_nonneg bs); lia].
      destruct old; [|rewrite len_cons in Ho; cbn in Ho; pose proof (len_nonneg old); rewrite len_nil in Ho; lia].
      exists m1, k. cbn in *. rewrite <- app_assoc. split; [done|]. split; [done|]. intros ->. apply Hk. by right.
    + assert (k = O) as ->.
      { apply Hk. left. rewrite len_app. intros [q Hq]. destruct Hr as [q' Hq']. unfold ATA_SECTOR_SIZE in *.
        assert (len bs = 512 * (q - q')) by lia. assert (0 < len bs < 512) by lia. nia. }
      destruct (IH m1 (l1 ++ [x; y]) old bs) as (m2 & k2 & E2 & V2 & Hk2); try done;
        [by rewrite V1|by rewrite V1|lia|lia|lia|].
      exists m2, k2. rewrite E2, <- app_assoc. split; [done|]. split; [|done]. by rewrite V2, V1.
Qed.

(** The sectors of a command, in turn. *)
Lemma transfer_Ok n m pre old data off : v_data (view m) = data → Forall is_byte data →
  len data = ATA_SECTOR_SIZE * Z.of_nat n → len old = len data → len pre = 2 * off →
  ∃ m', transfer fuel n b Read (pre ++ old) off m = (Ok (pre ++ data), m') ∧ v_data (view m') = [] ∧
    v_want (view m') = v_want (view m) ∧ v_disk (view m') = v_disk (view m) ∧ (n ≠ O → v_busy (view m') = O).
Proof using Hfuel AtaDisk0.
  unfold ATA_SECTOR_SIZE. revert m pre old data off. induction n as [|n IH]; intros m pre old data off Hd Hb Hl Ho Hp.
  - destruct data; [|rewrite len_cons in Hl; pose proof (len_nonneg data); lia].
    destruct old; [|rewrite len_cons, len_nil in Ho; pose proof (len_nonneg old); lia]. by exists m.
  - pose proof (len_nonneg pre).
    destruct (split_at 512 data) as (bs & rest & -> & Hbs); [unfold len in *; lia|].
    destruct (split_at 512 old) as (os & orest & -> & Hos); [unfold len in *; lia|]. rewrite !len_app in *.
    apply Forall_app in Hb as [Hb1 Hb2]. cbn [transfer].
    destruct (wait_ready_Ok m) as (m1 & E1 & V1).
    { left. rewrite Hd. intros E. apply (f_equal len) in E. rewrite len_app, len_nil in E. pose proof (len_nonneg rest). lia. }
    rewrite (bind_Ok _ _ _ _ _ E1).
    destruct (insw_Ok 256 m1 pre os orest bs rest) as (m2 & k & E2 & V2 & K2); [by rewrite V1|by rewrite V1|done|done|lia|done| |].
    { exists (Z.of_nat n). unfold ATA_SECTOR_SIZE. lia. }
    rewrite <- Hp, (bind_Ok _ _ _ _ _ E2), app_assoc.
    destruct (IH m2 (pre ++ bs) orest rest (off + 256)) as (m3 & E3 & D3 & W3 & K3 & B3);
      [by rewrite V2|done|lia|lia|rewrite len_app; lia|].
    exists m3. rewrite E3, <- app_assoc, W3, K3, V2, V1. split; [done|]. split; [done|]. split; [done|]. split; [done|]. intros _.
    destruct n as [|n]; [|by apply B3]. injection E3 as _ <-. rewrite V2. apply K2.
    apply length_zero_iff_nil. unfold len in *. lia.
Qed.

(** A transfer of more sectors than the command hands over never ends. *)
Lemma transfer_hangs (j n : nat) m pre old data off : v_data (view m) = data → v_want (view m) = O → Forall is_byte data →
  len data = ATA_SECTOR_SIZE * Z.of_nat j → (j < n)%nat → len old = ATA_SECTOR_SIZE * Z.of_nat n →
  len pre = 2 * off → ∃ m', transfer fuel n b Read (pre ++ old) off m = (NoFuel, m').
Proof using Hfuel AtaDisk0.
  unfold ATA_SECTOR_SIZE. revert n m pre old data off.
  induction j as [|j IH]; intros n m pre old data off Hd Hw Hb Hl Hn Ho Hp; (destruct n as [|n]; [lia|]); cbn [transfer].
  - destruct (wait_ready_hangs fuel m) as [m1 E1].
    { rewrite Hd. apply length_zero_iff_nil. unfold len in Hl. lia. }
    { done. }
    exists m1. unfold wait_for_drive_ready. unfold mbind, prog_bind. by rewrite E1.
  - destruct (split_at 512 data) as (bs & rest & -> & Hbs); [unfold len in *; lia|].
    destruct (split_at 512 old) as (os & orest & -> & Hos); [unfold len in *; lia|]. rewrite !len_app in *.
    apply Forall_app in Hb as [Hb1 Hb2]. pose proof (len_nonneg pre).
    destruct (wait_ready_Ok m) as (m1 & E1 & V1).
    { left. rewrite Hd. intros E. apply (f_equal len) in E. rewrite len_app, len_nil in E. pose proof (len_nonneg rest). lia. }
    rewrite (bind_Ok _ _ _ _ _ E1).
    destruct (insw_Ok 256 m1 pre os orest bs rest) as (m2 & k & E2 & V2 & K2); [by rewrite V1|by rewrite V1|done|done|lia|done| |].
    { exists (Z.of_nat j). unfold ATA_SECTOR_SIZE. lia. }
    rewrite <- Hp, (bind_Ok _ _ _ _ _ E2), app_assoc.
    apply (IH n m2 (pre ++ bs) orest rest); [by rewrite V2|by rewrite V2, V1|done|lia|lia|lia|rewrite len_app; lia].
Qed.

(** ** Commands *)

Definition idle (m : M) : Prop := idle_view (view m).

Lemma register_Ok m r x : idle m → r ∈ [DEVICE_SELECT; SECTOR_COUNT0; LBA0; LBA1; LBA2] → fits 8 x →
  ∃ m', outb (io_bar b + r) x m = (Ok tt, m') ∧ view m' = set_reg r x (view m) ∧ idle m'.
Proof using AtaDisk0.
  intros Hi Hr Hx. destruct (ata_register m r x Hi Hr Hx) as (m' & E & V).
  exists m'. unfold idle. rewrite V. split; [done|]. split; [done|]. by destruct Hi.
Qed.

Ltac reg m r x :=
  let m' := fresh "m" in let E := fresh "E" in let V := fresh "V" in let I := fresh "I" in
  destruct (register_Ok m r x) as (m' & E & V & I);
  [assumption|rewrite !elem_of_cons; tauto| |rewrite (bind_Ok _ _ _ _ _ E)].

Lemma reset_Ok m : idle m → ∃ m', software_reset b m = (Ok tt, m') ∧ idle m' ∧ v_disk (view m') = v_disk (view m).
Proof using Hfuel AtaDisk0.
  intros Hi. unfold software_reset. change CONTROL_AND_ALT_STATUS with SECTOR_COUNT0.
  destruct (register_Ok m SECTOR_COUNT0 0x04) as (m1 & E1 & V1 & I1);
    [done|rewrite !elem_of_cons; tauto|unfold fits; lia|]. rewrite (bind_Ok _ _ _ _ _ E1).
  assert (∀ n m, idle m → ∃ m', repeat_n n (status b ;; mret tt) m = (Ok tt, m') ∧ idle m' ∧ view m' = view m) as Hst.
  { intros n. induction n as [|n IH]; intros m0 H0; [by exists m0|].
    destruct (status_idle_Ok m0 (iv_busy _ H0)) as (s & m2 & E2 & V2).
    destruct (IH m2) as (m3 & E3 & I3 & V3); [by unfold idle; rewrite V2|].
    exists m3. rewrite repeat_n_S, bind_assoc, (bind_Ok _ _ _ _ _ E2), V3, V2. by rewrite <- E3. }
  destruct (Hst 10%nat m1 I1) as (m2 & E2 & I2 & V2). rewrite (bind_Ok _ _ _ _ _ E2).
  destruct (register_Ok m2 SECTOR_COUNT0 0x00) as (m3 & E3 & V3 & I3);
    [done|rewrite !elem_of_cons; tauto|unfold fits; lia|]. exists m3. by rewrite V3, V2, V1.
Qed.

(** The number of sectors the eight-bit count register asks for. *)
Definition command_count (n : Z) : Z := if u8 n =? 0 then 256 else u8 n.

(** The task file of an LBA28 access. *)
Definition lba28_registers (sector n : Z) : prog M unit :=
  select b (Z.lor (Z.lor 0xE0 (drive_u8 drive)) (Z.land (u8 (Z.shiftr sector 24)) 0x0F)) ;;
  outb (io_bar b + SECTOR_COUNT0) (u8 n) ;;
  outb (io_bar b + LBA0) (u8 sector) ;;
  outb (io_bar b + LBA1) (u8 (Z.shiftr sector 8)) ;;
  outb (io_bar b + LBA2) (u8 (Z.shiftr sector 16)).

Lemma lba28_Ok m sector n : idle m → 0 ≤ sector < 2^28 →
  ATA_SECTOR_SIZE * (sector + command_count n) ≤ len (v_disk (view m)) →
  ∃ m', lba28_registers sector n m = (Ok tt, m') ∧ idle m' ∧ v_disk (view m') = v_disk (view m) ∧
    addresses drive (view m') ∧ v_lba (view m') = sector ∧ v_sectors (view m') = command_count n.
Proof using Hfuel AtaDisk0.
  intros Hi Hs Hin. unfold lba28_registers.
  assert (u8 (Z.shiftr sector 24) = sector / 2^24 ∧ 0 ≤ sector / 2^24 < 16) as [E24 H24].
  { rewrite Z.shiftr_div_pow2 by lia. assert (0 ≤ sector / 2^24 < 16) as Hq
      by (split; [apply Z.div_pos; lia|apply Z.div_lt_upper_bound; lia]).
    split; [apply u8_small; lia|done]. }
  rewrite E24. destruct (select_bits drive (sector / 2^24) H24) as (Hsel & Hlow & Hfit).
  set (sel := Z.lor _ (Z.land _ _)) in *. unfold select.
  reg m DEVICE_SELECT sel; [done|]. reg m0 SECTOR_COUNT0 (u8 n); [apply u8_range|].
  reg m1 LBA0 (u8 sector); [apply u8_range|]. reg m2 LBA1 (u8 (Z.shiftr sector 8)); [apply u8_range|].
  destruct (register_Ok m3 LBA2 (u8 (Z.shiftr sector 16))) as (m4 & E4 & V4 & I4);
    [assumption|rewrite !elem_of_cons; tauto|apply u8_range|].
  assert (v_select (view m4) = sel ∧ v_count (view m4) = u8 n ∧ v_lba0 (view m4) = u8 sector ∧
    v_lba1 (view m4) = u8 (Z.shiftr sector 8) ∧ v_lba2 (view m4) = u8 (Z.shiftr sector 16) ∧
    v_disk (view m4) = v_disk (view m)) as (S1 & S2 & S3 & S4 & S5 & S6)
    by (rewrite V4, V2, V1, V0, V; done).
  assert (v_sectors (view m4) = command_count n) as En by (unfold v_sectors; by rewrite S2).
  assert (v_lba (view m4) = sector) as El.
  { unfold v_lba. rewrite S1, S3, S4, S5, Hlow. unfold u8. rewrite !Z.shiftr_div_pow2 by lia.
    pose proof (Z.div_mod sector (2^8) ltac:(lia)) as D1. pose proof (Z.div_mod (sector / 2^8) (2^8) ltac:(lia)) as D2.
    pose proof (Z.div_mod (sector / 2^16) (2^8) ltac:(lia)) as D3. rewrite !Z.div_div in D2, D3 by lia.
    change (2^8 * 2^8) with (2^16) in D2. change (2^16 * 2^8) with (2^24) in D3. lia. }
  exists m4. split; [exact E4|]. split; [done|]. split; [done|]. split; [|done].
  split; [by rewrite S1|rewrite El; lia|rewrite S2; apply u8_range|by rewrite El, En, S6].
Qed.

(** Up to the command itself. *)
Lemma ide_access_start m sector n direction buffer : idle m → 0 ≤ sector < 2^28 - 1 → 0 ≤ n < 2^32 →
  ATA_SECTOR_SIZE * (sector + command_count n) ≤ len (v_disk (view m)) → ATA_SECTOR_SIZE * n ≤ len buffer →
  ∃ m', idle m' ∧ v_disk (view m') = v_disk (view m) ∧ addresses drive (view m') ∧ v_lba (view m') = sector ∧
    v_sectors (view m') = command_count n ∧
    ide_access fuel b drive sector n direction buffer m =
      (match direction with Read => send_command b ReadPIO | Write => send_command b WritePIO end ;;
       transfer fuel (Z.to_nat n) b direction buffer 0) m'.
Proof using Hfuel AtaDisk0.
  intros Hi Hs Hn Hin Hbuf. unfold ide_access. destruct (await_busy_Ok m) as (m2 & E2 & V2). rewrite (bind_Ok _ _ _ _ _ E2).
  assert (idle m2) as I2 by (unfold idle; rewrite V2; by destruct Hi).
  cbv zeta. change (Z.shiftl 1 28 - 1) with (2^28 - 1). rewrite (proj2 (Z.leb_gt (2^28 - 1) sector)) by lia.
  destruct (lba28_Ok m2 sector n I2) as (m3 & E3 & I3 & K3 & A3 & L3 & N3); [lia|by rewrite V2|].
  exists m3. rewrite K3, V2. do 5 (split; [done|]).
  rewrite u64_small by (unfold ATA_SECTOR_SIZE; lia). rewrite (proj2 (Z.leb_le _ _)) by (unfold ATA_SECTOR_SIZE in *; lia).
  revert E3. unfold lba28_registers, mbind, prog_bind.
  destruct (select _ _ m2) as [[] t1]; try done. destruct (outb _ _ t1) as [[] t2]; try done.
  destruct (outb _ _ t2) as [[] t3]; try done. destruct (outb _ _ t3) as [[] t4]; try done. intros ->.
  by destruct direction.
Qed.

(** A drive as the constructor makes it: its IDENTIFY block counts the disk's
    sectors, in the 28 bits the standard gives that field. *)
Record drive_wf (d : ATADrive) (disk : list Z) : Prop := {
  dw_bus : bus d = b;
  dw_type : drive_type d = drive;
  dw_count : len disk = ATA_SECTOR_SIZE * ATADrive_sector_count d;
  dw_28 : 0 ≤ ATADrive_sector_count d < 2^28;
}.

Lemma command_count_le n : 1 ≤ n → 1 ≤ command_count n ≤ Z.min n 256.
Proof using.
  clear Hfuel. intros Hn. unfold command_count. pose proof (u8_range n). unfold u8 in *.
  pose proof (Z.div_mod n (2^8) ltac:(lia)). destruct (Z.eqb_spec (n mod 2^8) 0); [|nia].
  assert (1 ≤ n / 2^8) by (apply Z.div_le_lower_bound; nia). nia.
Qed.

Lemma command_count_eq n : 1 ≤ n ≤ 256 → command_count n = n.
Proof using.
  clear Hfuel. intros Hn. unfold command_count, u8. destruct (decide (n = 256)) as [->|]; [done|].
  rewrite Z.mod_small by lia. by rewrite (proj2 (Z.eqb_neq _ _)) by lia.
Qed.

(** ** Reads of a drive *)

(** Up to the transfer of its sectors. *)
Lemma read_start d sector n m : drive_wf d (v_disk (view m)) → idle m → 0 ≤ sector → 1 ≤ n →
  sector + n ≤ ATADrive_sector_count d → ∃ m1 data,
  slice (v_disk (view m)) (ATA_SECTOR_SIZE * sector) (ATA_SECTOR_SIZE * (sector + command_count n)) = Ok data ∧
  v_data (view m1) = data ∧ v_want (view m1) = O ∧ v_disk (view m1) = v_disk (view m) ∧
  Forall is_byte data ∧ len data = ATA_SECTOR_SIZE * command_count n ∧
  ATADrive_read fuel d sector n m =
    transfer fuel (Z.to_nat n) b Read (replicate (Z.to_nat (ATA_SECTOR_SIZE * n)) 0) 0 m1.
Proof using Hfuel AtaDisk0.
  intros [Eb Et Ec H28] Hi Hs Hn Hin. unfold ATADrive_read. rewrite Eb, Et.
  rewrite u64_small, (proj2 (Z.ltb_ge _ _)) by lia.
  destruct (reset_Ok m Hi) as (m1 & E1 & I1 & K1). rewrite (bind_Ok _ _ _ _ _ E1).
  unfold bus_read. rewrite u64_small by (unfold ATA_SECTOR_SIZE; lia). pose proof (command_count_le n Hn).
  destruct (ide_access_start m1 sector n Read (replicate (Z.to_nat (ATA_SECTOR_SIZE * n)) 0)) as (m2 & I2 & K2 & A2 & L2 & N2 & ->);
    [done|lia|lia|rewrite K1, Ec; unfold ATA_SECTOR_SIZE; lia|rewrite len_replicate; unfold ATA_SECTOR_SIZE; lia|].
  destruct (ata_read m2 I2 A2) as (m3 & k & data & E3 & Hd & V3). unfold send_command. rewrite (bind_Ok _ _ _ _ _ E3).
  rewrite L2, N2, K2, K1 in Hd. exists m3, data. pose proof (slice_len _ _ _ _ Hd) as Hl. rewrite V3.
  split; [done|]. split; [done|]. split; [apply (iv_want _ I2)|]. split; [by rewrite <- K1, <- K2|]. split; [|split; [lia|done]].
  unfold slice in Hd. case_decide; [|done]. injection Hd as <-. apply Forall_take, Forall_drop, (iv_bytes _ Hi).
Qed.

Lemma ATADrive_read_Ok d sector n m : drive_wf d (v_disk (view m)) → idle m → 0 ≤ sector → 1 ≤ n ≤ 256 →
  sector + n ≤ ATADrive_sector_count d → ∃ bytes m',
  slice (v_disk (view m)) (ATA_SECTOR_SIZE * sector) (ATA_SECTOR_SIZE * (sector + n)) = Ok bytes ∧
  ATADrive_read fuel d sector n m = (Ok bytes, m') ∧ idle m' ∧ v_disk (view m') = v_disk (view m).
Proof using Hfuel AtaDisk0.
  intros Hd Hi Hs Hn Hin.
  destruct (read_start d sector n m) as (m1 & data & Hsl & Hv & Hw & Hk & Hb & Hl & E); [done..|lia|done|].
  rewrite command_count_eq in * by done. unfold ATA_SECTOR_SIZE in *.
  destruct (transfer_Ok (Z.to_nat n) m1 [] (replicate (Z.to_nat (512 * n)) 0) data 0) as (m2 & E2 & D2 & W2 & K2 & B2);
    [done|done|unfold ATA_SECTOR_SIZE; lia|rewrite len_replicate; lia|done|].
  exists data, m2. rewrite E, K2, Hk. split; [done|]. split; [exact E2|]. split; [|done].
  split; [apply B2; lia|done|by rewrite W2|rewrite K2, Hk; apply (iv_bytes _ Hi)].
Qed.

Lemma ATADrive_refuse d sector n m : 0 ≤ sector → 0 ≤ n → ATADrive_sector_count d < sector + n < 2^64 →
  ATADrive_read fuel d sector n m = (Err, m).
Proof using. clear Hfuel. intros. unfold ATADrive_read. rewrite u64_small by lia. by rewrite (proj2 (Z.ltb_lt _ _)) by lia. Qed.

(** C18: Reads of an idle drive that follows the protocol: 1 to 256 sectors inside
    the disk are returned as the disk holds them, the drive left idle; a read past
    its end is refused before the drive is touched; and a read of more than 256
    sectors, whose count does not fit the command's eight bits, is accepted and
    then waits for ever. *)
Theorem ata_read_spec d sector n m : drive_wf d (v_disk (view m)) → idle m → 0 ≤ sector → 1 ≤ n → sector + n < 2^64 →
  if ATADrive_sector_count d <? sector + n then ATADrive_read fuel d sector n m = (Err, m)
  else if n <=? 256 then ∃ bytes m',
    slice (v_disk (view m)) (ATA_SECTOR_SIZE * sector) (ATA_SECTOR_SIZE * (sector + n)) = Ok bytes ∧
    ATADrive_read fuel d sector n m = (Ok bytes, m') ∧ idle m' ∧ v_disk (view m') = v_disk (view m)
  else ∃ m', ATADrive_read fuel d sector n m = (NoFuel, m').
Proof using Hfuel AtaDisk0.
  intros Hd Hi Hs Hn Hm. destruct (Z.ltb_spec (ATADrive_sector_count d) (sector + n)).
  { apply ATADrive_refuse; lia. }
  destruct (Z.leb_spec n 256); [by apply ATADrive_read_Ok|].
  destruct (read_start d sector n m) as (m1 & data & Hsl & Hv & Hw & Hk & Hb & Hl & ->); [done..|].
  pose proof (command_count_le n Hn).
  apply (transfer_hangs (Z.to_nat (command_count n)) _ _ [] _ data); [done|done|done|by rewrite Z2Nat.id by lia|lia|rewrite len_replicate|done].
  unfold ATA_SECTOR_SIZE. lia.
Qed.

(** ** Writes of a drive *)

(** [n] more words of the current sector. *)
Lemma outsw_Ok n m buffer at_ w : v_busy (view m) = O → v_data (view m) = [] → v_want (view m) = (n + w)%nat →
  (256 | Z.of_nat w) → (n ≤ 256)%nat → Forall is_byte buffer → 0 ≤ at_ → at_ + 2 * Z.of_nat n ≤ len buffer →
  0 ≤ v_at (view m) → v_at (view m) + 2 * Z.of_nat n ≤ len (v_disk (view m)) →
  ∃ m', outsw (io_bar b + DATA) buffer at_ n m = (Ok tt, m') ∧ v_data (view m') = [] ∧ v_want (view m') = w ∧
    v_at (view m') = v_at (view m) + 2 * Z.of_nat n ∧
    v_disk (view m') = overwrite (v_disk (view m)) (v_at (view m)) (take (2 * n) (drop (Z.to_nat at_) buffer)).
Proof using AtaDisk0.
  clear Hfuel. revert m at_. induction n as [|n IH]; intros m at_ Hb Hd Hw Hdiv Hn Hbuf Ha Hl Hp Hpl.
  { exists m. split; [done|]. split; [done|]. split; [done|]. split; [lia|]. by rewrite overwrite_nil. }
  cbn [outsw]. destruct (load_word_Ok buffer at_) as (x & Ex & Fx & Bx); [done|done|lia|].
  rewrite (bind_Ok (lift (load_word buffer at_)) _ m x m) by (cbn; by rewrite Ex).
  destruct (ata_take m x (n + w)%nat Hb Hd Hw Fx) as (m1 & k & E1 & V1 & Hk). rewrite (bind_Ok _ _ _ _ _ E1).
  assert (len (take 2 (drop (Z.to_nat at_) buffer)) = 2) as L2 by (rewrite <- Bx; by rewrite len_le_bytes).
  assert (take (2 * Datatypes.S n) (drop (Z.to_nat at_) buffer) =
    take 2 (drop (Z.to_nat at_) buffer) ++ take (2 * n) (drop (Z.to_nat (at_ + 2)) buffer)) as ->.
  { replace (2 * Datatypes.S n)%nat with (2 + 2 * n)%nat by lia. rewrite <- take_take_drop, drop_drop. do 3 f_equal. lia. }
  destruct (decide (n = O)) as [->|Hn0].
  { exists m1. split; [done|]. rewrite V1. cbn [v_data v_want v_at v_disk set_busy take_word]. rewrite Hw, Bx.
    split; [done|]. split; [done|]. split; [lia|]. cbn [Nat.mul take]. by rewrite app_nil_r. }
  assert (k = O) as ->.
  { apply Hk. intros [q Hq]. destruct Hdiv as [q' Hq']. lia. }
  destruct (IH m1 (at_ + 2)) as (m2 & E2 & D2 & W2 & A2 & K2);
    try (rewrite V1; cbn [v_busy v_data v_want v_at v_disk set_busy take_word]); try done; try lia.
  { rewrite len_overwrite; rewrite ?len_le_bytes; lia. }
  exists m2. split; [exact E2|]. split; [done|]. split; [done|]. rewrite A2, K2, V1.
  cbn [v_at v_disk set_busy take_word]. rewrite Bx. split; [lia|].
  rewrite <- overwrite_app; [by rewrite L2|lia|]. rewrite L2. unfold len in *. rewrite length_take, length_drop. lia.
Qed.

(** The sectors of a command, in turn. *)
Lemma transfer_write_Ok n m buffer off : v_data (view m) = [] → v_want (view m) = (256 * n)%nat → Forall is_byte buffer →
  0 ≤ off → 2 * off + ATA_SECTOR_SIZE * Z.of_nat n ≤ len buffer → 0 ≤ v_at (view m) →
  v_at (view m) + ATA_SECTOR_SIZE * Z.of_nat n ≤ len (v_disk (view m)) →
  ∃ m', transfer fuel n b Write buffer off m = (Ok buffer, m') ∧ v_data (view m') = [] ∧ v_want (view m') = O ∧
    v_disk (view m') = overwrite (v_disk (view m)) (v_at (view m)) (take (512 * n) (drop (Z.to_nat (2 * off)) buffer)).
Proof using Hfuel AtaDisk0.
  unfold ATA_SECTOR_SIZE. revert m off. induction n as [|n IH]; intros m off Hd Hw Hbuf Ho Hl Hp Hpl.
  { exists m. split; [done|]. split; [done|]. split; [done|]. by rewrite overwrite_nil. }
  cbn [transfer]. destruct (wait_ready_Ok m) as (m1 & E1 & V1); [right; lia|]. rewrite (bind_Ok _ _ _ _ _ E1).
  destruct (outsw_Ok 256 m1 buffer (2 * off) (256 * n)%nat) as (m2 & E2 & D2 & W2 & A2 & K2);
    rewrite ?V1; cbn [v_busy v_data v_want v_at v_disk set_busy]; try done; try lia.
  { exists (Z.of_nat n). lia. }
  rewrite V1 in A2, K2. cbn [v_at v_disk set_busy] in A2, K2.
  rewrite bind_assoc, (bind_Ok _ _ _ _ _ E2). set (pre := take (2 * 256) _) in K2.
  assert (len pre = 512) as Lp by (unfold pre, len in *; rewrite length_take, length_drop; lia).
  destruct (IH m2 (off + 256)) as (m3 & E3 & D3 & W3 & K3); rewrite ?A2, ?K2; try done; try lia.
  { rewrite len_overwrite; lia. }
  exists m3. split; [exact E3|]. split; [done|]. split; [done|]. rewrite K3, K2, A2.
  replace (2 * Z.of_nat 256) with (len pre) by lia. rewrite overwrite_app; [|lia|].
  - f_equal. replace (512 * Datatypes.S n)%nat with (2 * 256 + 512 * n)%nat by lia.
    rewrite <- take_take_drop, drop_drop. do 3 f_equal. lia.
  - unfold len in *. rewrite length_take, length_drop. lia.
Qed.

(** Sectors beyond those the command takes wait for ever. *)
Lemma transfer_write_hangs (j n : nat) m buffer off : v_data (view m) = [] → v_want (view m) = (256 * j)%nat → (j < n)%nat →
  Forall is_byte buffer → 0 ≤ off → 2 * off + ATA_SECTOR_SIZE * Z.of_nat n ≤ len buffer → 0 ≤ v_at (view m) →
  v_at (view m) + ATA_SECTOR_SIZE * Z.of_nat j ≤ len (v_disk (view m)) →
  ∃ m', transfer fuel n b Write buffer off m = (NoFuel, m').
Proof using Hfuel AtaDisk0.
  unfold ATA_SECTOR_SIZE. revert n m off. induction j as [|j IH]; intros n m off Hd Hw Hn Hbuf Ho Hl Hp Hpl;
    (destruct n as [|n]; [lia|]); cbn [transfer].
  { destruct (wait_ready_hangs fuel m Hd Hw) as [m1 E1]. exists m1. unfold wait_for_drive_ready, mbind, prog_bind. by rewrite E1. }
  destruct (wait_ready_Ok m) as (m1 & E1 & V1); [right; lia|]. rewrite (bind_Ok _ _ _ _ _ E1).
  destruct (outsw_Ok 256 m1 buffer (2 * off) (256 * j)%nat) as (m2 & E2 & D2 & W2 & A2 & K2);
    rewrite ?V1; cbn [v_busy v_data v_want v_at v_disk set_busy]; try done; try lia.
  { exists (Z.of_nat j). lia. }
  rewrite V1 in A2, K2. cbn [v_at v_disk set_busy] in A2, K2. rewrite bind_assoc, (bind_Ok _ _ _ _ _ E2).
  apply (IH n m2 (off + 256)); rewrite ?A2, ?K2; try done; try lia.
  assert (len (take (2 * 256) (drop (Z.to_nat (2 * off)) buffer)) = 512)
    by (unfold len in *; rewrite length_take, length_drop; lia). rewrite len_overwrite; lia.
Qed.

(** Up to the transfer of its sectors. *)
Lemma write_start d sector buffer m : drive_wf d (v_disk (view m)) → idle m → 0 ≤ sector → 
  let n := len buffer / 512 in sector + n ≤ ATADrive_sector_count d → sector + command_count n ≤ ATADrive_sector_count d →
  ∃ m1, v_data (view m1) = [] ∧ v_want (view m1) = (256 * Z.to_nat (command_count n))%nat ∧
    v_at (view m1) = ATA_SECTOR_SIZE * sector ∧ v_disk (view m1) = v_disk (view m) ∧
    ATADrive_write fuel d sector buffer m =
      (transfer fuel (Z.to_nat n) b Write buffer 0 ;; mret tt) m1.
Proof using Hfuel AtaDisk0.
  intros [Eb Et Ec H28] Hi Hs n Hn Hc. unfold ATADrive_write. fold n. rewrite Eb, Et.
  pose proof (len_nonneg buffer). pose proof (Z.mul_div_le (len buffer) 512 eq_refl). fold n in H0.
  assert (0 ≤ n) by (apply Z.div_pos; lia).
  assert (0 < command_count n) by (unfold command_count; pose proof (u8_range n); case_match; lia).
  destruct (reset_Ok m Hi) as (m1 & E1 & I1 & K1). rewrite (bind_Ok _ _ _ _ _ E1).
  unfold bus_write. rewrite u64_small by (unfold ATA_SECTOR_SIZE; lia).
  rewrite (proj2 (Z.ltb_ge _ _)) by (unfold ATA_SECTOR_SIZE; lia).
  destruct (ide_access_start m1 sector n Write buffer) as (m2 & I2 & K2 & A2 & L2 & N2 & E2);
    [done|lia|lia|rewrite K1, Ec; unfold ATA_SECTOR_SIZE; lia|unfold ATA_SECTOR_SIZE; lia|].
  destruct (ata_write m2 I2 A2) as (m3 & k & E3 & V3). unfold send_command in E2. rewrite (bind_Ok _ _ _ _ _ E3) in E2.
  exists m3. rewrite V3. cbn [v_data v_want v_at v_disk set_busy set_want]. rewrite L2, N2, K2, K1.
  split; [apply (iv_data _ I2)|]. split; [lia|]. split; [done|]. split; [done|].
  unfold mbind at 1, prog_bind at 1. rewrite E2. done.
Qed.

(** C19: Writes to an idle drive that follows the protocol, of a buffer of [n] whole
    sectors, perhaps with a rest: for 1 to 256 sectors inside the disk the call
    succeeds and the disk holds the buffer's whole sectors at their place and is
    otherwise unchanged (the rest is dropped), and once the drive is idle again a
    read returns them; a buffer shorter than a sector leaves the drive waiting for
    the 256 sectors a zero count asks for; more than 256 sectors wait for ever. *)
Theorem ata_write_spec d sector buffer m : drive_wf d (v_disk (view m)) → idle m → 0 ≤ sector → Forall is_byte buffer →
  let n := len buffer / 512 in
  sector + (if n =? 0 then 256 else n) ≤ ATADrive_sector_count d →
  if n =? 0 then ∃ m', ATADrive_write fuel d sector buffer m = (Ok tt, m') ∧
    Z.of_nat (v_want (view m')) = 65536 ∧ v_disk (view m') = v_disk (view m)
  else if n <=? 256 then ∃ m', ATADrive_write fuel d sector buffer m = (Ok tt, m') ∧
    v_disk (view m') = overwrite (v_disk (view m)) (ATA_SECTOR_SIZE * sector) (take (Z.to_nat (512 * n)) buffer) ∧
    ∀ m2, view m2 = set_busy O (view m') → idle m2 ∧
      ∃ m3, ATADrive_read fuel d sector n m2 = (Ok (take (Z.to_nat (512 * n)) buffer), m3)
  else ∃ m', ATADrive_write fuel d sector buffer m = (NoFuel, m').
Proof using Hfuel AtaDisk0.
  intros Hd Hi Hs Hbuf n Hin. pose proof Hd as [_ _ Ec H28]. pose proof (len_nonneg buffer).
  pose proof (Z.mul_div_le (len buffer) 512 eq_refl) as Hm. fold n in Hm. assert (0 ≤ n) as Hn0 by (apply Z.div_pos; lia).
  assert (∀ k, 0 ≤ k → command_count k ≤ if k =? 0 then 256 else k) as Hc.
  { intros k Hk. destruct (Z.eqb_spec k 0) as [Ek|]; [by rewrite Ek|]. pose proof (command_count_le k). lia. }
  specialize (Hc n Hn0).
  destruct (write_start d sector buffer m Hd Hi Hs) as (m1 & D1 & W1 & A1 & K1 & E1); [fold n; case_match; lia|fold n; lia|].
  fold n in W1, E1. rewrite E1. clearbody n. destruct (Z.eqb_spec n 0) as [E0|E0].
  { rewrite E0 in W1 |- *. exists m1. split; [done|]. split; [by rewrite W1|done]. }
  destruct (Z.leb_spec n 256) as [Hle|Hgt].
  - rewrite command_count_eq in * by lia.
    destruct (transfer_write_Ok (Z.to_nat n) m1 buffer 0) as (m2 & E2 & D2 & W2 & K2);
      rewrite ?A1, ?K1, ?Ec; unfold ATA_SECTOR_SIZE in *; try done; try lia.
    rewrite A1, K1 in K2. change (drop (Z.to_nat (2 * 0)) buffer) with buffer in K2.
    replace (512 * Z.to_nat n)%nat with (Z.to_nat (512 * n)) in K2 by lia. set (bs := take _ buffer) in *.
    assert (len bs = 512 * n) as Lb by (unfold bs, len in *; rewrite length_take; lia).
    exists m2. rewrite (bind_Ok _ _ _ _ _ E2). split; [done|]. split; [done|]. intros m3 V3.
    assert (idle m3) as I3.
    { split; rewrite V3; cbn [v_busy v_data v_want v_disk set_busy]; try done. rewrite K2.
      apply overwrite_bytes; [apply (iv_bytes _ Hi)|by apply Forall_take]. }
    split; [done|]. assert (v_disk (view m3) = overwrite (v_disk (view m)) (512 * sector) bs) as K3 by (rewrite V3; exact K2).
    destruct (ATADrive_read_Ok d sector n m3) as (bytes & m4 & Hsl & E4 & _); [|done|done|lia|lia|].
    { destruct Hd. split; try done. rewrite K3, len_overwrite; lia. }
    exists m4. rewrite E4. rewrite K3 in Hsl. unfold ATA_SECTOR_SIZE in Hsl.
    replace (512 * (sector + n)) with (512 * sector + len bs) in Hsl by lia. rewrite slice_overwrite in Hsl by lia.
    by injection Hsl as ->.
  - pose proof (command_count_le n ltac:(lia)).
    destruct (transfer_write_hangs (Z.to_nat (command_count n)) (Z.to_nat n) m1 buffer 0) as (m2 & E2);
      rewrite ?A1, ?K1, ?Ec; unfold ATA_SECTOR_SIZE in *; try done; try lia.
    exists m2. unfold mbind, prog_bind. by rewrite E2.
Qed.

(** ** Finding the drive *)

Lemma identify_loop_Ok m : v_lba1 (view m) = 0 → v_lba2 (view m) = 0 →
  ∃ m', identify_loop fuel b m = (Ok tt, m') ∧ view m' = set_busy O (view m).
Proof using Hfuel AtaDisk0.
  assert (v_busy (view m) < fuel)%nat as Hn by (pose proof (ata_limit m); lia).
  clear Hfuel. revert m Hn. induction fuel as [|n IH]; intros m Hn H1 H2; [lia|]. cbn [identify_loop].
  destruct (status_Ok m) as (s & m1 & E & _ & _ & Hs). rewrite (bind_Ok _ _ _ _ _ E).
  destruct (v_busy (view m)) as [|k] eqn:Eb; [destruct Hs as (Hs & _ & V)|destruct Hs as (Hs & V)]; rewrite Hs.
  - exists m1. split; [done|]. rewrite V. symmetry. rewrite <- Eb. apply set_busy_same.
  - destruct (ata_signature m1 LBA1) as (m2 & E2 & V2); [rewrite !elem_of_cons; tauto|].
    destruct (ata_signature m2 LBA2) as (m3 & E3 & V3); [rewrite !elem_of_cons; tauto|].
    rewrite (bind_Ok _ _ _ _ _ E2), (bind_Ok _ _ _ _ _ E3). rewrite V2, V. cbn. rewrite H1, H2. cbn.
    destruct (IH m3) as (m4 & E4 & V4); [rewrite V3, V2, V; cbn; lia|by rewrite V3, V2, V..|].
    exists m4. split; [exact E4|by rewrite V4, V3, V2, V].
Qed.

(** The words of one block. *)
Lemma read_words_Ok n m bs : v_busy (view m) = O → v_data (view m) = bs → Forall is_byte bs →
  len bs = 2 * Z.of_nat n → (n ≤ 256)%nat →
  ∃ m' k, read_words n b m = (Ok bs, m') ∧ view m' = set_busy k (set_v_data [] (view m)) ∧ k = O.
Proof using AtaDisk0.
  clear Hfuel. revert m bs. induction n as [|n IH]; intros m bs Hb Hd Hbytes Hl Hn.
  - destruct bs; [|rewrite len_cons in Hl; pose proof (len_nonneg bs); lia].
    exists m, O. split; [done|]. split; [|done]. rewrite <- Hd, <- Hb. by destruct (view m).
  - destruct bs as [|x [|y bs]]; rewrite ?len_cons, ?len_nil in *; [lia|lia|].
    apply Forall_cons in Hbytes as [Hx Hbytes]. apply Forall_cons in Hbytes as [Hy Hbytes].
    destruct (byte_word x y Hx Hy) as [Ex Ey].
    destruct (ata_data m x y bs Hb Hd) as (m1 & k & E1 & V1 & Hk). cbn [read_words].
    rewrite (bind_Ok _ _ _ _ _ E1).
    assert (k = O) as ->.
    { apply Hk. destruct n as [|n].
      - right. destruct bs; [done|]. rewrite len_cons in Hl. pose proof (len_nonneg bs). lia.
      - left. intros [q Hq]. unfold ATA_SECTOR_SIZE in Hq. lia. }
    destruct (IH m1 bs) as (m2 & k2 & E2 & V2 & Hk2); [by rewrite V1|by rewrite V1|done|lia|lia|].
    exists m2, k2. rewrite (bind_Ok _ _ _ _ _ E2). unfold le_bytes. rewrite Ex, Ey.
    split; [by rewrite (Z.mod_small y)|]. split; [|done]. by rewrite V2, V1.
Qed.

Lemma identify_Ok m : idle m → ∃ m', identify fuel b drive m = (Ok ident, m') ∧ idle m' ∧ v_disk (view m') = v_disk (view m).
Proof using Hfuel AtaDisk0.
  intros Hi. destruct (ata_ident (view:=view) (b:=b) (drive:=drive)) as [Hbytes Hl].
  unfold identify, select.
  assert (Z.lor 0xA0 (drive_u8 drive) = 0xA0 + drive_u8 drive ∧ fits 8 (0xA0 + drive_u8 drive)) as [-> Hsel].
  { generalize drive. intros []; (split; [reflexivity|split; [discriminate|reflexivity]]). }
  reg m DEVICE_SELECT (0xA0 + drive_u8 drive); [done|]. reg m0 SECTOR_COUNT0 0; [unfold fits; lia|].
  reg m1 LBA0 0; [unfold fits; lia|]. reg m2 LBA1 0; [unfold fits; lia|]. reg m3 LBA2 0; [unfold fits; lia|].
  destruct (ata_control m4) as (m5 & E5 & V5). rewrite (bind_Ok _ _ _ _ _ E5).
  assert (v_select (view m5) = 0xA0 + drive_u8 drive ∧ v_lba1 (view m5) = 0 ∧ v_lba2 (view m5) = 0 ∧
    v_disk (view m5) = v_disk (view m)) as (S1 & S2 & S3 & S4) by (rewrite V5, V3, V2, V1, V0, V; done).
  assert (idle m5) as I5 by (unfold idle; by rewrite V5).
  destruct (ata_identify m5 I5 S1) as (m6 & k & E6 & V6).
  unfold send_command. rewrite (bind_Ok _ _ _ _ _ E6).
  assert (ident ≠ []) as Hne by (intros E'; rewrite E', len_nil in Hl; lia).
  destruct (status_Ok m6) as (s & m7 & E7 & _ & _ & Hs). rewrite (bind_Ok _ _ _ _ _ E7).
  assert (view m7 = set_busy (v_busy (view m7)) (set_v_data ident (view m5)) ∧ s ≠ 0) as [V7 Hs0].
  { rewrite V6 in Hs. cbn in Hs. destruct k; [destruct Hs as (_ & Hs & ->)|destruct Hs as (Hs & ->)]; rewrite ?V6;
      (split; [done|]; intros ->); [rewrite bool_decide_true in Hs by by left|]; done. }
  assert (v_data (view m7) = ident ∧ v_lba1 (view m7) = 0 ∧ v_lba2 (view m7) = 0) as (D7 & L1 & L2) by by rewrite V7.
  rewrite (proj2 (Z.eqb_neq _ _)) by done.
  destruct (identify_loop_Ok m7 L1 L2) as (m8 & E8 & V8). rewrite (bind_Ok _ _ _ _ _ E8).
  destruct (ata_signature m8 LBA1) as (m9 & E9 & V9); [rewrite !elem_of_cons; tauto|].
  destruct (ata_signature m9 LBA2) as (m10 & E10 & V10); [rewrite !elem_of_cons; tauto|].
  rewrite (bind_Ok _ _ _ _ _ E9), (bind_Ok _ _ _ _ _ E10), V9, V8.
  cbn [v_lba1 v_lba2 set_busy]. rewrite L1, L2. cbv beta.
  change (from_lba _ _) with (Some Pata). cbv beta iota.
  destruct (wait_ready_Ok m10) as (m11 & E11 & V11); [by left; rewrite V10, V9, V8; cbn; rewrite D7|].
  rewrite (bind_Ok _ _ _ _ _ E11).
  destruct (read_words_Ok 256 m11 ident) as (m12 & k2 & E12 & V12 & Hk); [by rewrite V11| |done|lia|lia|].
  { rewrite V11, V10, V9, V8. exact D7. }
  exists m12. rewrite E12. split; [done|]. unfold idle. rewrite V12, V11, V10, V9, V8, V7, Hk. cbn. rewrite <- S4.
  split; [by destruct I5|done].
Qed.

Lemma ATADrive_new_Ok m : idle m → ∃ m', idle m' ∧ v_disk (view m') = v_disk (view m) ∧
  ATADrive_new fuel b drive m =
    (if Z.testbit (default 0 (ident !! 99%nat)) 1 then Ok (mk_drive b ident drive) else Err, m').
Proof using Hfuel AtaDisk0.
  intros Hi. destruct (ata_ident (view:=view) (b:=b) (drive:=drive)) as [Hbytes Hl].
  destruct (identify_Ok m Hi) as (m1 & E1 & I1 & K1). exists m1. split; [done|]. split; [done|].
  unfold ATADrive_new. rewrite (bind_Ok _ _ _ _ _ E1). rewrite slice_Ok by lia.
  destruct (lookup_lt_is_Some_2 ident 98) as [lo Elo]; [unfold len in Hl; lia|].
  destruct (lookup_lt_is_Some_2 ident 99) as [hi Ehi]; [unfold len in Hl; lia|].
  assert (take (Z.to_nat (100 - 98)) (drop (Z.to_nat 98) ident) = [lo; hi]) as ->.
  { change (Z.to_nat (100 - 98)) with 2%nat. change (Z.to_nat 98) with 98%nat.
    rewrite (drop_S _ _ _ Elo), (drop_S _ _ _ Ehi). done. }
  rewrite Ehi. cbn [default]. unfold mbind, prog_bind. cbn [lift]. change (len [lo; hi] =? 2) with true.
  cbn [rassert]. change (index [lo; hi] 0) with (Ok lo). change (index [lo; hi] 1) with (Ok hi).
  cbv beta iota.
  assert (is_byte lo) as Hlo by (eapply Forall_lookup_1; [exact Hbytes|exact Elo]).
  assert (Z.land (Z.lor lo (Z.shiftl hi 8)) 0x200 = if Z.testbit hi 1 then 0x200 else 0) as ->.
  { change 0x200 with (Z.shiftl 1 9). apply Z.bits_inj'. intros i Hi'.
    rewrite Z.land_spec, Z.lor_spec, (Z.shiftl_spec hi) by lia.
    destruct (decide (i = 9)) as [->|].
    - rewrite (testbit_above lo 8) by (done || lia). change (9 - 8) with 1. by destruct (Z.testbit hi 1).
    - assert (Z.testbit (Z.shiftl 1 9) i = false) as -> by (change (Z.shiftl 1 9) with (2^9); by apply Z.pow2_bits_false).
      rewrite andb_false_r. destruct (Z.testbit hi 1); [|by rewrite Z.testbit_0_l].
      change (Z.shiftl 1 9) with (2^9). symmetry. by apply Z.pow2_bits_false. }
  change (id hi) with hi. by destruct (Z.testbit hi 1).
Qed.

(** Probing an idle drive that follows the protocol reads its IDENTIFY block:
    a drive that can do LBA is returned with it, any other is refused; the drive
    is left idle. *)
Lemma ata_new_spec m : idle m → ∃ m', idle m' ∧ v_disk (view m') = v_disk (view m) ∧
  ATADrive_new fuel b drive m =
    (if Z.testbit (default 0 (ident !! 99%nat)) 1 then Ok (mk_drive b ident drive) else Err, m').
Proof using Hfuel AtaDisk0. apply ATADrive_new_Ok. Qed.

End protocol.

(** ** The driver as a block device *)

(** A drive together with the hardware behind it. *)
Definition ata_device {M} `{IoPorts M} (fuel : nat) : BlockDevice (ATADrive * M) := {|
  sector_count d := ATADrive_sector_count d.1;
  device_read d sector n := (ATADrive_read fuel d.1 sector n d.2).1;
|}.

Lemma ata_device_disk {M} `{HM : IoPorts M} {b drive} ident {limit} {view : M → ata_view}
    `{!AtaDisk M b drive ident limit view} fuel d m :
  (limit < fuel)%nat → drive_wf (b:=b) (drive:=drive) d (v_disk (view m)) → idle (view:=view) m →
  let _ := ata_device fuel in DiskSpec (d, m) (v_disk (view m)).
Proof.
  intros Hf Hd Hi ?. pose proof Hd as [_ _ Ec H28]. constructor; cbn.
  - by rewrite Ec.
  - lia.
  - intros sector n Hs Hn Hin.
    destruct (ATADrive_read_Ok fuel Hf d sector n m) as (bytes & m' & Hsl & E & _); [done..|].
    unfold SECTOR, ATA_SECTOR_SIZE in *. by rewrite E, Hsl.
  - intros sector n Hs Hn Hgt. by rewrite ATADrive_refuse by (done || lia).
Qed.

(** C20: A drive found by probing a protocol-following disk is a block device in
    the sense the partition and file system layers are verified against: whatever
    they prove of reads through [DiskSpec] holds on this driver. *)
Theorem ata_implements_disk {M} `{HM : IoPorts M} {b drive} ident {limit} {view : M → ata_view}
    `{!AtaDisk M b drive ident limit view} fuel m :
  (limit < fuel)%nat → idle (view:=view) m → Z.testbit (default 0 (ident !! 99%nat)) 1 = true →
  len (v_disk (view m)) = ATA_SECTOR_SIZE * le_value (take 4 (drop 120 ident)) → len (v_disk (view m)) < ATA_SECTOR_SIZE * 2^28 →
  ∃ d m', ATADrive_new fuel b drive m = (Ok d, m') ∧
    let _ := ata_device fuel in DiskSpec (d, m') (v_disk (view m)).
Proof.
  intros Hf Hi Hlba Hc H28.
  destruct (ATADrive_new_Ok fuel Hf m Hi) as (m' & I' & K' & E). rewrite Hlba in E.
  eexists _, m'. split; [exact E|]. rewrite <- K' in *. apply (ata_device_disk ident); [done| |done].
  pose proof (len_nonneg (v_disk (view m'))). unfold ATA_SECTOR_SIZE in *.
  constructor; cbn; [done|done|done|unfold ATADrive_sector_count; cbn; lia].
Qed.

(** ** A simulated drive *)

(** It stays busy for two status reads after a command and one between sectors. *)
Definition sim_view (m : ata_view) : ata_view := set_busy (Nat.min 2 (v_busy m)) m.

Definition sim_ports (ident : list Z) : IoPorts ata_view := {|
  inb port m :=
    let v := sim_view m in
    if port =? 0x1F7 then
      match v_busy v with
      | S k => (Ok 0x80, set_busy k v)
      | O => (Ok (if bool_decide (v_data v ≠ [] ∨ v_want v ≠ O) then 0x48 else 0x40), v)
      end
    else if port =? 0x1F4 then (Ok (v_lba1 v), v)
    else if port =? 0x1F5 then (Ok (v_lba2 v), v)
    else (Ok 0, v);
  inw _ m :=
    let v := sim_view m in
    match v_data v with
    | x :: y :: rest =>
        (Ok (x + 2^8 * y),
         set_busy (if bool_decide (rest = []) || negb (len rest mod 512 =? 0) then 0 else 1) (set_v_data rest v))
    | _ => (Ok 0xFFFF, v)
    end;
  inl _ m := (Ok 0, m);
  outb port x m :=
    let v := sim_view m in
    if port =? 0x1F7 then
      if x =? 0x20 then
        (Ok tt, set_busy 2 (set_v_data
          (match slice (v_disk v) (512 * v_lba v) (512 * (v_lba v + v_sectors v)) with Ok d => d | _ => [] end) v))
      else if x =? 0x30 then (Ok tt, set_busy 2 (set_want (512 * v_lba v) (Z.to_nat (256 * v_sectors v)) v))
      else if x =? 0xEC then (Ok tt, set_busy 2 (set_v_data ident v))
      else (Ok tt, v)
    else if port =? 0x3F6 then (Ok tt, v)
    else (Ok tt, set_reg (port - 0x1F0) x v);
  outw _ w m :=
    let v := sim_view m in
    match v_want v with
    | S n => (Ok tt, set_busy (if Z.of_nat n mod 256 =? 0 then 1 else 0) (take_word w v))
    | O => (Ok tt, v)
    end;
  outl _ _ m := (Ok tt, m)
|}.

Definition sim_bus : ATABus := ATABus_new 0x1F0 0x3F6.

(** The simulation follows the protocol. *)
Lemma sim_disk drive ident : Forall is_byte ident → len ident = 512 →
  AtaDisk (H := sim_ports ident) ata_view sim_bus drive ident 2 sim_view.
Proof.
  intros Hi Hl. change sim_bus with (mk_bus 0x1F0 0x3F4).
  assert (∀ m, sim_view (sim_view m) = sim_view m) as Hidem.
  { intros m. unfold sim_view, set_busy. cbn -[Nat.min]. by rewrite Nat.min_assoc. }
  assert (∀ r x v, sim_view (set_reg r x v) = set_reg r x (sim_view v)) as Hreg by done.
  constructor.
  - done.
  - intros m. cbn -[Nat.min]. lia.
  - intros m r x _ Hr _. rewrite !elem_of_cons in Hr.
    destruct Hr as [->|[->|[->|[->|[->|Hr]]]]]; [..|by apply elem_of_nil in Hr];
      (eexists; split; [reflexivity|]; rewrite Hreg, Hidem; reflexivity).
  - intros m. eexists. split; [reflexivity|]. apply Hidem.
  - intros m. eexists _, _. split; [reflexivity|]. apply Hidem.
  - intros m. cbn -[sim_view set_busy]. destruct (v_busy (sim_view m)) as [|k] eqn:Eb.
    + eexists _, _. split; [reflexivity|]. destruct (bool_decide _);
        (split; [reflexivity|]; split; [reflexivity|]; split; [reflexivity|]; split; [reflexivity|apply Hidem]).
    + eexists _, _. split; [reflexivity|]. split; [done|]. split; [done|]. split; [done|].
      unfold sim_view, set_busy in *. cbn -[Nat.min] in *. f_equal. lia.
  - intros m r Hr. rewrite !elem_of_cons in Hr. destruct Hr as [->|[->|Hr]]; [..|by apply elem_of_nil in Hr];
      (eexists; split; [reflexivity|apply Hidem]).
  - intros m _ [_ Hlba Hcnt Hin]. unfold ATA_SECTOR_SIZE, fits in *.
    assert (0 < v_sectors (sim_view m)) by (unfold v_sectors; case_match; lia).
    eexists _, 2%nat, _. split; [reflexivity|]. rewrite slice_Ok by lia. split; reflexivity.
  - intros m _ _. eexists _, 2%nat. split; reflexivity.
  - intros m _ _. eexists _, 2%nat. split; reflexivity.
  - intros m x y rest Hb Hdat. cbn -[sim_view set_busy set_v_data]. rewrite Hdat.
    eexists _, _. split; [reflexivity|]. split.
    + reflexivity.
    + unfold ATA_SECTOR_SIZE. intros [Hn| ->]; [|done].
      assert ((len rest mod 512 =? 0) = false) as ->; [|by rewrite orb_true_r].
      apply Z.eqb_neq. intros Hz. apply Hn. by apply Z.mod_divide.
  - intros m w n Hb Hdat Hw _. cbn -[sim_view set_busy take_word]. rewrite Hw.
    eexists _, _. split; [reflexivity|]. split; [reflexivity|].
    intros Hn. rewrite (proj2 (Z.eqb_neq _ _)); [done|]. intros Hz. apply Hn. by apply Z.mod_divide.
Qed.

(** Four sectors behind the primary bus. *)
Definition demo_ata_disk : list Z := concat ((λ k, replicate 512 k) <$> seqZ 0 4).
Definition demo_ident : list Z :=
  replicate 99 0 ++ [2] ++ replicate 20 0 ++ le_bytes 4 4 ++ replicate 388 0.
Definition demo_drive : ATADrive := mk_drive sim_bus demo_ident Parent.
Definition sim_start : ata_view := mk_view 0 0 0 0 0 0 [] 0 0 demo_ata_disk.
Lemma sim_start_idle : idle (view:=sim_view) sim_start.
Proof. split; [reflexivity..|apply (bool_decide_unpack _); vm_compute; exact I]. Qed.

Lemma demo_sim : AtaDisk (H := sim_ports demo_ident) ata_view sim_bus Parent demo_ident 2 sim_view.
Proof. apply sim_disk; [apply (bool_decide_unpack _); vm_compute; exact I|reflexivity]. Qed.
Lemma demo_drive_wf : drive_wf (b:=sim_bus) (drive:=Parent) demo_drive demo_ata_disk.
Proof. constructor; [reflexivity..|vm_compute; split; [discriminate|reflexivity]]. Qed.

Lemma ata_read_spec_witness :
  let _ := sim_ports demo_ident in
  (∃ m', ATADrive_read 3 demo_drive 1 2 sim_start = (Ok (replicate 512 1 ++ replicate 512 2), m')) ∧
  ATADrive_read 3 demo_drive 3 2 sim_start = (Err, sim_start).
Proof.
  pose (ports := sim_ports demo_ident). split.
  - destruct (ata_read_spec (HM:=ports) (AtaDisk0:=demo_sim) 3 (le_n 3) demo_drive 1 2 sim_start demo_drive_wf)
      as (bytes & m' & Hsl & E & _); [apply sim_start_idle|lia|lia|lia|].
    assert (@Ok (list Z) bytes = Ok (replicate 512 1 ++ replicate 512 2)) as Eb
      by (rewrite <- Hsl; vm_compute; reflexivity).
    injection Eb as ->. exists m'. exact E.
  - apply (ata_read_spec (HM:=ports) (AtaDisk0:=demo_sim) 3 (le_n 3) demo_drive 3 2 sim_start demo_drive_wf);
      [apply sim_start_idle|lia|lia|lia].
Defined.

Lemma ata_new_spec_witness : let _ := sim_ports demo_ident in
  ∃ m', ATADrive_new 3 sim_bus Parent sim_start = (Ok demo_drive, m').
Proof.
  destruct (ata_new_spec (HM:=sim_ports demo_ident) (AtaDisk0:=demo_sim) 3 (le_n 3) sim_start)
    as (m' & _ & _ & E); [apply sim_start_idle|]. exists m'. exact E.
Defined.

Lemma ata_implements_disk_witness : let _ := sim_ports demo_ident in
  ∃ d m', ATADrive_new 3 sim_bus Parent sim_start = (Ok d, m') ∧
    let _ := ata_device 3 in DiskSpec (d, m') demo_ata_disk.
Proof.
  apply (ata_implements_disk (HM:=sim_ports demo_ident) (AtaDisk0:=demo_sim) demo_ident 3 sim_start);
    [lia|apply sim_start_idle|reflexivity|reflexivity|reflexivity].
Defined.

(** A sector and two bytes, to sector 2. *)
Definition demo_write : list Z := replicate 512 7 ++ [1; 2].

Lemma ata_write_spec_witness : let _ := sim_ports demo_ident in
  ∃ m', ATADrive_write 3 demo_drive 2 demo_write sim_start = (Ok tt, m') ∧
    ∃ m3, ATADrive_read 3 demo_drive 2 1 (set_busy 0 m') = (Ok (replicate 512 7), m3).
Proof.
  destruct (ata_write_spec (HM:=sim_ports demo_ident) (AtaDisk0:=demo_sim) 3 (le_n 3) demo_drive 2 demo_write sim_start demo_drive_wf)
    as (m' & E & _ & R).
  - apply sim_start_idle.
  - lia.
  - apply (bool_decide_unpack _). vm_compute. exact I.
  - by vm_compute.
  - exists m'. split; [exact E|]. destruct (R (set_busy 0 m') eq_refl) as (_ & m3 & E3). exists m3. exact E3.
Defined.
