(* ===== verification/Scan.v ===== *)
(** src/src/drivers/storage/ide.rs, the second loop of [ide_initialize]: reading
    the partition table of a drive and mounting the FAT volumes it names, for any
    block device and any set of file system drivers. *)

From S2P Require Import Prelude Uuid Storage Vfs Fat Ide.

Definition ZERO_GUID : str := chars "00000000-0000-0000-0000-000000000000 ".
Definition ESP_GUID : str := chars "C12A7328-F81F-11D2-BA4B-00A0C93EC93B".

Section scan.
Context {D : Type} `{BlockDevice D}.

(** [for i in 0..gpt.partition_entry_count]: one entry, [None] for an empty one. *)
Definition gpt_entry_at (partition_sector : list Z) (entry_size i : Z) : outcome (option GPTPartitionEntry) :=
  let entry_offset := u32 (i * entry_size) in
  type_bytes ← slice partition_sector entry_offset (entry_offset + 16);
  partition_type_guid ← uuid_from type_bytes;
  if uuid_eq_str partition_type_guid ZERO_GUID then mret None else
  unique_bytes ← slice partition_sector (entry_offset + 16) (entry_offset + 32);
  unique_partition_guid ← uuid_from unique_bytes;
  start_sector ← read_le partition_sector (entry_offset + 32) (entry_offset + 40);
  end_sector ← read_le partition_sector (entry_offset + 40) (entry_offset + 48);
  attributes ← read_le partition_sector (entry_offset + 48) (entry_offset + 56);
  partition_name ← slice partition_sector (entry_offset + 56) (entry_offset + 128);
  mret (Some (mk_gpt_entry partition_type_guid unique_partition_guid start_sector end_sector
    attributes partition_name)).

Definition gpt_entries (dev : D) (partition_sector : list Z) (count entry_size : Z) :
    outcome (list (Partition D)) :=
  foldM (λ partitions i,
    e ← gpt_entry_at partition_sector entry_size i;
    mret (match e with Some e => partitions ++ [GPTPart e dev] | None => partitions end)) []
    (seqZ 0 count).

(** The second loop of [ide_initialize], up to the table of one drive. *)
Definition scan_drive (dev : D) : outcome (list (Partition D)) :=
  mbr_bytes ← expect (device_read dev 0 1);
  mbr_sector ← MBR_from mbr_bytes;
  rassert (le_value (signature mbr_sector) =? 0xAA55) ;;
  mbr_partitions ← partitions mbr_sector;
  first ← index mbr_partitions 0;
  rassert (partition_type first =? 0xEE) ;;
  gpt_sector ← expect (device_read dev 1 1);
  array ← slice gpt_sector 0 512;
  gpt ← GPTHeader_new array;
  partition_sector ← expect (device_read dev 2
    (u32 (partition_entry_count gpt * partition_entry_size gpt) / ATA_SECTOR_SIZE));
  gpt_entries dev partition_sector (partition_entry_count gpt) (partition_entry_size gpt).

(** Mounting: every EFI system partition that holds a FAT volume is added at
    [/mnt], the result ignored.  [box] is the coercion to [Box<dyn FsOps>]. *)
Definition mount_partition {F I : Type} `{!FsOps F I} (box : FatFs D → F) (partition : Partition D) : prog (vfs_state F I) unit :=
  match partition with
  | GPTPart gpt_partition _ =>
      if negb (uuid_eq_str (partition_type_guid gpt_partition) ESP_GUID) then mret tt else
      fat_fs ← attempt (lift (FatFs_new partition));
      match fat_fs with
      | Some fat_fs => attempt (add_vfs (chars "/mnt") (box fat_fs)) ;; mret tt
      | None => mret tt
      end
  | MBRPart _ _ => panic
  end.

Definition init_drive {F I : Type} `{!FsOps F I} (box : FatFs D → F) (dev : D) : prog (vfs_state F I) unit :=
  partitions ← lift (scan_drive dev);
  for_each partitions (mount_partition box).

End scan.

(** * Disks with a GPT *)

Definition ZERO_UUID : Uuid := mk_uuid 0 0 0 (replicate 8 0).

(** The type of an unused entry; the space at the end of the text is trimmed. *)
Lemma zero_guid_eq x : uuid_eq_str x ZERO_GUID = bool_decide (x = ZERO_UUID).
Proof.
  unfold uuid_eq_str. assert (parse_uuid ZERO_GUID = Some ZERO_UUID) as -> by by vm_compute. apply uuid_eq_spec.
Qed.
Lemma esp_guid_eq x : uuid_eq_str x ESP_GUID = bool_decide (x = esp_guid).
Proof.
  unfold uuid_eq_str. assert (parse_uuid ESP_GUID = Some esp_guid) as -> by by vm_compute. apply uuid_eq_spec.
Qed.

Record gpt_entry_wf (e : GPTPartitionEntry) : Prop := {
  gew_type : uuid_wf (partition_type_guid e);
  gew_unique : uuid_wf (unique_partition_guid e);
  gew_64 : fits 64 (start_sector e) ∧ fits 64 (end_sector e) ∧ fits 64 (attributes e);
  gew_name : len (partition_name e) = 72;
}.
Definition gpt_entry_bytes (e : GPTPartitionEntry) : list Z :=
  uuid_bytes (partition_type_guid e) ++ uuid_bytes (unique_partition_guid e) ++ le_bytes 8 (start_sector e) ++
  le_bytes 8 (end_sector e) ++ le_bytes 8 (attributes e) ++ partition_name e.

(** Entries with what the table pads each of them with. *)
Definition gpt_table (table : list (GPTPartitionEntry * list Z)) : list Z :=
  concat ((λ x, gpt_entry_bytes x.1 ++ x.2) <$> table).
Definition used_entries (table : list (GPTPartitionEntry * list Z)) : list GPTPartitionEntry :=
  filter (λ e, partition_type_guid e ≠ ZERO_UUID) table.*1.

(** A disk as a partitioning tool leaves it: a protective MBR, a header, and the
    entries it counts from sector 2 on, in whole sectors and at most 256. *)
Record gpt_disk (disk : list Z) (protective : MBRPartition) (h : GPTHeader)
    (table : list (GPTPartitionEntry * list Z)) : Prop := {
  gd_mbr : ∃ boot_code id reserved, slice disk 0 512 =
      Ok (mbr_sector boot_code id reserved (entry_bytes protective :: replicate 3 (replicate 16 0)) [0x55; 0xAA]) ∧
    len boot_code = 440 ∧ len id = 4 ∧ len reserved = 2;
  gd_protective : mbr_partition_wf protective ∧ partition_type protective = 0xEE;
  gd_header : ∃ rest, slice disk 512 1024 = Ok (gpt_bytes h rest);
  gd_header_wf : gpt_header_wf h;
  gd_count : partition_entry_count h = len table;
  gd_entries : Forall (λ x, gpt_entry_wf x.1 ∧ 128 + len x.2 = partition_entry_size h) table;
  gd_table : ∃ n, 1 ≤ n ≤ 256 ∧ partition_entry_count h * partition_entry_size h = SECTOR * n ∧
    slice disk (SECTOR * 2) (SECTOR * (2 + n)) = Ok (gpt_table table);
}.

Lemma len_gpt_entry e : gpt_entry_wf e → len (gpt_entry_bytes e) = 128.
Proof.
  intros [Ht Hu _ Hn]. unfold gpt_entry_bytes. by rewrite !len_app, !len_le_bytes, !len_uuid_bytes, Hn.
Qed.

Lemma gpt_entry_at_Ok pre e rest size i : gpt_entry_wf e → len pre = i * size → 0 ≤ i * size < 2^32 →
  gpt_entry_at (pre ++ gpt_entry_bytes e ++ rest) size i =
    Ok (if decide (partition_type_guid e = ZERO_UUID) then None else Some e).
Proof.
  intros [Ht Hu (? & ? & ?) Hn] Hp Hi. unfold gpt_entry_at. rewrite u32_small by done. rewrite <- Hp. unfold read_le.
  set (all := gpt_entry_bytes e ++ rest).
  assert (∀ a b, 0 ≤ a → slice (pre ++ all) (len pre + a) (len pre + b) = slice all a b) as Hs
    by (intros a b Ha; by apply (slice_skip _ _ _ _ (len pre)); lia).
  rewrite <- (Z.add_0_r (len pre)) at 1. rewrite !Hs by lia. unfold all, gpt_entry_bytes. rewrite <- !app_assoc.
  pose proof (len_uuid_bytes _ Ht). pose proof (len_uuid_bytes _ Hu).
  layout. rewrite (uuid_from_bytes (partition_type_guid e)) by done. cbn [mbind outcome_bind].
  rewrite zero_guid_eq. destruct (decide (partition_type_guid e = ZERO_UUID)); [by rewrite bool_decide_true|].
  rewrite bool_decide_false by done. rewrite uuid_from_bytes by done. cbn [mbind outcome_bind]. by destruct e.
Qed.

Lemma gpt_entries_Ok {D} `{BlockDevice D} (dev : D) size table :
  Forall (λ x, gpt_entry_wf x.1 ∧ 128 + len x.2 = size) table → len table * size < 2^32 →
  gpt_entries dev (gpt_table table) (len table) size = Ok ((λ e, GPTPart e dev) <$> used_entries table).
Proof.
  intros Hes Hlt. unfold gpt_entries.
  assert (∀ todo pre acc, pre ++ todo = table →
    foldM (λ partitions i, e ← gpt_entry_at (gpt_table table) size i;
      mret (match e with Some e => partitions ++ [GPTPart e dev] | None => partitions end)) acc (seqZ (len pre) (len todo)) =
    Ok (acc ++ ((λ e, GPTPart e dev) <$> used_entries todo))) as Hfold.
  2: { apply (Hfold table [] []). done. }
  intros todo. induction todo as [|[e pad] todo IH]; intros pre acc E.
  { cbn. by rewrite app_nil_r. }
  rewrite len_cons, seqZ_cons by (pose proof (len_nonneg todo); lia). cbn [foldM].
  assert (len (gpt_table pre) = len pre * size ∧ gpt_table table = gpt_table pre ++ gpt_entry_bytes e ++ (pad ++ gpt_table todo) ∧
    gpt_entry_wf e ∧ 128 + len pad = size) as (Hp & Et & He & Hpad).
  { rewrite <- E in Hes. apply Forall_app in Hes as [Hpre [[? ?] _]%Forall_cons]. split; [|split; [|done]].
    - clear -Hpre. induction Hpre as [|[e pad] pre [He Hs] _ IH]; [done|]. cbn [fst snd] in *. rewrite len_cons.
      change (gpt_table ((e, pad) :: pre)) with ((gpt_entry_bytes e ++ pad) ++ gpt_table pre).
      rewrite !len_app, len_gpt_entry, IH by done. lia.
    - rewrite <- E. unfold gpt_table. rewrite fmap_app, concat_app, fmap_cons. cbn [concat fst snd]. by rewrite <- !app_assoc. }
  pose proof (len_nonneg pre). pose proof (len_nonneg todo). pose proof (len_nonneg pad).
  rewrite <- E, len_app, len_cons in Hlt.
  rewrite Et, (gpt_entry_at_Ok _ _ _ size (len pre)) by (done || nia). cbn [mbind outcome_bind mret outcome_ret]. rewrite <- Et.
  assert (Z.succ (len pre) = len (pre ++ [(e, pad)])) as -> by (rewrite len_app, len_cons, len_nil; lia).
  replace (Z.pred (1 + len todo)) with (len todo) by lia.
  rewrite IH by by rewrite <- app_assoc. f_equal.
  unfold used_entries. cbn [fmap list_fmap fst]. rewrite filter_cons.
  destruct (decide (partition_type_guid e = ZERO_UUID)).
  - by rewrite decide_False by auto.
  - rewrite decide_True by done. by rewrite fmap_cons, <- app_assoc.
Qed.

Lemma scan_drive_Ok {D} `{BlockDevice D} (dev : D) disk `{!DiskSpec dev disk} protective h table :
  gpt_disk disk protective h table → scan_drive dev = Ok ((λ e, GPTPart e dev) <$> used_entries table).
Proof.
  intros [(boot & id & reserved & Hmbr & Hb & Hid & Hr) [Hpw Hpt] [rest Hh] Hhw Hc Hes (n & Hn & Hcn & Ht)].
  pose proof (disk_size (dev:=dev) (disk:=disk)) as Hsize. pose proof (slice_len _ _ _ _ Ht) as Hlt.
  assert (2 + n ≤ sector_count dev) as Hcount.
  { unfold slice in Ht. case_decide as Hd; [|done]. unfold SECTOR in *. lia. }
  unfold scan_drive. rewrite !(disk_read (disk:=disk)) by lia.
  change (SECTOR * 0) with 0. change (SECTOR * (0 + 1)) with 512. change (SECTOR * 1) with 512. change (SECTOR * (1 + 1)) with 1024.
  rewrite Hmbr, Hh. cbn [expect mbind outcome_bind].
  destruct (mbr_partitions_Ok boot id reserved [protective] [0x55; 0xAA]) as (m & Em & Es & Ep); [done|done|done|done|by constructor|cbn; lia|].
  cbn [fmap list_fmap app length Nat.sub] in Em, Ep.
  rewrite Em. cbn [mbind outcome_bind]. rewrite Es, Ep. cbn [rassert mbind outcome_bind].
  change (index [misread_end protective] 0) with (Ok (misread_end protective)). cbn [mbind outcome_bind]. cbn [misread_end partition_type]. rewrite Hpt.
  cbn [Z.eqb Pos.eqb rassert mbind outcome_bind].
  assert (slice (gpt_bytes h rest) 0 512 = Ok (gpt_bytes h rest)) as ->.
  { apply slice_len in Hh. rewrite <- (app_nil_r (gpt_bytes h rest)) at 1. by apply slice_here. }
  cbn [mbind outcome_bind]. destruct (gpt_header_roundtrip h rest [] Hhw) as [-> _]. cbn [mbind outcome_bind].
  unfold SECTOR, ATA_SECTOR_SIZE in *. rewrite u32_small, Hcn by lia. rewrite Z.mul_comm, Z.div_mul by done.
  rewrite (disk_read (disk:=disk)) by lia. unfold SECTOR. rewrite Ht. cbn [expect mbind outcome_bind]. rewrite Hc.
  apply gpt_entries_Ok; [done|lia].
Qed.

Definition is_esp (e : GPTPartitionEntry) : Prop := partition_type_guid e = esp_guid.

Lemma mount_others {D F I} `{BlockDevice D} `{!FsOps F I} (box : FatFs D → F) (dev : D) es (s : vfs_state F I) : Forall (λ e, ¬ is_esp e) es →
  for_each ((λ e, GPTPart e dev) <$> es) (mount_partition box) s = (Ok tt, s).
Proof.
  induction 1 as [|e es He _ IH]; [done|]. rewrite fmap_cons. cbn [for_each]. cbn [mount_partition].
  rewrite esp_guid_eq, bool_decide_false by done. exact IH.
Qed.

Lemma init_drive_Ok {D F I} `{BlockDevice D} `{!FsOps F I} (box : FatFs D → F) (dev : D) disk `{!DiskSpec dev disk}
    protective h table before e after fs0 (s : vfs_state F I) :
  gpt_disk disk protective h table → used_entries table = before ++ e :: after →
  is_esp e → Forall (λ e, ¬ is_esp e) (before ++ after) → FatFs_new (GPTPart e dev) = Ok fs0 →
  init_drive box dev s = (r ← attempt (add_vfs (chars "/mnt") (box fs0)); mret tt) s.
Proof.
  intros Hd Hu He [Hb Ha]%Forall_app Hfs. unfold init_drive. rewrite (scan_drive_Ok dev disk protective h table Hd).
  rewrite (bind_Ok (lift (Ok _)) _ _ _ _ eq_refl), Hu, fmap_app, for_each_app.
  rewrite (bind_Ok _ _ _ _ _ (mount_others box dev before s Hb)), fmap_cons. cbn [for_each].
  cbn [mount_partition]. rewrite esp_guid_eq, bool_decide_true by done. cbn [negb].
  rewrite Hfs. change (attempt (lift (Ok fs0))) with (mret (M:=prog (vfs_state F I)) (Some fs0)).
  rewrite bind_assoc, (bind_Ok (mret _) _ _ _ _ eq_refl), bind_assoc.
  unfold mbind, prog_bind. destruct (attempt _ s) as [[r| | | |] s1]; try done. cbn. by rewrite mount_others.
Qed.

(** C15: from a disk with a GPT every entry in use is read, in order and field by
    field; entries of type zero are passed over.  When one of them is an EFI system
    partition and holds a FAT volume, all that is left of probing the drive is
    mounting that volume at "/mnt". *)
Theorem gpt_scan_spec {D F I} `{BlockDevice D} `{!FsOps F I} (box : FatFs D → F) (dev : D) disk `{!DiskSpec dev disk}
    protective h table before e after fs0 (s : vfs_state F I) :
  gpt_disk disk protective h table →
  scan_drive dev = Ok ((λ e, GPTPart e dev) <$> used_entries table) ∧
  (used_entries table = before ++ e :: after → is_esp e → Forall (λ e, ¬ is_esp e) (before ++ after) →
    FatFs_new (GPTPart e dev) = Ok fs0 →
    init_drive box dev s = (r ← attempt (add_vfs (chars "/mnt") (box fs0)); mret tt) s).
Proof.
  intros Hd. split; [by apply (scan_drive_Ok dev disk protective h)|]. intros. by apply (init_drive_Ok box dev disk protective h table before e after).
Qed.

(** A disk with one unused entry and the volume of Fat.v in another. *)
Definition demo_gpt_entry : GPTPartitionEntry := mk_gpt_entry esp_guid ZERO_UUID 3 11 0 (replicate 72 0).
Definition unused_entry : GPTPartitionEntry := mk_gpt_entry ZERO_UUID ZERO_UUID 0 0 0 (replicate 72 0).
Definition demo_gpt_table : list (GPTPartitionEntry * list Z) := (λ e, (e, [])) <$> [unused_entry; demo_gpt_entry; unused_entry; unused_entry].
Definition demo_gpt_header : GPTHeader :=
  mk_gpt_header (chars "EFI PART") 0x10000 92 0 [0; 0; 0; 0] 1 12 3 11 ZERO_UUID 2 4 128 0.
Definition demo_protective : MBRPartition := mk_mbr_partition 0 [0; 2; 0] 0xEE [255; 255; 255] 1 12.
Definition demo_gpt_disk (volume : list Z) : list Z :=
  mbr_sector (replicate 440 0) [1; 2; 3; 4] [0; 0] (entry_bytes demo_protective :: replicate 3 (replicate 16 0)) [0x55; 0xAA] ++
  gpt_bytes demo_gpt_header (replicate 420 0) ++ gpt_table demo_gpt_table ++ volume.

Lemma demo_gpt_disk_wf volume : gpt_disk (demo_gpt_disk volume) demo_protective demo_gpt_header demo_gpt_table.
Proof.
  assert (uuid_wf ZERO_UUID) as Hz by (split; [split..|split; [|repeat constructor]]; by vm_compute).
  split.
  - exists (replicate 440 0), [1; 2; 3; 4], [0; 0]. split; [|done]. by apply slice_here.
  - split; [|done]. by split.
  - exists (replicate 420 0). unfold demo_gpt_disk. by apply slice_app_middle.
  - by split.
  - done.
  - assert (gpt_entry_wf unused_entry) by by split. assert (gpt_entry_wf demo_gpt_entry) by (by split; [exact esp_guid_wf|..]).
    repeat constructor; done.
  - exists 1. split; [done|]. split; [done|]. unfold demo_gpt_disk. rewrite app_assoc. by apply slice_app_middle.
Qed.

Definition gpt_demo_fs : FatFs (list Z) :=
  mk_fatfs (GPTPart demo_gpt_entry (demo_gpt_disk demo_volume)) None None demo_bpb 1
    (Fat12 (mk_ebpb16 0 (replicate 11 0) (chars "FAT12   "))) 512 1.

Lemma demo_gpt_disk_spec : DiskSpec (demo_gpt_disk demo_volume) (demo_gpt_disk demo_volume).
Proof. apply ram_disk_spec; [exists 11; by vm_compute|by vm_compute]. Qed.

Lemma gpt_scan_spec_witness :
  scan_drive (demo_gpt_disk demo_volume) = Ok [GPTPart demo_gpt_entry (demo_gpt_disk demo_volume)] ∧
  init_drive (F:=unit) (I:=Z) (λ _, ()) (demo_gpt_disk demo_volume) toy_root =
    (r ← attempt (add_vfs (chars "/mnt") ()); mret tt) toy_root.
Proof.
  destruct (gpt_scan_spec (F:=unit) (I:=Z) (λ _, ()) (demo_gpt_disk demo_volume) (demo_gpt_disk demo_volume) (DiskSpec0:=demo_gpt_disk_spec)
    demo_protective demo_gpt_header demo_gpt_table [] demo_gpt_entry [] gpt_demo_fs toy_root (demo_gpt_disk_wf _)) as [E1 E2].
  split; [exact E1|]. apply E2.
  - by vm_compute.
  - done.
  - constructor.
  - by vm_compute.
Defined.
