(* ===== verification/DynFs.v ===== *)
(** [Box<dyn FsOps>] and [Box<dyn VNodeOperations>]: file systems of two kinds
    behind one table of mounts.  The tree of src/src/drivers/fs/vfs.rs holds
    trait objects; here they are a sum, and a call goes to the driver that made
    the object.  A driver casts [parent_vfs.data] to its own type, so that an
    inode of one kind run on a file system of the other is undefined. *)

From S2P Require Import Prelude Vfs.

Section dyn.
Context {F1 I1 F2 I2 : Type} `{!FsOps F1 I1} `{!FsOps F2 I2}.

(** A method of the driver of one kind. *)
Definition on_left {A} (m : prog F1 A) : prog (F1 + F2) A := λ f,
  match f with inl g => let '(o, g') := m g in (o, inl g') | inr _ => (Undef, f) end.
Definition on_right {A} (m : prog F2 A) : prog (F1 + F2) A := λ f,
  match f with inr g => let '(o, g') := m g in (o, inr g') | inl _ => (Undef, f) end.
Definition on_kind (m1 : prog F1 unit) (m2 : prog F2 unit) : prog (F1 + F2) unit := λ f,
  match f with inl _ => on_left m1 f | inr _ => on_right m2 f end.
Definition on_inode (m1 : prog I1 unit) (m2 : prog I2 unit) : prog (I1 + I2) unit := λ i,
  match i with
  | inl j => let '(o, j') := m1 j in (o, inl j')
  | inr j => let '(o, j') := m2 j in (o, inr j')
  end.
Definition boxed_left (m : prog F1 (I1 * VNodeType)) : prog (F1 + F2) ((I1 + I2) * VNodeType) :=
  '(i, t) ← on_left m; mret (inl i, t).
Definition boxed_right (m : prog F2 (I2 * VNodeType)) : prog (F1 + F2) ((I1 + I2) * VNodeType) :=
  '(i, t) ← on_right m; mret (inr i, t).

#[export] Instance dyn_ops : FsOps (F1 + F2) (I1 + I2) := {
  fs_mount := on_kind fs_mount fs_mount;
  fs_unmount := on_kind fs_unmount fs_unmount;
  fs_root := λ f, match f with inl _ => boxed_left fs_root f | inr _ => boxed_right fs_root f end;
  inode_open := on_inode inode_open inode_open;
  inode_close := on_inode inode_close inode_close;
  inode_len := λ i, match i with inl j => inode_len j | inr j => inode_len j end;
  inode_read := λ i count offset,
    match i with inl j => on_left (inode_read j count offset) | inr j => on_right (inode_read j count offset) end;
  inode_lookup := λ i nm,
    match i with inl j => boxed_left (inode_lookup j nm) | inr j => boxed_right (inode_lookup j nm) end;
}.

(** ** The contract *)

Definition left_view (v : FsView I1) : FsView (I1 + I2) := mk_view (inl (v_root v))
  (λ i, match i with inl j => v_typ v j | inr _ => Bad end)
  (λ i nm, match i with inl j => inl <$> v_entry v j nm | inr _ => None end)
  (λ i, match i with inl j => v_data v j | inr _ => [] end)
  (λ i count offset, match i with inl j => v_serves v j count offset | inr _ => false end).
Definition right_view (v : FsView I2) : FsView (I1 + I2) := mk_view (inr (v_root v))
  (λ i, match i with inr j => v_typ v j | inl _ => Bad end)
  (λ i nm, match i with inr j => inr <$> v_entry v j nm | inl _ => None end)
  (λ i, match i with inr j => v_data v j | inl _ => [] end)
  (λ i count offset, match i with inr j => v_serves v j count offset | inl _ => false end).

Context (ok1 : bool → F1 → Prop) (view1 : F1 → FsView I1) (ok2 : bool → F2 → Prop) (view2 : F2 → FsView I2).
Definition dyn_ok (m : bool) (f : F1 + F2) : Prop := match f with inl g => ok1 m g | inr g => ok2 m g end.
Definition dyn_view (f : F1 + F2) : FsView (I1 + I2) :=
  match f with inl g => left_view (view1 g) | inr g => right_view (view2 g) end.

#[export] Instance dyn_spec `{!FsSpec F1 I1 ok1 view1} `{!FsSpec F2 I2 ok2 view2} :
  FsSpec (F1 + F2) (I1 + I2) dyn_ok dyn_view.
Proof.
  constructor.
  - intros m [f|f] Hf; cbn; by eapply spec_root_typ.
  - intros m [f|f] [i|i] nm j Hf Hi Hj; cbn in *; try done; apply fmap_Some in Hj as (j' & Hj & ->);
      by eapply spec_entry_typ.
  - intros m [f|f] Hf; cbn in *; destruct (spec_mount m f Hf) as (f' & E & Hf' & Ev);
      [exists (inl f')|exists (inr f')]; cbn; by rewrite E, Ev.
  - intros m [f|f] Hf; cbn in *; destruct (spec_root m f Hf) as (f' & E & Hf' & Ev);
      [exists (inl f')|exists (inr f')]; unfold boxed_left, boxed_right, on_left, on_right, mbind, prog_bind; cbn;
      by rewrite E, Ev.
  - intros [f|f] [i|i] nm Hf Hi; cbn in *; try done; destruct (spec_lookup f i nm Hf Hi) as (f' & E & Hf' & Ev);
      [exists (inl f')|exists (inr f')]; unfold boxed_left, boxed_right, on_left, on_right, mbind, prog_bind;
      cbn; rewrite E; destruct (v_entry _ i nm); cbn; by rewrite ?Ev.
  - intros [f|f] [i|i] nm Hf Hi; cbn in *; try done; pose proof (spec_lookup_file f i nm Hf Hi) as E;
      unfold boxed_left, boxed_right, on_left, on_right, mbind, prog_bind; by rewrite E.
  - intros [i|i]; cbn; [destruct (spec_open (view:=view1) (ok:=ok1) i) as [-> ->]|destruct (spec_open (view:=view2) (ok:=ok2) i) as [-> ->]]; done.
  - intros [f|f] [i|i] n count Hf Hi Hn Hpos Hc; cbn in *; try done; by eapply spec_serves.
  - intros [f|f] [i|i] n count offset Hf Hi Hn Hpos Hc Ho Hb Hs; cbn in *; try done;
      destruct (spec_read f i n count offset Hf Hi Hn Hpos Hc Ho Hb Hs) as (f' & E & Hf' & Ev);
      [exists (inl f')|exists (inr f')]; cbn; by rewrite E, Ev.
Qed.
End dyn.
