(* ===== verification/Handles.v ===== *)
(** Working on an open tree (src/src/drivers/fs/vfs.rs): walking the names of a
    path in one file system, handles opened and dropped, and nodes that are
    already cached.  Lemmas for the clients of Vfs.v. *)

From S2P Require Import Prelude Vfs.

(** * Walking names *)

(** An entry of a directory, from name to name; no name is "." or "..". *)
Definition plain_name (nm : str) : Prop := nm ≠ [] ∧ nm ≠ chars ".." ∧ nm ≠ chars ".".
#[export] Instance plain_name_dec nm : Decision (plain_name nm).
Proof. unfold plain_name. apply _. Defined.

Fixpoint walk {I} (v : FsView I) (i : I) (names : list str) : option I :=
  match names with
  | [] => Some i
  | nm :: rest => if decide (v_typ v i = Directory) then j ← v_entry v i nm; walk v j rest else None
  end.

Lemma walk_prefix {I} (v : FsView I) i j (names rest : list str) : walk v i (names ++ rest) = Some j →
  ∃ i', walk v i names = Some i'.
Proof.
  revert i. induction names as [|nm names IH]; intros i Hw; [by exists i|]. cbn [walk app] in *.
  case_decide; [|done]. destruct (v_entry v i nm); [|done]. cbn in *. by apply IH.
Qed.

Section walk.
Context {I : Type} (views : Z → FsView I) (root_addr : Z).
Implicit Types (mnt : gmap path Z).
Notation node_of := (node_of views root_addr).
Notation resolve := (resolve views root_addr).

(** Nothing is mounted on the way from [q] along [names]. *)
Definition unmounted mnt (q : path) (names : list str) : Prop :=
  ∀ pre post, names = pre ++ post → pre ≠ [] → post ≠ [] → mnt !! (rev pre ++ q) = None.

Lemma unmounted_cons mnt q nm (rest : list str) : unmounted mnt q (nm :: rest) → rest ≠ [] →
  mnt !! (nm :: q) = None ∧ unmounted mnt (nm :: q) rest.
Proof using.
  intros Hu Hr. split; [by apply (Hu [nm] rest)|]. intros pre post -> Hpre Hpost.
  specialize (Hu (nm :: pre) post eq_refl). cbn [rev] in Hu. rewrite <- app_assoc in Hu. by apply Hu.
Qed.

Lemma node_of_walk mnt q n a i j (names : list str) : node_of mnt q = Ok n → enter views mnt q n = (a, i) →
  walk (views a) i names = Some j → unmounted mnt q names → names ≠ [] →
  Forall plain_name names →
  node_of mnt (rev names ++ q) = Ok (a, j) ∧ resolve mnt q names = Ok (rev names ++ q).
Proof using.
  revert q n i. induction names as [|nm rest IH]; intros q n i Hn He Hw Hu Hnil Hp; cbn [walk] in Hw; [done|].
  apply Forall_cons in Hp as [(Hp1 & Hp2 & Hp3) Hp]. case_decide as Ht; [|done].
  destruct (v_entry (views a) i nm) as [j1|] eqn:Ej; [|done]. cbn [mbind option_bind] in Hw.
  assert (node_of mnt (nm :: q) = Ok (a, j1)) as E1.
  { cbn [Vfs.node_of]. rewrite Hn. cbn [mbind outcome_bind]. rewrite He. unfold child_of. cbn. by rewrite Ht, Ej. }
  assert (resolve mnt q (nm :: rest) = resolve mnt (nm :: q) rest) as Er.
  { cbn [Vfs.resolve]. rewrite !bool_decide_false by done. by rewrite E1. }
  cbn [rev]. rewrite Er, <- app_assoc. destruct (decide (rest = [])) as [->|Hne].
  { cbn [rev app walk] in *. injection Hw as ->. by split. }
  destruct (unmounted_cons _ _ _ _ Hu Hne) as [H1 H2].
  apply (IH (nm :: q) (a, j1) j1); try done. unfold enter. by rewrite H1.
Qed.

Lemma resolve_app mnt q q' (l k : list str) : Forall plain_name l → resolve mnt q l = Ok q' →
  resolve mnt q (l ++ k) = resolve mnt q' k.
Proof using.
  intros Hl. revert q. induction Hl as [|nm l (H1 & H2 & H3) _ IH]; intros q E; [by injection E as ->|].
  cbn [Vfs.resolve app] in *. rewrite !bool_decide_false in * by done.
  match type of E with context [Vfs.node_of _ _ _ ?x] => destruct (Vfs.node_of views root_addr mnt x) end; try done.
  by apply IH.
Qed.
End walk.

(** * Handles and cached nodes *)

Section handles.
Context {F I : Type} `{FsOps F I}.
Implicit Types (s : vfs_state F I) (l : list (Z * str)) (mnt : gmap path Z).

Lemma mounts_keeps {A} (m : prog (vfs_state F I) A) s o s' l : keeps m → m s = (o, s') → mounts s l → mounts s' l.
Proof. intros Hk E Hm. destruct (Hk s) as [Hl Hf]. rewrite E in Hl, Hf. cbn in *. unfold mounts. by rewrite Hl, Hf. Qed.

Lemma keeps_tree_open p : keeps (tree_open p).
Proof.
  unfold tree_open, with_inode. apply keeps_bind; [done|]. intros v. apply keeps_bind.
  - case_match; [|done]. apply keeps_bind; [done|]. intros w. destruct (inode_open _) as [o i].
    apply keeps_bind; [apply keeps_node_modify|done].
  - intros _. apply keeps_node_modify.
Qed.
Lemma keeps_tree_close p : keeps (tree_close p).
Proof.
  unfold tree_close, with_inode. apply keeps_bind; [apply keeps_node_modify|]. intros _. apply keeps_bind; [done|].
  intros v. case_match; [|done]. apply keeps_bind; [done|]. intros w. destruct (inode_close _) as [o i].
  apply keeps_bind; [apply keeps_node_modify|done].
Qed.
Lemma keeps_File_read_all p offset : keeps (File_read_all p offset).
Proof.
  unfold File_read_all, File_read, tree_len, VNode_read. apply keeps_bind.
  - by apply keeps_bind.
  - intros n. apply keeps_bind; [done|]. intros v. apply keeps_bind; [done|]. intros k. case_match; [done|].
    apply keeps_with_data.
Qed.

(** An inode whose [open] does nothing leaves the state as it is. *)
Lemma with_inode_idle s t p v (m : prog I unit) : node_tree s = Some t → t !! p = Some v → m (inode v) = (Ok tt, inode v) →
  with_inode p m s = (Ok tt, s).
Proof.
  intros Ht Hv Hm. unfold with_inode. rewrite (bind_Ok _ _ _ _ _ (node_get_spec s t p v Ht Hv)), Hm.
  assert (node_modify p (set_inode (inode v)) s = (Ok tt, s)) as E.
  { unfold node_modify. rewrite Ht. cbn. rewrite Hv. do 2 f_equal. rewrite insert_id by (by destruct v).
    destruct s as [? ? tr]. cbn in *. unfold set_tree. cbn. by rewrite Ht. }
  by rewrite (bind_Ok _ _ _ _ _ E).
Qed.

Lemma node_modify_tree s t p v f : node_tree s = Some t → t !! p = Some v →
  node_modify p f s = (Ok tt, set_tree (Some (<[p := f v]> t)) s).
Proof. intros Ht Hv. unfold node_modify. rewrite Ht. cbn. by rewrite Hv. Qed.

Context (ok : bool → F → Prop) (view : F → FsView I) `{!FsSpec F I ok view} (views : Z → FsView I) (root box : Z).
Notation coherent := (coherent ok view views root box).

(** The reference count does not matter to the tree. *)
Lemma coherent_ref_count mnt s t p v n : coherent mnt s t → t !! p = Some v →
  coherent mnt (set_tree (Some (<[p := set_ref_count n v]> t)) s) (<[p := set_ref_count n v]> t).
Proof.
  intros [Hr Ht [H1 H2] Hm Hb Hp Hn] Hv.
  assert (∀ q, is_Some (<[p := set_ref_count n v]> t !! q) ↔ is_Some (t !! q)) as Hdom.
  { by apply (insert_dom t p v). }
  constructor; try done.
  - by rewrite Hdom.
  - intros q a E. rewrite Hdom. by apply Hm.
  - intros nm q. rewrite !Hdom. apply Hp.
  - intros q w Hw. destruct (decide (q = p)) as [->|].
    + rewrite lookup_insert_eq in Hw. injection Hw as <-. by apply (Hn p v).
    + rewrite lookup_insert_ne in Hw by done. by apply Hn.
Qed.

(** A handle only changes the count when the inode's [open] and [close] do nothing. *)
Lemma tree_open_run s t p v : node_tree s = Some t → t !! p = Some v →
  tree_open p s = (Ok tt, set_tree (Some (<[p := set_ref_count (u32 (ref_count v + 1)) v]> t)) s).
Proof using FsSpec0.
  intros Ht Hv. unfold tree_open. rewrite (bind_Ok _ _ _ _ _ (node_get_spec s t p v Ht Hv)).
  assert ((if ref_count v =? 0 then with_inode p inode_open else mret tt) s = (Ok tt, s)) as E.
  { case_match; [|done]. apply (with_inode_idle s t p v); [done..|apply (spec_open (view:=view) (ok:=ok))]. }
  rewrite (bind_Ok _ _ _ _ _ E). by apply (node_modify_tree s t p v (λ v, set_ref_count (u32 (ref_count v + 1)) v)).
Qed.
Lemma tree_close_run s t p v : node_tree s = Some t → t !! p = Some v →
  tree_close p s = (Ok tt, set_tree (Some (<[p := set_ref_count (u32 (ref_count v - 1)) v]> t)) s).
Proof using FsSpec0.
  intros Ht Hv. unfold tree_close.
  rewrite (bind_Ok _ _ _ _ _ (node_modify_tree s t p v (λ v, set_ref_count (u32 (ref_count v - 1)) v) Ht Hv)).
  set (w := set_ref_count (u32 (ref_count v - 1)) v). set (s' := set_tree _ s). set (t' := <[p := w]> t).
  assert (t' !! p = Some w) as Hw by apply lookup_insert_eq.
  rewrite (bind_Ok _ _ _ _ _ (node_get_spec s' t' p w eq_refl Hw)).
  case_match; [|done]. apply (with_inode_idle s' t' p w); [done..|apply (spec_open (view:=view) (ok:=ok))].
Qed.

Lemma open_coherent mnt s t p : coherent mnt s t → is_Some (t !! p) →
  ∃ s' t', tree_open p s = (Ok tt, s') ∧ coherent mnt s' t' ∧ ∀ q, is_Some (t' !! q) ↔ is_Some (t !! q).
Proof using FsSpec0.
  intros Hco [v Hv]. rewrite (tree_open_run s t p v) by (done || apply (co_tree _ _ _ _ _ _ _ _ Hco)).
  eexists _, _. split; [reflexivity|]. split; [by apply coherent_ref_count|by apply (insert_dom t p v)].
Qed.

Lemma close_coherent mnt s t p : coherent mnt s t → is_Some (t !! p) →
  ∃ s' t', tree_close p s = (Ok tt, s') ∧ coherent mnt s' t' ∧ ∀ q, is_Some (t' !! q) ↔ is_Some (t !! q).
Proof using FsSpec0.
  intros Hco [v Hv]. rewrite (tree_close_run s t p v) by (done || apply (co_tree _ _ _ _ _ _ _ _ Hco)).
  eexists _, _. split; [reflexivity|]. split; [by apply coherent_ref_count|by apply (insert_dom t p v)].
Qed.

(** ** Cached nodes *)

Lemma closed_suffix (t : gmap path (VNode I)) (l q : path) : (∀ nm q, is_Some (t !! (nm :: q)) → is_Some (t !! q)) →
  is_Some (t !! (l ++ q)) → is_Some (t !! q).
Proof. intros Hp. induction l as [|nm l IH]; [done|]. cbn. intros Hs%Hp. by apply IH. Qed.

Lemma tree_lookup_cached s t p (nm : str) : node_tree s = Some t → is_Some (t !! (nm :: p)) → plain_name nm →
  tree_lookup p nm s = (Ok (nm :: p), s).
Proof.
  intros Ht Hs (_ & H1 & H2). unfold tree_lookup. rewrite !bool_decide_false by done.
  rewrite (bind_Ok _ _ s (Some t) s) by (unfold gets; by rewrite Ht). cbn [mbind option_bind]. by rewrite bool_decide_true.
Qed.

Lemma open_cached s t q (names : list str) : node_tree s = Some t → (∀ nm q, is_Some (t !! (nm :: q)) → is_Some (t !! q)) →
  is_Some (t !! (rev names ++ q)) → Forall plain_name names → open_loop q names s = (Ok (rev names ++ q), s).
Proof.
  intros Ht Hp. revert q. induction names as [|nm names IH]; intros q Hs Hn; [done|].
  apply Forall_cons in Hn as [Hnm Hn]. cbn [open_loop rev] in *. rewrite <- app_assoc in *.
  rewrite bool_decide_false by by destruct Hnm.
  rewrite (bind_Ok _ _ _ _ _ (tree_lookup_cached s t q nm Ht (closed_suffix t (rev names) (nm :: q) Hp Hs) Hnm)).
  by apply IH.
Qed.
End handles.
