(* ===== verification/VnodeOps.v ===== *)
(** The rest of the traits [FsOps] and [VNodeOperations] of src/src/drivers/fs/vfs.rs:
    writing, attributes, links, directories made and renamed, and the questions
    about a whole file system.  The VFS passes each call on to the node's inode or
    to the file system of a [Vfs]; both drivers answer with [todo!()].

    An argument that points back at the node or the [Vfs] the method runs on is left
    out, as in Vfs.v; raw pointers to other memory are addresses. *)

From S2P Require Import Prelude Vfs Storage Fat Squashfs DynFs.

(** ** Arguments and answers *)

Record UserCred := mk_cred { uid : Z; gid : Z }.
Record FileId := mk_file_id { fid_len : Z; fid_data : Z }.
Record StatFs := mk_statfs {
  st_typ : Z; st_block_size : Z; st_total_blocks : Z; st_free_blocks : Z; st_available_blocks : Z;
  st_files : Z; st_free_nodes : Z; st_fs_id : Z; st_reserved : list Z;
}.
Record IoVec := mk_iovec { iov_base : Z; iov_len : Z }.
(** [iov] points at an [IoVec]. *)
Record UIO := mk_uio {
  iov : Z; iov_count : Z; uio_offset : Z; seg_flag : Z; file_mode : Z; max_offset : Z; residual_count : Z;
}.
(** [typ] is a whole node, not a [VNodeType]. *)
Record VAttr (I : Type) := mk_vattr {
  va_typ : VNode I;
  va_mode : Z; va_uid : Z; va_gid : Z; va_fs_id : Z; va_node_id : Z; va_link_count : Z; va_size : Z;
  va_block_size : Z; va_last_access : Z; va_last_modify : Z; va_last_chg : Z; va_rdev : unit; va_used_blocks : Z;
}.

(** ** The traits

    [J] is the type of [Box<dyn VNodeOperations>]: what a node that goes in or comes
    out holds. *)

Class FsQueries (J F : Type) := {
  fs_statfs : prog F StatFs;
  fs_sync : prog F unit;
  fs_fid : str → prog F (option FileId);
  fs_vget : FileId → prog F (VNode J);
}.
Class NodeAccess (J I : Type) := {
  inode_write : Z → list Z → Z → UserCred → prog I unit;
  inode_ioctl : Z → Z → Z → UserCred → prog I unit;
  inode_getattr : UserCred → prog I (VAttr J);
  inode_setattr : VAttr J → UserCred → prog I unit;
  inode_access : Z → UserCred → prog I unit;
}.
Class NodeNames (J I : Type) := {
  inode_create : str → VAttr J → Z → Z → UserCred → prog I (VNode J);
  inode_link : Z → str → UserCred → prog I unit;
  inode_rename : str → Z → str → UserCred → prog I unit;
  inode_mkdir : str → VAttr J → UserCred → prog I (VNode J);
  inode_readdir : Z → UserCred → prog I unit;
  inode_symlink : str → VAttr J → str → UserCred → prog I unit;
  inode_readlink : Z → UserCred → prog I unit;
  inode_fsync : UserCred → prog I unit;
}.

Section forwarding.
Context {F I : Type} `{!FsOps F I} `{!FsQueries I F} `{!NodeAccess I I} `{!NodeNames I I}.
Notation M := (prog (vfs_state F I)).

(** ** [impl Vfs] *)

Definition Vfs_unmount (a : Z) : M unit := with_fs a fs_unmount.
Definition Vfs_statfs (a : Z) : M StatFs := with_fs a fs_statfs.
Definition Vfs_sync (a : Z) : M unit := with_fs a fs_sync.
Definition Vfs_fid (a : Z) (p : str) : M (option FileId) := with_fs a (fs_fid p).
Definition Vfs_vget (a : Z) (fid : FileId) : M (VNode I) := with_fs a (fs_vget fid).

(** ** [impl VNode], for the node at a path *)

Definition VNode_write (p : path) (offset : Z) (buf : list Z) (f : Z) (c : UserCred) : M unit :=
  with_inode p (inode_write offset buf f c).
Definition VNode_ioctl (p : path) (com d f : Z) (c : UserCred) : M unit := with_inode p (inode_ioctl com d f c).
Definition VNode_getattr (p : path) (c : UserCred) : M (VAttr I) := with_inode p (inode_getattr c).
Definition VNode_setattr (p : path) (va : VAttr I) (c : UserCred) : M unit := with_inode p (inode_setattr va c).
Definition VNode_access (p : path) (m : Z) (c : UserCred) : M unit := with_inode p (inode_access m c).
Definition VNode_create (p : path) (nm : str) (va : VAttr I) (e m : Z) (c : UserCred) : M (VNode I) :=
  with_inode p (inode_create nm va e m c).
Definition VNode_link (p : path) (target_dir : Z) (target_name : str) (c : UserCred) : M unit :=
  with_inode p (inode_link target_dir target_name c).
Definition VNode_rename (p : path) (nm : str) (target_dir : Z) (target_name : str) (c : UserCred) : M unit :=
  with_inode p (inode_rename nm target_dir target_name c).
Definition VNode_mkdir (p : path) (nm : str) (va : VAttr I) (c : UserCred) : M (VNode I) :=
  with_inode p (inode_mkdir nm va c).
Definition VNode_readdir (p : path) (uiop : Z) (c : UserCred) : M unit := with_inode p (inode_readdir uiop c).
Definition VNode_symlink (p : path) (link_name : str) (va : VAttr I) (target_name : str) (c : UserCred) : M unit :=
  with_inode p (inode_symlink link_name va target_name c).
Definition VNode_readlink (p : path) (uiop : Z) (c : UserCred) : M unit := with_inode p (inode_readlink uiop c).
Definition VNode_fsync (p : path) (c : UserCred) : M unit := with_inode p (inode_fsync c).

(** ** [TreeNode] and [File] *)

Definition NOBODY : UserCred := mk_cred 0 0.
Definition TreeNode_write (p : path) (offset : Z) (buf : list Z) (f : Z) : M unit := VNode_write p offset buf f NOBODY.
Definition File_write (p : path) (offset : Z) (buf : list Z) (f : Z) : M unit := TreeNode_write p offset buf f.
Definition File_len (p : path) : M Z := tree_len p.

Lemma with_inode_panic {A} (s : vfs_state F I) t p v (m : prog I A) : node_tree s = Some t → t !! p = Some v →
  m (inode v) = (Panic, inode v) → with_inode p m s = (Panic, s).
Proof using.
  intros Ht Hv Hm. unfold with_inode. rewrite (bind_Ok _ _ _ _ _ (node_get_spec s t p v Ht Hv)), Hm.
  unfold node_modify, mbind, prog_bind. rewrite Ht. cbn. rewrite Hv. cbn. unfold lift. f_equal.
  rewrite insert_id by by destruct v. destruct s. cbn in *. unfold set_tree. cbn. by rewrite Ht.
Qed.
End forwarding.
(** ** What a read-only driver promises *)

Class Unwritable (J I : Type) `{!NodeAccess J I} `{!NodeNames J I} := {
  ro_write : ∀ offset buf f c i, inode_write offset buf f c i = (Panic, i);
  ro_ioctl : ∀ com d f c i, inode_ioctl com d f c i = (Panic, i);
  ro_getattr : ∀ c i, inode_getattr c i = (Panic, i);
  ro_setattr : ∀ va c i, inode_setattr va c i = (Panic, i);
  ro_access : ∀ m c i, inode_access m c i = (Panic, i);
  ro_create : ∀ nm va e m c i, inode_create nm va e m c i = (Panic, i);
  ro_link : ∀ d nm c i, inode_link d nm c i = (Panic, i);
  ro_rename : ∀ nm d nm' c i, inode_rename nm d nm' c i = (Panic, i);
  ro_mkdir : ∀ nm va c i, inode_mkdir nm va c i = (Panic, i);
  ro_readdir : ∀ u c i, inode_readdir u c i = (Panic, i);
  ro_symlink : ∀ nm va nm' c i, inode_symlink nm va nm' c i = (Panic, i);
  ro_readlink : ∀ u c i, inode_readlink u c i = (Panic, i);
  ro_fsync : ∀ c i, inode_fsync c i = (Panic, i);
}.

(** ** Two kinds of inode behind one box *)

Section sum.
Context {J I1 I2 : Type} `{!NodeAccess J I1} `{!NodeAccess J I2} `{!NodeNames J I1} `{!NodeNames J I2}.

(** The method of whichever driver made the inode. *)
Definition by_kind {A} (m1 : prog I1 A) (m2 : prog I2 A) : prog (I1 + I2) A := λ i,
  match i with
  | inl j => let '(o, j') := m1 j in (o, inl j')
  | inr j => let '(o, j') := m2 j in (o, inr j')
  end.
#[export] Instance sum_data : NodeAccess J (I1 + I2) := {
  inode_write := λ offset buf f c, by_kind (inode_write offset buf f c) (inode_write offset buf f c);
  inode_ioctl := λ com d f c, by_kind (inode_ioctl com d f c) (inode_ioctl com d f c);
  inode_getattr := λ c, by_kind (inode_getattr c) (inode_getattr c);
  inode_setattr := λ va c, by_kind (inode_setattr va c) (inode_setattr va c);
  inode_access := λ m c, by_kind (inode_access m c) (inode_access m c);
}.
#[export] Instance sum_names : NodeNames J (I1 + I2) := {
  inode_create := λ nm va e m c, by_kind (inode_create nm va e m c) (inode_create nm va e m c);
  inode_link := λ d nm c, by_kind (inode_link d nm c) (inode_link d nm c);
  inode_rename := λ nm d nm' c, by_kind (inode_rename nm d nm' c) (inode_rename nm d nm' c);
  inode_mkdir := λ nm va c, by_kind (inode_mkdir nm va c) (inode_mkdir nm va c);
  inode_readdir := λ u c, by_kind (inode_readdir u c) (inode_readdir u c);
  inode_symlink := λ nm va nm' c, by_kind (inode_symlink nm va nm' c) (inode_symlink nm va nm' c);
  inode_readlink := λ u c, by_kind (inode_readlink u c) (inode_readlink u c);
  inode_fsync := λ c, by_kind (inode_fsync c) (inode_fsync c);
}.

Lemma by_kind_panic {A} (m1 : prog I1 A) (m2 : prog I2 A) i :
  (∀ j, m1 j = (Panic, j)) → (∀ j, m2 j = (Panic, j)) → by_kind m1 m2 i = (Panic, i).
Proof using. intros H1 H2. destruct i as [j|j]; cbn; by rewrite ?H1, ?H2. Qed.

#[export] Instance sum_unwritable : Unwritable J I1 → Unwritable J I2 → Unwritable J (I1 + I2).
Proof. intros [] []. constructor; intros; by apply by_kind_panic. Qed.
End sum.

(** ** The drivers *)

Section drivers.
Context {J D : Type}.

Definition squash_queries : FsQueries J Squashfs := {|
  fs_fid := λ _, panic;
  fs_statfs := panic;
  fs_sync := panic;
  fs_vget := λ _, panic;
|}.
Definition squash_data_ops : NodeAccess J Inode := {|
  inode_write := λ _ _ _ _, panic;
  inode_ioctl := λ _ _ _ _, panic;
  inode_getattr := λ _, panic;
  inode_setattr := λ _ _, panic;
  inode_access := λ _ _, panic;
|}.
Definition squash_names : NodeNames J Inode := {|
  inode_create := λ _ _ _ _ _, panic;
  inode_link := λ _ _ _, panic;
  inode_rename := λ _ _ _ _, panic;
  inode_mkdir := λ _ _ _, panic;
  inode_readdir := λ _ _, panic;
  inode_symlink := λ _ _ _ _, panic;
  inode_readlink := λ _ _, panic;
  inode_fsync := λ _, panic;
|}.

Definition fat_queries : FsQueries J (FatFs D) := {|
  fs_fid := λ _, panic;
  fs_statfs := panic;
  fs_sync := panic;
  fs_vget := λ _, panic;
|}.
Definition fat_data_ops : NodeAccess J File := {|
  inode_write := λ _ _ _ _, panic;
  inode_ioctl := λ _ _ _ _, panic;
  inode_getattr := λ _, panic;
  inode_setattr := λ _ _, panic;
  inode_access := λ _ _, panic;
|}.
Definition fat_names : NodeNames J File := {|
  inode_create := λ _ _ _ _ _, panic;
  inode_link := λ _ _ _, panic;
  inode_rename := λ _ _ _ _, panic;
  inode_mkdir := λ _ _ _, panic;
  inode_readdir := λ _ _, panic;
  inode_symlink := λ _ _ _ _, panic;
  inode_readlink := λ _ _, panic;
  inode_fsync := λ _, panic;
|}.

#[export] Instance squash_unwritable : @Unwritable J Inode squash_data_ops squash_names.
Proof. by constructor. Qed.
#[export] Instance fat_unwritable : @Unwritable J File fat_data_ops fat_names.
Proof. by constructor. Qed.
End drivers.
