(* ===== verification/Session.v ===== *)
(** Programs that use the file system: sequences of the calls a client of
    src/src/drivers/fs/vfs.rs can make, on paths, nodes and open files, with file
    systems mounted in between.

    A client is typed: it names a node it was given and a file it opened and has not
    dropped, as the borrow checker makes it.  A typed client gets from the tree,
    with its cache and its reference counts, what the mounted file systems say. *)

From S2P Require Import Prelude Io Vfs Handles VnodeOps.

(** ** Clients *)

(** Nodes are numbered in the order of the lookups, files in the order of the
    calls of [open]. *)
Inductive call (F : Type) :=
  | Mount (point : str) (fs_ops : F)            (* add_vfs(point, fs_ops).unwrap() *)
  | OpenPath (text : str)                       (* vfs_open(text) *)
  | Lookup (node : nat) (name : str)            (* node.unwrap().lookup(name) *)
  | OpenFile (node : nat)                       (* node.unwrap().open(0, cred) *)
  | Read (file : nat) (count offset : Z)        (* file.read(count, offset, 0) *)
  | ReadAll (file : nat) (offset : Z)           (* file.read_all(offset, 0) *)
  | Len (file : nat)                            (* file.len() *)
  | Write (file : nat) (offset : Z) (buf : list Z) (* file.write(offset, buf, 0) *)
  | DropFile (file : nat).                      (* drop(file) *)
Arguments Mount {F}.
Arguments OpenPath {F}.
Arguments Lookup {F}.
Arguments OpenFile {F}.
Arguments Read {F}.
Arguments ReadAll {F}.
Arguments Len {F}.
Arguments Write {F}.
Arguments DropFile {F}.

Inductive answer := Done | Bytes (r : option (list Z)) | Size (n : Z).

(** What the client holds: the result of each lookup, and each file with the node
    it is on until it is dropped. *)
Record client := mk_client { nodes : list (option path); files : list (option path) }.
Definition add_node (r : option path) (c : client) : client := mk_client (nodes c ++ [r]) (files c).
Definition add_file (p : path) (c : client) : client := mk_client (nodes c) (files c ++ [Some p]).
Definition drop_file (h : nat) (c : client) : client := mk_client (nodes c) (<[h := None]> (files c)).

(** [unwrap] on a failed lookup panics; a number never given out, or a file used
    after its drop, is not a Rust program. *)
Definition node_ref (k : nat) : prog client path :=
  r ← gets (λ c, nodes c !! k);
  match r with Some (Some p) => mret p | Some None => panic | None => lift Undef end.
Definition file_ref (h : nat) : prog client path :=
  r ← gets (λ c, files c !! h);
  match r with Some (Some p) => mret p | _ => lift Undef end.

(** One call after the other; a panic ends the program. *)
Fixpoint run {F S} (step : call F → prog S answer) (calls : list (call F)) : prog S (list answer) :=
  match calls with
  | [] => mret []
  | c :: calls => a ← step c; rest ← run step calls; mret (a :: rest)
  end.

(** ** Types *)

(** How many nodes there are, and which files are open. *)
Abbreviation context := (nat * list bool)%type.

Definition type_call {F} (Γ : context) (c : call F) : option context :=
  let '(n, live) := Γ in
  match c with
  | Mount _ _ => Some Γ
  | OpenPath _ => Some (S n, live)
  | Lookup k _ => if decide (k < n)%nat then Some (S n, live) else None
  | OpenFile k => if decide (k < n)%nat then Some (n, live ++ [true]) else None
  | Read h count offset =>
      if decide (live !! h = Some true ∧ fits 64 count ∧ fits 64 offset) then Some Γ else None
  | ReadAll h offset => if decide (live !! h = Some true ∧ fits 64 offset) then Some Γ else None
  | Len h | Write h _ _ => if decide (live !! h = Some true) then Some Γ else None
  | DropFile h => if decide (live !! h = Some true) then Some (n, <[h := false]> live) else None
  end.
Fixpoint type_calls {F} (Γ : context) (calls : list (call F)) : option context :=
  match calls with [] => Some Γ | c :: calls => Γ' ← type_call Γ c; type_calls Γ' calls end.

(** ** The specification's state *)

(** What the client holds, what is mounted where, the address of the next [Vfs], and
    the paths that may have been visited. *)
Record world := mk_world { w_client : client; w_mounts : gmap path Z; w_next : Z; w_seen : list path }.
Definition at_client (f : client → client) (w : world) : world := mk_world (f (w_client w)) (w_mounts w) (w_next w) (w_seen w).
Definition saw (l : list path) (w : world) : world := mk_world (w_client w) (w_mounts w) (w_next w) (l ++ w_seen w).
(** A path and those above it. *)
Fixpoint tails (p : path) : list path := p :: match p with [] => [] | _ :: q => tails q end.
Definition mounted (p : path) (w : world) : world :=
  mk_world (w_client w) (<[p := w_next w]> (w_mounts w)) (w_next w + 1) (tails p ++ w_seen w).
Definition with_client {A} (m : prog client A) : prog world A := λ w,
  let '(o, c) := m (w_client w) in (o, at_client (λ _, c) w).

Lemma suffix_tails p q : q `suffix_of` p → q ∈ tails p.
Proof.
  intros [l ->]. induction l as [|x l IH]; [by destruct q; constructor|]. cbn. by constructor.
Qed.

Lemma filter_absent {A} `{EqDecision A} (x : A) l : x ∉ l → filter (λ y, y = x) l = [].
Proof.
  induction l as [|y l IH]; [done|]. rewrite not_elem_of_cons. intros [Hy Hl]. rewrite filter_cons, decide_False by done. by apply IH.
Qed.

Section session.
Context {F I : Type} `{!FsOps F I} `{!NodeAccess I I} `{!NodeNames I I} `{!Unwritable I I}.

(** ** Calls on the tree *)

Definition call_step (c : call F) : prog (vfs_state F I * client) answer :=
  match c with
  | Mount point fs_ops => on_fst (add_vfs point fs_ops) ;; mret Done
  | OpenPath text => r ← on_fst (attempt (vfs_open text)); on_snd (modify (add_node r)) ;; mret Done
  | Lookup k name =>
      p ← on_snd (node_ref k);
      r ← on_fst (attempt (tree_lookup p name)); on_snd (modify (add_node r)) ;; mret Done
  | OpenFile k => p ← on_snd (node_ref k); on_fst (tree_open p) ;; on_snd (modify (add_file p)) ;; mret Done
  | Read h count offset =>
      p ← on_snd (file_ref h); r ← on_fst (attempt (File_read p count offset)); mret (Bytes r)
  | ReadAll h offset => p ← on_snd (file_ref h); r ← on_fst (attempt (File_read_all p offset)); mret (Bytes r)
  | Len h => p ← on_snd (file_ref h); n ← on_fst (File_len p); mret (Size n)
  | Write h offset buf => p ← on_snd (file_ref h); on_fst (File_write p offset buf 0) ;; mret Done
  | DropFile h => p ← on_snd (file_ref h); on_snd (modify (drop_file h)) ;; on_fst (tree_close p) ;; mret Done
  end.

(** ** Calls on the mounted file systems *)

Context (ok : bool → F → Prop) (view : F → FsView I) `{!FsSpec F I ok view}.
Context (views : Z → FsView I) (root : Z).
Notation node_of := (node_of views root).
Notation resolve := (resolve views root).
Notation lookup_of := (lookup_of views root).
Notation visits := (visits views root).
Notation coherent := (coherent ok view views root).
Implicit Types (s : vfs_state F I) (t : gmap path (VNode I)) (cl : client) (w : world) (Γ : context) (mnt : gmap path Z).

Definition file_range (n : Z * I) (count offset : Z) : list Z :=
  take (Z.to_nat count) (drop (Z.to_nat offset) (v_data (views n.1) n.2)).
Definition read_of mnt (p : path) (count offset : Z) : outcome (list Z) :=
  n ← node_of mnt p; size ← inode_len n.2;
  if (offset <? size) && (offset + count <=? size) then Ok (file_range n count offset) else Err.
Definition read_all_of mnt (p : path) (offset : Z) : outcome (list Z) :=
  n ← node_of mnt p; size ← inode_len n.2;
  if offset <? size then Ok (file_range n (size - offset) offset) else Err.
Definition len_of mnt (p : path) : outcome Z := n ← node_of mnt p; inode_len n.2.

Definition spec_step (c : call F) : prog world answer :=
  mnt ← gets w_mounts;
  match c with
  | Mount point fs_ops => p ← lift (resolve mnt [] (split_on 47 point)); modify (mounted p) ;; mret Done
  | OpenPath text =>
      r ← attempt (lift (resolve mnt [] (split_on 47 text)));
      modify (saw (visits mnt [] (split_on 47 text)) ∘ at_client (add_node r)) ;; mret Done
  | Lookup k name =>
      p ← with_client (node_ref k); r ← attempt (lift (lookup_of mnt p name));
      modify (saw (option_list r) ∘ at_client (add_node r)) ;; mret Done
  | OpenFile k => p ← with_client (node_ref k); modify (at_client (add_file p)) ;; mret Done
  | Read h count offset =>
      p ← with_client (file_ref h); r ← attempt (lift (read_of mnt p count offset)); mret (Bytes r)
  | ReadAll h offset => p ← with_client (file_ref h); r ← attempt (lift (read_all_of mnt p offset)); mret (Bytes r)
  | Len h => p ← with_client (file_ref h); n ← lift (len_of mnt p); mret (Size n)
  | Write h offset buf => p ← with_client (file_ref h); panic
  | DropFile h => p ← with_client (file_ref h); modify (at_client (drop_file h)) ;; mret Done
  end.

(** A mount is on a path that exists, without "..", with nothing visited below it.  The
    contract of a driver covers files that fit the address space, and the reads
    inside them that it serves. *)
Definition covered mnt (p : path) (serves : Z → FsView I → I → Prop) : Prop :=
  ∃ a i n, node_of mnt p = Ok (a, i) ∧ v_typ (views a) i = Regular ∧ inode_len i = Ok n ∧ 0 ≤ n ≤ 2^63 ∧ serves n (views a) i.
Definition mountable w (point : str) (p : path) : Prop :=
  point ≠ chars "/" ∧ chars ".." ∉ split_on 47 point ∧ resolve (w_mounts w) [] (split_on 47 point) = Ok p ∧
  Forall (λ q, q `suffix_of` p ∨ ¬ p `suffix_of` q) (w_seen w).
Definition allowed (c : call F) w : Prop :=
  match c with
  | Mount point fs_ops => ok false fs_ops ∧ views (w_next w) = view fs_ops ∧ ∃ p, mountable w point p
  | Read h count offset => ∀ p, files (w_client w) !! h = Some (Some p) → covered (w_mounts w) p (λ n v i,
      offset < n → offset + count ≤ n → v_serves v i count offset = true)
  | ReadAll h offset => ∀ p, files (w_client w) !! h = Some (Some p) → covered (w_mounts w) p (λ n v i,
      offset < n → v_serves v i (n - offset) offset = true)
  | Len h => ∀ p, files (w_client w) !! h = Some (Some p) → covered (w_mounts w) p (λ _ _ _, True)
  | _ => True
  end.
Fixpoint all_allowed (calls : list (call F)) w : Prop :=
  match calls with
  | [] => True
  | c :: calls => allowed c w ∧ ((spec_step c w).1 ≠ Panic → all_allowed calls (spec_step c w).2)
  end.

(** ** States *)

(** The open files on a node. *)
Definition held cl (p : path) : Z := len (filter (λ f, f = Some p) (files cl)).

(** The tree agrees with the mounts, has the nodes the client holds and counts its
    files. *)
Record tree_ok w s t : Prop := {
  to_coherent : ∃ box, coherent box (w_mounts w) s t;
  to_mounts : (∃ l, mounts s l) ∧ fresh s = w_next w;
  to_known : ∀ p, Some p ∈ nodes (w_client w) ∨ Some p ∈ files (w_client w) → is_Some (t !! p);
  to_counts : ∀ p v, t !! p = Some v → ref_count v = u32 (held (w_client w) p);
  to_seen : ∀ p, is_Some (t !! p) → p ∈ w_seen w;
}.
Record session Γ s w : Prop := {
  se_nodes : length (nodes (w_client w)) = Γ.1;
  se_files : (λ f, bool_decide (is_Some f)) <$> files (w_client w) = Γ.2;
  se_tree : ∃ t, tree_ok w s t;
}.

(** * The cache grows by nodes nobody holds *)

(** Every node stays and keeps its count; a new one has none. *)
Definition grows s s' : Prop := ∀ t, node_tree s = Some t →
  ∃ t', node_tree s' = Some t' ∧ (∀ p, is_Some (t !! p) → is_Some (t' !! p)) ∧
    ∀ p v, t' !! p = Some v → ref_count v = from_option ref_count 0 (t !! p).
Definition growing {A} (m : prog (vfs_state F I) A) : Prop := ∀ s, grows s (m s).2.

Lemma grows_same s s' : node_tree s' = node_tree s → grows s s'.
Proof using. intros E t Ht. exists t. split; [by rewrite E|]. split; [done|]. by intros p v ->. Qed.
Lemma grows_trans s1 s2 s3 : grows s1 s2 → grows s2 s3 → grows s1 s3.
Proof using.
  intros H1 H2 t Ht. destruct (H1 t Ht) as (t2 & Ht2 & I12 & R12). destruct (H2 t2 Ht2) as (t3 & Ht3 & I23 & R23).
  exists t3. split; [done|]. split; [auto|]. intros p v Hv. rewrite (R23 p v Hv).
  destruct (t2 !! p) as [w|] eqn:E2; [by apply R12|]. destruct (t !! p) as [w|] eqn:E; [|done].
  destruct (I12 p) as [? ?]; [by exists w|]. congruence.
Qed.

Lemma growing_bind {A B} (m : prog (vfs_state F I) A) (f : A → prog (vfs_state F I) B) :
  growing m → (∀ a, growing (f a)) → growing (m ≫= f).
Proof using.
  intros Hm Hf s. unfold mbind, prog_bind. pose proof (Hm s) as Hs. destruct (m s) as [[a| | | |] s']; try done.
  apply (grows_trans s s'); [done|apply Hf].
Qed.
Lemma growing_same {A} (m : prog (vfs_state F I) A) : (∀ s, node_tree (m s).2 = node_tree s) → growing m.
Proof using. intros Hm s. apply grows_same, Hm. Qed.
Lemma growing_attempt {A} (m : prog (vfs_state F I) A) : growing m → growing (attempt m).
Proof using. intros Hm s. pose proof (Hm s) as Hs. unfold attempt. by destruct (m s) as [[a| | | |] s']. Qed.

(** A lookup in a driver makes a node without handles. *)
Definition makes_node (m : prog (vfs_state F I) (VNode I)) : Prop := ∀ s,
  node_tree (m s).2 = node_tree s ∧ ∀ v, (m s).1 = Ok v → ref_count v = 0.

Lemma with_fs_tree {A} a (m : prog F A) s : node_tree (with_fs a m s).2 = node_tree s.
Proof using. unfold with_fs. repeat case_match; done. Qed.
Lemma vfs_get_tree a s : node_tree (vfs_get a s).2 = node_tree s.
Proof using. done. Qed.
Lemma vfs_modify_tree a f s : node_tree (vfs_modify a f s).2 = node_tree s.
Proof using. unfold vfs_modify. by destruct (vfss s !! a). Qed.
Lemma with_data_tree {A} a (m : prog F A) s : node_tree (with_data a m s).2 = node_tree s.
Proof using.
  unfold with_data, vfs_get, mbind, prog_bind. destruct (vfss s !! a); cbn; [|done].
  case_match; [apply with_fs_tree|done].
Qed.
Lemma last_vfs_tree fuel a s : node_tree (last_vfs fuel a s).2 = node_tree s.
Proof using.
  revert a. induction fuel as [|fuel IH]; intros a; [done|]. cbn [last_vfs]. unfold vfs_get, mbind, prog_bind.
  destruct (vfss s !! a) as [v|]; cbn; [|done]. destruct (next v); [apply IH|done].
Qed.
Lemma Vfs_root_tree vfs s : node_tree (Vfs_root vfs s).2 = node_tree s.
Proof using.
  unfold Vfs_root, mbind, prog_bind. pose proof (with_fs_tree vfs fs_root s) as E.
  by destruct (with_fs vfs fs_root s) as [[[i ty]| | | |] s'].
Qed.

Lemma makes_bind {A} (m : prog (vfs_state F I) A) f : (∀ s, node_tree (m s).2 = node_tree s) →
  (∀ a, makes_node (f a)) → makes_node (m ≫= f).
Proof using.
  intros Hm Hf s. unfold mbind, prog_bind. pose proof (Hm s) as E. destruct (m s) as [[a| | | |] s']; cbn in *; try done.
  destruct (Hf a s') as [E1 E2]. by rewrite E1.
Qed.
Lemma VNode_lookup_makes v nm : makes_node (VNode_lookup v nm).
Proof using. apply makes_bind; [intros s; apply with_data_tree|]. intros [i ty] s. split; [done|]. by intros w [= <-]. Qed.

Lemma tree_lookup_grows p nm : growing (tree_lookup p nm).
Proof using.
  intros s. unfold tree_lookup. case_bool_decide; [by destruct p; apply grows_same|]. case_bool_decide; [by apply grows_same|].
  rewrite (bind_Ok (gets node_tree) _ s (node_tree s) s eq_refl). case_bool_decide as C; [by apply grows_same|].
  unfold node_get. unfold mbind at 1, prog_bind at 1. destruct (node_tree s ≫= λ t, t !! p) as [node|]; [|by apply grows_same].
  cbn [of_option]. set (m := match vfs_mounted_here node with Some vfs => _ | None => _ end).
  assert (makes_node m) as Hm.
  { unfold m. case_match; [|apply VNode_lookup_makes].
    apply makes_bind; [apply Vfs_root_tree|intros w; apply VNode_lookup_makes]. }
  destruct (Hm s) as [E Hz]. unfold mbind at 1, prog_bind at 1. destruct (m s) as [[v| | | |] s']; try by apply grows_same.
  intros t Ht. unfold node_insert, mbind, prog_bind. cbn in *. rewrite E, Ht. cbn. rewrite Ht in C. cbn in C.
  eexists. split; [reflexivity|]. split; intros q.
  - intros Hq. destruct (decide (q = nm :: p)) as [->|]; [done|]. by rewrite lookup_insert_ne.
  - intros w. destruct (decide (q = nm :: p)) as [->|]; [|rewrite lookup_insert_ne by done; by intros ->].
    rewrite lookup_insert_eq. intros [= <-]. apply eq_None_not_Some in C. rewrite C. by apply Hz.
Qed.

Lemma open_loop_grows parts p : growing (open_loop p parts).
Proof using.
  revert p. induction parts as [|part parts IH]; intros p; [by apply growing_same|]. cbn [open_loop].
  case_bool_decide; [apply IH|]. apply growing_bind; [apply tree_lookup_grows|done].
Qed.
Lemma vfs_open_grows text : growing (vfs_open text).
Proof using.
  unfold vfs_open. apply growing_bind; [by apply growing_same|]. intros r. apply growing_bind; [by apply growing_same|].
  intros t. case_match; [by apply growing_same|apply open_loop_grows].
Qed.

(** So does a mount below the root. *)
Lemma add_vfs_grows point fs_ops : point ≠ chars "/" → growing (add_vfs point fs_ops).
Proof using.
  intros Hp. unfold add_vfs. apply growing_bind; [by apply growing_same|]. intros a.
  assert (∀ m : prog (vfs_state F I) unit, growing m → growing (or_drop a m)) as Hdrop.
  { intros m Hm s. pose proof (Hm s) as Hs. unfold or_drop. destruct (m s) as [[[]| | | |] s']; try done. }
  apply Hdrop. apply growing_bind; [by apply growing_same|]. intros r. rewrite bool_decide_false by done.
  apply growing_bind.
  - case_match; [by apply growing_same|]. apply growing_bind; [apply growing_attempt, vfs_open_grows|].
    intros [first|]; [|by apply growing_same]. apply growing_bind; [apply vfs_open_grows|]. intros file s t Ht.
    unfold node_modify. rewrite Ht. cbn. destruct (t !! file) as [v|] eqn:Hv; [|by apply (grows_same s s)].
    eexists. split; [reflexivity|]. split; intros q; [by intros ?; apply (insert_dom t file v)|].
    intros w. destruct (decide (q = file)) as [->|]; [|rewrite lookup_insert_ne by done; by intros ->].
    rewrite lookup_insert_eq, Hv. by intros [= <-].
  - intros []. apply growing_bind.
    + apply growing_bind; [apply growing_same; intros s; apply with_fs_tree|]. intros []. apply growing_same. intros s. apply vfs_modify_tree.
    + intros []. unfold Vfs_add_vfs. apply growing_bind; [by apply growing_same|]. intros n.
      apply growing_bind; [apply growing_same; intros s; apply last_vfs_tree|]. intros b.
      apply growing_bind; [|intros []]; apply growing_same; intros s; apply vfs_modify_tree.
Qed.

(** It takes one address. *)
Definition steady {A} (m : prog (vfs_state F I) A) : Prop := ∀ s, fresh (m s).2 = fresh s.
Lemma steady_keeps {A} (m : prog (vfs_state F I) A) : keeps m → steady m.
Proof using. intros Hm s. apply Hm. Qed.
Lemma steady_bind {A B} (m : prog (vfs_state F I) A) (f : A → prog (vfs_state F I) B) : steady m → (∀ a, steady (f a)) → steady (m ≫= f).
Proof using. intros Hm Hf s. specialize (Hm s). unfold mbind, prog_bind. destruct (m s) as [[a| | | |] s']; cbn in *; try done. by rewrite Hf. Qed.
Lemma steady_vfs_modify a f : steady (vfs_modify a f).
Proof using. intros s. unfold vfs_modify. by destruct (vfss s !! a). Qed.

Lemma steady_last_vfs fuel a : steady (last_vfs fuel a).
Proof using.
  revert a. induction fuel as [|fuel IH]; intros a; [done|]. cbn [last_vfs]. apply steady_bind; [done|]. intros v. by case_match.
Qed.

Lemma add_vfs_fresh point fs_ops s : fresh (add_vfs point fs_ops s).2 = fresh s + 1.
Proof using.
  unfold add_vfs. rewrite (bind_Ok (vfs_box _) _ s (fresh s) _ eq_refl). set (s1 := mk_state _ _ _). change (fresh s + 1) with (fresh s1).
  assert (∀ m : prog (vfs_state F I) unit, steady m → fresh (or_drop (fresh s) m s1).2 = fresh s1) as Hdrop.
  { intros m Hm. specialize (Hm s1). unfold or_drop. by destruct (m s1) as [[[]| | | |] s']. }
  apply Hdrop. apply steady_bind; [done|]. intros r. apply steady_bind.
  - case_match; (case_match; [done|]).
    + apply steady_bind; [apply steady_keeps, keeps_Vfs_root|done].
    + apply steady_bind; [apply steady_keeps, keeps_attempt, keeps_vfs_open|]. intros [|]; [|done].
      apply steady_bind; [apply steady_keeps, keeps_vfs_open|]. intros q. apply steady_keeps, keeps_node_modify.
  - intros []. apply steady_bind; [apply steady_keeps, keeps_Vfs_mount|]. intros []. apply steady_bind; [done|]. intros n.
    apply steady_bind; [apply steady_last_vfs|]. intros b. apply steady_bind; [|intros []]; apply steady_vfs_modify.
Qed.

(** * One call *)

(** Neither undefined nor out of fuel. *)
Definition settles {A} (o : outcome A) : Prop := match o with Undef | NoFuel => False | _ => True end.

Lemma node_of_settles box mnt s t p : coherent box mnt s t → settles (node_of mnt p).
Proof using FsSpec0.
  intros Hco. induction p as [|nm q IH]; [done|]. cbn [Vfs.node_of].
  destruct (Vfs.node_of views root mnt q) as [n| | | |] eqn:En; try done. cbn [mbind outcome_bind].
  assert (v_typ (views (enter views mnt q n).1) (enter views mnt q n).2 = Directory ∨
    v_typ (views (enter views mnt q n).1) (enter views mnt q n).2 = Regular) as Ht.
  { unfold enter. destruct (mnt !! q) as [b|] eqn:Em.
    - left. destruct (co_mounts _ _ _ _ _ _ _ _ Hco q b Em) as [(w & f & _ & _ & _ & Hf & Ev) _]. cbn. rewrite <- Ev.
      by apply (spec_root_typ true).
    - by apply (node_of_typ ok view views root box mnt s t q n). }
  unfold child_of. destruct Ht as [-> | ->]; [|done]. by destruct (v_entry _ _ _).
Qed.
Lemma lookup_of_settles box mnt s t p nm : coherent box mnt s t → settles (lookup_of mnt p nm).
Proof using FsSpec0.
  intros Hco. unfold Vfs.lookup_of. case_bool_decide; [by destruct p|]. case_bool_decide; [done|].
  pose proof (node_of_settles box mnt s t (nm :: p) Hco) as Hs. by destruct (Vfs.node_of views root mnt (nm :: p)).
Qed.
Lemma resolve_settles box mnt s t p (parts : list str) : coherent box mnt s t → settles (resolve mnt p parts).
Proof using FsSpec0.
  intros Hco. revert p. induction parts as [|part parts IH]; intros p; [done|].
  destruct (decide (part = [])) as [->|Hne]; [apply IH|]. rewrite resolve_cons, resolve_one by done.
  pose proof (lookup_of_settles box mnt s t p part Hco) as Hs.
  destruct (Vfs.lookup_of views root mnt p part) as [q| | | |]; try done. apply IH.
Qed.

(** The call on the tree does what the one on the file systems does. *)
Definition agrees Γ' (m : prog (vfs_state F I * client) answer) (spec : prog world answer) s w : Prop :=
  ∃ s', m (s, w_client w) = ((spec w).1, (s', w_client (spec w).2)) ∧
    match (spec w).1 with Ok _ => session Γ' s' (spec w).2 | Panic => True | _ => False end.

(** The counts survive a growth of the tree. *)
Lemma grown_counts cl s s' t t' : grows s s' → node_tree s = Some t → node_tree s' = Some t' →
  (∀ p, Some p ∈ files cl → is_Some (t !! p)) → (∀ p v, t !! p = Some v → ref_count v = u32 (held cl p)) →
  (∀ p, is_Some (t !! p) → is_Some (t' !! p)) ∧ ∀ p v, t' !! p = Some v → ref_count v = u32 (held cl p).
Proof using.
  intros Hg Ht Ht' Hk Hc. destruct (Hg t Ht) as (t2 & Ht2 & Hin & Hr). rewrite Ht' in Ht2. injection Ht2 as <-.
  split; [done|]. intros p v Hv. rewrite (Hr p v Hv). destruct (t !! p) as [w|] eqn:E; [by apply Hc|]. cbn.
  unfold held. rewrite filter_absent; [done|]. intros Hp%Hk. rewrite E in Hp. by destruct Hp.
Qed.

(** A call that adds a node. *)
Lemma node_call Γ s w (m : prog (vfs_state F I) path) o (seen : option path → list path) : session Γ s w →
  (∀ box t, coherent box (w_mounts w) s t → settles o ∧ ((∀ p, Some p ∈ nodes (w_client w) → is_Some (t !! p)) →
    ∃ s' t', m s = (o, s') ∧ coherent box (w_mounts w) s' t' ∧ (∀ q, o = Ok q → is_Some (t' !! q)) ∧
      ∀ r, is_Some (t' !! r) → is_Some (t !! r) ∨ r ∈ seen (match o with Ok q => Some q | _ => None end))) →
  growing m → keeps m →
  agrees (S Γ.1, Γ.2) (r ← on_fst (attempt m); on_snd (modify (add_node r)) ;; mret Done)
    (r ← attempt (lift o); modify (saw (seen r) ∘ at_client (add_node r)) ;; mret Done) s w.
Proof using.
  intros [H1 H2 (t & [(box & Hco) ((l & Hl) & Hf) Hk Hc Hs])] Hm Hg Hkeep. destruct (Hm box t Hco) as [Ho Hm']. clear Hm.
  destruct Hm' as (s' & t' & E & Hco' & Hin & Hnew); [by intros p Hp; apply Hk; left|].
  specialize (Hg s). rewrite E in Hg. cbn in Hg.
  destruct (grown_counts (w_client w) s s' t t' Hg (co_tree _ _ _ _ _ _ _ _ Hco) (co_tree _ _ _ _ _ _ _ _ Hco')) as [Hmono Hcount];
    [by intros p Hp; apply Hk; right|done|].
  assert (∀ r, r = match o with Ok q => Some q | _ => None end →
    session (S Γ.1, Γ.2) s' (saw (seen r) (at_client (add_node r) w))) as Hse.
  { intros r Hr. constructor; [cbn; rewrite length_app, H1; cbn; lia|done|]. exists t'. constructor; [by exists box| |..|done|].
    - split; [exists l; by apply (mounts_keeps m s o)|]. destruct (Hkeep s) as [_ Hfr]. rewrite E in Hfr. cbn in *. congruence.
    - intros p Hp. cbn in Hp. rewrite elem_of_app, list_elem_of_singleton in Hp.
      destruct Hp as [[Hp|Hp]|Hp]; [by apply Hmono, Hk; left| |by apply Hmono, Hk; right].
      subst r. destruct o as [q| | | |]; try done. injection Hp as ->. by apply Hin.
    - intros p Hp. cbn. rewrite elem_of_app. subst r. destruct (Hnew p Hp); [right; by apply Hs|by left]. }
  unfold agrees, on_fst, on_snd, attempt, mbind, prog_bind. cbn. rewrite E.
  destruct o as [q| | | |]; cbn in *; try done; (eexists; split; [reflexivity|]); try done; by apply Hse.
Qed.
(** ** Handles *)

Lemma held_add cl p q : held (add_file p cl) q = held cl q + (if decide (q = p) then 1 else 0).
Proof using.
  unfold held. cbn. rewrite filter_app, len_app, filter_cons. f_equal.
  destruct (decide (q = p)) as [->|Hne]; [by rewrite decide_True|]. rewrite decide_False; [done|]. by intros [= ->].
Qed.
Lemma held_drop cl h p q : files cl !! h = Some (Some p) →
  held (drop_file h cl) q = held cl q + (if decide (q = p) then -1 else 0).
Proof using.
  intros Hh. unfold held. cbn. rewrite insert_take_drop by by eapply lookup_lt_Some.
  rewrite <- (take_drop_middle (files cl) h (Some p) Hh) at 3. rewrite !filter_app, !len_app, !filter_cons.
  rewrite (decide_False (P:=None = Some q)) by done. destruct (decide (q = p)) as [->|Hne].
  - rewrite (decide_True (P:=Some p = Some p)) by done. rewrite len_cons. lia.
  - rewrite (decide_False (P:=Some p = Some q)) by congruence. lia.
Qed.

(** One handle more or less on the node at [p]. *)
Lemma recount s w t cl p v d : tree_ok w s t → t !! p = Some v →
  (∀ q, held cl q = held (w_client w) q + (if decide (q = p) then d else 0)) →
  (∀ q, Some q ∈ nodes cl ∨ Some q ∈ files cl → q = p ∨ Some q ∈ nodes (w_client w) ∨ Some q ∈ files (w_client w)) →
  let t' := <[p := set_ref_count (u32 (ref_count v + d)) v]> t in
  tree_ok (at_client (λ _, cl) w) (set_tree (Some t') s) t'.
Proof using.
  intros [(box & Hco) Hm Hk Hc Hs] Hv Hh Hin t'. pose proof (insert_dom t p v (set_ref_count (u32 (ref_count v + d)) v) Hv) as Hdom.
  constructor; [exists box; by apply coherent_ref_count|done|..].
  - intros q Hq. apply Hdom. destruct (Hin q Hq) as [->|Hq']; [by exists v|by apply Hk].
  - intros q u. cbn. rewrite Hh. unfold t'. destruct (decide (q = p)) as [->|].
    + rewrite lookup_insert_eq. intros [= <-]. cbn. rewrite (Hc p v Hv). unfold u32. by rewrite Zplus_mod_idemp_l.
    + rewrite lookup_insert_ne by done. rewrite Z.add_0_r. apply Hc.
  - intros q Hq%Hdom. by apply Hs.
Qed.

Lemma open_file_call Γ s w p : session Γ s w → Some p ∈ nodes (w_client w) →
  ∃ s', tree_open p s = (Ok tt, s') ∧ session (Γ.1, Γ.2 ++ [true]) s' (at_client (add_file p) w).
Proof using FsSpec0.
  intros [H1 H2 (t & Ht)] Hp. destruct (to_known _ _ _ Ht p (or_introl Hp)) as [v Hv]. pose proof (to_coherent _ _ _ Ht) as (box & Hco).
  eexists. split; [apply (tree_open_run ok view s t p v); [apply (co_tree _ _ _ _ _ _ _ _ Hco)|done]|].
  constructor; [done|by cbn; rewrite fmap_app, H2|]. eexists. apply (recount s w t (add_file p (w_client w)) p v 1); [done..|apply held_add|].
  intros q Hq. cbn in Hq. rewrite elem_of_app, list_elem_of_singleton in Hq. destruct Hq as [?|[?|[= ->]]]; auto.
Qed.

Lemma drop_file_call Γ s w h p : session Γ s w → files (w_client w) !! h = Some (Some p) →
  ∃ s', tree_close p s = (Ok tt, s') ∧ session (Γ.1, <[h := false]> Γ.2) s' (at_client (drop_file h) w).
Proof using FsSpec0.
  intros [H1 H2 (t & Ht)] Hh. pose proof (list_elem_of_lookup_2 _ _ _ Hh) as Hp.
  destruct (to_known _ _ _ Ht p (or_intror Hp)) as [v Hv]. pose proof (to_coherent _ _ _ Ht) as (box & Hco).
  eexists. split; [apply (tree_close_run ok view s t p v); [apply (co_tree _ _ _ _ _ _ _ _ Hco)|done]|].
  constructor; [done|by cbn; rewrite list_fmap_insert, H2|]. eexists.
  apply (recount s w t (drop_file h (w_client w)) p v (-1)); [done|done|intros q; by apply held_drop|].
  intros q Hq. right. destruct Hq as [?|Hq]; [by left|right]. cbn in Hq.
  apply list_elem_of_lookup in Hq as [i Hi]. apply list_lookup_insert_Some in Hi as [(_ & [=] & _)|[_ Hi]].
  by eapply list_elem_of_lookup_2.
Qed.

(** ** Mounts *)

Lemma mount_call Γ s w point fs_ops : session Γ s w → allowed (Mount point fs_ops) w →
  agrees Γ (call_step (Mount point fs_ops)) (spec_step (Mount point fs_ops)) s w.
Proof using FsSpec0.
  intros [H1 H2 (t & [(box & Hco) ((l & Hl) & Hf) Hk Hc Hs])] (Hok & Hview & p & Hmp & Hdots & Hres & Hseen).
  rewrite <- Hf in Hview. rewrite Forall_forall in Hseen.
  assert (leaf t p) as Hleaf.
  { intros name q. apply eq_None_not_Some. intros Hq%Hs%Hseen. destruct Hq as [Hq|Hq].
    - apply suffix_length in Hq. rewrite length_app in Hq. cbn in Hq. lia.
    - apply Hq. exists (q ++ [name]). by rewrite <- app_assoc. }
  destruct (mount_below_tree ok view views root box (w_mounts w) s t l point fs_ops p Hco Hl Hok Hview Hmp Hdots Hres Hleaf)
    as (s' & t' & E & Hm' & Hco' & Hmono & Hnew).
  pose proof (add_vfs_grows point fs_ops Hmp s) as Hg. pose proof (add_vfs_fresh point fs_ops s) as Hfr. rewrite E in Hg, Hfr. cbn in Hg, Hfr.
  destruct (grown_counts (w_client w) s s' t t' Hg (co_tree _ _ _ _ _ _ _ _ Hco) (co_tree _ _ _ _ _ _ _ _ Hco')) as [_ Hcount];
    [by intros q Hq; apply Hk; right|done|].
  exists s'. cbn [call_step]. rewrite (step_fst _ _ _ _ _ _ E).
  assert (spec_step (Mount point fs_ops) w = (Ok Done, mounted p w)) as ->.
  { unfold spec_step. rewrite (bind_Ok (gets w_mounts) _ w (w_mounts w) w eq_refl), Hres. done. }
  split; [done|]. cbn. constructor; [done|done|]. exists t'. constructor; [| |..|done|].
  - exists (fresh s). cbn. by rewrite <- Hf.
  - split; [by eexists|]. cbn. by rewrite Hfr, Hf.
  - intros q Hq. by apply Hmono, Hk.
  - intros q Hq. cbn. rewrite elem_of_app. destruct (Hnew q Hq); [right; by apply Hs|left; by apply suffix_tails].
Qed.

(** ** Reads *)

Lemma keeps_tree_len p : keeps (tree_len p).
Proof using. unfold tree_len. by apply keeps_bind. Qed.
Lemma keeps_File_read p count offset : keeps (File_read p count offset).
Proof using.
  unfold File_read, VNode_read. apply keeps_bind; [done|]. intros v. apply keeps_bind; [done|]. intros k.
  case_match; [done|]. apply keeps_with_data.
Qed.

(** A call that leaves the tree alone. *)
Lemma session_same {A} Γ s s' w (m : prog (vfs_state F I) A) o t : session Γ s w → tree_ok w s t → keeps m → m s = (o, s') →
  (∃ box, coherent box (w_mounts w) s' t) → session Γ s' w.
Proof using.
  intros [H1 H2 _] [_ [(l & Hl) Hf] Hk Hc Hs] Hm E Hco. constructor; [done|done|]. exists t. constructor; [done| |done..].
  split; [exists l; by apply (mounts_keeps m s o)|]. destruct (Hm s) as [_ Hfr]. rewrite E in Hfr. cbn in Hfr. congruence.
Qed.

Lemma file_read_call box mnt s t p count offset : coherent box mnt s t → is_Some (t !! p) → fits 64 count → fits 64 offset →
  covered mnt p (λ n v i, offset < n → offset + count ≤ n → v_serves v i count offset = true) →
  settles (read_of mnt p count offset) ∧
  ∃ s', File_read p count offset s = (read_of mnt p count offset, s') ∧ coherent box mnt s' t.
Proof using FsSpec0.
  intros Hco [v Hv] Hc Ho (a & i & n & Hn & Ht & Hl & Hb & Hs). unfold read_of, File_read. rewrite Hn. cbn [mbind outcome_bind snd].
  rewrite Hl. cbn [mbind outcome_bind]. split; [by case_match|].
  destruct (co_nodes _ _ _ _ _ _ _ _ Hco p v Hv) as (_ & Ev & _). rewrite Hn in Ev. injection Ev as Ea Ei. unfold fits in *.
  rewrite (bind_Ok _ _ _ _ _ (node_get_spec s t p v (co_tree _ _ _ _ _ _ _ _ Hco) Hv)), (VNode_read_Ok s v n) by (done || by rewrite <- Ei).
  destruct ((offset <? n) && (offset + count <=? n)) eqn:C; [|by exists s].
  apply andb_true_iff in C as [C1%Z.ltb_lt C2%Z.leb_le]. rewrite <- Ea, <- Ei.
  apply (read_range_Ok ok view views root box mnt s t p a i n); [done..|lia|lia|lia|by apply Hs].
Qed.

Lemma file_read_all_call box mnt s t p offset : coherent box mnt s t → is_Some (t !! p) → fits 64 offset →
  covered mnt p (λ n v i, offset < n → v_serves v i (n - offset) offset = true) →
  settles (read_all_of mnt p offset) ∧
  ∃ s', File_read_all p offset s = (read_all_of mnt p offset, s') ∧ coherent box mnt s' t.
Proof using FsSpec0.
  intros Hco Hp Ho (a & i & n & Hn & Ht & Hl & Hb & Hs). unfold read_all_of. rewrite Hn. cbn [mbind outcome_bind snd].
  rewrite Hl. cbn [mbind outcome_bind]. split; [by case_match|]. destruct (offset <? n) eqn:C.
  - apply Z.ltb_lt in C. unfold fits in *. apply (read_tail_Ok ok view views root box mnt s t p a i n); [done..|lia|lia|by apply Hs].
  - destruct Hp as [v Hv]. destruct (co_nodes _ _ _ _ _ _ _ _ Hco p v Hv) as (_ & Ev & _). rewrite Hn in Ev. injection Ev as Ea Ei.
    exists s. split; [|done]. rewrite (File_read_all_Ok s p t v n offset) by
      (done || (by rewrite <- Ei) || apply (co_tree _ _ _ _ _ _ _ _ Hco)). by rewrite C.
Qed.

Lemma len_of_call box mnt s t p : coherent box mnt s t → is_Some (t !! p) → covered mnt p (λ _ _ _, True) →
  ∃ n, len_of mnt p = Ok n ∧ File_len p s = (Ok n, s).
Proof using.
  intros Hco [v Hv] (a & i & n & Hn & _ & Hl & _). exists n. unfold len_of. rewrite Hn. split; [done|].
  destruct (co_nodes _ _ _ _ _ _ _ _ Hco p v Hv) as (_ & Ev & _). rewrite Hn in Ev. injection Ev as _ Ei.
  unfold File_len, tree_len. rewrite (bind_Ok _ _ _ _ _ (node_get_spec s t p v (co_tree _ _ _ _ _ _ _ _ Hco) Hv)).
  by rewrite <- Ei, Hl.
Qed.

(** ** Operands *)

Lemma with_client_same {A} (m : prog client A) o w : m (w_client w) = (o, w_client w) → with_client m w = (o, w).
Proof using. intros E. unfold with_client. rewrite E. by destruct w. Qed.

Lemma node_ref_typed Γ s w k : session Γ s w → (k < Γ.1)%nat →
  node_ref k (w_client w) = (Panic, w_client w) ∨ ∃ p, Some p ∈ nodes (w_client w) ∧ node_ref k (w_client w) = (Ok p, w_client w).
Proof using.
  intros [H1 _ _] Hk. destruct (lookup_lt_is_Some_2 (nodes (w_client w)) k) as [[p|] Hr]; [lia| |].
  - right. exists p. split; [by eapply list_elem_of_lookup_2|]. unfold node_ref, mbind, prog_bind. cbn. by rewrite Hr.
  - left. unfold node_ref, mbind, prog_bind. cbn. by rewrite Hr.
Qed.
Lemma file_ref_typed Γ s w h : session Γ s w → Γ.2 !! h = Some true → ∃ p, files (w_client w) !! h = Some (Some p) ∧
  file_ref h (w_client w) = (Ok p, w_client w) ∧ with_client (file_ref h) w = (Ok p, w) ∧ ∃ t, tree_ok w s t ∧ is_Some (t !! p).
Proof using.
  intros [_ H2 (t & Ht)] Hh. rewrite <- H2, list_lookup_fmap in Hh. destruct (files (w_client w) !! h) as [[p|]|] eqn:E; try done.
  assert (file_ref h (w_client w) = (Ok p, w_client w)) as Ef by (unfold file_ref, mbind, prog_bind; cbn; by rewrite E).
  exists p. split; [done|]. split; [done|]. split; [by apply with_client_same|]. exists t. split; [done|].
  apply (to_known _ _ _ Ht). right. by eapply list_elem_of_lookup_2.
Qed.

(** A call on an open file that leaves the tree alone. *)
Lemma file_call {A} Γ s w h (m : path → prog (vfs_state F I) A) (o : path → outcome A) (k : option A → answer) :
  session Γ s w → Γ.2 !! h = Some true → (∀ p, keeps (m p)) →
  (∀ p box t, files (w_client w) !! h = Some (Some p) → coherent box (w_mounts w) s t → is_Some (t !! p) →
    settles (o p) ∧ ∃ s', m p s = (o p, s') ∧ coherent box (w_mounts w) s' t) →
  agrees Γ (p ← on_snd (file_ref h); r ← on_fst (attempt (m p)); mret (k r))
    (p ← with_client (file_ref h); r ← attempt (lift (o p)); mret (k r)) s w.
Proof using.
  intros Hse Hh Hkeep Hm. destruct (file_ref_typed Γ s w h Hse Hh) as (p & Hp & E & Ew & t & Ht & Hin).
  destruct (to_coherent _ _ _ Ht) as (box & Hco). destruct (Hm p box t Hp Hco Hin) as (Ho & s' & Em & Hco').
  unfold agrees. rewrite (step_snd _ _ _ _ _ _ E), (bind_Ok _ _ _ _ _ Ew).
  assert (session Γ s' w) as Hs by (apply (session_same Γ s s' w (m p) (o p) t); [done..|by exists box]).
  unfold on_fst, attempt, mbind, prog_bind. cbn. rewrite Em.
  destruct (o p); cbn in *; try done; (eexists; split; [reflexivity|]); done.
Qed.

Lemma node_operand Γ Γ' s w k (m : path → prog (vfs_state F I * client) answer) (spec : path → prog world answer) :
  session Γ s w → (k < Γ.1)%nat → (∀ p, Some p ∈ nodes (w_client w) → agrees Γ' (m p) (spec p) s w) →
  agrees Γ' (p ← on_snd (node_ref k); m p) (p ← with_client (node_ref k); spec p) s w.
Proof using.
  intros Hse Hk Hm. destruct (node_ref_typed Γ s w k Hse Hk) as [E|(p & Hp & E)]; pose proof (with_client_same _ _ _ E) as Ew.
  - exists s. unfold mbind, prog_bind. by rewrite (on_snd_eq _ _ _ _ _ E), Ew.
  - unfold agrees. rewrite (step_snd _ _ _ _ _ _ E), (bind_Ok _ _ _ _ _ Ew). by apply Hm.
Qed.

(** ** All calls *)

Lemma spec_mounts {A} (spec : gmap path Z → prog world A) w : (mnt ← gets w_mounts; spec mnt) w = spec (w_mounts w) w.
Proof using. done. Qed.

Lemma len_call Γ s w h : session Γ s w → Γ.2 !! h = Some true → allowed (Len h) w →
  agrees Γ (call_step (Len h)) (spec_step (Len h)) s w.
Proof using.
  intros Hse Hh Ha. destruct (file_ref_typed Γ s w h Hse Hh) as (p & Hp & E & Ew & t & Ht & Hin).
  destruct (to_coherent _ _ _ Ht) as (box & Hco). destruct (len_of_call box _ s t p Hco Hin (Ha p Hp)) as (n & En & El).
  exists s. cbn [call_step]. unfold spec_step. rewrite spec_mounts, (step_snd _ _ _ _ _ _ E), (bind_Ok _ _ _ _ _ Ew), En.
  by rewrite (step_fst _ _ _ _ _ _ El).
Qed.

Lemma write_call Γ s w h offset buf : session Γ s w → Γ.2 !! h = Some true →
  agrees Γ (call_step (Write h offset buf)) (spec_step (Write h offset buf)) s w.
Proof using Unwritable0.
  intros Hse Hh. destruct (file_ref_typed Γ s w h Hse Hh) as (p & Hp & E & Ew & t & Ht & v & Hv).
  destruct (to_coherent _ _ _ Ht) as (box & Hco).
  exists s. cbn [call_step]. unfold spec_step. rewrite spec_mounts, (step_snd _ _ _ _ _ _ E), (bind_Ok _ _ _ _ _ Ew).
  assert (File_write p offset buf 0 s = (Panic, s)) as Ep.
  { apply (with_inode_panic s t p v); [apply (co_tree _ _ _ _ _ _ _ _ Hco)|done|apply ro_write]. }
  split; [|done]. unfold mbind, prog_bind. by rewrite (on_fst_eq _ _ _ _ _ Ep).
Qed.

Lemma open_call Γ s w k : session Γ s w → (k < Γ.1)%nat →
  agrees (Γ.1, Γ.2 ++ [true]) (call_step (OpenFile k)) (spec_step (OpenFile k)) s w.
Proof using FsSpec0.
  intros Hse Hk. unfold agrees, spec_step. rewrite spec_mounts. apply (node_operand Γ); [done|done|]. intros p Hp.
  destruct (open_file_call Γ s w p Hse Hp) as (s' & E & Hs). exists s'. by rewrite (step_fst _ _ _ _ _ _ E).
Qed.

Lemma drop_call Γ s w h : session Γ s w → Γ.2 !! h = Some true →
  agrees (Γ.1, <[h := false]> Γ.2) (call_step (DropFile h)) (spec_step (DropFile h)) s w.
Proof using FsSpec0.
  intros Hse Hh. destruct (file_ref_typed Γ s w h Hse Hh) as (p & Hp & E & Ew & _).
  destruct (drop_file_call Γ s w h p Hse Hp) as (s' & Ec & Hs). exists s'. cbn [call_step]. unfold spec_step.
  rewrite spec_mounts, (step_snd _ _ _ _ _ _ E), (bind_Ok _ _ _ _ _ Ew), (step_snd (modify (drop_file h)) _ s (w_client w) _ _ eq_refl).
  by rewrite (step_fst _ _ _ _ _ _ Ec).
Qed.

Lemma path_call Γ s w text : session Γ s w → agrees (S Γ.1, Γ.2) (call_step (OpenPath text)) (spec_step (OpenPath text)) s w.
Proof using FsSpec0.
  intros Hse. unfold agrees, spec_step. rewrite spec_mounts.
  apply (node_call Γ s w _ _ (λ _, visits (w_mounts w) [] (split_on 47 text))); [done| |apply vfs_open_grows|apply keeps_vfs_open].
  intros box t Hco. split; [by apply (resolve_settles box _ s t)|]. intros _.
  destruct (vfs_open_visits ok view views root box (w_mounts w) s t text Hco) as (s' & t' & E & Hco' & _ & Hin & Hnew). by exists s', t'.
Qed.

Lemma lookup_call Γ s w k name : session Γ s w → (k < Γ.1)%nat →
  agrees (S Γ.1, Γ.2) (call_step (Lookup k name)) (spec_step (Lookup k name)) s w.
Proof using FsSpec0.
  intros Hse Hk. unfold agrees, spec_step. rewrite spec_mounts. apply (node_operand Γ); [done|done|]. intros p Hp.
  apply (node_call Γ s w _ _ option_list); [done| |apply tree_lookup_grows|apply keeps_tree_lookup].
  intros box t Hco. split; [by apply (lookup_of_settles box _ s t)|]. intros Hknown.
  destruct (tree_lookup_Ok ok view views root box (w_mounts w) s t p name Hco (Hknown p Hp)) as (s' & t' & E & Hco' & _ & Hin & Hnew).
  exists s', t'. do 3 (split; [done|]). intros r Hr. destruct (Hnew r Hr) as [?|El]; [by left|right]. rewrite El. by constructor.
Qed.

Lemma call_agrees Γ Γ' s w c : session Γ s w → type_call Γ c = Some Γ' → allowed c w →
  agrees Γ' (call_step c) (spec_step c) s w.
Proof using FsSpec0 Unwritable0.
  intros Hse Ht Ha. destruct Γ as [n live]. destruct c as [point fs_ops|text|k name|k|h count offset|h offset|h|h offset buf|h];
    cbn [type_call] in Ht; try case_decide as Hd; try done; injection Ht as <-.
  - by apply mount_call.
  - by apply (path_call (n, live)).
  - by apply (lookup_call (n, live)).
  - by apply (open_call (n, live)).
  - destruct Hd as (Hh & Hc & Ho). unfold agrees, spec_step. rewrite spec_mounts.
    apply (file_call (n, live) s w h (λ p, File_read p count offset) (λ p, read_of _ p count offset)); [done|done| |].
    + intros p. apply keeps_File_read.
    + intros p box t Hp Hco Hin. apply file_read_call; [done..|by apply Ha].
  - destruct Hd as (Hh & Ho). unfold agrees, spec_step. rewrite spec_mounts.
    apply (file_call (n, live) s w h (λ p, File_read_all p offset) (λ p, read_all_of _ p offset)); [done|done| |].
    + intros p. apply keeps_File_read_all.
    + intros p box t Hp Hco Hin. apply file_read_all_call; [done..|by apply Ha].
  - by apply len_call.
  - by apply write_call.
  - by apply (drop_call (n, live)).
Qed.


Lemma session_start box w s t l : coherent box (w_mounts w) s t → mounts s l → fresh s = w_next w → w_client w = mk_client [] [] →
  (∀ p v, t !! p = Some v → ref_count v = 0) → (∀ p, is_Some (t !! p) → p ∈ w_seen w) → session (0%nat, []) s w.
Proof using.
  intros Hco Hm Hf Hcl Hz Hs. constructor; [by rewrite Hcl|by rewrite Hcl|]. exists t.
  constructor; [by exists box|split; [by exists l|done]| | |done]; rewrite Hcl.
  - intros p [Hp|Hp]; by apply not_elem_of_nil in Hp.
  - intros p v Hv. by apply (Hz p v).
Qed.
End session.

(** * A program on the small file system of Vfs.v *)

#[local] Instance toy_data_ops : NodeAccess Z Z := {|
  inode_write := λ _ _ _ _, panic; inode_ioctl := λ _ _ _ _, panic; inode_getattr := λ _, panic;
  inode_setattr := λ _ _, panic; inode_access := λ _ _, panic;
|}.
#[local] Instance toy_names : NodeNames Z Z := {|
  inode_create := λ _ _ _ _ _, panic; inode_link := λ _ _ _, panic; inode_rename := λ _ _ _ _, panic;
  inode_mkdir := λ _ _ _, panic; inode_readdir := λ _ _, panic; inode_symlink := λ _ _ _ _, panic;
  inode_readlink := λ _ _, panic; inode_fsync := λ _, panic;
|}.
#[local] Instance toy_unwritable : Unwritable Z Z.
Proof. by constructor. Qed.

Definition demo_calls : list (call unit) :=
  [OpenPath (chars "/init"); OpenFile 0; OpenFile 0; Read 0 2 1; Mount (chars "/dev") (); DropFile 0; ReadAll 1 1;
   OpenPath (chars "/dev/init"); OpenFile 1; Read 2 3 1; OpenPath (chars "/dev/none"); OpenPath (chars "/dev");
   Lookup 3 (chars "init"); Lookup 3 (chars ".."); DropFile 1; Len 2].
Definition demo_world : world := mk_world (mk_client [] []) ∅ 2 [[]].

Lemma demo_session : session (λ _ _, True) (λ _, toy_view) (λ _, toy_view) 1 (0%nat, []) toy_root demo_world.
Proof.
  destruct toy_root_spec as (t & Hm & Hco & _). apply (session_start _ _ _ _ 1 demo_world _ t _ Hco Hm); [by vm_compute|done|..].
  all: assert (match node_tree toy_root with Some t => map_Forall (λ p v, p = [] ∧ ref_count v = 0) t | None => False end) as H
    by (apply (bool_decide_unpack _); by vm_compute); rewrite (co_tree _ _ _ _ _ _ _ _ Hco) in H.
  - intros p v Hv. by apply (H p v).
  - intros p [v Hv]. destruct (H p v Hv) as [-> _]. by constructor.
Qed.

