(* ===== verification/Kmain.v ===== *)
(** [kmain] of src/src/main.rs, the part that works on files: the initramfs is
    mounted at "/", the drives are probed for FAT volumes, files of both are read
    through the tree, and "/mnt" is unmounted.

    The state is that of Vfs.v, with the results of the reads in the order the
    kernel prints them.  Both kinds of file system are behind the tree (DynFs.v).
    PCI enumeration and the drawing at the end touch none of this. *)

From S2P Require Import Prelude Mem Io Uuid Storage Vfs Fat FatVfs Squashfs Initramfs Scan DynFs Handles.

(** [Box::new] of the two drivers. *)
Abbreviation Ramfs := Datatypes.inl (only parsing).
Abbreviation Fatfs := Datatypes.inr (only parsing).

(** Names walked in the file system of one kind. *)
Lemma FatFs_new_partition {D} `{BlockDevice D} p (fs : FatFs D) : FatFs_new p = Ok fs → partition fs = p.
Proof.
  unfold FatFs_new. intros E.
  repeat match type of E with (?x ≫= _) = Ok _ =>
    destruct x; cbn [mbind outcome_bind] in E; try discriminate E end.
  repeat case_match; try discriminate E.
  all: repeat match type of E with (?x ≫= _) = Ok _ =>
    destruct x; cbn [mbind outcome_bind] in E; try discriminate E end.
  all: by injection E as <-.
Qed.

Definition YEAH : list str := [chars "firstdir"; chars "seconddirbutlonger"; chars "yeah.txt"].
Definition CONF_NAMES : list str := [chars "boot"; chars "limine"; chars "limine.conf"].

Lemma walk_left {I1 I2} (v : FsView I1) i j (names : list str) : walk v i names = Some j →
  walk (left_view (I2:=I2) v) (Datatypes.inl i) names = Some (Datatypes.inl j).
Proof.
  revert i. induction names as [|nm names IH]; intros i Hw; cbn [walk] in *; [by injection Hw as ->|].
  cbn [v_typ v_entry left_view]. case_decide; [|done]. destruct (v_entry v i nm) as [i'|]; [|done]. cbn in *. by apply IH.
Qed.
Lemma walk_right {I1 I2} (v : FsView I2) i j (names : list str) : walk v i names = Some j →
  walk (right_view (I1:=I1) v) (Datatypes.inr i) names = Some (Datatypes.inr j).
Proof.
  revert i. induction names as [|nm names IH]; intros i Hw; cbn [walk] in *; [by injection Hw as ->|].
  cbn [v_typ v_entry right_view]. case_decide; [|done]. destruct (v_entry v i nm) as [i'|]; [|done]. cbn in *. by apply IH.
Qed.

Lemma unmounted_empty q (names : list str) : unmounted ∅ q names.
Proof. by intros pre post _ _ _. Qed.

Section kmain.
Context {D : Type} `{BlockDevice D} (ram : Z → Z) (fat_in_mem : bool) (to_uppercase : str → str) (fuel : nat).
#[local] Instance ramfs_ops : FsOps Squashfs Inode := squash_driver ram fuel.
#[local] Instance fatfs_ops : FsOps (FatFs D) File := fat_driver fat_in_mem to_uppercase fuel.
Abbreviation kstate := (vfs_state (Squashfs + FatFs D) (Inode + File) * list (option (list Z)))%type (only parsing).
Notation K := (prog kstate).

(** [.unwrap()] on a [Result]. *)
Definition unwrap {S A} (m : prog S A) : prog S A := r ← attempt m; lift (of_option Panic r).

(** [println!("..", node.open(0, cred).read_all(offset, 0))]: the handle is dropped
    at the end of the statement. *)
Definition print_file (node : path) (offset : Z) : K unit :=
  on_fst (tree_open node) ;;
  r ← on_fst (attempt (File_read_all node offset));
  on_snd (modify (λ out, out ++ [r])) ;;
  on_fst (tree_close node).

(** [drives] are those [ide::init] finds on its bus. *)
Definition kmain_files (initramfs : option Z) (drives : list D) : K unit :=
  ramfs ← on_fst (lift (initramfs_init ram initramfs));
  on_fst (attempt (add_vfs (chars "/") (Ramfs ramfs))) ;;
  yeah ← on_fst (unwrap (vfs_open (chars "/firstdir/seconddirbutlonger/yeah.txt")));
  print_file yeah 0 ;;
  on_fst (for_each drives (init_drive Fatfs)) ;;
  limine_dir ← on_fst (unwrap (vfs_open (chars "/mnt/boot/limine")));
  conf ← on_fst (unwrap (tree_lookup limine_dir (chars "limine.conf")));
  print_file conf 0 ;;
  root_dir ← on_fst (unwrap (vfs_open (chars "/")));
  mnt ← on_fst (unwrap (tree_lookup root_dir (chars "mnt")));
  boot ← on_fst (unwrap (tree_lookup mnt (chars "boot")));
  limine ← on_fst (unwrap (tree_lookup boot (chars "limine")));
  conf ← on_fst (unwrap (tree_lookup limine (chars "limine.conf")));
  print_file conf 10 ;;
  on_fst (attempt (del_vfs (chars "/mnt"))) ;;
  limine_dir ← on_fst (unwrap (vfs_open (chars "/mnt/boot/limine")));
  conf ← on_fst (unwrap (tree_lookup limine_dir (chars "limine.conf")));
  print_file conf 0.

(** * Steps *)

Lemma unwrap_Ok {S A} (m : prog S A) s a s' : m s = (Ok a, s') → unwrap m s = (Ok a, s').
Proof. intros E. unfold unwrap, attempt, mbind, prog_bind. by rewrite E. Qed.

Section tree.
Context (ok : bool → Squashfs + FatFs D → Prop) (view : Squashfs + FatFs D → FsView (Inode + File))
  `{!FsSpec (Squashfs + FatFs D) (Inode + File) ok view} (views : Z → FsView (Inode + File)) (root box : Z).
Notation coherent := (coherent ok view views root box).

Lemma print_file_Ok {B} (k : unit → K B) mnt s t l out p a i n offset : coherent mnt s t → mounts s l → is_Some (t !! p) →
  node_of views root mnt p = Ok (a, i) → v_typ (views a) i = Regular → inode_len i = Ok n → n ≤ 2^63 →
  0 ≤ offset < n → v_serves (views a) i (n - offset) offset = true →
  ∃ s' t', (print_file p offset ≫= k) (s, out) =
      k tt (s', out ++ [Some (drop (Z.to_nat offset) (take (Z.to_nat n) (v_data (views a) i)))]) ∧
    coherent mnt s' t' ∧ mounts s' l ∧ ∀ q, is_Some (t' !! q) ↔ is_Some (t !! q).
Proof using FsSpec0.
  intros Hco Hm Hp Hn Ht Hl Hb Ho Hs.
  destruct (open_coherent ok view views root box mnt s t p Hco Hp) as (s1 & t1 & E1 & Hco1 & Hd1).
  destruct (read_tail_Ok ok view views root box mnt s1 t1 p a i n offset Hco1) as (s2 & E2 & Hco2); try done; [by apply Hd1|].
  destruct (close_coherent ok view views root box mnt s2 t1 p Hco2) as (s3 & t3 & E3 & Hco3 & Hd3); [by apply Hd1|].
  exists s3, t3. split; [|split; [done|split]].
  - unfold print_file. rewrite bind_assoc, (step_fst _ _ _ _ _ _ E1), bind_assoc.
    rewrite (step_fst (attempt (File_read_all p offset)) _ s1 out
      (Some (drop (Z.to_nat offset) (take (Z.to_nat n) (v_data (views a) i)))) s2).
    2: { unfold attempt. rewrite E2, skipn_firstn_comm. do 5 f_equal. lia. }
    rewrite bind_assoc, (step_snd (modify (λ out, out ++ [_])) _ _ _ _ _ eq_refl). by rewrite (step_fst _ _ _ _ _ _ E3).
  - apply (mounts_keeps _ _ _ _ _ (keeps_tree_close p) E3), (mounts_keeps _ _ _ _ _ (keeps_File_read_all p offset) E2).
    by apply (mounts_keeps _ _ _ _ _ (keeps_tree_open p) E1).
  - intros q. by rewrite Hd3, Hd1.
Qed.

(** Opening a path that resolves. *)
Lemma open_step {B} (k : path → K B) mnt s t l out text p : coherent mnt s t → mounts s l →
  resolve views root mnt [] (split_on 47 text) = Ok p →
  ∃ s' t', (on_fst (unwrap (vfs_open text)) ≫= k) (s, out) = k p (s', out) ∧ coherent mnt s' t' ∧ mounts s' l ∧ t ⊆ t' ∧
    is_Some (t' !! p) ∧ (chars ".." ∉ split_on 47 text → ∀ r, is_Some (t' !! r) → is_Some (t !! r) ∨ r `suffix_of` p).
Proof using FsSpec0.
  intros Hco Hm Hr. destruct (vfs_open_Ok ok view views root box mnt s t text Hco) as (s' & t' & E & Hco' & Hsub & Hin & Hnew).
  rewrite Hr in *. exists s', t'. split; [by rewrite (step_fst _ _ _ _ _ _ (unwrap_Ok _ _ _ _ E))|].
  split; [done|]. split; [by apply (mounts_keeps _ _ _ _ _ (keeps_vfs_open text) E)|]. split; [done|]. split; [by apply Hin|].
  intros Hd r. by apply Hnew.
Qed.

Lemma lookup_step {B} (k : path → K B) mnt s t l out p nm n : coherent mnt s t → mounts s l → is_Some (t !! p) →
  plain_name nm → node_of views root mnt (nm :: p) = Ok n →
  ∃ s' t', (on_fst (unwrap (tree_lookup p nm)) ≫= k) (s, out) = k (nm :: p) (s', out) ∧ coherent mnt s' t' ∧ mounts s' l ∧
    is_Some (t' !! (nm :: p)).
Proof using FsSpec0.
  intros Hco Hm Hp (H1 & H2 & H3) Hn.
  destruct (tree_lookup_spec ok view views root box mnt s t p nm Hco Hp H1) as (s' & t' & E & Hco' & _ & Hin & _).
  assert (resolve views root mnt p [nm] = Ok (nm :: p)) as Er by (cbn [resolve]; rewrite !bool_decide_false by done; by rewrite Hn).
  rewrite Er in *. exists s', t'. split; [by rewrite (step_fst _ _ _ _ _ _ (unwrap_Ok _ _ _ _ E))|].
  split; [done|]. split; [by apply (mounts_keeps _ _ _ _ _ (keeps_tree_lookup p nm) E)|]. by apply Hin.
Qed.

(** A name that is cached already. *)
Lemma cached_step {B} (k : path → K B) s t out p nm : node_tree s = Some t → is_Some (t !! (nm :: p)) → plain_name nm →
  (on_fst (unwrap (tree_lookup p nm)) ≫= k) (s, out) = k (nm :: p) (s, out).
Proof using. intros Ht Hs Hn. by rewrite (step_fst _ _ _ _ _ _ (unwrap_Ok _ _ _ _ (tree_lookup_cached s t p nm Ht Hs Hn))). Qed.

(** ** After the unmount *)

Definition LIMINE : path := [chars "limine"; chars "boot"; chars "mnt"].
Definition CONF : path := chars "limine.conf" :: LIMINE.

(** A read through a cached node of a file system that is gone. *)
Lemma dangling_read (s : vfs_state (Squashfs + FatFs D) (Inode + File)) t p v n : node_tree s = Some t → t !! p = Some v → vfss s !! parent_vfs v = None →
  inode_len (inode v) = Ok n → 0 < n ≤ 2^63 →
  ∃ s', tree_open p s = (Ok tt, s') ∧ File_read_all p 0 s' = (Undef, s').
Proof using.
  intros Ht Hv Ha Hl Hn. eexists. split.
  - unfold tree_open. rewrite (bind_Ok _ _ _ _ _ (node_get_spec s t p v Ht Hv)).
    assert ((if ref_count v =? 0 then with_inode p inode_open else mret tt) s = (Ok tt, s)) as E.
    { case_match; [|done]. apply (with_inode_idle s t p v); [done..|]. by destruct (inode v). }
    rewrite (bind_Ok _ _ _ _ _ E). by apply (node_modify_tree s t p v).
  - rewrite (File_read_all_Ok _ p (<[p := set_ref_count (u32 (ref_count v + 1)) v]> t) (set_ref_count (u32 (ref_count v + 1)) v) n) by
      (done || apply lookup_insert_eq || lia).
    rewrite (proj2 (Z.ltb_lt _ _)) by lia. unfold with_data, vfs_get, mbind, prog_bind. cbn. by rewrite Ha.
Qed.

Lemma plain_names : Forall plain_name [chars "mnt"; chars "boot"; chars "limine"] ∧ plain_name (chars "limine.conf").
Proof using. apply (bool_decide_unpack _). by vm_compute. Qed.

Lemma unmounted_read mnt s t r a out v n : coherent mnt s t → mounts s [(r, chars "/"); (a, chars "/mnt")] →
  t !! CONF = Some v → parent_vfs v = a → inode_len (inode v) = Ok n → 0 < n ≤ 2^63 →
  ∃ s', (on_fst (attempt (del_vfs (chars "/mnt"))) ;;
    limine_dir ← on_fst (unwrap (vfs_open (chars "/mnt/boot/limine")));
    conf ← on_fst (unwrap (tree_lookup limine_dir (chars "limine.conf")));
    print_file conf 0) (s, out) = (Undef, (s', out)).
Proof using.
  intros Hco Hm Hv Ha Hl Hn. destruct plain_names as [Hp Hpc].
  destruct (del_vfs_spec s _ (chars "/mnt") Hm) as (s1 & E1 & Hm1 & Ht1 & Hf1); [by right|by vm_compute|].
  assert (mount_remove (chars "/mnt") [(r, chars "/"); (a, chars "/mnt")] = Some [(r, chars "/")]) as Er by by vm_compute.
  rewrite Er in E1, Hm1. cbn [default from_option id] in Hm1.
  rewrite (step_fst (attempt (del_vfs (chars "/mnt"))) _ s out (Some tt) s1) by (unfold attempt; by rewrite E1).
  pose proof (co_tree _ _ _ _ _ _ _ _ Hco) as Ht. rewrite <- Ht1 in Ht.
  assert (vfs_open (chars "/mnt/boot/limine") s1 = (Ok LIMINE, s1)) as E2.
  { destruct (mounts_root _ _ Hm1) as (rv & Hrv & Hnext). unfold vfs_open.
    rewrite (bind_Ok _ _ s1 rv s1) by (unfold vfs_get; by rewrite Hrv).
    rewrite (bind_Ok _ _ s1 (Some t) s1) by (unfold gets; by rewrite Ht). rewrite Hnext. cbn [fmap list_fmap fst head].
    rewrite !bool_decide_false by done. cbn [orb].
    change (split_on 47 (chars "/mnt/boot/limine")) with ([] :: [chars "mnt"; chars "boot"; chars "limine"]).
    change (open_loop [] (?a :: ?b)) with (open_loop (F:=Squashfs + FatFs D) (I:=Inode + File) [] b).
    apply (open_cached s1 t [] [chars "mnt"; chars "boot"; chars "limine"]); [done|apply (co_parents _ _ _ _ _ _ _ _ Hco)| |done].
    apply (co_parents _ _ _ _ _ _ _ _ Hco (chars "limine.conf")). by exists v. }
  rewrite (step_fst _ _ _ _ _ _ (unwrap_Ok _ _ _ _ E2)), (cached_step _ s1 t) by (done || by exists v).
  assert (vfss s1 !! parent_vfs v = None) as Hgone.
  { rewrite Ha. apply Hf1; [done|by vm_compute|by vm_compute]. }
  destruct (dangling_read s1 t CONF v n Ht Hv Hgone Hl Hn) as (s2 & E3 & E4). exists s2.
  change (chars "limine.conf" :: LIMINE) with CONF. unfold print_file. rewrite (step_fst _ _ _ _ _ _ E3). 
  assert (attempt (File_read_all CONF 0) s2 = (Undef, s2)) as E5 by (unfold attempt; by rewrite E4).
  unfold mbind at 1, prog_bind at 1. by rewrite (on_fst_eq _ s2 out _ _ E5).
Qed.
End tree.

Section run.
Context (f : Squashfs) (ar : archive) (root : Inode) (fs0 : FatFs D) (img : list Z) (vol : volume).
Notation dok := (dyn_ok (squash_inv f ar) (fat_ok fat_in_mem fs0)).
Notation dview := (dyn_view (λ _, archive_view ar root) (fat_view to_uppercase fs0 img vol)).
Context {Hsq : FsSpec Squashfs Inode (squash_inv f ar) (λ _, archive_view ar root)}
  {Hfat : FsSpec (FatFs D) File (fat_ok fat_in_mem fs0) (fat_view to_uppercase fs0 img vol)}.

(** The initramfs is the first box; the volume whichever comes next. *)
Definition kviews (a : Z) : FsView (Inode + File) :=
  if a =? 1 then left_view (archive_view ar root) else right_view (fat_view to_uppercase fs0 img vol fs0).
Notation coh := (coherent dok dview kviews 1).

(** Up to the probing of the drives. *)
Lemma boot_ramfs {B} (k : unit → prog kstate B) yeah : squash_inv f ar false f →
  walk (archive_view ar root) root YEAH = Some (BasicFile yeah) → file_ok ar yeah → 0 < bf_file_size yeah →
  ∃ s t, (on_fst (attempt (add_vfs (chars "/") (Ramfs f))) ;;
      yeah ← on_fst (unwrap (vfs_open (chars "/firstdir/seconddirbutlonger/yeah.txt")));
      print_file yeah 0 ≫= k) (initial, []) =
    k tt (s, [Some (take (Z.to_nat (bf_file_size yeah)) (squash_data ar (BasicFile yeah)))]) ∧
    coh 1 ∅ s t ∧ mounts s [(1, chars "/")] ∧ leaf t [chars "mnt"].
Proof using Hsq Hfat.
  intros Hf Hy Hok Hpos.
  destruct (mount_root_Ok dok dview kviews initial (Ramfs f)) as (s1 & t1 & E1 & Hm1 & Hco1 & Ht1);
    [apply initial_mounts|done|done|].
  change (fresh initial) with 1 in *.
  rewrite (step_fst (attempt _) _ _ _ (Some tt) s1) by (unfold attempt; by rewrite E1).
  assert (node_of kviews 1 ∅ (rev YEAH ++ []) = Ok (1, Datatypes.inl (BasicFile yeah)) ∧
    resolve kviews 1 ∅ [] YEAH = Ok (rev YEAH ++ [])) as [Hn Hr].
  { apply (node_of_walk kviews 1 ∅ [] _ 1 (Datatypes.inl root) _ YEAH eq_refl);
      [unfold enter; by rewrite lookup_empty|by apply walk_left|apply unmounted_empty|done|].
    apply (bool_decide_unpack _). by vm_compute. }
  destruct (open_step dok dview kviews 1 1
    (λ yeah, print_file yeah 0 ≫= k) ∅ s1 t1 _ [] (chars "/firstdir/seconddirbutlonger/yeah.txt")
    (rev YEAH) Hco1 Hm1) as (s2 & t2 & E2 & Hco2 & Hm2 & _ & Hin2 & Hnew2); [exact Hr|]. rewrite E2.
  destruct Hok as (? & ? & ? & ? & ?).
  destruct (print_file_Ok dok dview kviews 1 1 k ∅ s2 t2 _ [] (rev YEAH) 1
    (Datatypes.inl (BasicFile yeah)) (bf_file_size yeah) 0 Hco2 Hm2 Hin2 Hn) as (s3 & t3 & E3 & Hco3 & Hm3 & Hd3); [|done|lia|lia|done|].
  { cbn. by rewrite decide_True. }
  rewrite E3. exists s3, t3. split; [done|]. do 2 (split; [done|]). intros name q. apply eq_None_not_Some. rewrite Hd3.
  intros [E0%Ht1|Hsuf]%Hnew2.
  - by destruct q.
  - change (rev YEAH) with [chars "yeah.txt"; chars "seconddirbutlonger"; chars "firstdir"] in Hsuf.
    replace (q ++ [name; chars "mnt"]) with ((q ++ [name]) ++ [chars "mnt"]) in Hsuf by by rewrite <- app_assoc.
    destruct Hsuf as [l Hl]. rewrite app_assoc in Hl.
    apply (f_equal last) in Hl. rewrite last_snoc in Hl. done.
  - apply (bool_decide_unpack _). by vm_compute.
Qed.
(** The names of [kmain] below the mount point. *)
Lemma boot_names b i conf : kviews b = right_view (fat_view to_uppercase fs0 img vol fs0) →
  walk (archive_view ar root) root [chars "mnt"] = Some i →
  walk (fat_view to_uppercase fs0 img vol fs0) (Dir (vo_root vol)) CONF_NAMES = Some (Archive conf) →
  let mnt := {[ [chars "mnt"] := b ]} : gmap path Z in
  node_of kviews 1 mnt CONF = Ok (b, Datatypes.inr (Archive conf)) ∧
  resolve kviews 1 mnt [] (split_on 47 (chars "/mnt/boot/limine")) = Ok LIMINE.
Proof.
  intros Hv Hi Hw mnt. destruct plain_names as [Hp Hpc].
  assert (node_of kviews 1 mnt [chars "mnt"] = Ok (1, Datatypes.inl i) ∧ resolve kviews 1 mnt [] [chars "mnt"] = Ok [chars "mnt"]) as [Hn1 Hr1].
  { apply (node_of_walk kviews 1 mnt [] _ 1 (Datatypes.inl root) (Datatypes.inl i) [chars "mnt"] eq_refl);
      [unfold enter, mnt; by rewrite lookup_singleton_ne|by apply walk_left| |done|by apply Forall_cons in Hp as [? _]; repeat constructor].
    intros [|x [|]] [|]; done. }
  assert (enter kviews mnt [chars "mnt"] (1, Datatypes.inl i) = (b, Datatypes.inr (Dir (vo_root vol)))) as He.
  { unfold enter, mnt. rewrite lookup_singleton_eq. by rewrite Hv. }
  destruct (node_of_walk kviews 1 mnt [chars "mnt"] _ b _ (Datatypes.inr (Archive conf)) CONF_NAMES Hn1 He) as [Hn2 Hr2].
  { rewrite Hv. by apply walk_right. }
  { intros pre post _ Hpre _. unfold mnt. apply lookup_singleton_ne. intros E%(f_equal length). rewrite length_app in E.
    destruct pre; [done|]. rewrite length_rev in E. cbn in E. lia. }
  { done. }
  { apply (bool_decide_unpack _). by vm_compute. }
  change (rev CONF_NAMES ++ [chars "mnt"]) with CONF in *.
  split; [done|]. change (resolve kviews 1 mnt [] ([chars "mnt"] ++ [chars "boot"; chars "limine"]) = Ok LIMINE).
  rewrite (resolve_app kviews 1 mnt [] [chars "mnt"]) by (done || by apply Forall_cons in Hp as [? _]; repeat constructor).
  destruct (walk_prefix _ _ _ [chars "boot"; chars "limine"] [chars "limine.conf"] (walk_right (I1:=Inode) _ _ _ CONF_NAMES Hw)) as [d Hd].
  apply (node_of_walk kviews 1 mnt [chars "mnt"] _ b _ d [chars "boot"; chars "limine"] Hn1 He); [by rewrite Hv| |done|].
  - intros pre post E Hpre Hpost. unfold mnt. apply lookup_singleton_ne. destruct pre; [done|]. by destruct pre as [|? [|]], post.
  - by apply Forall_cons in Hp as [_ ?].
Qed.

(** From the probing of the drives to the second file. *)
Lemma boot_fat {B} (k : unit → K B) dev s t out i conf : coh 1 ∅ s t → mounts s [(1, chars "/")] → leaf t [chars "mnt"] →
  walk (archive_view ar root) root [chars "mnt"] = Some i → fat_ok fat_in_mem fs0 false fs0 →
  init_drive Fatfs dev s = (r ← attempt (add_vfs (chars "/mnt") (Fatfs fs0)); mret tt) s →
  walk (fat_view to_uppercase fs0 img vol fs0) (Dir (vo_root vol)) CONF_NAMES = Some (Archive conf) →
  file_typ_of vol (Archive conf) = Regular → 0 < file_size conf →
  ∃ s' t' b, (on_fst (for_each [dev] (init_drive Fatfs)) ;;
      limine_dir ← on_fst (unwrap (vfs_open (chars "/mnt/boot/limine")));
      conf ← on_fst (unwrap (tree_lookup limine_dir (chars "limine.conf")));
      print_file conf 0 ≫= k) (s, out) =
    k tt (s', out ++ [Some (take (Z.to_nat (file_size conf)) (file_bytes fs0 img vol (Archive conf)))]) ∧
    1 < b ∧ coh b {[ [chars "mnt"] := b ]} s' t' ∧ mounts s' [(1, chars "/"); (b, chars "/mnt")] ∧ is_Some (t' !! CONF) ∧
    node_of kviews 1 {[ [chars "mnt"] := b ]} CONF = Ok (b, Datatypes.inr (Archive conf)).
Proof using Hsq Hfat.
  intros Hco Hm Hleaf Hi Hok Hinit Hw Ht Hpos. destruct plain_names as [Hp Hpc].
  assert (1 < fresh s) as Hb by (destruct Hm as [_ _ _ _ [_ Hf]]; apply Forall_cons in Hf as [Hf _]; cbn in Hf; lia). set (b := fresh s) in *.
  assert (kviews b = right_view (fat_view to_uppercase fs0 img vol fs0)) as Hv by (unfold kviews; by rewrite (proj2 (Z.eqb_neq b 1)) by lia).
  destruct (node_of_walk kviews 1 ∅ [] _ 1 (Datatypes.inl root) (Datatypes.inl i) [chars "mnt"] eq_refl) as [Hn0 Hr0];
    [unfold enter; by rewrite lookup_empty|by apply walk_left|apply unmounted_empty|done|by apply Forall_cons in Hp as [? _]; repeat constructor|].
  destruct (mount_below dok dview kviews 1 1 ∅ s t _ (chars "/mnt") (Fatfs fs0) [chars "mnt"] Hco Hm) as (s1 & t1 & E1 & Hm1 & Hco1); [done|done|done| |exact Hr0|done|].
  { apply (bool_decide_unpack _). by vm_compute. }
  change (<[rev [chars "mnt"] ++ [] := b]> ∅) with ({[ [chars "mnt"] := b ]} : gmap path Z) in *.
  set (mnt := {[ [chars "mnt"] := b ]} : gmap path Z) in *.
  destruct (boot_names b i conf Hv Hi Hw) as [Hn2 Hr]. fold mnt in Hn2, Hr.
  assert (init_drive Fatfs dev s = (Ok tt, s1)) as Ei.
  { rewrite Hinit. rewrite (bind_Ok (attempt _) _ s (Some tt) s1); [done|]. unfold attempt. by rewrite E1. }
  assert (for_each [dev] (init_drive Fatfs) s = (Ok tt, s1)) as Ef by (cbn [for_each]; by rewrite (bind_Ok _ _ _ _ _ Ei)).
  rewrite (step_fst _ _ _ _ _ _ Ef).
  destruct (open_step dok dview kviews 1 b (λ limine_dir, conf ← on_fst (unwrap (tree_lookup limine_dir (chars "limine.conf")));
    print_file conf 0 ≫= k) mnt s1 t1 _ out (chars "/mnt/boot/limine") LIMINE Hco1 Hm1 Hr) as (s2 & t2 & -> & Hco2 & Hm2 & _ & Hin2 & _).
  destruct (lookup_step dok dview kviews 1 b (λ conf, print_file conf 0 ≫= k) mnt s2 t2 _ out LIMINE (chars "limine.conf") _
    Hco2 Hm2 Hin2 Hpc Hn2) as (s3 & t3 & -> & Hco3 & Hm3 & Hin3).
  cbv beta. change (chars "limine.conf" :: LIMINE) with CONF in *.
  assert (v_typ (kviews b) (Datatypes.inr (Archive conf)) = Regular) as Htyp by by rewrite Hv.
  assert (file_size conf < 2^32) as Hlt.
  { cbn [file_typ_of] in Ht. case_bool_decide as Hbd; [|done]. by destruct Hbd as [[_ ?] _]. }
  destruct (print_file_Ok dok dview kviews 1 b k mnt s3 t3 _ out CONF b (Datatypes.inr (Archive conf)) (file_size conf) 0 Hco3 Hm3 Hin3 Hn2 Htyp)
    as (s4 & t4 & -> & Hco4 & Hm4 & Hd4); [done|lia|lia| |].
  { rewrite Z.sub_0_r. by apply (serves_all dok dview kviews 1 b mnt s3 t3 CONF b _ (file_size conf) Hco3 Hn2 Htyp). }
  exists s4, t4, b. split; [by rewrite Hv|]. do 3 (split; [done|]). split; [|done]. by apply Hd4.
Qed.

(** Back through the tree from the root, and past the unmount. *)
Lemma boot_unmounted s t b out conf : 1 < b → coh b {[ [chars "mnt"] := b ]} s t → mounts s [(1, chars "/"); (b, chars "/mnt")] →
  is_Some (t !! CONF) → node_of kviews 1 {[ [chars "mnt"] := b ]} CONF = Ok (b, Datatypes.inr (Archive conf)) →
  file_typ_of vol (Archive conf) = Regular → 10 < file_size conf →
  file_serves fs0 (Archive conf) (file_size conf - 10) 10 = true →
  ∃ s', (root_dir ← on_fst (unwrap (vfs_open (chars "/")));
      mnt ← on_fst (unwrap (tree_lookup root_dir (chars "mnt")));
      boot ← on_fst (unwrap (tree_lookup mnt (chars "boot")));
      limine ← on_fst (unwrap (tree_lookup boot (chars "limine")));
      conf ← on_fst (unwrap (tree_lookup limine (chars "limine.conf")));
      print_file conf 10 ;;
      on_fst (attempt (del_vfs (chars "/mnt"))) ;;
      limine_dir ← on_fst (unwrap (vfs_open (chars "/mnt/boot/limine")));
      conf ← on_fst (unwrap (tree_lookup limine_dir (chars "limine.conf")));
      print_file conf 0) (s, out) =
    (Undef, (s', out ++ [Some (drop 10 (take (Z.to_nat (file_size conf)) (file_bytes fs0 img vol (Archive conf))))])).
Proof using Hsq Hfat.
  intros Hb Hco Hm Hin Hn Ht Hpos Hserves. destruct plain_names as [Hp Hpc].
  apply Forall_cons in Hp as [Hp1 [Hp2 [Hp3 _]%Forall_cons]%Forall_cons].
  assert (kviews b = right_view (fat_view to_uppercase fs0 img vol fs0)) as Hv by (unfold kviews; by rewrite (proj2 (Z.eqb_neq b 1)) by lia).
  assert (v_typ (kviews b) (Datatypes.inr (Archive conf)) = Regular) as Htyp by by rewrite Hv.
  assert (file_size conf < 2^32) as Hlt.
  { cbn [file_typ_of] in Ht. case_bool_decide as Hbd; [|done]. by destruct Hbd as [[_ ?] _]. }
  set (mnt := {[ [chars "mnt"] := b ]} : gmap path Z) in *.
  lazymatch goal with |- ∃ _, (_ ≫= ?k) _ = _ =>
    destruct (open_step dok dview kviews 1 b k mnt s t _ out (chars "/") [] Hco Hm eq_refl) as (s1 & t1 & -> & Hco1 & Hm1 & Hsub & _) end.
  cbv beta. pose proof (co_tree _ _ _ _ _ _ _ _ Hco1) as Ht1. pose proof (co_parents _ _ _ _ _ _ _ _ Hco1) as Hup.
  assert (is_Some (t1 !! CONF)) as Hin1 by (destruct Hin as [v E]; exists v; by apply (lookup_weaken _ _ _ _ E)).
  unfold CONF, LIMINE in Hin1. pose proof (Hup _ _ Hin1) as Hin2. pose proof (Hup _ _ Hin2) as Hin3. pose proof (Hup _ _ Hin3) as Hin4.
  rewrite (cached_step _ s1 t1) by done. rewrite (cached_step _ s1 t1) by done.
  rewrite (cached_step _ s1 t1) by done. rewrite (cached_step _ s1 t1) by done.
  change (chars "limine.conf" :: _) with CONF in *.
  lazymatch goal with |- ∃ _, (_ ≫= ?k) _ = _ =>
    destruct (print_file_Ok dok dview kviews 1 b k mnt s1 t1 _ out CONF b (Datatypes.inr (Archive conf)) (file_size conf) 10
      Hco1 Hm1 Hin1 Hn Htyp) as (s2 & t2 & -> & Hco2 & Hm2 & Hd2); [done|lia|lia|by rewrite Hv|] end.
  cbv beta. rewrite Hv. destruct (proj2 (Hd2 CONF) Hin1) as [v Hnode].
  destruct (co_nodes _ _ _ _ _ _ _ _ Hco2 CONF v Hnode) as (_ & Hnv & _). rewrite Hn in Hnv. injection Hnv as Hpar Hino.
  apply (unmounted_read dok dview kviews 1 b mnt s2 t2 1 b _ v (file_size conf) Hco2 Hm2 Hnode); [done|by rewrite <- Hino|lia].
Qed.
End run.

(** The bytes of [ar] as a squashfs image at [ptr], its root directory being [root]. *)
Definition archive_at (ptr : Z) (ar : archive) (root : Inode) : Prop := ∃ sb data icks dcks ft,
  image_wf ram ptr sb data icks dcks ft ∧ blocks_hold icks [ar_inodes ar] ∧ blocks_hold dcks [ar_dirs ar; ar_next ar] ∧
  archive_wf fuel ar sb ∧ ar_table ar !! root_inode sb = Some root ∧ fragment_wf ram ptr sb ft (ar_frag ar).

(** A disk whose only EFI system partition [e] holds the FAT volume [vol]. *)
Record system_disk (dev : D) (disk : list Z) (e : GPTPartitionEntry) (fs0 : FatFs D) (img : list Z) (vol : volume) : Prop := {
  sd_spec : DiskSpec dev disk;
  sd_table : ∃ protective h table before after, gpt_disk disk protective h table ∧ used_entries table = before ++ e :: after ∧
    Forall (λ e, ¬ is_esp e) (before ++ after);
  sd_type : is_esp e;
  sd_extent : 0 ≤ start_sector e ≤ end_sector e ∧ end_sector e < sector_count dev ∧
    slice disk (SECTOR * start_sector e) (SECTOR * (start_sector e + (end_sector e - start_sector e))) = Ok img;
  sd_fs : FatFs_new (GPTPart e dev) = Ok fs0;
  sd_volume : volume_wf fuel fs0 img vol;
}.

End kmain.

(** * A concrete boot *)

(** The archive: /firstdir/seconddirbutlonger/yeah.txt and an empty /mnt. *)
Definition boot_dir (num offset size parent : Z) : Inode :=
  BasicDirectory (mk_basic_dir (mk_inode_header BasicDirectoryType 0 num) 0 2 size offset parent).
Definition root_runs : list sq_run :=
  [mk_sq_run 0 1 [mk_sq_entry 32 1 BasicDirectoryType (chars "firstdir"); mk_sq_entry 128 4 BasicDirectoryType (chars "mnt")]].
Definition first_runs : list sq_run := [mk_sq_run 0 1 [mk_sq_entry 64 1 BasicDirectoryType (chars "seconddirbutlonger")]].
Definition second_runs : list sq_run := [mk_sq_run 0 1 [mk_sq_entry 96 1 BasicFileType (chars "yeah.txt")]].
Definition yeah_file : BasicFileInode := mk_basic_file (mk_inode_header BasicFileType 0 4) 0 0 0 5.
Definition boot_inodes : list Inode :=
  [boot_dir 1 0 42 6; boot_dir 2 39 41 1; boot_dir 3 77 31 2; BasicFile yeah_file; boot_dir 5 105 3 1].
Definition boot_archive : archive :=
  mk_archive (concat ((λ i, inode_record i demo_perm) <$> boot_inodes))
    (listing_bytes root_runs ++ listing_bytes first_runs ++ listing_bytes second_runs)
    (le_bytes 8 96 ++ le_bytes 4 (5 + 2^24) ++ le_bytes 4 0) (chars "YEAH!")
    (list_to_map (zip [0; 32; 64; 96; 128] boot_inodes)) (list_to_map (zip [0; 39; 77; 105] [root_runs; first_runs; second_runs; []])).
Definition boot_sb : SquashfsSuperblock :=
  mk_superblock 0x73717368 5 0 0x20000 1 CGzip 17 0 1 4 0 0 404 396 u64_max 101 263 388 u64_max.
Definition boot_icks : list Chunk := [raw_chunk (ar_inodes boot_archive)].
Definition boot_dcks : list Chunk := [raw_chunk (ar_dirs boot_archive); raw_chunk (ar_next boot_archive)].
Definition boot_data : list Z :=
  superblock_bytes boot_sb ++ chars "YEAH!" ++ concat boot_icks ++ concat boot_dcks ++ le_bytes 8 370 ++ le_bytes 8 0.
Definition boot_memory (a : Z) : Z := nth (Z.to_nat (a - 0x1000)) boot_data 0.

Lemma boot_blocks : Forall block_wf boot_icks ∧ Forall block_wf boot_dcks.
Proof.
  split; repeat constructor; do 2 eexists; (split; [|split; [reflexivity|]]); [split| |split| |split|]; by vm_compute.
Qed.

Lemma boot_image : image_wf boot_memory 0x1000 boot_sb boot_data boot_icks boot_dcks (le_bytes 8 370).
Proof.
  destruct boot_blocks. split.
  - by vm_compute.
  - by eexists.
  - split; split; by vm_compute.
  - by vm_compute.
  - by vm_compute.
  - by vm_compute.
  - split_and!; computed.
  - split; [by vm_compute|done].
  - split; [by vm_compute|done].
  - by vm_compute.
Qed.

Lemma boot_fragment : fragment_wf boot_memory 0x1000 boot_sb (le_bytes 8 370) (ar_frag boot_archive).
Proof.
  split. exists 370, [], (16 + 2^15), (ar_next boot_archive), (ar_next boot_archive), 96, (5 + 2^24), (chars "YEAH!"), (le_bytes 4 0).
  split; [done|]. split; [split; computed|]. split; [right; by vm_compute|]. split; [by vm_compute|]. split; [split; computed|].
  split; [by vm_compute|]. split; [by vm_compute|]. split; [by vm_compute|]. split; [split; computed|]. split; [split; computed|].
  split; [by vm_compute|]. split; [by vm_compute|]. split; [computed|]. by vm_compute.
Qed.

(** Every entry of the archive is checked by evaluation. *)
Lemma boot_inode_wf off i : ar_table boot_archive !! off = Some i → (off, i) ∈ zip [0; 32; 64; 96; 128] boot_inodes.
Proof. intros Hi. by apply elem_of_list_to_map_2. Qed.
Lemma boot_listing_wf o runs : ar_listings boot_archive !! o = Some runs →
  (o, runs) ∈ zip [0; 39; 77; 105] [root_runs; first_runs; second_runs; []].
Proof. intros Hi. by apply elem_of_list_to_map_2. Qed.

Lemma boot_runs_wf : Forall (Forall (run_wf boot_archive)) [root_runs; first_runs; second_runs; []].
Proof.
  repeat (constructor; [constructor; [split; [done|split; computed|split; computed|]|constructor];
    repeat (constructor; [split; [split; computed|split; computed|split; computed|by eexists|by eexists]|]); constructor|]).
  repeat constructor.
Qed.

Lemma boot_archive_wf : archive_wf 10 boot_archive boot_sb.
Proof.
  split.
  - split; apply (bool_decide_unpack _); by vm_compute.
  - intros off i Hi%boot_inode_wf. cbn in Hi.
    repeat (apply elem_of_cons in Hi as [[= -> ->]|Hi]; [split; [done|]; split; [split_and!; computed|]; split; [by first [by eexists|split_and!; computed]|
      exists demo_perm; by split]|]).
    by apply not_elem_of_nil in Hi.
  - intros o runs Hl%boot_listing_wf. pose proof boot_runs_wf as Hw. rewrite !Forall_cons in Hw. destruct Hw as (H1 & H2 & H3 & H4 & _).
    cbn in Hl.
    repeat (apply elem_of_cons in Hl as [[= -> ->]|Hl]; [split; [done|]; split; [done|]; split; [assumption|]; split; [|cbn; lia];
      first [left; split_and!; computed|right; split_and!; computed]|]).
    by apply not_elem_of_nil in Hl.
  - exists (boot_dir 1 0 42 6). split; [done|by eexists].
Qed.

(** The volume: \BOOT\LIMINE with the file limine.conf under a long name, on the
    partition of Scan.v. *)
Definition to_upper (s : str) : str := (λ c, if (97 <=? c) && (c <=? 122) then c - 32 else c) <$> s.
Definition conf_text : list Z := chars "timeout: 5, /toto-os".
Definition dos_entry (name ext : String.string) (attributes c size : Z) : dir_item :=
  Named [] (replicate 8 0) (replicate 4 0) (mk_file_entry (chars name) (chars ext) attributes 0 c size).
Definition conf_entry : FileEntry := mk_file_entry (chars "LIMINE~1") (chars "CON") 0x20 0 4 20.
Definition conf_part : lfn := mk_lfn 0x41 0 (chars "limine.conf" ++ [0; 0xFFFF]).
Definition esp_dirs : list (list dir_item) :=
  [[dos_entry "BOOT    " "   " ATTR_DIRECTORY 2 0]; [dos_entry "LIMINE  " "   " ATTR_DIRECTORY 3 0];
   [Named [conf_part] (replicate 8 0) (replicate 4 0) conf_entry]].
Definition pad_sector (bytes : list Z) : list Z := bytes ++ replicate (512 - length bytes) 0.
Definition dir_sector (items : list dir_item) : list Z := pad_sector (dir_bytes items (replicate 31 0) []).
Definition esp_volume : list Z :=
  demo_boot ++ pad_sector (concat (le_bytes 2 <$> [0x0FF8; 0x0FFF; 0x0FFF; 0x0FFF; 0x0FFF])) ++
  concat (dir_sector <$> esp_dirs) ++ pad_sector conf_text ++ replicate 1024 0.
Definition esp_vol : volume := mk_volume 1 (list_to_map (zip [1; 2; 3] esp_dirs)) {[ 4 := [] ]}.
Definition boot_disk : list Z := demo_gpt_disk (esp_volume ++ replicate 512 0).
Definition esp_fs : FatFs (list Z) :=
  mk_fatfs (GPTPart demo_gpt_entry boot_disk) None None demo_bpb 1
    (Fat12 (mk_ebpb16 0 (replicate 11 0) (chars "FAT12   "))) 512 1.

Lemma esp_items_wf : Forall (Forall item_wf) esp_dirs.
Proof.
  repeat (constructor; [constructor; [|constructor]|]); [..|constructor].
  - split; [constructor|]. do 3 (split; [done|]). constructor; try done. by eexists _, _.
  - split; [constructor|]. do 3 (split; [done|]). constructor; try done. by eexists _, _.
  - split; [done|]. split; [done|]. apply (bool_decide_unpack _). by vm_compute.
  - split; [by vm_compute|]. do 2 (split; [done|]). constructor; try done. by eexists _, _.
Qed.

Lemma esp_vol_wf : volume_wf 10 esp_fs esp_volume esp_vol.
Proof.
  constructor.
  - split; [by vm_compute|by eexists].
  - intros c items Hc%elem_of_list_to_map_2. cbn [zip esp_dirs] in Hc. pose proof esp_items_wf as [H1 [H2 [H3 _]%Forall_cons]%Forall_cons]%Forall_cons.
    apply elem_of_cons in Hc as [[= -> ->]|Hc].
    { exists (replicate 31 0), (replicate 448 0). split; [by vm_compute|]. split; [done|]. split; [|done]. constructor; [by eexists|constructor]. }
    apply elem_of_cons in Hc as [[= -> ->]|Hc].
    { exists (replicate 31 0), (replicate 448 0). split; [by vm_compute|]. split; [done|]. split; [|done]. constructor; [by eexists|constructor]. }
    apply elem_of_cons in Hc as [[= -> ->]|Hc].
    { exists (replicate 31 0), (replicate 416 0). split; [by vm_compute|]. split; [done|]. split; [|done]. constructor; [right; by eexists|constructor]. }
    by apply not_elem_of_nil in Hc.
  - intros c cs Hc. cbn in Hc. apply lookup_singleton_Some in Hc as [<- <-]. split.
    { exists 0x0FFF. split; by vm_compute. }
    split; [constructor; [by vm_compute|constructor]|]. split; [constructor; [by vm_compute|constructor]|cbn; lia].
  - by constructor.
  - by vm_compute.
  - apply (bool_decide_unpack _). by vm_compute.
Qed.

Lemma boot_system_disk : system_disk 10 boot_disk boot_disk demo_gpt_entry esp_fs esp_volume esp_vol.
Proof.
  split.
  - apply ram_disk_spec; [exists 12; by vm_compute|by vm_compute].
  - exists demo_protective, demo_gpt_header, demo_gpt_table, [], []. split; [apply demo_gpt_disk_wf|]. by split.
  - done.
  - split; [done|]. split; [by vm_compute|]. by vm_compute.
  - by vm_compute.
  - exact esp_vol_wf.
Qed.

