(* ===== verification/Sync.v ===== *)
(** Cells and the spin lock: src/src/libs/cell/once.rs and libs/sync/mutex.rs.

    A [OnceCell] is its state, and its methods are programs over it.  A [Mutex] is
    shared by threads that a schedule interleaves one shared-memory access at a
    time: the compare-exchange of [lock], the load and the store of the guarded data
    through [Deref] and [DerefMut], and the store of [Drop]. *)

From S2P Require Import Prelude.

(** * [OnceCell] *)

Section once.
Context {T : Type}.

Inductive OnceCellState :=
  | Uninitialized
  | Initializing
  | Initialized (data : T).
Notation C := (prog OnceCellState).

Definition once_new : OnceCellState := Uninitialized.

Definition once_set (new_data : T) : C unit :=
  state ← get;
  match state with
  | Uninitialized => put Initializing ;; put (Initialized new_data)
  | _ => panic
  end.

Definition get_unchecked : C T :=
  state ← get;
  match state with Initialized data => mret data | _ => panic end.

Definition once_get : C T :=
  state ← get;
  match state with Initialized data => mret data | _ => err end.

(** [func] runs with the cell still uninitialised, and may use it itself. *)
Definition get_or_set (func : C T) : C T :=
  state ← get;
  match state with
  | Uninitialized => new_data ← func; once_set new_data ;; get_unchecked
  | Initializing => panic
  | Initialized data => mret data
  end.

End once.
Arguments OnceCellState T : clear implicits.

(** * [Mutex] *)

Section mutex.
Context {T : Type}.

(** [locked] and [data]. *)
Record Mutex := mk_mutex { locked : bool; data : T }.
Notation M := (prog Mutex).

Definition Mutex_new (d : T) : Mutex := mk_mutex false d.

(** [compare_exchange(current, new, SeqCst, SeqCst).is_ok()] *)
Definition compare_exchange (current new : bool) : M bool :=
  m ← get;
  if Bool.eqb (locked m) current then put (mk_mutex new (data m)) ;; mret true else mret false.

(** One turn of the loop of [lock]: [true] when the guard is returned. *)
Definition lock_turn : M bool := compare_exchange false true.

(** [MutexGuard]: [deref], [deref_mut] and [drop]. *)
Definition guard_deref : M T := gets data.
Definition guard_store (d : T) : M unit := m ← get; put (mk_mutex (locked m) d).
Definition guard_drop : M unit := m ← get; put (mk_mutex false (data m)).

(** A thread runs critical sections, each an update of the data: it calls [lock],
    loads the data, stores the new value and drops the guard. *)
Inductive pc :=
  | Idle
  | Spinning (f : T → T)
  | Acquired (f : T → T)
  | Loaded (f : T → T) (x : T)
  | Stored.
Record thread := mk_thread { todo : list (T → T); at_pc : pc }.

(** The next access of a thread, with the section whose effect it makes visible. *)
Definition thread_turn (t : thread) : M (thread * option (T → T)) :=
  match at_pc t with
  | Idle =>
      match todo t with
      | [] => mret (t, None)
      | f :: rest => mret (mk_thread rest (Spinning f), None)
      end
  | Spinning f => won ← lock_turn; mret (mk_thread (todo t) (if (won : bool) then Acquired f else Spinning f), None)
  | Acquired f => x ← guard_deref; mret (mk_thread (todo t) (Loaded f x), None)
  | Loaded f x => guard_store (f x) ;; mret (mk_thread (todo t) Stored, Some f)
  | Stored => guard_drop ;; mret (mk_thread (todo t) Idle, None)
  end.

(** The mutex, the threads, and the sections run so far with the thread of each,
    oldest first. *)
Record system := mk_system { mutex : Mutex; threads : list thread; log : list (nat * (T → T)) }.

Definition turn (i : nat) (s : system) : system :=
  match threads s !! i with
  | None => s
  | Some t =>
      match thread_turn t (mutex s) with
      | (Ok (t', f), m') => mk_system m' (<[i := t']> (threads s)) (log s ++ option_list (pair i <$> f))
      | _ => s
      end
  end.
Definition run (schedule : list nat) (s : system) : system := foldl (λ s i, turn i s) s schedule.

(** Threads about to run their sections on a new mutex. *)
Definition start (d : T) (sections : list (list (T → T))) : system :=
  mk_system (Mutex_new d) ((λ fs, mk_thread fs Idle) <$> sections) [].
End mutex.
Arguments Mutex T : clear implicits.
Arguments pc T : clear implicits.
Arguments thread T : clear implicits.
Arguments system T : clear implicits.

(** * The cell is written once *)

Section once_facts.
Context {T : Type}.

(** Calls on one cell; [func] of the last returns without touching the cell. *)
Inductive once_call := CallSet (d : T) | CallGet | CallUnchecked | CallGetOrSet (d : T).
Definition run_call (c : once_call) : prog (OnceCellState T) (option T) :=
  match c with
  | CallSet d => once_set d ;; mret None
  | CallGet => attempt once_get
  | CallUnchecked => d ← get_unchecked; mret (Some d)
  | CallGetOrSet d => d ← get_or_set (mret d); mret (Some d)
  end.

(** A call on a cell that holds [d] does not change it, and returns [d] unless it is
    one that panics. *)
Lemma initialized_call (d : T) c :
  run_call c (Initialized d) = (match c with CallSet _ => Panic | _ => Ok (Some d) end, Initialized d).
Proof. by destruct c. Qed.

(** The first value a cell is given is the one it keeps: whatever is called, before
    the first panic every answer is that value. *)
Lemma once_keeps_first (d : T) calls s : s = Initialized d →
  for_each calls (λ c, r ← run_call c; lift (rassert (if r is Some _ then true else false))) s =
    (if forallb (λ c, match c with CallSet _ => false | _ => true end) calls then Ok tt else Panic, s).
Proof.
  intros ->. induction calls as [|c calls IH]; [done|]. cbn [for_each forallb]. unfold mbind, prog_bind in *.
  rewrite initialized_call. destruct c; cbn; [done|apply IH..].
Qed.

(** [func] runs once, on the cell as it is; if it initialises the cell itself, the
    value it returns meets an initialised cell. *)
Lemma get_or_set_Ok (func : prog (OnceCellState T) T) (d : T) : func Uninitialized = (Ok d, Uninitialized) →
  get_or_set func Uninitialized = (Ok d, Initialized d).
Proof. intros E. unfold get_or_set. prun. by rewrite E. Qed.
Lemma get_or_set_reenters (func : prog (OnceCellState T) T) (d d' : T) : func Uninitialized = (Ok d, Initialized d') →
  get_or_set func Uninitialized = (Panic, Initialized d').
Proof. intros E. unfold get_or_set. prun. by rewrite E. Qed.
End once_facts.

(** * The lock *)

Section mutex_facts.
Context {T : Type}.
Implicit Types (s : system T) (t : thread T) (i j : nat).

Definition holds_guard t : Prop := match at_pc t with Acquired _ | Loaded _ _ | Stored => True | _ => False end.
(** Sections called or not, that have not stored yet. *)
Definition pending t : list (T → T) := match at_pc t with Spinning f | Acquired f | Loaded f _ => f :: todo t | _ => todo t end.
Definition finished t : Prop := t = mk_thread [] Idle.
Definition ran i s : list (T → T) := (filter (λ x, x.1 = i) (log s)).*2.
(** One section after the other. *)
Definition in_turn (d : T) (fs : list (T → T)) : T := foldl (λ d f, f d) d fs.

Record consistent (d : T) (sections : list (list (T → T))) s : Prop := {
  cs_data : data (mutex s) = in_turn d (log s).*2;
  cs_locked : locked (mutex s) = true ↔ ∃ i t, threads s !! i = Some t ∧ holds_guard t;
  cs_exclusive : ∀ i j t u, threads s !! i = Some t → threads s !! j = Some u → holds_guard t → holds_guard u → i = j;
  cs_loaded : ∀ i t f x, threads s !! i = Some t → at_pc t = Loaded f x → x = data (mutex s);
  cs_program : ∀ i t, threads s !! i = Some t → sections !! i = Some (ran i s ++ pending t);
}.

Lemma start_consistent d sections : consistent d sections (start d sections).
Proof.
  split; cbn.
  - done.
  - split; [done|]. intros (i & t & Ht & Hg). apply list_lookup_fmap_Some in Ht as (fs & -> & _). done.
  - intros i j t u Ht _ Hg. apply list_lookup_fmap_Some in Ht as (fs & -> & _). done.
  - intros i t f x Ht E. apply list_lookup_fmap_Some in Ht as (fs & -> & _). done.
  - intros i t Ht. apply list_lookup_fmap_Some in Ht as (fs & -> & Hfs). done.
Qed.

(** What a turn can do, when it does something. *)
Inductive moves : Mutex T → thread T → option (T → T) → Mutex T → thread T → Prop :=
  | move_call m f rest : moves m (mk_thread (f :: rest) Idle) None m (mk_thread rest (Spinning f))
  | move_acquire d f fs : moves (mk_mutex false d) (mk_thread fs (Spinning f)) None (mk_mutex true d) (mk_thread fs (Acquired f))
  | move_load m f fs : moves m (mk_thread fs (Acquired f)) None m (mk_thread fs (Loaded f (data m)))
  | move_store b d f x fs : moves (mk_mutex b d) (mk_thread fs (Loaded f x)) (Some f) (mk_mutex b (f x)) (mk_thread fs Stored)
  | move_drop b d fs : moves (mk_mutex b d) (mk_thread fs Stored) None (mk_mutex false d) (mk_thread fs Idle).

(** A thread that cannot move has nothing to do, or spins on a locked mutex. *)
Definition stuck s t : Prop := finished t ∨ locked (mutex s) = true ∧ ∃ f, at_pc t = Spinning f.

Lemma turn_cases i s : match threads s !! i with
  | None => turn i s = s
  | Some t =>
      (stuck s t ∧ turn i s = s) ∨
      ∃ fo m' t', moves (mutex s) t fo m' t' ∧ turn i s = mk_system m' (<[i := t']> (threads s)) (log s ++ option_list (pair i <$> fo))
  end.
Proof.
  unfold turn, stuck, finished. destruct (threads s !! i) as [t|] eqn:Ht; [|done]. destruct s as [[b d] ts l], t as [fs [|f|f|f x|]]; cbn in *; prun.
  - destruct fs as [|f fs]; prun.
    + left. split; [by left|]. cbn. by rewrite app_nil_r, list_insert_id.
    + right. do 3 eexists. split; [constructor|]. cbn. by rewrite !app_nil_r.
  - destruct b; cbn.
    + left. split; [right; split; [done|]; by eexists|]. cbn. by rewrite app_nil_r, list_insert_id.
    + right. do 3 eexists. split; [constructor|]. cbn. by rewrite !app_nil_r.
  - right. do 3 eexists. split; [constructor|]. cbn. by rewrite !app_nil_r.
  - right. do 3 eexists. split; [constructor|]. done.
  - right. do 3 eexists. split; [constructor|]. cbn. by rewrite !app_nil_r.
Qed.

(** Every move keeps the system consistent. *)
Lemma moves_consistent d sections i s t fo m' t' : consistent d sections s → threads s !! i = Some t →
  moves (mutex s) t fo m' t' →
  consistent d sections (mk_system m' (<[i := t']> (threads s)) (log s ++ option_list (pair i <$> fo))).
Proof.
  destruct s as [m ts l]. cbn. intros [Hd Hl Hx Hr Hp] Ht Hm. cbn in *. pose proof (lookup_lt_Some _ _ _ Ht) as Hi.
  assert (∀ j u, <[i := t']> ts !! j = Some u → j = i ∧ u = t' ∨ j ≠ i ∧ ts !! j = Some u) as Hins.
  { intros j u [(<- & <- & _)|[? ?]]%list_lookup_insert_Some; auto. }
  assert (∀ j u, j ≠ i → ts !! j = Some u → holds_guard t → ¬ holds_guard u) as Hold.
  { intros j u Hj Hu Hg Hgu. by apply Hj, (Hx j i u t). }
  assert (∀ j u, j ≠ i → ts !! j = Some u → holds_guard t' → ¬ holds_guard u) as Hnew.
  { intros j u Hj Hu Hg. inversion Hm; subst; try done; try by apply (Hold j u Hj Hu).
    intros Hgu. assert (false = true) by (apply Hl; eauto). done. }
  split; cbn.
  - inversion Hm; subst; cbn in *; rewrite ?app_nil_r; try done.
    rewrite fmap_app. unfold in_turn. rewrite foldl_app. cbn. by rewrite (Hr i _ _ _ Ht eq_refl), Hd.
  - split.
    + intros E. assert (holds_guard t' ∨ (∃ j u, j ≠ i ∧ ts !! j = Some u ∧ holds_guard u)) as [Hg|(j & u & Hj & Hu & Hg)].
      { inversion Hm; subst; cbn in *; try (by left); try done.
        right. apply Hl in E as (j & u & Hu & Hg). exists j, u. split; [|done]. intros ->. by rewrite Ht in Hu; injection Hu as <-. }
      * exists i, t'. split; [by apply list_lookup_insert_eq|done].
      * exists j, u. by rewrite list_lookup_insert_ne.
    + intros (j & u & Hu & Hg). apply Hins in Hu as [[-> ->]|[Hj Hu]].
      * inversion Hm; subst; cbn in *; try done; apply Hl; exists i; by eexists.
      * inversion Hm; subst; cbn in *; try done; try (apply Hl; by exists j, u). by destruct (Hold j u Hj Hu I).
  - intros j k u v Hu Hv Hgu Hgv. apply Hins in Hu as [[-> ->]|[Hji Hu]], Hv as [[-> ->]|[Hki Hv]]; try done.
    + by destruct (Hnew k v Hki Hv Hgu).
    + by destruct (Hnew j u Hji Hu Hgv).
    + by apply (Hx j k u v).
  - intros j u f x Hu E. apply Hins in Hu as [[-> ->]|[Hj Hu]].
    + inversion Hm; subst; cbn in *; try done. by injection E as -> ->.
    + rewrite (Hr j u f x Hu E). inversion Hm; subst; cbn in *; try done.
      exfalso. apply (Hold j u Hj Hu I). unfold holds_guard. by rewrite E.
  - intros j u Hu. unfold ran in *. cbn. rewrite filter_app, fmap_app. apply Hins in Hu as [[-> ->]|[Hj Hu]].
    + rewrite (Hp i t Ht).
      inversion Hm; subst; cbn; rewrite ?filter_nil, ?app_nil_r; try done.
      rewrite decide_True by done. cbn. by rewrite <- app_assoc.
    + rewrite (Hp j u Hu). destruct fo as [f|]; cbn; [|by rewrite app_nil_r].
      rewrite decide_False by congruence. by rewrite app_nil_r.
Qed.

Lemma run_consistent d sections schedule s : consistent d sections s → consistent d sections (run schedule s).
Proof.
  revert s. induction schedule as [|i schedule IH]; intros s Hs; [done|]. apply IH. pose proof (turn_cases i s) as Ht.
  destruct (threads s !! i) as [t|] eqn:Et; [|by rewrite Ht].
  destruct Ht as [[_ ->]|(fo & m' & t' & Hm & ->)]; [done|]. by apply (moves_consistent d sections i s t fo).
Qed.

(** Only the threads' own sections run. *)
Lemma run_log_sections (d : T) sections schedule i f : (i, f) ∈ log (run schedule (start d sections)) →
  ∃ fs, sections !! i = Some fs ∧ f ∈ fs.
Proof.
  pose proof (run_consistent d sections schedule _ (start_consistent d sections)) as [_ _ _ _ Hp].
  assert (∀ s : system T, (∀ x, x ∈ log s → is_Some (threads s !! x.1)) →
    ∀ x, x ∈ log (run schedule s) → is_Some (threads (run schedule s) !! x.1)) as H.
  { clear Hp. induction schedule as [|j schedule IH]; intros s Hs; [done|]. apply (IH (turn j s)). pose proof (turn_cases j s) as Ht.
    destruct (threads s !! j) as [t|] eqn:Et; [|by rewrite Ht].
    destruct Ht as [[_ ->]|(fo & m' & t' & _ & ->)]; [done|]. cbn. intros x Hx.
    apply lookup_lt_is_Some. rewrite length_insert. apply lookup_lt_is_Some. apply elem_of_app in Hx as [Hx|Hx]; [by apply Hs|].
    destruct fo; [|by apply elem_of_nil in Hx]. apply list_elem_of_singleton in Hx as ->. by exists t. }
  intros Hin. destruct (H (start d sections) ltac:(by intros x ?%elem_of_nil) _ Hin) as [t Ht]. cbn in Ht.
  exists (ran i (run schedule (start d sections)) ++ pending t). split; [by apply Hp|]. apply elem_of_app. left.
  unfold ran. apply list_elem_of_fmap. exists (i, f). split; [done|]. by apply list_elem_of_filter.
Qed.

(** ** Progress *)

Definition weight t : nat :=
  (5 * length (todo t) + match at_pc t with Idle => 0 | Spinning _ => 4 | Acquired _ => 3 | Loaded _ _ => 2 | Stored => 1 end)%nat.
Definition work s : nat := sum_list (weight <$> threads s).

Lemma moves_weight m t fo m' t' : moves m t fo m' t' → weight t = S (weight t').
Proof. intros Hm. inversion Hm; subst; unfold weight; cbn; lia. Qed.

Lemma work_insert ts i t t' : ts !! i = Some t → weight t = S (weight t') →
  sum_list (weight <$> ts) = S (sum_list (weight <$> <[i := t']> ts)).
Proof.
  revert i. induction ts as [|u ts IH]; intros [|i] Ht Hw; [done..| |].
  - injection Ht as ->. cbn -[weight]. lia.
  - cbn -[weight]. cbn in Ht. rewrite (IH i Ht Hw). apply Nat.add_succ_r.
Qed.

Lemma turn_work i s : turn i s = s ∨ work s = S (work (turn i s)).
Proof.
  pose proof (turn_cases i s) as H. destruct (threads s !! i) as [t|] eqn:Ht; [|by left].
  destruct H as [[_ H]|(fo & m' & t' & Hm & ->)]; [by left|]. right. unfold work. cbn.
  apply (work_insert _ i t); [done|]. by apply (moves_weight _ _ _ _ _ Hm).
Qed.

Lemma turn_threads i s : length (threads (turn i s)) = length (threads s).
Proof.
  pose proof (turn_cases i s) as H. destruct (threads s !! i) as [t|]; [|by rewrite H].
  destruct H as [[_ ->]|(fo & m' & t' & _ & ->)]; [done|]. apply length_insert.
Qed.

(** Unless all is done, some thread can move. *)
Lemma someone_moves d sections s : consistent d sections s → work s ≠ 0%nat →
  ∃ i t, threads s !! i = Some t ∧ ¬ stuck s t.
Proof.
  intros [_ Hl _ _ _] Hw. destruct (locked (mutex s)) eqn:E.
  - destruct (proj1 Hl eq_refl) as (i & t & Ht & Hg). exists i, t. split; [done|].
    intros [->|(_ & f & E')]; [done|]. unfold holds_guard in Hg. by rewrite E' in Hg.
  - assert (∃ i t, threads s !! i = Some t ∧ ¬ finished t) as (i & t & Ht & Hf).
    { clear Hl. unfold work in Hw. induction (threads s) as [|t ts IH]; [done|]. cbn -[weight] in Hw.
      destruct (decide (weight t = 0%nat)) as [Hz|Hz].
      - rewrite Hz in Hw. destruct (IH Hw) as (i & u & Hu & Hf). by exists (S i), u.
      - exists 0%nat, t. split; [done|]. by intros ->. }
    exists i, t. split; [done|]. intros [?|(Hc & _)]; [done|]. by rewrite E in Hc.
Qed.

(** A round of turns in which every thread has one. *)
Definition round s (r : list nat) : Prop := ∀ i, (i < length (threads s))%nat → i ∈ r.

Lemma run_work r s : run r s = s ∧ (∀ i, i ∈ r → turn i s = s) ∨ (work (run r s) < work s)%nat.
Proof.
  revert s. induction r as [|i r IH]; intros s; [left; split; [done|]; by intros i ?%not_elem_of_nil|].
  change (run (i :: r) s) with (run r (turn i s)). destruct (turn_work i s) as [E|E].
  - rewrite E. destruct (IH s) as [[E2 Ha]|?]; [left|by right]. split; [done|]. intros j [->|Hj]%elem_of_cons; auto.
  - right. destruct (IH (turn i s)) as [[-> _]|?]; lia.
Qed.

Lemma round_works d sections s r : consistent d sections s → round s r → work s ≠ 0%nat → (work (run r s) < work s)%nat.
Proof.
  intros Hc Hr Hw. destruct (run_work r s) as [[_ Ha]|?]; [|done]. exfalso.
  destruct (someone_moves d sections s Hc Hw) as (i & t & Ht & Hs).
  assert (turn i s = s) as E by by apply Ha, Hr, (lookup_lt_Some _ _ t).
  pose proof (turn_cases i s) as H. rewrite Ht, E in H. destruct H as [[? _]|(fo & m' & t' & Hm & E')]; [done|].
  pose proof (work_insert (threads s) i t t' Ht (moves_weight _ _ _ _ _ Hm)) as Hlt.
  apply (f_equal threads) in E'. cbn in E'. rewrite <- E' in Hlt. lia.
Qed.

Lemma run_threads r s : length (threads (run r s)) = length (threads s).
Proof. revert s. induction r as [|i r IH]; intros s; [done|]. change (run (i :: r) s) with (run r (turn i s)). by rewrite IH, turn_threads. Qed.

Lemma run_app r q s : run (r ++ q) s = run q (run r s).
Proof. apply foldl_app. Qed.

Lemma rounds_work d sections rs s : consistent d sections s → Forall (round s) rs →
  (work (run (concat rs) s) ≤ work s - length rs)%nat.
Proof.
  revert s. induction rs as [|r rs IH]; intros s Hc Hr; [cbn; lia|]. apply Forall_cons in Hr as [Hr Hrs].
  cbn [concat length]. rewrite run_app.
  assert (work (run (concat rs) (run r s)) ≤ work (run r s) - length rs)%nat as H.
  { apply IH; [by apply run_consistent|]. eapply Forall_impl; [exact Hrs|]. intros q Hq i Hi. apply Hq. by rewrite <- (run_threads r). }
  destruct (decide (work s = 0%nat)) as [Hz|Hz].
  - destruct (run_work r s) as [[E _]|?]; [rewrite E in *|]; lia.
  - pose proof (round_works d sections s r Hc Hr Hz). lia.
Qed.

Lemma no_work s i t : work s = 0%nat → threads s !! i = Some t → finished t.
Proof.
  unfold work. intros Hw Ht. assert (weight t = 0%nat) as Hz.
  { revert i Ht. induction (threads s) as [|u ts IH]; intros [|i] Ht; [done..| |]; cbn -[weight] in *; [injection Ht as ->; lia|]. apply (IH ltac:(lia) i Ht). }
  unfold weight, finished in *. destruct t as [[|f fs] [|f'|f'|f' x|]]; cbn in Hz; try lia; done.
Qed.
Lemma start_work d (sections : list (list (T → T))) : work (start d sections) = (5 * length (concat sections))%nat.
Proof.
  unfold work, start. cbn. induction sections as [|fs sections IH]; [done|]. cbn -[weight] in *. rewrite length_app, IH. unfold weight. cbn. lia.
Qed.
End mutex_facts.

(** C31: the lock makes critical sections atomic.  However the accesses of the threads
    interleave, at most one thread holds a guard, the mutex is locked exactly when
    one does, the data is what the sections run so far give when run one after the
    other, and each thread's sections run in its own order. *)
Theorem mutex_serialises {T} (d : T) sections schedule :
  let s := run schedule (start d sections) in
  data (mutex s) = in_turn d (log s).*2 ∧
  (locked (mutex s) = true ↔ ∃ i t, threads s !! i = Some t ∧ holds_guard t) ∧
  (∀ i j t u, threads s !! i = Some t → threads s !! j = Some u → holds_guard t → holds_guard u → i = j) ∧
  (∀ i t, threads s !! i = Some t → sections !! i = Some (ran i s ++ pending t)).
Proof. intros s. destruct (run_consistent d sections schedule _ (start_consistent d sections)) as [? ? ? _ ?]. done. Qed.

(** C32: if every thread keeps getting turns, every thread gets through: after five
    rounds for each section all threads have run all their sections, the mutex is
    unlocked and the data is what the sections give in some order that keeps each
    thread's own. *)
Theorem mutex_fair_completes {T} (d : T) sections rounds :
  Forall (λ r, ∀ i, (i < length sections)%nat → i ∈ r) rounds → (5 * length (concat sections) ≤ length rounds)%nat →
  let s := run (concat rounds) (start d sections) in
  (∀ i t, threads s !! i = Some t → finished t ∧ sections !! i = Some (ran i s)) ∧
  locked (mutex s) = false ∧ data (mutex s) = in_turn d (log s).*2.
Proof.
  intros Hr Hn s. pose proof (run_consistent d sections (concat rounds) _ (start_consistent d sections)) as Hc. fold s in Hc.
  assert (work s = 0%nat) as Hw.
  { pose proof (rounds_work d sections rounds (start d sections) (start_consistent d sections)) as H.
    rewrite start_work in H. fold s in H. enough (work s ≤ 0)%nat by lia. etransitivity; [apply H|lia].
    eapply Forall_impl; [exact Hr|]. intros r Hi i Hlt. apply Hi. cbn in Hlt. by rewrite length_fmap in Hlt. }
  assert (∀ i t, threads s !! i = Some t → finished t) as Hf by (intros i t; by apply no_work).
  destruct Hc as [Hd Hl _ _ Hp]. split; [|split; [|done]].
  - intros i t Ht. split; [by apply (Hf i)|]. rewrite (Hp i t Ht), (Hf i t Ht). by rewrite app_nil_r.
  - apply not_true_is_false. intros (i & t & Ht & Hg)%Hl. by rewrite (Hf i t Ht) in Hg.
Qed.

(** Two threads that add one and double: the last order of the turns decides. *)
Lemma mutex_fair_completes_witness :
  let s := run (concat (replicate 10 [0; 1]%nat)) (start 5 [[Z.add 1]; [Z.mul 2]]) in
  locked (mutex s) = false ∧ data (mutex s) = 12.
Proof.
  destruct (mutex_fair_completes 5 [[Z.add 1]; [Z.mul 2]] (replicate 10 [0; 1]%nat)) as (_ & E & Ed).
  - apply Forall_replicate. intros [|[|i]] Hi; [apply elem_of_cons; by left|apply elem_of_cons; right; by apply list_elem_of_singleton|cbn in Hi; lia].
  - by vm_compute.
  - split; [exact E|]. rewrite Ed. by vm_compute.
Defined.

(** A thread that waits for a guard held by code it has interrupted waits for ever:
    as long as only it runs, nothing changes.  Interrupts stay enabled while a guard
    is held, and the fault report allocates. *)
Lemma handler_waits_for_ever {T} (s : system T) i t f n : threads s !! i = Some t → at_pc t = Spinning f →
  locked (mutex s) = true → run (replicate n i) s = s.
Proof.
  intros Ht E Hl. induction n as [|n IH]; [done|]. change (run (replicate (S n) i) s) with (run (replicate n i) (turn i s)).
  assert (turn i s = s) as ->; [|done]. pose proof (turn_cases i s) as H. rewrite Ht in H.
  destruct H as [[_ ?]|(fo & m' & t' & Hm & _)]; [done|]. destruct s as [[b d] ts l]. cbn in *. subst. by inversion Hm; subst.
Qed.
