(* ===== verification/GlobalAlloc.v ===== *)
(** src/src/mem/allocator.rs, [GlobalAlloc for Mutex<LinkedListAllocator>]: the heap
    behind the lock.  Threads allocate and give back through one [Mutex] (Sync.v);
    whatever the order their accesses happen in, every byte of the heap is free or in
    exactly one block. *)

From S2P Require Import Prelude Mem Heap Sync.

(** A block a thread was given and has not given back. *)
Record block := mk_block { b_owner : nat; b_ptr : Z; b_layout : Layout }.

(** The allocator, the blocks in use (newest first), and how the calls so far ended. *)
Record shared := mk_shared { sh_heap : LinkedListAllocator; sh_live : list block; sh_result : outcome unit }.

Inductive request :=
  | Alloc (layout : Layout)
  | Dealloc (n : nat).  (** its [n]th newest block *)

Section galloc.
Context (head_addr : Z).

(** [alloc] and [dealloc], between taking the lock and dropping the guard. *)
Definition alloc (layout : Layout) : prog LinkedListAllocator Z := inner_alloc head_addr layout.
Definition dealloc (ptr : Z) (layout : Layout) : prog LinkedListAllocator unit := inner_dealloc head_addr ptr layout.

(** The newest first of a thread's blocks, with those before and after it. *)
Fixpoint split_block (owner n : nat) (live : list block) : option (list block * block * list block) :=
  match live with
  | [] => None
  | b :: rest =>
      if decide (b_owner b = owner) then
        match n with
        | O => Some ([], b, rest)
        | S n' => '(l1, b', l2) ← split_block owner n' rest; Some (b :: l1, b', l2)
        end
      else '(l1, b', l2) ← split_block owner n rest; Some (b :: l1, b', l2)
  end.

(** One call, as a critical section; a call that panics stops everything. *)
Definition call (owner : nat) (r : request) (s : shared) : shared :=
  if negb (is_ok (sh_result s)) then s else
  match r with
  | Alloc layout =>
      match alloc layout (sh_heap s) with
      | (Ok ptr, h) => mk_shared h (if is_null ptr then sh_live s else mk_block owner ptr layout :: sh_live s) (Ok tt)
      | (_, h) => mk_shared h (sh_live s) Panic
      end
  | Dealloc n =>
      match split_block owner n (sh_live s) with
      | None => s
      | Some (l1, b, l2) =>
          match dealloc (b_ptr b) (b_layout b) (sh_heap s) with
          | (Ok _, h) => mk_shared h (l1 ++ l2) (Ok tt)
          | (_, h) => mk_shared h (sh_live s) Panic
          end
      end
  end.
End galloc.

(** * Who owns a byte *)

Definition block_region (b : block) : region := (b_ptr b, block_size (b_layout b)).
#[export] Instance in_region_dec x r : Decision (in_region x r).
Proof. unfold in_region. apply _. Defined.

(** How many blocks hold a byte. *)
Definition owners (live : list block) (x : Z) : nat := length (filter (λ b, in_region x (block_region b)) live).

Record request_ok (hi : Z) (layout : Layout) : Prop := {
  ro_valid : layout_valid layout;
  ro_align : l_align layout ≤ NODE_ALIGN;
  ro_top : hi + block_size layout + NODE_ALIGN ≤ 2^64;
}.

(** Every byte is in a free region or in one block. *)
Record shared_ok (head_addr lo hi : Z) (s : shared) (l : list region) : Prop := {
  so_result : sh_result s = Ok tt;
  so_heap : heap_inv head_addr lo hi (sh_heap s) l;
  so_blocks : Forall (λ b, request_ok hi (b_layout b) ∧ b_ptr b ≠ 0 ∧ regions_wf lo hi [block_region b]) (sh_live s);
  so_bytes : ∀ x, lo ≤ x < hi → (free_byte l x ∧ owners (sh_live s) x = O) ∨ (¬ free_byte l x ∧ owners (sh_live s) x = 1%nat);
}.

Lemma owners_cons b live x : owners (b :: live) x = ((if decide (in_region x (block_region b)) then 1 else 0) + owners live x)%nat.
Proof. unfold owners. rewrite filter_cons. by case_decide. Qed.

Lemma owners_middle l1 b l2 x :
  owners (l1 ++ b :: l2) x = ((if decide (in_region x (block_region b)) then 1 else 0) + owners (l1 ++ l2) x)%nat.
Proof. unfold owners. rewrite !filter_app, filter_cons, !length_app. case_decide; cbn; lia. Qed.

Lemma split_block_Some owner n live l1 b l2 : split_block owner n live = Some (l1, b, l2) → live = l1 ++ b :: l2 ∧ b_owner b = owner.
Proof.
  revert n l1. induction live as [|b' live IH]; intros n l1; [done|]. cbn. case_decide as Ho; [destruct n as [|n]|].
  - by intros [= <- <- <-].
  - destruct (split_block owner n live) as [[[k1 k] k2]|] eqn:E; [|done]. cbn. intros [= <- <- <-].
    by destruct (IH _ _ E) as [-> ?].
  - destruct (split_block owner n live) as [[[k1 k] k2]|] eqn:E; [|done]. cbn. intros [= <- <- <-].
    by destruct (IH _ _ E) as [-> ?].
Qed.

(** Regions without a byte in common. *)
Lemma disjoint_bytes r r' : 0 < r.2 → 0 < r'.2 → (∀ x, in_region x r → in_region x r' → False) → disjoint_region r r'.
Proof.
  unfold in_region, disjoint_region. intros H H' Hx.
  destruct (decide (r.1 ≤ r'.1)); [pose proof (Hx r'.1)|pose proof (Hx r.1)]; lia.
Qed.

Section galloc_facts.
Context {head_addr lo hi : Z}.

Lemma alloc_call_ok owner layout s l : shared_ok head_addr lo hi s l → request_ok hi layout →
  ∃ l', shared_ok head_addr lo hi (call head_addr owner (Alloc layout) s) l'.
Proof.
  intros [Hr Hh Hb Hx] Hq. pose proof Hq as [V Ha Ht]. pose proof (block_align_small _ V Ha) as Eal.
  unfold call, alloc. rewrite Hr. cbn [is_ok negb].
  destruct (take_region (suits NODE_ALIGN (block_size layout)) l) as [[[a z] l0]|] eqn:T.
  - destruct (inner_alloc_block head_addr lo hi _ l layout a z l0 Hh V Eal Ht T) as (h' & l' & -> & I & _ & [W D] & F).
    pose proof W as (Hlo & _ & _ & Hhi & _). pose proof (hi_bounds _ _ _ _ _ Hh) as [Hb0 _].
    assert (is_null a = false) as -> by (unfold is_null; lia). exists l'. split; cbn [sh_live sh_heap sh_result]; [done|done| |].
    + constructor; [|done]. split; [done|]. split; [cbn; lia|exact W].
    + intros x Hxr. rewrite owners_cons. specialize (F x). change (block_region _) with (a, block_size layout).
      assert (in_region x (a, block_size layout) → ¬ free_byte l' x) as Hd.
      { intros Hin (r & Hr' & Hin')%Exists_exists. rewrite Forall_forall in D. specialize (D r Hr').
        unfold in_region, disjoint_region in *. cbn in *. lia. }
      case_decide; destruct (Hx x Hxr) as [[Hf ->]|[Hf ->]]; cbn; [right|exfalso|left|right]; tauto.
  - pose proof (inner_alloc_run head_addr lo hi _ l layout Hh V ltac:(by rewrite Eal)) as R.
    cbv zeta in R. rewrite Eal, T in R. rewrite R. exists l. by split.
Qed.

Lemma dealloc_call_ok owner n s l : shared_ok head_addr lo hi s l →
  ∃ l', shared_ok head_addr lo hi (call head_addr owner (Dealloc n) s) l'.
Proof.
  intros Hs. pose proof Hs as [Hr Hh Hb Hx]. unfold call, dealloc. rewrite Hr. cbn [is_ok negb].
  destruct (split_block owner n (sh_live s)) as [[[l1 b] l2]|] eqn:E; [|by exists l].
  apply split_block_Some in E as [E _]. rewrite E in Hb, Hx. apply Forall_app in Hb as [Hb1 [(Hq & _ & W) Hb2]%Forall_cons].
  assert (block_ok lo hi (b_ptr b) (block_size (b_layout b)) l) as B.
  { split; [exact W|]. apply Forall_forall. intros r Hin. pose proof W as (Hlo & _ & Hz & Hhi & _).
    destruct (regions_wf_hi lo hi l r (hi_wf _ _ _ _ _ Hh) Hin) as (Hr0 & Hr1 & Hr2 & _). unfold NODE_SIZE in *.
    apply disjoint_bytes; [cbn; lia|lia|]. intros x Hx1 Hx2.
    destruct (Hx x ltac:(unfold in_region in *; lia)) as [[_ Ho]|[Hf _]]; [|apply Hf, Exists_exists; eauto].
    rewrite owners_middle in Ho. change (block_region b) with (b_ptr b, block_size (b_layout b)) in Ho.
    rewrite decide_True in Ho by done. lia. }
  destruct (inner_dealloc_run _ _ _ _ _ _ _ Hh (ro_valid _ _ Hq) B) as (h' & l' & -> & I & _ & F).
  exists l'. split; cbn [sh_live sh_heap sh_result]; [done|done|by apply Forall_app|]. intros x Hxr. specialize (F x). specialize (Hx x Hxr).
  rewrite owners_middle in Hx. change (block_region b) with (b_ptr b, block_size (b_layout b)) in Hx.
  case_decide; cbn in Hx; intuition lia.
Qed.

Lemma call_ok owner r s l : shared_ok head_addr lo hi s l → (if r is Alloc layout then request_ok hi layout else True) →
  ∃ l', shared_ok head_addr lo hi (call head_addr owner r s) l'.
Proof. destruct r; intros; [by apply (alloc_call_ok owner _ _ l)|by apply (dealloc_call_ok owner _ _ l)]. Qed.

Lemma calls_ok fs s l : Forall (λ f, ∃ owner r, f = call head_addr owner r ∧ (if r is Alloc layout then request_ok hi layout else True)) fs →
  shared_ok head_addr lo hi s l → ∃ l', shared_ok head_addr lo hi (in_turn s fs) l'.
Proof.
  intros Hf. revert s l. induction Hf as [|f fs (owner & r & -> & Hr) _ IH]; intros s l Hs; [by exists l|].
  destruct (call_ok owner r s l Hs Hr) as [l' Hs']. by apply (IH _ l').
Qed.
End galloc_facts.

(** The threads' calls, as critical sections of the lock. *)
Definition call_sections (head_addr : Z) (requests : list (list request)) : list (list (shared → shared)) :=
  imap (λ i rs, call head_addr i <$> rs) requests.


(** Two threads on the one-page heap: one takes 100 bytes, the other 24 and gives them
    back; the turns alternate. *)
Definition demo_requests : list (list request) :=
  [[Alloc {| l_size := 100; l_align := 2^3 |}]; [Alloc {| l_size := 24; l_align := 2^3 |}; Dealloc 0]].

