(* ===== verification/Video.v ===== *)
(** The framebuffer: src/src/drivers/video.rs, [memset32] of mem/mod.rs, and
    [draw_gradient] of main.rs, which draws into pages of the physical allocator.

    Memory is that of Pmm.v, which the framebuffer is mapped into. *)

From S2P Require Import Prelude Mem Pmm Sync.

Section video.
(** The direct-map offset. *)
Context (hhdm : Z).
Notation P := (prog PhysicalMemoryManager).

Record Framebuffer := mk_framebuffer { fb_width : Z; fb_height : Z; fb_bpp : Z; fb_pitch : Z; fb_pointer : Z }.
Definition Framebuffer_new (bpp pitch ptr width height : Z) : Framebuffer := mk_framebuffer width height bpp pitch ptr.
Definition fb_len (fb : Framebuffer) : Z := u64 (fb_pitch fb * fb_height fb).

(** [ptr.write(v)] of a [u32]. *)
Definition write_u32 (a v : Z) (m : Z → Z) : Z → Z :=
  λ x, if decide (a ≤ x < a + 4) then nth (Z.to_nat (x - a)) (le_bytes 4 v) 0 else m x.
Definition store_u32 (a v : Z) : P unit := modify (λ s, set_ram (write_u32 a v (ram s)) s).
(** [copy_nonoverlapping(src, dst, count)] of [u32]s. *)
Definition copy_words (src dst count : Z) : P unit :=
  modify (λ s, set_ram (λ x, if decide (dst ≤ x < dst + 4 * count) then ram s (src + (x - dst)) else ram s x) s).

(** [rep stosd] *)
Definition memset32 (dst val count : Z) : P unit := for_each (seqZ 0 count) (λ i, store_u32 (u64 (dst + 4 * i)) val).

Definition put_pixel (fb : Framebuffer) (x y color : Z) : P unit :=
  let pixel_offset := u32 (u32 (y * u32 (fb_pitch fb)) + u32 (x * u32 (fb_bpp fb / 8))) in
  store_u32 (u64 (fb_pointer fb + pixel_offset)) color.

Definition fill_screen (fb : Framebuffer) (color : Z) (mirror_buffer : option Framebuffer) : P unit :=
  row ← lift (rdiv (fb_pitch fb) (fb_bpp fb / 8));
  let buffer_size := u64 (row * fb_height fb) in
  match mirror_buffer with Some mirror => memset32 (fb_pointer mirror) color buffer_size | None => mret tt end ;;
  memset32 (fb_pointer fb) color buffer_size.

(** [buffer] is a slice of [length] words. *)
Definition blit_screen (fb : Framebuffer) (buffer length : Z) (mirror_buffer : option Framebuffer) : P unit :=
  copy_words buffer (fb_pointer fb) length ;;
  match mirror_buffer with Some mirror => copy_words buffer (fb_pointer mirror) length | None => mret tt end.

(** The boot loader's framebuffer, read once. *)
Definition get_framebuffer (limine_framebuffer : option (Z * Z * Z * Z * Z)) : prog (OnceCellState (option Framebuffer)) (option Framebuffer) :=
  get_or_set (mret ('(bpp, pitch, addr, width, height) ← limine_framebuffer; Some (Framebuffer_new bpp pitch addr width height))).

(** ** The gradient *)

Definition draw_pixel (fb : Framebuffer) (buffer length y x : Z) : P unit :=
  r ← lift (rdiv (u64 (255 * x)) (u64 (fb_width fb - 1)));
  g ← lift (rdiv (u64 (255 * y)) (u64 (fb_height fb - 1)));
  let b := u64 (255 - r) in
  let pixel := Z.lor (Z.lor (u32 (Z.shiftl (u32 r) 16)) (u32 (Z.shiftl (u32 g) 8))) (u32 b) in
  row ← lift (rdiv (u64 (y * fb_pitch fb)) (fb_bpp fb / 8));
  let index := u64 (row + x) in
  lift (rassert (index <? length)) ;;
  store_u32 (buffer + 4 * index) pixel.

Definition draw_gradient (framebuffer : option Framebuffer) : P unit :=
  fb ← lift (of_option Panic framebuffer);
  let length := u64 (u64 (fb_height fb * fb_width fb) * (fb_bpp fb / 8)) in
  let pages := length / PAGE_SIZE in
  page_addr ← pmm_alloc hhdm pages;
  let buffer_ptr := to_higher_half hhdm page_addr in
  lift (rassert (negb (is_null buffer_ptr))) ;;
  for_each (seqZ 0 (fb_height fb)) (λ y, for_each (seqZ 0 (fb_width fb)) (λ x, draw_pixel fb buffer_ptr length y x)) ;;
  blit_screen fb buffer_ptr length None ;;
  pmm_dealloc (to_lower_half hhdm buffer_ptr) pages.
End video.

(** * What the gradient is *)

(** A mode of 32 bits a pixel without padding, whose frame fills whole pages. *)
Record plain_mode (fb : Framebuffer) : Prop := {
  pm_size : 2 ≤ fb_width fb < 2^24 ∧ 2 ≤ fb_height fb < 2^24;
  pm_bpp : fb_bpp fb = 32;
  pm_pitch : fb_pitch fb = 4 * fb_width fb;
  pm_pages : (fb_width fb * fb_height fb * 4) mod PAGE_SIZE = 0;
}.
(** Red to the right, green downwards, blue where red is missing. *)
Definition shade (fb : Framebuffer) (x y : Z) : Z :=
  let r := 255 * x / (fb_width fb - 1) in
  2^16 * r + 2^8 * (255 * y / (fb_height fb - 1)) + (255 - r).

(** Memory with the first [k] pixels of the picture at [buf]. *)
Definition painted (fb : Framebuffer) (buf k : Z) (m : Z → Z) (a : Z) : Z :=
  if decide (buf ≤ a < buf + 4 * k) then
    let i := (a - buf) / 4 in
    nth (Z.to_nat ((a - buf) mod 4)) (le_bytes 4 (shade fb (i mod fb_width fb) (i / fb_width fb))) 0
  else m a.

Lemma painted_step fb buf k m m' a : 0 ≤ k → (∀ a, m' a = painted fb buf k m a) →
  write_u32 (buf + 4 * k) (shade fb (k mod fb_width fb) (k / fb_width fb)) m' a = painted fb buf (k + 1) m a.
Proof.
  intros Hk Hm. unfold write_u32. rewrite Hm. unfold painted. repeat case_decide; try lia; try done.
  assert ((a - buf) / 4 = k ∧ (a - buf) mod 4 = a - (buf + 4 * k)) as [-> ->]; [|done].
  split; symmetry; [apply (Z.div_unique _ _ _ (a - (buf + 4 * k)))|apply (Z.mod_unique _ _ k)]; lia.
Qed.

Lemma ratio_byte x n : 2 ≤ n → 0 ≤ x < n → 0 ≤ 255 * x / (n - 1) < 2^8.
Proof. intros Hn Hx. split; [apply Z.div_pos; lia|apply Z.div_lt_upper_bound; lia]. Qed.

Lemma draw_pixel_Ok fb buf y x : plain_mode fb → 0 ≤ x < fb_width fb → 0 ≤ y < fb_height fb →
  ∀ s, draw_pixel fb buf (fb_width fb * fb_height fb * 4) y x s =
    store_u32 (buf + 4 * (y * fb_width fb + x)) (shade fb x y) s.
Proof.
  intros [[Hw Hh] Hbpp Hpitch _] Hx Hy s. unfold draw_pixel.
  pose proof (ratio_byte x (fb_width fb) ltac:(lia) Hx) as Hr. pose proof (ratio_byte y (fb_height fb) ltac:(lia) Hy) as Hg.
  rewrite Hbpp, Hpitch. change (32 / 8) with 4.
  rewrite (u64_small (255 * x)), (u64_small (255 * y)), (u64_small (fb_width fb - 1)), (u64_small (fb_height fb - 1)) by lia.
  unfold rdiv. rewrite (proj2 (Z.eqb_neq (fb_width fb - 1) 0)), (proj2 (Z.eqb_neq (fb_height fb - 1) 0)) by lia.
  do 2 rewrite (bind_Ok (lift (Ok _)) _ _ _ _ eq_refl). cbn [Z.eqb]. rewrite (bind_Ok (lift (Ok _)) _ _ _ _ eq_refl).
  set (r := 255 * x / (fb_width fb - 1)) in *. set (g := 255 * y / (fb_height fb - 1)) in *.
  assert (0 ≤ y * fb_width fb < 2^48) by nia.
  rewrite (u64_small (y * _)) by nia. replace (y * (4 * fb_width fb) / 4) with (y * fb_width fb) by (rewrite (Z.mul_comm 4), Z.mul_assoc, Z.div_mul; lia).
  rewrite (u64_small (y * fb_width fb + x)) by lia. rewrite (proj2 (Z.ltb_lt _ _)) by nia.
  rewrite (bind_Ok (lift (rassert true)) _ _ _ _ eq_refl). f_equal. unfold shade. fold r g.
  rewrite (u64_small (255 - r)), !(u32_small r), !(u32_small g), (u32_small (255 - r)) by lia.
  rewrite (u32_small (Z.shiftl r 16)), (u32_small (Z.shiftl g 8)) by (rewrite Z.shiftl_mul_pow2 by done; lia).
  rewrite shiftl_or_add by (rewrite ?Z.shiftl_mul_pow2 by done; unfold fits; lia).
  rewrite Z.shiftl_mul_pow2 by done. replace (r * 2^16 + g * 2^8) with (Z.shiftl (r * 2^8 + g) 8) by (rewrite Z.shiftl_mul_pow2; lia).
  rewrite shiftl_or_add by (unfold fits; lia). lia.
Qed.

(** The two loops draw the picture into the buffer and nowhere else. *)
Lemma gradient_loops fb buf s : plain_mode fb →
  ∃ s', for_each (seqZ 0 (fb_height fb)) (λ y, for_each (seqZ 0 (fb_width fb)) (λ x,
      draw_pixel fb buf (fb_width fb * fb_height fb * 4) y x)) s = (Ok tt, s') ∧
    s' = set_ram (ram s') s ∧ ∀ a, ram s' a = painted fb buf (fb_height fb * fb_width fb) (ram s) a.
Proof.
  intros Hm. pose proof Hm as [[Hw Hh] _ _ _].
  apply (for_each_seqZ (λ y s', s' = set_ram (ram s') s ∧ ∀ a, ram s' a = painted fb buf (y * fb_width fb) (ram s) a)); [lia| |].
  { split; [by destruct s|]. intros a. unfold painted. by rewrite decide_False by lia. }
  intros y s1 Hy H1.
  destruct (for_each_seqZ (λ x s', s' = set_ram (ram s') s ∧ ∀ a, ram s' a = painted fb buf (y * fb_width fb + x) (ram s) a)
    (λ x, draw_pixel fb buf (fb_width fb * fb_height fb * 4) y x) (fb_width fb) s1) as (s2 & E2 & H2); [lia|by rewrite Z.add_0_r| |].
  - intros x s2 Hx [Hs Ha]. rewrite draw_pixel_Ok by done. eexists. split; [reflexivity|]. cbn. split; [destruct s, s2; cbn in *; by injection Hs as -> -> -> -> ->|].
    intros a. replace (y * fb_width fb + (x + 1)) with (y * fb_width fb + x + 1) by lia.
    rewrite <- (painted_step fb buf _ _ (ram s2) a) by (done || nia). do 2 f_equal.
    + apply (Z.mod_unique _ _ y); lia.
    + apply (Z.div_unique _ _ _ x); lia.
  - exists s2. split; [done|]. by replace ((y + 1) * fb_width fb) with (y * fb_width fb + fb_width fb) by lia.
Qed.

Lemma painted_pixel fb buf m x y i : 0 ≤ x < fb_width fb → 0 ≤ y < fb_height fb → 0 ≤ i < 4 →
  painted fb buf (fb_height fb * fb_width fb) m (buf + (4 * (y * fb_width fb + x) + i)) = nth (Z.to_nat i) (le_bytes 4 (shade fb x y)) 0.
Proof.
  intros Hx Hy Hi. unfold painted. rewrite decide_True by nia. cbv zeta.
  assert ((buf + (4 * (y * fb_width fb + x) + i) - buf) / 4 = y * fb_width fb + x ∧
    (buf + (4 * (y * fb_width fb + x) + i) - buf) mod 4 = i ∧ (y * fb_width fb + x) mod fb_width fb = x ∧ (y * fb_width fb + x) / fb_width fb = y)
    as (-> & -> & -> & ->); [|done].
  split_and!; symmetry; [apply (Z.div_unique _ _ _ i)|apply (Z.mod_unique _ _ (y * fb_width fb + x))|apply (Z.mod_unique _ _ y)|apply (Z.div_unique _ _ _ x)]; lia.
Qed.

(** Drawing, once the allocation and the loops are known. *)
Lemma gradient_run hhdm fb page s s1 s2 : plain_mode fb → 0 < page → 0 ≤ hhdm → hhdm + page * PAGE_SIZE < 2^64 →
  let size := fb_width fb * fb_height fb * 4 in let buf := hhdm + page * PAGE_SIZE in
  pmm_alloc hhdm (size / PAGE_SIZE) s = (Ok (page * PAGE_SIZE), s1) →
  for_each (seqZ 0 (fb_height fb)) (λ y, for_each (seqZ 0 (fb_width fb)) (λ x, draw_pixel fb buf size y x)) s1 = (Ok tt, s2) →
  draw_gradient hhdm (Some fb) s = (copy_words buf (fb_pointer fb) size ;; pmm_dealloc (page * PAGE_SIZE) (size / PAGE_SIZE)) s2.
Proof.
  intros [[Hw Hh] Hbpp _ _] Hpage Hhh Htop size buf E1 E2. unfold PAGE_SIZE in *. unfold draw_gradient.
  rewrite (bind_Ok (lift (Ok fb)) _ _ _ _ eq_refl).
  assert (u64 (u64 (fb_height fb * fb_width fb) * (fb_bpp fb / 8)) = size) as ->.
  { rewrite Hbpp. change (32 / 8) with 4. rewrite (u64_small (fb_height fb * _)), u64_small by nia. unfold size. lia. }
  cbv zeta. unfold PAGE_SIZE. rewrite (bind_Ok _ _ _ _ _ E1).
  assert (to_higher_half hhdm (page * 4096) = buf ∧ to_lower_half hhdm buf = page * 4096) as [-> ->].
  { unfold to_higher_half, to_lower_half, buf. rewrite !u64_small by (rewrite ?u64_small by lia; lia). lia. }
  assert (is_null buf = false) as -> by (unfold is_null, buf; lia). rewrite (bind_Ok (lift (rassert true)) _ _ _ _ eq_refl).
  rewrite (bind_Ok _ _ _ _ _ E2). unfold blit_screen. rewrite bind_assoc. done.
Qed.

Lemma store_kept {n} s s' : highest_page_idx s' = highest_page_idx s → last_used_page_idx s' = last_used_page_idx s →
  bitmap s' = bitmap s → (∀ k, 0 ≤ k < n → ram s' (bitmap s + k) = ram s (bitmap s + k)) →
  (∀ j, 0 ≤ j < 8 * n → page_free s' j = page_free s j) ∧ (0 < n → pmm_inv n s → pmm_inv n s').
Proof.
  intros Hh Hl Hb Hk. assert (∀ j, 0 ≤ j < 8 * n → page_free s' j = page_free s j) as Hp.
  { intros j Hj. unfold page_free. rewrite Hb, Hk; [done|]. split; [apply Z.div_pos; lia|apply Z.div_lt_upper_bound; lia]. }
  split; [done|]. intros Hn [? ? ? ? ?]. constructor; rewrite ?Hh, ?Hl, ?Hb; try done. by rewrite Hp by lia.
Qed.

(** C40: the gradient.  In a plain mode, with enough free pages and the framebuffer
    clear of the direct map and the bitmap, drawing succeeds: every pixel of the
    screen shows its shade and the pages are free again.  But the copy is four times
    as long as the frame: the three frames' worth of memory after the framebuffer
    is overwritten with what lies after the buffer. *)
Theorem gradient_spec hhdm fb n s a : plain_mode fb → pmm_inv n s → bitmap_safe hhdm n s →
  0 ≤ hhdm → hhdm + highest_page_idx s * PAGE_SIZE ≤ 2^64 → fits 64 (used_pages s) →
  let size := fb_width fb * fb_height fb * 4 in
  0 ≤ a → a + size / PAGE_SIZE ≤ highest_page_idx s → free_run s a (size / PAGE_SIZE) →
  (∀ x, fb_pointer fb ≤ x < fb_pointer fb + 4 * size →
    ¬ (bitmap s ≤ x < bitmap s + n) ∧ ¬ (hhdm ≤ x < hhdm + highest_page_idx s * PAGE_SIZE)) →
  ∃ s' page, draw_gradient hhdm (Some fb) s = (Ok tt, s') ∧ (0 < page ∧ page + size / PAGE_SIZE ≤ highest_page_idx s) ∧ free_run s page (size / PAGE_SIZE) ∧
    (∀ x y i, 0 ≤ x < fb_width fb → 0 ≤ y < fb_height fb → 0 ≤ i < 4 →
      ram s' (fb_pointer fb + 4 * (y * fb_width fb + x) + i) = nth (Z.to_nat i) (le_bytes 4 (shade fb x y)) 0) ∧
    (∀ d, size ≤ d < 4 * size → ¬ (bitmap s ≤ hhdm + page * PAGE_SIZE + d < bitmap s + n) →
      ram s' (fb_pointer fb + d) = ram s (hhdm + page * PAGE_SIZE + d)) ∧
    (∀ j, 0 ≤ j < 8 * n → page_free s' j = page_free s j).
Proof.
  intros Hm Hinv Hsafe Hh Htop Hused size Ha Hahi Hrun Hclear. pose proof Hm as [[Hw Hht] Hbpp Hpitch Hpages].
  pose proof (inv_highest _ _ Hinv) as Hhi. pose proof (inv_covers _ _ Hinv) as Hcov. unfold PAGE_SIZE in *.
  assert (size = 4096 * (size / 4096)) as Hsize by (pose proof (Z_div_mod_eq_full size 4096) as E; fold size in Hpages; lia).
  assert (16 ≤ size < 2^50) as Hbig by (unfold size; nia). set (pages := size / 4096) in *.
  destruct (pmm_alloc_Ok hhdm n s pages) as (r & s1 & E1 & Hinv1 & _ & [(page & -> & Hal & _ & Hram)|[_ Hex]]); try done; [lia| |].
  2: { by destruct (ex_no_run _ _ _ Hex a Ha Hahi). }
  destruct Hal as [[Hp0 Hp1] Hfree Hpf Hu1 Hh1 Hb1]. unfold PAGE_SIZE in *.
  set (buf := hhdm + page * 4096) in *.
  destruct (gradient_loops fb buf s1 Hm) as (s2 & E2 & Hs2 & Hr2).
  set (s3 := set_ram (λ x, if decide (fb_pointer fb ≤ x < fb_pointer fb + 4 * size) then ram s2 (buf + (x - fb_pointer fb)) else ram s2 x) s2).
  assert (∀ k, 0 ≤ k < n → ¬ (buf ≤ bitmap s + k < buf + size)) as Hbk.
  { intros k Hk. unfold buf. rewrite Hsize, (Z.mul_comm 4096). apply (zeroing_keeps_bitmap hhdm n s page pages k); unfold PAGE_SIZE; try done; lia. }
  assert (∀ x, ¬ (buf ≤ x < buf + size) → ram s2 x = ram s1 x) as Hout.
  { intros x Hx. rewrite Hr2. unfold painted. by rewrite decide_False by (unfold size in Hx; lia). }
  assert (bitmap s2 = bitmap s ∧ highest_page_idx s2 = highest_page_idx s ∧ last_used_page_idx s2 = last_used_page_idx s1 ∧
    used_pages s2 = used_pages s1) as (Hb2 & Hh2 & Hl2 & Hu2) by (rewrite Hs2; cbn; done).
  destruct (@store_kept n s1 s3) as [Hp3 Hinv3]; [cbn; congruence|cbn; congruence|cbn; congruence| |].
  { intros k Hk. rewrite Hb1. cbn. rewrite decide_False; [by apply Hout, Hbk|]. intros Hx. destruct (Hclear _ Hx) as [Hc _]. lia. }
  specialize (Hinv3 ltac:(lia) Hinv1).
  destruct (pmm_dealloc_spec n s3 page pages Hinv3) as (s4 & E4 & _ & _ & Hf4 & Hp4); [lia|lia|cbn; rewrite Hh2; lia|].
  assert (∀ x, ¬ (bitmap s ≤ x < bitmap s + n) → ram s4 x = ram s3 x) as Hr4.
  { intros x Hx. pose proof (frame_ram _ _ _ Hf4 x) as Hr. cbn in Hr. rewrite Hb2 in Hr. by apply Hr. }
  assert (∀ d, 0 ≤ d < 4 * size → ram s4 (fb_pointer fb + d) = ram s2 (buf + d)) as Hcopy.
  { intros d Hd. destruct (Hclear (fb_pointer fb + d)) as [Hc _]; [lia|]. rewrite Hr4 by done. cbn. rewrite decide_True by lia. f_equal. lia. }
  exists s4, page. split; [|split; [done|split; [done|split; [|split]]]].
  - rewrite (gradient_run hhdm fb page s s1 s2 Hm Hp0 Hh) by (done || unfold PAGE_SIZE; lia).
    rewrite (bind_Ok (copy_words buf (fb_pointer fb) size) _ s2 tt s3) by done. exact E4.
  - intros x y i Hx Hy Hi. replace (fb_pointer fb + 4 * (y * fb_width fb + x) + i) with (fb_pointer fb + (4 * (y * fb_width fb + x) + i)) by lia.
    rewrite Hcopy by (unfold size; nia). by rewrite Hr2, painted_pixel.
  - intros d Hd Hb. rewrite Hcopy, Hout by lia. apply Hram; [done|lia].
  - intros j Hj. rewrite Hp4, Hp3, Hpf by lia. repeat case_decide; try done. symmetry. by apply Hfree.
Qed.

(** A screen of 32 by 32 pixels far above the machine of Pmm.v: the last pixel is
    magenta and green, and the memory behind the screen shows page 3. *)
Definition demo_screen : Framebuffer := mk_framebuffer 32 32 32 128 0x100000.

Lemma gradient_spec_witness : ∃ s', draw_gradient 0 (Some demo_screen) demo_pmm = (Ok tt, s') ∧
  ram s' (0x100000 + 4 * (31 * 32 + 31) + 2) = 255 ∧ ram s' (0x100000 + 4096) = demo_ram 0x3000.
Proof.
  destruct demo_inv as [Hinv Hsafe].
  assert (plain_mode demo_screen) as Hm by by split.
  destruct (gradient_spec 0 demo_screen 1 demo_pmm 2 Hm Hinv Hsafe) as (s' & page & E & Hp & Hrun & Hpix & Hover & _).
  - done.
  - by vm_compute.
  - split; by vm_compute.
  - done.
  - by vm_compute.
  - intros j Hj. change (2 ≤ j < 2 + 1) in Hj. assert (j = 2) as -> by lia. by vm_compute.
  - intros x Hx. change (0x100000 ≤ x < 0x100000 + 16384) in Hx. change (¬ (4096 ≤ x < 4097) ∧ ¬ (0 ≤ x < 0 + 4 * 4096)). lia.
  - change (0 < page ∧ page + 1 ≤ 4) in Hp. specialize (Hrun page). change (page ≤ page < page + 1 → page_free demo_pmm page = true) in Hrun.
    assert (page = 2) as ->.
    { assert (page = 1 ∨ page = 2 ∨ page = 3) as [->|[->| ->]] by lia; [|done|]; by specialize (Hrun ltac:(lia)). }
    exists s'. split; [exact E|]. split.
    + assert (0 ≤ 31 < fb_width demo_screen) as H1 by (by split; vm_compute).
      assert (0 ≤ 31 < fb_height demo_screen) as H2 by (by split; vm_compute).
      pose proof (Hpix 31 31 2 H1 H2 ltac:(lia)) as H. vm_compute in H |- *. exact H.
    + assert (¬ (bitmap demo_pmm ≤ 0 + 2 * PAGE_SIZE + 4096 < bitmap demo_pmm + 1)) as Hb by (intros [_ Hb]; by vm_compute in Hb).
      assert (∀ n, n = 4096 → n ≤ 4096 < 4 * n) as Hn by (intros n ->; lia).
      pose proof (Hover 4096 (Hn _ eq_refl) Hb) as H. vm_compute in H |- *. exact H.
Defined.
