(* ===== verification/Limine.v ===== *)
(** src/src/libs/limine.rs: what the kernel asks of the boot loader's responses.  The
    responses are the limine crate's and come in as arguments: [None] where the boot
    loader has not answered the request. *)

From S2P Require Import Prelude Sync.

(** A module is its path, as bytes, and its file. *)
Definition get_module {A} (modules : option (list (list Z * A))) (module_name : str) : option A :=
  module_response ← modules;
  foldl (λ file module,
    match from_utf8 module.1 with
    | Some path => if contains module_name path then Some module.2 else file
    | None => file
    end) None module_response.

(** [expect] panics without a response. *)
Definition get_hhdm_offset (response : option Z) : prog (OnceCellState Z) Z :=
  known ← attempt once_get;
  match known with
  | None => offset ← lift (of_option Panic response); once_set offset
  | Some _ => mret tt
  end ;;
  get_unchecked.

(** ** The other responses, by the field the kernel takes *)

Definition get_rdsp_ptr (address : option Z) : option Z := address ← address; Some address.
Definition get_smp {A} (response : option A) : option A := response.
(** The first of the framebuffers listed. *)
Definition get_framebuffer {A} (framebuffers : option (list A)) : option A := framebuffers ≫= head.
Definition get_memmap {A} (entries : option (list A)) : outcome (list A) := of_option Panic entries.
Definition get_kernel_address {A} (response : option A) : outcome A := of_option Panic response.
Definition get_kernel_file {A} (response : option A) : option A := response.
Definition get_paging_level {A} (mode : option A) : outcome A := of_option Panic mode.

(** The last module whose path is text and contains the name. *)
Lemma get_module_last {A} (before after : list (list Z * A)) path file text name :
  from_utf8 path = Some text → contains name text = true →
  Forall (λ m, match from_utf8 m.1 with Some path => contains name path = false | None => True end) after →
  get_module (Some (before ++ (path, file) :: after)) name = Some file.
Proof.
  intros Hu Ho Ha. unfold get_module. cbn [mbind option_bind]. rewrite foldl_app. cbn [foldl fst snd]. rewrite Hu, Ho.
  generalize (Some file) as o. induction Ha as [|m after Hm _ IH]; [done|]. intros o. cbn [foldl].
  destruct (from_utf8 m.1); [|apply IH]. by rewrite Hm.
Qed.

(** The offset is asked for once: later calls give the first answer. *)
Lemma get_hhdm_offset_once offset response :
  get_hhdm_offset (Some offset) once_new = (Ok offset, Initialized offset) ∧
  get_hhdm_offset response (Initialized offset) = (Ok offset, Initialized offset).
Proof. done. Qed.
