(* ===== verification/Boot.v ===== *)
(** The rest of src/src/main.rs: the kernel command line, the filter of [log!] and
    the report of the processor's name.

    [print_boot_info] prints the banner and what the processor and the memory are.

    The command line is the bytes the boot loader gives; [KERNEL_FEATURES] is a
    [OnceCell] (Sync.v); [log!] writes to the console of Serial.v. *)

From S2P Require Import Prelude Mem Sync Io Serial.

Section boot.
Context (debug_assertions : bool).

Definition LOG_LEVEL : Z := if debug_assertions then 1 else 2.

(** ** The command line *)

Record KernelFeatures := mk_features { log_level : Z; fat_in_mem : bool }.

Definition dec_digit (c : Z) : option Z := if (48 <=? c) && (c <=? 57) then Some (c - 48) else None.
Fixpoint dec_value (acc : Z) (s : str) : option Z :=
  match s with
  | [] => Some acc
  | c :: s' => d ← dec_digit c; let v := 10 * acc + d in if v <=? u8_max then dec_value v s' else None
  end.
(** [str::parse::<u8>] *)
Definition parse_u8 (s : str) : option Z :=
  match s with
  | [] | [43] | [45] => None
  | 43 :: s' => dec_value 0 s'
  | _ => dec_value 0 s
  end.

Definition update_option (features : KernelFeatures) (option value : str) : KernelFeatures :=
  if bool_decide (option = chars "log_level") then
    mk_features (default LOG_LEVEL (parse_u8 value)) (fat_in_mem features)
  else if bool_decide (option = chars "fat_in_mem") then
    mk_features (log_level features) (bool_decide (value = chars "true"))
  else features.

(** [split_whitespace]: the non-empty pieces between white space. *)
Fixpoint split_spaces (s : str) : list str :=
  match s with
  | [] => [[]]
  | c :: s' =>
      if is_whitespace c then [] :: split_spaces s'
      else match split_spaces s' with
           | part :: rest => (c :: part) :: rest
           | [] => [[c]]
           end
  end.
Definition split_whitespace (s : str) : list str := filter (λ part, part ≠ []) (split_spaces s).

(** One turn of the loop over the arguments. *)
Definition read_argument (features : KernelFeatures) (item : str) : KernelFeatures :=
  match split_on 61 item with [option; value] => update_option features option value | _ => features end.

(** [kernel_file] is the command line of the boot loader's response. *)
Definition parse_kernel_cmdline (kernel_file : option (list Z)) : prog (OnceCellState KernelFeatures) unit :=
  let kernel_features := mk_features LOG_LEVEL true in
  match kernel_file with
  | None => once_set kernel_features
  | Some bytes =>
      cmdline ← lift (of_option Panic (from_utf8 bytes));
      once_set (foldl read_argument kernel_features (split_whitespace cmdline))
  end.

(** ** [log!] *)

Inductive LogLevel := Trace | Debug | Info | Warn | Error | Fatal.
Definition level_u8 (level : LogLevel) : Z :=
  match level with Trace => 0 | Debug => 1 | Info => 2 | Warn => 3 | Error => 4 | Fatal => 5 end.
Definition color_code (level : LogLevel) : list Z :=
  27 :: chars (match level with
    Trace => "[90m" | Debug => "[94m" | Info => "[92m" | Warn => "[93m" | Error => "[91m" | Fatal => "[95m" end).

Definition println {M} `{IoPorts M} (fuel : nat) (text : list Z) : prog M unit := Serial.print fuel (text ++ [10]).

Definition log_text (level : LogLevel) (text : list Z) : list Z :=
  27 :: chars "[97m[ " ++ color_code level ++ chars "* " ++ 27 :: chars "[97m]" ++ 27 :: chars "[0;m " ++ text.
(** The features are only looked at. *)
Definition log {M} `{IoPorts M} (fuel : nat) (features : OnceCellState KernelFeatures) (level : LogLevel) (text : list Z) : prog M unit :=
  let kernel_log_level := match (once_get features).1 with Ok kernel_features => log_level kernel_features | _ => LOG_LEVEL end in
  if kernel_log_level <=? level_u8 level then println fuel (log_text level text) else mret tt.

(** ** The processor's name *)

Record CpuidResult := mk_cpuid { eax : Z; ebx : Z; ecx : Z; edx : Z }.

(** [buf[a..b].copy_from_slice(src)] *)
Definition copy_from_slice (buf : list Z) (a b : Z) (src : list Z) : outcome (list Z) :=
  old ← slice buf a b;
  if len old =? len src then Ok (take (Z.to_nat a) buf ++ src ++ drop (Z.to_nat b) buf) else Panic.

Definition brand_leaf (cpuid : Z → CpuidResult) (st : list Z * Z) (i : Z) : outcome (list Z * Z) :=
  let '(brand_buf, offset) := st in
  let cpuid_result := cpuid (u32 (0x80000002 + i)) in
  brand_buf ← copy_from_slice brand_buf offset (offset + 4) (le_bytes 4 (eax cpuid_result));
  brand_buf ← copy_from_slice brand_buf (offset + 4) (offset + 8) (le_bytes 4 (ebx cpuid_result));
  brand_buf ← copy_from_slice brand_buf (offset + 8) (offset + 12) (le_bytes 4 (ecx cpuid_result));
  brand_buf ← copy_from_slice brand_buf (offset + 12) (offset + 16) (le_bytes 4 (edx cpuid_result));
  mret (brand_buf, offset + 16).

(** The bytes before the first null, as code points. *)
Fixpoint until_null (bytes : list Z) : str :=
  match bytes with [] => [] | c :: bytes' => if c =? 0 then [] else c :: until_null bytes' end.

Definition get_processor_brand (cpuid : Z → CpuidResult) : outcome (option str) :=
  if 0x80000004 <=? eax (cpuid 0x80000000) then mret None else
  st ← foldM (brand_leaf cpuid) (replicate 48 0, 0) [0; 1; 2];
  mret (Some (until_null st.1)).

(** ** The banner *)

(** [String::push(byte as char)], as UTF-8. *)
Definition char_utf8 (c : Z) : list Z := if c <? 128 then [c] else [192 + c / 64; 128 + c mod 64].

Definition banner (build_id : list Z) : list (list Z) :=
  [chars "╔═╗───────────────────╔╗────╔═╗╔══╗";
   chars "║╔╝╔═╗ ╔═╗╔═╗╔╦╗╔═╗╔═╗╠╣╔═╦╗║║║║══╣";
   chars "║╚╗║╬╚╗║╬║║╬║║║║║═╣║═╣║║║║║║║║║╠══║";
   chars "╚═╝╚══╝║╔╝║╔╝╚═╝╚═╝╚═╝╚╝╚╩═╝╚═╝╚══╝";
   chars "───────╚╝─╚╝ ©juls0730 " ++ build_id].
Definition memory_line (total_memory : Z) : list Z := chars (label_fmt (label_bytes total_memory)) ++ chars " of memory available".
Definition mode_line : list Z := chars "The kernel was built in " ++ chars (if debug_assertions then "debug" else "release") ++ chars " mode".
Definition cpu_line (processor_brand : str) : list Z := chars "Detected CPU: " ++ (processor_brand ≫= char_utf8).

Definition print_boot_info {M} `{IoPorts M} (fuel : nat) (build_id : list Z) (total_memory : Z) (cpuid : Z → CpuidResult) : prog M unit :=
  for_each (banner build_id) (println fuel) ;;
  println fuel (memory_line total_memory) ;;
  println fuel mode_line ;;
  processor_brand ← lift (get_processor_brand cpuid);
  match processor_brand with
  | Some processor_brand => println fuel (cpu_line processor_brand)
  | None => mret tt
  end.

End boot.

(** * Words *)

Definition no_space (s : str) : Prop := Forall (λ c, is_whitespace c = false) s.

(** [text] is the words with white space between them, and perhaps around. *)
Inductive spaced : list str → str → Prop :=
  | spaced_nil : spaced [] []
  | spaced_space c words text : is_whitespace c = true → spaced words text → spaced words (c :: text)
  | spaced_word w words text : w ≠ [] → no_space w → spaced words text →
      match text with [] => True | c :: _ => is_whitespace c = true end → spaced (w :: words) (w ++ text).

Lemma split_spaces_word w s p rest : no_space w → split_spaces s = p :: rest → split_spaces (w ++ s) = (w ++ p) :: rest.
Proof.
  intros Hw Hs. induction Hw as [|c w Hc _ IH]; [done|]. cbn. by rewrite Hc, IH.
Qed.

Lemma split_whitespace_spaced words text : spaced words text → split_whitespace text = words.
Proof.
  unfold split_whitespace. induction 1 as [|c words text Hc _ IH|w words text Hne Hw _ IH Hb]; [done| |].
  - cbn [split_spaces]. rewrite Hc, filter_cons_False by (intros H; by apply H). exact IH.
  - assert (∃ rest, split_spaces text = [] :: rest) as [rest E].
    { destruct text as [|c text]; [by eexists|]. cbn. rewrite Hb. by eexists. }
    rewrite E, filter_cons_False in IH by (intros H; by apply H).
    by rewrite (split_spaces_word w text [] rest), app_nil_r, filter_cons_True, IH.
Qed.

(** * Numerals *)

(** The [k] decimal digits of [n]. *)
Fixpoint dec_fixed (k : nat) (n : Z) : str :=
  match k with O => [] | S k' => 48 + n / 10 ^ Z.of_nat k' :: dec_fixed k' (n mod 10 ^ Z.of_nat k') end.

Lemma dec_digit_char d : 0 ≤ d < 10 → dec_digit (48 + d) = Some d.
Proof. intros Hd. unfold dec_digit. replace (_ && _) with true by lia. f_equal. lia. Qed.

Lemma dec_value_fixed k acc n : 0 ≤ acc → 0 ≤ n < 10 ^ Z.of_nat k → acc ≤ u8_max →
  dec_value acc (dec_fixed k n) = let v := acc * 10 ^ Z.of_nat k + n in if v <=? u8_max then Some v else None.
Proof.
  revert acc n. induction k as [|k IH]; intros acc n Ha Hn Hm; cbn [dec_fixed dec_value].
  - change (10 ^ Z.of_nat 0) with 1 in *. cbv zeta. assert (n = 0) as -> by lia. rewrite (proj2 (Z.leb_le _ _)) by lia. f_equal. lia.
  - rewrite Nat2Z.inj_succ, Z.pow_succ_r in * by lia. set (p := 10 ^ Z.of_nat k) in *. assert (0 < p) by (apply Z.pow_pos_nonneg; lia).
    assert (0 ≤ n / p < 10) as Hd by (split; [apply Z.div_pos; lia|apply Z.div_lt_upper_bound; lia]).
    pose proof (Z.mod_pos_bound n p ltac:(done)) as Hr. pose proof (Z_div_mod_eq_full n p) as Hdm.
    rewrite dec_digit_char by done. cbn [mbind option_bind]. cbv zeta. destruct (10 * acc + n / p <=? u8_max) eqn:C.
    + rewrite IH by lia. cbv zeta. by replace ((10 * acc + n / p) * p + n mod p) with (acc * (10 * p) + n) by nia.
    + apply Z.leb_gt in C. rewrite (proj2 (Z.leb_gt _ _)) by nia. done.
Qed.

Lemma parse_u8_fixed k n : (0 < k)%nat → 0 ≤ n < 10 ^ Z.of_nat k → parse_u8 (dec_fixed k n) = if n <=? u8_max then Some n else None.
Proof.
  intros Hk Hn. assert (dec_value 0 (dec_fixed k n) = if n <=? u8_max then Some n else None) as E by (rewrite dec_value_fixed; by rewrite ?Z.mul_0_l).
  destruct k as [|k]; [lia|]. cbn [dec_fixed] in *.
  rewrite Nat2Z.inj_succ, Z.pow_succ_r in Hn by lia. set (p := 10 ^ Z.of_nat k) in *. assert (0 < p) by (apply Z.pow_pos_nonneg; lia).
  assert (0 ≤ n / p < 10) as Hd by (split; [apply Z.div_pos; lia|apply Z.div_lt_upper_bound; lia]).
  assert (48 + n / p ≠ 43 ∧ 48 + n / p ≠ 45) as [H1 H2] by lia. revert E H1 H2. generalize (48 + n / p) as c. intros c E H1 H2.
  unfold parse_u8. repeat (case_match; try done).
Qed.

Lemma dec_value_bad acc s c : c ∈ s → dec_digit c = None → dec_value acc s = None.
Proof.
  revert acc. induction s as [|b s IH]; intros acc Hc Hb; [by apply not_elem_of_nil in Hc|]. cbn.
  apply elem_of_cons in Hc as [<-|Hc]; [by rewrite Hb|]. destruct (dec_digit b); [|done]. cbn. case_match; [|done]. by apply IH.
Qed.
Lemma parse_u8_bad s c : c ∈ s → dec_digit c = None → c ≠ 43 → parse_u8 s = None.
Proof.
  intros Hc Hd Hp. pose proof (dec_value_bad 0 s c Hc Hd) as E.
  assert (∀ s', s = 43 :: s' → dec_value 0 s' = None) as E'.
  { intros s' ->. apply (dec_value_bad _ _ c); [|done]. by apply elem_of_cons in Hc as [->|]. }
  unfold parse_u8. repeat (case_match; try done); by apply E'.
Qed.

(** * The command line *)

Inductive argument := Setting (key value : str) | Other (w : str).
Definition argument_text (a : argument) : str := match a with Setting k v => k ++ 61 :: v | Other w => w end.
Definition argument_wf (a : argument) : Prop :=
  match a with
  | Setting k v => Forall (λ c, c ≠ 61) k ∧ Forall (λ c, c ≠ 61) v
  | Other w => length (split_on 61 w) ≠ 2%nat
  end.
(** The last value given to an option. *)
Definition last_value (key : str) (args : list argument) : option str :=
  last (omap (λ a, match a with Setting k v => if decide (k = key) then Some v else None | Other _ => None end) args).

Section facts.
Context (debug_assertions : bool).
Notation reading := (read_argument debug_assertions).

Lemma read_argument_wf f a : argument_wf a →
  reading f (argument_text a) = match a with Setting k v => update_option debug_assertions f k v | Other _ => f end.
Proof.
  unfold read_argument. destruct a as [k v|w]; cbn [argument_text argument_wf].
  - intros [Hk Hv]. by rewrite split_on_app, split_on_none.
  - destruct (split_on 61 w) as [|? [|? [|]]]; done.
Qed.

Lemma read_arguments f args : Forall argument_wf args →
  foldl reading f (argument_text <$> args) =
    mk_features
      (match last_value (chars "log_level") args with Some v => default (LOG_LEVEL debug_assertions) (parse_u8 v) | None => log_level f end)
      (match last_value (chars "fat_in_mem") args with Some v => bool_decide (v = chars "true") | None => fat_in_mem f end).
Proof.
  unfold last_value. induction args as [|a args IH] using rev_ind; intros Hw; [by destruct f|].
  apply Forall_app in Hw as [Hw [Ha _]%Forall_cons]. rewrite fmap_app, foldl_app. cbn [fmap list_fmap foldl].
  rewrite read_argument_wf, (IH Hw) by done. rewrite !omap_app. destruct a as [k v|w]; cbn [omap list_omap]; [|by rewrite !app_nil_r].
  unfold update_option. destruct (decide (k = chars "log_level")) as [->|Hl].
  - rewrite bool_decide_true, decide_False, app_nil_r, last_snoc by done. done.
  - rewrite bool_decide_false, app_nil_r by done. destruct (decide (k = chars "fat_in_mem")) as [->|Hf].
    + by rewrite bool_decide_true, last_snoc by done.
    + by rewrite bool_decide_false, app_nil_r by done.
Qed.
End facts.

(** The kernel command line.  From arguments separated by any white space the
    last setting of each option counts: a decimal log level of at most 255 is taken,
    any other value gives the default, and fat_in_mem is on exactly for "true";
    other options and words that are not settings change nothing; without a command
    line both options have their defaults. *)
Lemma cmdline_spec debug bytes text args : from_utf8 bytes = Some text → spaced (argument_text <$> args) text →
  Forall argument_wf args →
  ∃ f, parse_kernel_cmdline debug (Some bytes) once_new = (Ok tt, Initialized f) ∧
    match last_value (chars "fat_in_mem") args with
    | Some v => fat_in_mem f = true ↔ v = chars "true"
    | None => fat_in_mem f = true
    end ∧
    match last_value (chars "log_level") args with
    | Some v =>
        (∀ k n, v = dec_fixed (S k) n → 0 ≤ n < 10 ^ Z.of_nat (S k) →
          log_level f = if n <=? u8_max then n else LOG_LEVEL debug) ∧
        (∀ c, c ∈ v → dec_digit c = None → c ≠ 43 → log_level f = LOG_LEVEL debug)
    | None => log_level f = LOG_LEVEL debug
    end.
Proof.
  intros Hu Hs Hw. unfold parse_kernel_cmdline. rewrite Hu, (bind_Ok (lift (Ok text)) _ _ _ _ eq_refl).
  rewrite (split_whitespace_spaced _ _ Hs), (read_arguments debug _ args Hw). eexists. split; [done|]. cbn [log_level fat_in_mem]. split.
  - destruct (last_value (chars "fat_in_mem") args); [|done]. by rewrite bool_decide_eq_true.
  - destruct (last_value (chars "log_level") args) as [v|]; [|done]. split.
    + intros k n -> Hn. rewrite parse_u8_fixed by (done || lia). by case_match.
    + intros c Hc Hd Hp. by rewrite (parse_u8_bad v c).
Qed.

(** The edges: no file, and a command line that is not UTF-8. *)
Lemma cmdline_edges debug bytes : parse_kernel_cmdline debug None once_new = (Ok tt, Initialized (mk_features (LOG_LEVEL debug) true)) ∧
  (from_utf8 bytes = None → parse_kernel_cmdline debug (Some bytes) once_new = (Panic, once_new)).
Proof. split; [done|]. intros E. unfold parse_kernel_cmdline. by rewrite E. Qed.

Lemma cmdline_spec_witness : ∃ f,
  parse_kernel_cmdline false (Some (chars " quiet log_level=1  fat_in_mem=no log_level=004")) once_new = (Ok tt, Initialized f) ∧
  log_level f = 4 ∧ fat_in_mem f ≠ true.
Proof.
  destruct (cmdline_spec false (chars " quiet log_level=1  fat_in_mem=no log_level=004") (chars " quiet log_level=1  fat_in_mem=no log_level=004")
    [Other (chars "quiet"); Setting (chars "log_level") (chars "1"); Setting (chars "fat_in_mem") (chars "no");
     Setting (chars "log_level") (chars "004")]) as (f & E & Hf & Hl & _).
  - by vm_compute.
  - apply spaced_space; [done|].
    apply (spaced_word (chars "quiet") _ (chars " log_level=1  fat_in_mem=no log_level=004")); [done|by repeat constructor| |done]. apply spaced_space; [done|].
    apply (spaced_word (chars "log_level=1") _ (chars "  fat_in_mem=no log_level=004")); [done|by repeat constructor| |done]. do 2 (apply spaced_space; [done|]).
    apply (spaced_word (chars "fat_in_mem=no") _ (chars " log_level=004")); [done|by repeat constructor| |done]. apply spaced_space; [done|].
    apply (spaced_word (chars "log_level=004") [] []); [done|by repeat constructor|constructor|done].
  - repeat constructor; done.
  - exists f. split; [exact E|]. split; [by apply (Hl 2%nat 4)|]. intros Ht%Hf. done.
Defined.

(** * The log filter and the processor's name *)

(** A line is printed when its level reaches the kernel's; before the command line
    is read, the default. *)
Lemma log_Ok {M X} `{IoPorts M} {sent : M → list Z} {polls : M → nat} {rest : M → X} `{!Uart M sent polls rest} debug fuel features level text m :
  (polls m < fuel)%nat →
  ∃ m', log debug fuel features level text m = (Ok tt, m') ∧
    console_after (sent:=sent) (polls:=polls) (rest:=rest) m (if (match features with Initialized f => log_level f | _ => LOG_LEVEL debug end) <=? level_u8 level
      then crlf (log_text level text ++ [10]) else []) m'.
Proof.
  intros Hf. unfold log. assert ((match (once_get features).1 with Ok f => log_level f | _ => LOG_LEVEL debug end) =
    match features with Initialized f => log_level f | _ => LOG_LEVEL debug end) as -> by by destruct features.
  case_match; [by apply print_Ok|]. exists m. split; [done|]. by repeat split; rewrite ?app_nil_r.
Qed.

Definition leaf_bytes (r : CpuidResult) : list Z :=
  le_bytes 4 (eax r) ++ le_bytes 4 (ebx r) ++ le_bytes 4 (ecx r) ++ le_bytes 4 (edx r).

(** The name is reported exactly when the processor says it has none: the test of
    the highest extended leaf is the wrong way round. *)
Lemma processor_brand_spec cpuid :
  get_processor_brand cpuid = Ok (if 0x80000004 <=? eax (cpuid 0x80000000) then None
    else Some (until_null (leaf_bytes (cpuid 0x80000002) ++ leaf_bytes (cpuid 0x80000003) ++ leaf_bytes (cpuid 0x80000004)))).
Proof.
  unfold get_processor_brand. case_match; [done|]. cbn [foldM]. unfold brand_leaf, leaf_bytes.
  change (u32 (0x80000002 + 0)) with 0x80000002. change (u32 (0x80000002 + 1)) with 0x80000003. change (u32 (0x80000002 + 2)) with 0x80000004.
  assert (∀ x, ∃ a b c d, le_bytes 4 x = [a; b; c; d]) as Hfour by (intros x; by do 4 eexists).
  destruct (cpuid 0x80000002) as [a1 b1 c1 d1], (cpuid 0x80000003) as [a2 b2 c2 d2], (cpuid 0x80000004) as [a3 b3 c3 d3]. cbn [eax ebx ecx edx].
  repeat match goal with |- context [le_bytes 4 ?x] => let E := fresh in destruct (Hfour x) as (? & ? & ? & ? & E); rewrite E; clear E end.
  reflexivity.
Qed.

(** ** What the banner sends *)

Section info.
Context {M X : Type} `{IoPorts M} {sent : M → list Z} {polls : M → nat} {rest : M → X} `{!Uart M sent polls rest} (debug : bool).
Notation after := (console_after (sent:=sent) (polls:=polls) (rest:=rest)).

Definition line_bytes (line : list Z) : list Z := crlf (line ++ [10]).

Lemma println_Ok fuel line m : (polls m < fuel)%nat → ∃ m', println fuel line m = (Ok tt, m') ∧ after m (line_bytes line) m'.
Proof using Uart0. apply print_Ok. Qed.

Lemma println_each fuel lines m : (polls m < fuel)%nat →
  ∃ m', for_each lines (println fuel) m = (Ok tt, m') ∧ after m (concat (line_bytes <$> lines)) m'.
Proof using Uart0.
  revert m. induction lines as [|line lines IH]; intros m Hf; [exists m; by repeat split; rewrite ?app_nil_r|].
  destruct (println_Ok fuel line m Hf) as (m1 & E1 & A1). destruct (IH m1) as (m2 & E2 & A2); [destruct A1 as (_ & ? & _); lia|].
  exists m2. cbn [for_each]. rewrite (bind_Ok _ _ _ _ _ E1). split; [exact E2|]. by apply (console_after_trans m m1 m2).
Qed.

Lemma bind_same {S A B} (m : prog S A) (f g : A → prog S B) s : (∀ a s, f a s = g a s) → (m ≫= f) s = (m ≫= g) s.
Proof using. intros E. unfold mbind, prog_bind. destruct (m s) as [[a| | | |] s1]; [apply E|done..]. Qed.

(** The lines of the report. *)
Definition info_lines (build_id : list Z) (total_memory : Z) (brand : option str) : list (list Z) :=
  banner build_id ++ [memory_line total_memory; mode_line debug] ++ option_list (cpu_line <$> brand).

Lemma print_boot_info_Ok fuel build_id total cpuid brand m : (polls m < fuel)%nat →
  get_processor_brand cpuid = Ok brand →
  ∃ m', print_boot_info debug fuel build_id total cpuid m = (Ok tt, m') ∧
    after m (concat (line_bytes <$> info_lines build_id total brand)) m'.
Proof using Uart0.
  intros Hf Hb. assert (print_boot_info debug fuel build_id total cpuid m =
    for_each (info_lines build_id total brand) (println fuel) m) as ->; [|by apply println_each].
  unfold print_boot_info, info_lines. rewrite for_each_app. apply bind_same. intros [] m1. cbn [for_each app].
  apply bind_same. intros [] m2. apply bind_same. intros [] m3. rewrite (bind_Ok (lift _) _ m3 brand m3) by by rewrite Hb.
  destruct brand as [b|]; [|done].
  change (println fuel (cpu_line b) m3 = (println fuel (cpu_line b) ;; mret tt) m3). unfold mbind, prog_bind. by destruct (println fuel (cpu_line b) m3) as [[[]| | | |] m4].
Qed.
End info.
