(* ===== verification/Trace.v ===== *)
(** src/src/arch/x86_64/stack_trace.rs: the walk over the frame pointers and the
    search of the symbol table, a file of the mounted file system.

    Memory is a byte function; the printed lines are returned, each the instruction
    pointer with the function's name and offset if one was found. *)

From stdpp Require Import sorting.
From S2P Require Import Prelude Mem Uuid Vfs Handles.

(** ** Lines of a text *)

Definition strip_cr (s : str) : str :=
  match last s with Some 13 => removelast s | _ => s end.
(** [str::lines]: a final line feed ends the last line; a carriage return before a
    line feed belongs to it. *)
Definition lines (s : str) : list str :=
  let parts := split_on 10 s in
  (strip_cr <$> removelast parts) ++ match last parts with Some [] | None => [] | Some part => [part] end.

(** [splitn(2, ' ')] *)
Fixpoint splitn2 (s : str) : list str :=
  match s with
  | [] => [[]]
  | c :: s' =>
      if c =? 32 then [[]; s']
      else match splitn2 s' with part :: rest => (c :: part) :: rest | [] => [[c]] end
  end.

(** ** The search *)

Fixpoint symbol_loop (function_address last_index i : Z) (previous_symbol : option (str * Z)) (ls : list str) : outcome (str * Z) :=
  match ls with
  | [] => Err
  | line :: ls =>
      match splitn2 line with
      | digits :: function_name :: _ =>
          address ← of_option Err (from_str_radix16 u64_max digits);
          if address =? function_address then Ok (function_name, 0) else
          if i =? last_index then Ok (function_name, u64 (function_address - address)) else
          let next_line := symbol_loop function_address last_index (i + 1) (Some (function_name, address)) ls in
          if i =? 0 then if function_address <? address then Err else next_line else
          match previous_symbol with
          | Some (name, previous) =>
              if (previous <? function_address) && (function_address <? address) then Ok (name, u64 (address - previous))
              else next_line
          | None => next_line
          end
      | _ => symbol_loop function_address last_index (i + 1) previous_symbol ls
      end
  end.

Section trace.
Context {F I : Type} `{FsOps F I}.
Notation V := (prog (vfs_state F I)).

Definition get_function_name (function_address : Z) : V (str * Z) :=
  symbols_fd ← vfs_open (chars "/symbols.table");
  tree_open symbols_fd ;;
  symbols_table_bytes ← attempt (File_read_all symbols_fd 0);
  tree_close symbols_fd ;;
  symbols_table_bytes ← lift (of_option Err symbols_table_bytes);
  symbols_table ← lift (of_option Err (from_utf8 symbols_table_bytes));
  lift (symbol_loop function_address (u64 (len (lines symbols_table) - 1)) 0 None (lines symbols_table)).

(** ** The walk *)

Definition frame_back (ram : Z → Z) (stackframe : Z) : Z := read_mem ram stackframe 8.
Definition frame_rip (ram : Z → Z) (stackframe : Z) : Z := read_mem ram (u64 (stackframe + 8)) 8.

Notation line := (Z * option (str * Z))%type.

(** The [for] loop: the printed lines, the frame it stops at and the turns begun. *)
Fixpoint trace_loop (ram : Z → Z) (hhdm_offset : Z) (turns : nat) (stackframe frames_processed : Z) (printed : list line) :
    V (list line * Z * Z) :=
  match turns with
  | O => mret (printed, stackframe, frames_processed)
  | S turns =>
      let frames_processed := frames_processed + 1 in
      if is_null stackframe then mret (printed, stackframe, frames_processed) else
      let instruction_ptr := frame_rip ram stackframe in
      if instruction_ptr <? hhdm_offset then
        trace_loop ram hhdm_offset turns (frame_back ram stackframe) frames_processed printed
      else
        instruction_info ← attempt (get_function_name instruction_ptr);
        trace_loop ram hhdm_offset turns (frame_back ram stackframe) frames_processed (printed ++ [(instruction_ptr, instruction_info)])
  end.

(** The lines, and whether "... <frames omitted>" follows them. *)
Definition print_stack_trace (ram : Z → Z) (hhdm_offset : Z) (max_frames : nat) (rbp : Z) : V (list line * bool) :=
  st ← trace_loop ram hhdm_offset max_frames rbp 0 [];
  let '(printed, stackframe, frames_processed) := st in
  mret (printed, (frames_processed =? Z.of_nat max_frames) && negb (is_null stackframe)).

End trace.

(** * Symbol tables *)

(** A symbol as the table writes it. *)
Record symbol := mk_symbol { s_digits : str; s_name : str; s_address : Z }.
Definition symbol_line (x : symbol) : str := s_digits x ++ 32 :: s_name x.
Definition table_text (table : list symbol) : str := concat ((λ x, symbol_line x ++ [10]) <$> table).
Record symbol_wf (x : symbol) : Prop := {
  yw_digits : s_digits x ≠ [] ∧ hex_value 0 (s_digits x) = Some (s_address x);
  yw_address : fits 64 (s_address x);
  yw_name : Forall (λ c, c ≠ 10) (s_name x) ∧ last (s_name x) ≠ Some 13;
}.
Definition sorted_table (table : list symbol) : Prop := Forall symbol_wf table ∧ StronglySorted Z.lt (s_address <$> table).

Lemma hex_digits_only acc s v : hex_value acc s = Some v → Forall (λ c, hex_digit c ≠ None) s.
Proof.
  revert acc. induction s as [|c s IH]; intros acc E; [constructor|]. cbn in E.
  destruct (hex_digit c) eqn:Ec; [|done]. constructor; [by rewrite Ec|by apply (IH _ E)].
Qed.

Lemma digits_parse x : symbol_wf x → from_str_radix16 u64_max (s_digits x) = Some (s_address x).
Proof.
  intros [[Hne Hv] Ha _]. unfold from_str_radix16. pose proof (hex_digits_only _ _ _ Hv) as Hd.
  replace (match s_digits x with 43 :: s' => s' | _ => s_digits x end) with (s_digits x).
  - rewrite bool_decide_false, Hv by done. cbn. rewrite (proj2 (Z.leb_le _ _)) by rlia. done.
  - destruct (s_digits x) as [|c s]; [done|]. apply Forall_cons in Hd as [Hc _]. repeat (case_match; try done).
Qed.

Lemma splitn2_line x : symbol_wf x → splitn2 (symbol_line x) = [s_digits x; s_name x].
Proof.
  intros [[_ Hv] _ _]. apply hex_digits_only in Hv. unfold symbol_line. induction Hv as [|c s Hc _ IH]; [done|]. cbn.
  destruct (Z.eqb_spec c 32) as [->|]; [done|]. by rewrite IH.
Qed.

Lemma strip_line x : symbol_wf x → strip_cr (symbol_line x) = symbol_line x.
Proof.
  intros [[_ Hv] _ [_ Hl]]. unfold strip_cr, symbol_line. rewrite last_app, last_cons. cbn [from_option].
  destruct (last (s_name x)) as [c|]; [|done]. destruct (decide (c = 13)) as [->|]; [done|]. cbn. repeat (case_match; try done).
Qed.

Lemma lines_table table : Forall symbol_wf table → lines (table_text table) = symbol_line <$> table.
Proof.
  intros Hw. assert (split_on 10 (table_text table) = (symbol_line <$> table) ++ [[]]) as E.
  { induction Hw as [|x table Hx _ IH]; [done|]. unfold table_text in *. cbn [fmap list_fmap concat]. rewrite <- app_assoc.
    cbn [app]. rewrite split_on_app; [by rewrite IH|]. destruct Hx as [[_ Hv] _ [Hn _]]. unfold symbol_line. apply Forall_app. split.
    - apply hex_digits_only in Hv. eapply Forall_impl; [exact Hv|]. by intros c Hc ->.
    - by constructor. }
  unfold lines. rewrite E, removelast_last, last_snoc, app_nil_r, <- list_fmap_compose. clear E.
  induction Hw as [|x table Hx _ IH]; [done|]. rewrite !fmap_cons, IH. f_equal. by apply strip_line.
Qed.

(** ** What the loop finds *)

Notation search table fa := (symbol_loop fa (u64 (len (lines (table_text table)) - 1)) 0 None (lines (table_text table))).

Lemma loop_step fa last_index i prev x ls : symbol_wf x →
  symbol_loop fa last_index i prev (symbol_line x :: ls) =
    if s_address x =? fa then Ok (s_name x, 0) else
    if i =? last_index then Ok (s_name x, u64 (fa - s_address x)) else
    let next_line := symbol_loop fa last_index (i + 1) (Some (s_name x, s_address x)) ls in
    if i =? 0 then if fa <? s_address x then Err else next_line else
    match prev with
    | Some (name, previous) => if (previous <? fa) && (fa <? s_address x) then Ok (name, u64 (s_address x - previous)) else next_line
    | None => next_line
    end.
Proof. intros Hx. cbn [symbol_loop]. rewrite splitn2_line, digits_parse by done. done. Qed.

(** Symbols below the address are passed over. *)
Lemma loop_skip fa last_index i prev before ls : Forall symbol_wf before → Forall (λ x, s_address x < fa) before →
  i + len before ≤ last_index → 0 ≤ i →
  symbol_loop fa last_index i prev ((symbol_line <$> before) ++ ls) =
    symbol_loop fa last_index (i + len before) (match last before with Some x => Some (s_name x, s_address x) | None => prev end) ls.
Proof.
  intros Hw Hb. revert i prev. induction before as [|x before IH]; intros i prev Hi H0; [by rewrite Z.add_0_r|].
  apply Forall_cons in Hw as [Hx Hw], Hb as [Hxa Hb]. rewrite len_cons in *. pose proof (len_nonneg before).
  rewrite fmap_cons. cbn [app]. rewrite loop_step by done. rewrite (proj2 (Z.eqb_neq _ _)), (proj2 (Z.eqb_neq i _)) by lia. cbv zeta.
  rewrite (IH Hw Hb (i + 1)) by lia. rewrite (proj2 (Z.ltb_ge fa _)) by lia.
  replace (i + 1 + len before) with (i + (1 + len before)) by lia. rewrite last_cons.
  destruct prev as [[name previous]|]; rewrite ?andb_false_r; destruct (last before); by repeat case_match.
Qed.

Lemma table_lines table : sorted_table table → len table < 2^64 → table ≠ [] →
  lines (table_text table) = symbol_line <$> table ∧ u64 (len (lines (table_text table)) - 1) = len table - 1.
Proof.
  intros [Hw _] Hl Hne. rewrite lines_table by done. split; [done|]. assert (len (symbol_line <$> table) = len table) as -> by (unfold len; by rewrite length_fmap).
  apply u64_small. destruct table; [done|]. rewrite len_cons in *. pose proof (len_nonneg table). lia.
Qed.

Lemma below_sorted before x after : sorted_table (before ++ x :: after) →
  Forall symbol_wf before ∧ symbol_wf x ∧ Forall symbol_wf after ∧ Forall (λ y, s_address y < s_address x) before ∧
  Forall (λ y, s_address x < s_address y) after.
Proof.
  intros [[Hb [Hx Ha]%Forall_cons]%Forall_app Hs]. rewrite fmap_app, fmap_cons in Hs. do 3 (split; [done|]). split.
  - apply Forall_forall. intros y Hy. apply (StronglySorted_app_1_elem_of Z.lt _ _ _ _ Hs); [by apply list_elem_of_fmap_2|by left].
  - apply StronglySorted_app_1_r, StronglySorted_inv in Hs as [_ Hs]. by rewrite Forall_fmap in Hs.
Qed.

(** The symbol search.  In a table sorted by address, an address at a symbol or
    past the last one gives that symbol and the offset into it; one below the first
    of two or more is an error.  An address strictly between two symbols gives the
    lower one with the distance of the two symbols instead of the offset, and
    between the last two symbols the upper one with an offset below zero, modulo
    2^64. *)
Lemma symbol_search_spec table fa : sorted_table table → len table < 2^64 → fits 64 fa →
  (∀ x, x ∈ table → fa = s_address x → search table fa = Ok (s_name x, 0)) ∧
  (∀ before x, table = before ++ [x] → s_address x < fa → search table fa = Ok (s_name x, fa - s_address x)) ∧
  (∀ x y rest, table = x :: y :: rest → fa < s_address x → search table fa = Err) ∧
  (∀ before x y after, table = before ++ x :: y :: after → s_address x < fa < s_address y →
    search table fa = Ok (if bool_decide (after = []) then (s_name y, 2^64 + fa - s_address y) else (s_name x, s_address y - s_address x))).
Proof.
  intros Hs Hl Hfa.
  assert (∀ before x after, table = before ++ x :: after → Forall (λ y, s_address y < fa) before →
    search table fa = symbol_loop fa (len table - 1) (len before)
      (match last before with Some x => Some (s_name x, s_address x) | None => None end) (symbol_line <$> (x :: after))) as Hskip.
  { intros before x after -> Hb. destruct (table_lines _ Hs Hl) as [-> ->]; [by destruct before|]. rewrite fmap_app.
    destruct Hs as [[Hw _]%Forall_app _]. rewrite loop_skip; [done|done|done| |lia].
    rewrite len_app, len_cons. pose proof (len_nonneg after). lia. }
  split_and!.
  - intros x Hx ->. apply list_elem_of_split in Hx as (before & after & ->).
    destruct (below_sorted _ _ _ Hs) as (_ & Hx & _ & Hlt & _). rewrite (Hskip before x after eq_refl Hlt), fmap_cons, loop_step by done.
    by rewrite Z.eqb_refl.
  - intros before x -> Hx. destruct (below_sorted _ _ _ Hs) as (_ & Hwx & _ & Hlt & _).
    rewrite (Hskip before x [] eq_refl), fmap_cons, loop_step; [|done|eapply Forall_impl; [exact Hlt|]; intros; cbn in *; lia].
    assert (len (before ++ [x]) - 1 = len before) as -> by (rewrite len_app, len_cons, len_nil; lia).
    rewrite (proj2 (Z.eqb_neq _ _)), Z.eqb_refl by lia.
    destruct Hwx as [_ Ha _]. rewrite u64_small by rlia. done.
  - intros x y rest -> Hx. destruct (below_sorted [] _ _ Hs) as (_ & Hwx & _).
    rewrite (Hskip [] x (y :: rest) eq_refl), fmap_cons, loop_step by done.
    pose proof (len_nonneg rest). assert (len (x :: y :: rest) - 1 ≠ len (@nil symbol)) by (rewrite !len_cons, len_nil; lia).
    rewrite (proj2 (Z.eqb_neq (s_address x) _)), (proj2 (Z.eqb_neq (len _) _)) by lia. cbv zeta. cbn [len length Z.eqb Z.of_nat]. by rewrite (proj2 (Z.ltb_lt _ _)).
  - intros before x y after -> [Hx Hy]. replace (before ++ x :: y :: after) with ((before ++ [x]) ++ y :: after) in * by by rewrite <- app_assoc.
    destruct (below_sorted _ _ _ Hs) as (Hwb & Hwy & _ & Hlt & _). apply Forall_app in Hwb as [_ [Hwx _]%Forall_cons].
    rewrite (Hskip (before ++ [x]) y after eq_refl), fmap_cons, loop_step; [|done|].
    2: { apply Forall_app. split; [|by constructor]. rewrite <- app_assoc in Hs. cbn [app] in Hs.
      destruct (below_sorted _ _ _ Hs) as (_ & _ & _ & Hlt' & _). eapply Forall_impl; [exact Hlt'|]. intros; cbn in *; lia. }
    assert (len ((before ++ [x]) ++ y :: after) - 1 = 1 + len before + len after ∧ len (before ++ [x]) = 1 + len before) as [-> ->]
      by (rewrite !len_app, !len_cons, len_nil; lia).
    rewrite last_snoc. pose proof (len_nonneg before).
    rewrite (proj2 (Z.eqb_neq (s_address y) _)) by lia. destruct Hwx as [_ Hax _], Hwy as [_ Hay _].
    destruct after as [|z after].
    + rewrite bool_decide_true, (proj2 (Z.eqb_eq _ (_ + len []))) by (done || rewrite len_nil; lia). do 2 f_equal.
      unfold u64. symmetry. apply Z.mod_unique with (-1); rlia.
    + rewrite bool_decide_false by done. rewrite len_cons. pose proof (len_nonneg after).
      rewrite (proj2 (Z.eqb_neq _ _)), (proj2 (Z.eqb_neq _ 0)) by lia. cbv zeta.
      rewrite (proj2 (Z.ltb_lt (s_address x) _)), (proj2 (Z.ltb_lt fa _)) by lia. cbn [andb]. by rewrite u64_small by rlia.
Qed.

(** * The walk *)

(** What a text says of an address. *)
Definition lookup_name (text : str) (fa : Z) : outcome (str * Z) :=
  symbol_loop fa (u64 (len (lines text) - 1)) 0 None (lines text).
Definition info (text : str) (fa : Z) : option (str * Z) := match lookup_name text fa with Ok x => Some x | _ => None end.

Lemma symbol_loop_returns fa last_index i prev ls : ∃ r, symbol_loop fa last_index i prev ls = of_option Err r.
Proof.
  revert i prev. induction ls as [|l ls IH]; intros i prev; [by exists None|]. cbn [symbol_loop].
  destruct (splitn2 l) as [|d [|n rest]]; [apply IH..|].
  destruct (from_str_radix16 u64_max d) as [a|]; [|by exists None]. cbn [of_option mbind outcome_bind].
  repeat case_match; try apply IH; try (by exists None); by eexists (Some _).
Qed.

(** Frames: each holds the next frame and a return address, the last the null one. *)
Fixpoint frames (ram : Z → Z) (rbp : Z) (rips : list Z) : Prop :=
  match rips with
  | [] => rbp = 0
  | rip :: rips => rbp ≠ 0 ∧ frame_rip ram rbp = rip ∧ frames ram (frame_back ram rbp) rips
  end.

Section walk.
Context {F I : Type} `{FsOps F I} (ok : bool → F → Prop) (view : F → FsView I) `{!FsSpec F I ok view}
  (views : Z → FsView I) (root box : Z).
Notation coherent := (coherent ok view views root box).

(** The symbol file is in the tree, and its text is [text]. *)
Definition symbols_file (mnt : gmap path Z) (text : str) : Prop := ∃ a i n,
  node_of views root mnt [chars "symbols.table"] = Ok (a, i) ∧ v_typ (views a) i = Regular ∧
  inode_len i = Ok n ∧ 0 < n ≤ 2^63 ∧ from_utf8 (take (Z.to_nat n) (v_data (views a) i)) = Some text.

Lemma get_function_name_Ok mnt s t text fa : coherent mnt s t → symbols_file mnt text →
  ∃ s' t', get_function_name fa s = (lookup_name text fa, s') ∧ coherent mnt s' t'.
Proof using FsSpec0.
  intros Hco (a & i & n & Hn & Ht & Hl & Hb & Hu).
  destruct (vfs_open_Ok ok view views root box mnt s t (chars "/symbols.table") Hco) as (s1 & t1 & E1 & Hco1 & _ & Hin & _).
  assert (resolve views root mnt [] (split_on 47 (chars "/symbols.table")) = Ok [chars "symbols.table"]) as Hr.
  { change (split_on 47 (chars "/symbols.table")) with [[]; chars "symbols.table"]. cbn [resolve].
    rewrite bool_decide_true, !bool_decide_false by done. by rewrite Hn. }
  rewrite Hr in *. specialize (Hin _ eq_refl).
  destruct (open_coherent ok view views root box mnt s1 t1 _ Hco1 Hin) as (s2 & t2 & E2 & Hco2 & Hd2).
  destruct (read_tail_Ok ok view views root box mnt s2 t2 _ a i n 0 Hco2 (proj2 (Hd2 _) Hin) Hn Ht Hl) as (s3 & E3 & Hco3); [lia|lia| |].
  { rewrite Z.sub_0_r. apply (serves_all ok view views root box mnt s2 t2 _ a i n Hco2 Hn Ht Hl). lia. }
  destruct (close_coherent ok view views root box mnt s3 t2 _ Hco3 (proj2 (Hd2 _) Hin)) as (s4 & t4 & E4 & Hco4 & _).
  exists s4, t4. split; [|done]. unfold get_function_name. rewrite (bind_Ok _ _ _ _ _ E1), (bind_Ok _ _ _ _ _ E2).
  rewrite (bind_Ok (attempt _) _ s2 (Some (take (Z.to_nat n) (v_data (views a) i))) s3) by (unfold attempt; by rewrite E3, Z.sub_0_r).
  rewrite (bind_Ok _ _ _ _ _ E4), (bind_Ok (lift (of_option Err (Some _))) _ _ _ _ eq_refl), Hu.
  by rewrite (bind_Ok (lift (of_option Err (Some text))) _ _ _ _ eq_refl).
Qed.

Lemma trace_loop_Ok ram hhdm mnt text turns s t rbp n printed rips : coherent mnt s t → symbols_file mnt text → frames ram rbp rips →
  ∃ s' t' last processed, trace_loop ram hhdm turns rbp n printed s =
      (Ok (printed ++ ((λ rip, (rip, info text rip)) <$> filter (λ rip, hhdm ≤ rip) (take turns rips)), last, processed), s') ∧
    coherent mnt s' t' ∧ ((turns < length rips)%nat ∧ last ≠ 0 ∧ processed = n + Z.of_nat turns ∨ (length rips ≤ turns)%nat ∧ last = 0).
Proof using FsSpec0.
  intros Hco Hf. revert s t rbp n printed rips Hco. induction turns as [|turns IH]; intros s t rbp n printed rips Hco Hfr.
  { exists s, t, rbp, n. cbn. rewrite app_nil_r. split; [done|]. split; [done|]. destruct rips as [|rip rips]; cbn in *; [right|left].
    - split; [lia|done].
    - split; [lia|]. split; [apply Hfr|lia]. }
  destruct rips as [|rip rips]; cbn [frames] in Hfr.
  { exists s, t, 0, (n + 1). subst rbp. cbn. rewrite app_nil_r. split; [done|]. split; [done|]. right. split; [cbn; lia|done]. }
  destruct Hfr as (Hz & <- & Hfr). cbn [trace_loop take]. unfold is_null. rewrite (proj2 (Z.eqb_neq _ _)) by done.
  destruct (Z.ltb_spec (frame_rip ram rbp) hhdm) as [Hlow|Hhigh].
  - rewrite filter_cons_False by lia. destruct (IH s t _ (n + 1) printed rips Hco Hfr) as (s' & t' & last & p & E & Hco' & Hend).
    exists s', t', last, p. split; [exact E|]. split; [done|]. cbn. destruct Hend as [(? & ? & ->)|[? ?]]; [left|right]; split_and!; (done || lia).
  - rewrite filter_cons_True by lia. destruct (get_function_name_Ok mnt s t text (frame_rip ram rbp) Hco Hf) as (s1 & t1 & E1 & Hco1).
    rewrite (bind_Ok (attempt _) _ s (info text (frame_rip ram rbp)) s1).
    2: { unfold attempt. rewrite E1. unfold info, lookup_name. by destruct (symbol_loop_returns (frame_rip ram rbp) (u64 (len (lines text) - 1)) 0 None (lines text)) as [[r|] ->]. }
    destruct (IH s1 t1 _ (n + 1) (printed ++ [(frame_rip ram rbp, info text (frame_rip ram rbp))]) rips Hco1 Hfr) as (s' & t' & last & p & E & Hco' & Hend).
    exists s', t', last, p. split; [rewrite E, fmap_cons, <- app_assoc; done|]. split; [done|]. cbn. destruct Hend as [(? & ? & ->)|[? ?]]; [left|right]; split_and!; (done || lia).
Qed.

(** The trace as its callers use it. *)
Lemma stack_trace_Ok ram hhdm max_frames rbp rips mnt s t text : coherent mnt s t → symbols_file mnt text → frames ram rbp rips →
  ∃ s' t', print_stack_trace ram hhdm max_frames rbp s =
      (Ok ((λ rip, (rip, info text rip)) <$> filter (λ rip, hhdm ≤ rip) (take max_frames rips), bool_decide (max_frames < length rips)%nat), s') ∧
    coherent mnt s' t'.
Proof using FsSpec0.
  intros Hco Hf Hfr. destruct (trace_loop_Ok ram hhdm mnt text max_frames s t rbp 0 [] rips Hco Hf Hfr) as (s' & t' & last & p & E & Hco' & Hend).
  exists s', t'. split; [|done]. unfold print_stack_trace. rewrite (bind_Ok _ _ _ _ _ E). cbn [app]. unfold is_null, mret, prog_ret.
  destruct Hend as [(? & ? & ->)|[? ->]].
  - rewrite bool_decide_true, Z.add_0_l, Z.eqb_refl, (proj2 (Z.eqb_neq _ _)) by done. done.
  - rewrite bool_decide_false by lia. by rewrite Z.eqb_refl, andb_false_r.
Qed.

End walk.

(** * A concrete kernel *)

Definition demo_symbols : list symbol :=
  [mk_symbol (chars "ffffffff80001000") (chars "boot::_start") 0xffffffff80001000;
   mk_symbol (chars "ffffffff80002000") (chars "kmain") 0xffffffff80002000;
   mk_symbol (chars "ffffffff80003000") (chars "hcf") 0xffffffff80003000].

Lemma demo_symbols_sorted : sorted_table demo_symbols.
Proof.
  split; [|cbn; repeat constructor; by vm_compute].
  repeat (constructor; [split; [split; [done|by vm_compute]|split; by vm_compute|split; [apply (bool_decide_unpack _); by vm_compute|done]]|]); constructor.
Qed.

Lemma symbol_search_spec_witness :
  search demo_symbols 0xffffffff80001800 = Ok (chars "boot::_start", 0x1000) ∧
  search demo_symbols 0xffffffff80002800 = Ok (chars "hcf", 2^64 - 0x800) ∧
  search demo_symbols 0xffffffff80003010 = Ok (chars "hcf", 0x10).
Proof.
  assert (∀ fa, fits 64 fa → _) as H by exact (λ fa, symbol_search_spec demo_symbols fa demo_symbols_sorted eq_refl).
  split_and!.
  - destruct (H 0xffffffff80001800) as (_ & _ & _ & E); [split; by vm_compute|]. rewrite (E [] _ _ [_] eq_refl) by done. by vm_compute.
  - destruct (H 0xffffffff80002800) as (_ & _ & _ & E); [split; by vm_compute|]. rewrite (E [_] _ _ [] eq_refl) by done. by vm_compute.
  - destruct (H 0xffffffff80003010) as (_ & E & _); [split; by vm_compute|]. rewrite (E [_; _] _ eq_refl) by done. by vm_compute.
Defined.

(** A file system with that table as its only file. *)
Definition symbols_entry (i : bool) (nm : str) : option bool :=
  if i then None else if bool_decide (nm = chars "symbols.table") then Some true else None.
Definition symbols_typ (i : bool) : VNodeType := if i then Regular else Directory.
#[local] Instance symbols_fs : FsOps unit bool := {
  fs_mount := mret tt;
  fs_unmount := mret tt;
  fs_root := mret (false, Directory);
  inode_open := mret tt;
  inode_close := mret tt;
  inode_len i := if i then Ok (len (table_text demo_symbols)) else Panic;
  inode_read i count offset := lift (slice (table_text demo_symbols) offset (offset + count));
  inode_lookup i nm :=
    if i then panic else match symbols_entry i nm with Some j => mret (j, symbols_typ j) | None => err end;
}.
Definition symbols_view : FsView bool := mk_view false symbols_typ symbols_entry (λ _, table_text demo_symbols) (λ _ _ _, true).
#[local] Instance symbols_spec : FsSpec unit bool (λ _ _, True) (λ _, symbols_view).
Proof.
  constructor; try done.
  - intros m [] i nm [] _ _; [by right|by left].
  - intros m [] _. by exists tt.
  - intros m [] _. by exists tt.
  - intros [] [] nm _ Hi; [done|]. exists tt. cbn. by case_bool_decide.
  - intros [] [] nm _ Hi; done.
  - intros [] i n count offset _ Hi Hn _ Hc Ho Hb _. exists tt. destruct i; [|done]. injection Hn as <-.
    split; [|done]. cbn [inode_read symbols_fs]. unfold lift. rewrite slice_Ok by lia. do 4 f_equal. lia.
Qed.

(** Two frames of the kernel and one of a user program, at 0x1000. *)
Definition demo_stack (a : Z) : Z :=
  nth (Z.to_nat (a - 0x1000)) (concat (le_bytes 8 <$> [0x1010; 0xffffffff80003010; 0x1020; 0x400000; 0; 0xffffffff80001000])) 0.

