(* ===== verification/Faults.v ===== *)
(** src/src/arch/x86_64/interrupts/exceptions.rs: what happens when the processor
    raises an exception.  The handler stub's instructions run on a register file and
    a stack; the report is the lines it logs.  [push_gprs] (arch/x86_64/mod.rs) is a
    function of its own in the source; the stub is taken with it inlined, since with
    a call in between the saved registers would lie above its return address. *)

From S2P Require Import Prelude Mem Uuid Io Serial Boot Vfs Handles Trace.

(** ** The stub *)

Inductive gpr := RAX | RBX | RCX | RDX | RSI | RDI | RBP | R8 | R9 | R10 | R11 | R12 | R13 | R14 | R15.
#[export] Instance gpr_eq_dec : EqDecision gpr.
Proof. solve_decision. Defined.

(** [push_gprs] *)
Definition pushed_gprs : list gpr := [RAX; RBX; RCX; RDX; RSI; RDI; RBP; R8; R9; R10; R11; R12; R13; R14; R15].

Definition push_gprs (regs : gpr → Z) (stack : list Z) : list Z := foldl (λ stack r, regs r :: stack) stack pushed_gprs.

(** [pop_gprs]: the registers from the stack, in this order. *)
Definition popped_gprs : list gpr := [R15; R14; R13; R12; R11; R10; R9; R8; RBP; RDI; RSI; RDX; RCX; RBX; RAX].
Definition pop (st : (gpr → Z) * list Z) (r : gpr) : outcome ((gpr → Z) * list Z) :=
  match st.2 with
  | x :: stack => Ok (λ q, if decide (q = r) then x else st.1 q, stack)
  | [] => Undef
  end.
Definition pop_gprs (regs : gpr → Z) (stack : list Z) : outcome ((gpr → Z) * list Z) := foldM pop (regs, stack) popped_gprs.

(** The stack, from the top, when [exception_handler] is called: its argument points
    at it.  [stack] is what the processor has pushed. *)
Definition exception_function (code : Z) (regs : gpr → Z) (stack : list Z) : list Z :=
  code :: push_gprs regs stack.

Record Registers := mk_registers {
  int : Z;
  r15 : Z; r14 : Z; r13 : Z; r12 : Z; r11 : Z; r10 : Z; r9 : Z; r8 : Z;
  rbp : Z; rdi : Z; rsi : Z; rdx : Z; rcx : Z; rbx : Z; rax : Z;
  rip : Z; cs : Z; rflags : Z; rsp : Z; ss : Z;
}.
(** [VirtualPtr::<Registers>::from(registers).read()] *)
Definition read_registers (stack : list Z) : outcome Registers :=
  let at_ i := of_option Undef (stack !! i) in
  int ← at_ 0%nat; r15 ← at_ 1%nat; r14 ← at_ 2%nat; r13 ← at_ 3%nat; r12 ← at_ 4%nat; r11 ← at_ 5%nat; r10 ← at_ 6%nat;
  r9 ← at_ 7%nat; r8 ← at_ 8%nat; rbp ← at_ 9%nat; rdi ← at_ 10%nat; rsi ← at_ 11%nat; rdx ← at_ 12%nat; rcx ← at_ 13%nat;
  rbx ← at_ 14%nat; rax ← at_ 15%nat; rip ← at_ 16%nat; cs ← at_ 17%nat; rflags ← at_ 18%nat; rsp ← at_ 19%nat; ss ← at_ 20%nat;
  mret (mk_registers int r15 r14 r13 r12 r11 r10 r9 r8 rbp rdi rsi rdx rcx rbx rax rip cs rflags rsp ss).

(** ** The report *)

Inductive entry :=
  | Line (level : LogLevel) (text : str)
  | Traced (lines : list (Z * option (str * Z))) (omitted : bool)
  | Printed (text : str).

(** [{:#018X}] *)
Definition hex_field (x : Z) : str := chars "0x" ++ hex_fixed 16 x.
(** [{:─^width$}] *)
Definition centred (title : str) (width : Z) : str :=
  let pad := width - len title in
  replicate (Z.to_nat (pad / 2)) 0x2500 ++ title ++ replicate (Z.to_nat (pad - pad / 2)) 0x2500.
Definition four (n1 : string) (x1 : Z) (n2 : string) (x2 : Z) (n3 : string) (x3 : Z) (n4 : string) (x4 : Z) : entry :=
  Line Info (chars n1 ++ hex_field x1 ++ chars n2 ++ hex_field x2 ++ chars n3 ++ hex_field x3 ++ chars n4 ++ hex_field x4).

Definition print_registers (r : Registers) : list entry :=
  [Line Info (centred (chars " REGISTERS ") 98);
   four "INT: " (int r) ", RIP: " (rip r) ",  CS: " (cs r) ", FLG: " (rflags r);
   four "RSP: " (rsp r) ",  SS: " (ss r) ", RAX: " (rax r) ", RBX: " (rbx r);
   four "RCX: " (rcx r) ", RDX: " (rdx r) ", RSI: " (rsi r) ", RDI: " (rdi r);
   four "RBP: " (rbp r) ",  R8: " (r8 r) ",  R9: " (r9 r) ", R10: " (r10 r);
   four "R11: " (r11 r) ", R12: " (r12 r) ", R13: " (r13 r) ", R14: " (r14 r);
   Line Info (chars "R15: " ++ hex_field (r15 r))].

Definition message (int : Z) : list entry :=
  if int =? 0x00 then [Line Fatal (chars "DIVISION ERROR!")]
  else if int =? 0x06 then [Line Fatal (chars "INVALID OPCODE!")]
  else if int =? 0x08 then [Line Fatal (chars "DOUBLE FAULT!")]
  else if int =? 0x0D then [Line Fatal (chars "GENERAL PROTECTION FAULT!")]
  else if int =? 0x0E then [Line Fatal (chars "PAGE FAULT!");
    Line Debug (chars "HINT: Find the last pointer you touched and make sure it's in virtual memory")]
  else [Line Fatal (chars "EXCEPTION!")].

(** [AtomicU8::fetch_add] *)
Definition fetch_add (n : Z) : prog Z Z := old ← get; put (u8 (old + n)) ;; mret old.

Section handler.
Context {F I : Type} `{FsOps F I} (ram : Z → Z) (hhdm_offset : Z).

(** The state is [FAULTED] and the mounted file systems; the result, the lines and
    whether the handler halts instead of returning. *)
Definition exception_handler (stack : list Z) : prog (Z * vfs_state F I) (list entry * bool) :=
  registers ← lift (read_registers stack);
  faulted ← on_fst (fetch_add 1);
  if faulted =? 0 then
    trace ← on_snd (print_stack_trace ram hhdm_offset 6 (rbp registers));
    mret (message (int registers) ++ print_registers registers ++ [Traced trace.1 trace.2], false)
  else if faulted =? 1 then
    mret (Line Fatal (chars "Exception Loop detected, stopping here") :: print_registers registers, true)
  else mret ([], true).

(** The panic handler of main.rs: the message, the stack, and then [hcf]. *)
Definition panic_handler (info : str) (rbp : Z) : prog (vfs_state F I) (list entry * bool) :=
  trace ← print_stack_trace ram hhdm_offset 6 rbp;
  mret ([Printed info; Traced trace.1 trace.2], true).
End handler.

(** [hcf]: the processor is halted again whenever it wakes. *)
Definition hcf {M} (hlt : prog M unit) (fuel : nat) : prog M unit :=
  while_loop fuel (mret true) hlt.

(** [cpu_has_msr], of leaf 1. *)
Definition cpu_has_msr (edx : Z) : bool := negb (Z.land edx (Z.shiftl 1 5) =? 0).

(** ** The system call *)

(** [syscall_handler] of interrupts/mod.rs prints [count] bytes at [buf]; a text
    that is not UTF-8 is a panic. *)
Definition syscall_handler {M} `{IoPorts M} (fuel : nat) (ram : Z → Z) (buf count : Z) : prog M unit :=
  let bytes := read_bytes ram buf (Z.to_nat count) in
  lift (match from_utf8 bytes with Some _ => Ok tt | None => Panic end) ;;
  Serial.print fuel bytes.

(** Popping takes back what was pushed, and leaves the stack as it was. *)
Lemma pop_push regs regs' stack : ∃ g, pop_gprs regs' (push_gprs regs stack) = Ok (g, stack) ∧ ∀ r, g r = regs r.
Proof. eexists. split; [reflexivity|]. by intros []. Qed.

(** [hcf] never returns. *)
Lemma hcf_never {M} (hlt : prog M unit) fuel m : (∀ m, ∃ m', hlt m = (Ok tt, m')) → (hcf hlt fuel m).1 = NoFuel.
Proof.
  intros Hh. unfold hcf. revert m. induction fuel as [|fuel IH]; intros m; [done|]. cbn [while_loop].
  rewrite (bind_Ok (mret true) _ m true m eq_refl). destruct (Hh m) as [m' E]. by rewrite (bind_Ok _ _ _ _ _ E).
Qed.

(** * What the report says *)

(** The state of the interrupted code. *)
Record interrupted := mk_interrupted { i_regs : gpr → Z; i_rip : Z; i_cs : Z; i_rflags : Z; i_rsp : Z; i_ss : Z }.
(** What the processor pushes, top first; some exceptions come with an error code. *)
Definition pushed (error_code : option Z) (c : interrupted) : list Z :=
  option_list error_code ++ [i_rip c; i_cs c; i_rflags c; i_rsp c; i_ss c].
Definition saved (code rip cs rflags rsp ss : Z) (g : gpr → Z) : Registers :=
  mk_registers code (g R15) (g R14) (g R13) (g R12) (g R11) (g R10) (g R9) (g R8) (g RBP) (g RDI) (g RSI) (g RDX) (g RCX) (g RBX) (g RAX)
    rip cs rflags rsp ss.

Lemma read_pushed code error_code c : read_registers (exception_function code (i_regs c) (pushed error_code c)) =
  Ok (match error_code with
      | None => saved code (i_rip c) (i_cs c) (i_rflags c) (i_rsp c) (i_ss c) (i_regs c)
      | Some e => saved code e (i_rip c) (i_cs c) (i_rflags c) (i_rsp c) (i_regs c)
      end).
Proof. by destruct error_code. Qed.

Definition shown (code : Z) (error_code : option Z) (c : interrupted) : Registers :=
  match error_code with
  | None => saved code (i_rip c) (i_cs c) (i_rflags c) (i_rsp c) (i_ss c) (i_regs c)
  | Some e => saved code e (i_rip c) (i_cs c) (i_rflags c) (i_rsp c) (i_regs c)
  end.

Section report.
Context {F I : Type} `{FsOps F I} (ok : bool → F → Prop) (view : F → FsView I) `{!FsSpec F I ok view}
  (views : Z → FsView I) (root box : Z).
Notation coherent := (coherent ok view views root box).


(** A panic shows its message and the frames of the code that panicked. *)
Lemma panic_handler_Ok ram hhdm text_shown rbp rips mnt s t text : coherent mnt s t → symbols_file views root mnt text → frames ram rbp rips →
  ∃ s' t', panic_handler ram hhdm text_shown rbp s =
      (Ok ([Printed text_shown; Traced ((λ rip, (rip, info text rip)) <$> filter (λ rip, hhdm ≤ rip) (take 6 rips)) (bool_decide (6 < length rips)%nat)], true), s') ∧
    coherent mnt s' t'.
Proof using FsSpec0.
  intros Hco Hf Hfr.
  destruct (stack_trace_Ok ok view views root box ram hhdm 6 rbp rips mnt s t text Hco Hf Hfr) as (s' & t' & E & Hco').
  exists s', t'. split; [|done]. unfold panic_handler. by rewrite (bind_Ok _ _ _ _ _ E).
Qed.
End report.

Lemma syscall_handler_Ok {M X} `{IoPorts M} {sent : M → list Z} {polls : M → nat} {rest : M → X} `{!Uart M sent polls rest}
    fuel ram buf bytes m : holds ram buf bytes → (polls m < fuel)%nat →
  match from_utf8 bytes with
  | Some _ => ∃ m', syscall_handler fuel ram buf (len bytes) m = (Ok tt, m') ∧
      console_after (sent:=sent) (polls:=polls) (rest:=rest) m (crlf bytes) m'
  | None => syscall_handler fuel ram buf (len bytes) m = (Panic, m)
  end.
Proof.
  intros Hb Hf. unfold syscall_handler, holds in *. rewrite to_nat_len. rewrite Hb.
  destruct (from_utf8 bytes); [|done]. rewrite (bind_Ok (lift (Ok tt)) _ _ _ _ eq_refl). by apply print_Ok.
Qed.

(** A page fault of a kernel that runs on the stack and the files of Trace.v: the
    line of the instruction pointer shows the error code, and the place of the
    fault is shown as the code segment. *)
#[local] Existing Instance symbols_fs.
#[local] Existing Instance symbols_spec.
Definition demo_fault : interrupted :=
  mk_interrupted (λ r, if decide (r = RBP) then 0x1000 else 7) 0xffffffff80002008 0x28 0x202 0xff0 0x30.

