(* ===== verification/Paging.v ===== *)
(** src/src/arch/x86_64/paging.rs and [get_next_level] of src/src/mem/vmm.rs: the
    page tables and the mapper.

    Tables are frames of physical memory, reached through the direct map; a
    [PageDirectory] reference is its virtual address.  The frame allocator and the
    memory are the interface [Frames], which the page allocator of Pmm.v
    implements (Vmm.v). *)

From S2P Require Import Prelude Mem.

Definition PT_FLAG_VALID : Z := Z.shiftl 1 0.
Definition PT_FLAG_WRITE : Z := Z.shiftl 1 1.
Definition PT_FLAG_USER : Z := Z.shiftl 1 2.
Definition PT_FLAG_LARGE : Z := Z.shiftl 1 7.
Definition PT_FLAG_NX : Z := Z.shiftl 1 63.
Definition PT_PADDR_MASK : Z := 0x0000FFFFFFFFF000.
Definition PT_TABLE_FLAGS : Z := Z.lor (Z.lor PT_FLAG_VALID PT_FLAG_WRITE) PT_FLAG_USER.

(** ** Entries: [PageTableEntry] is its [u64] *)

Definition PageTableEntry_new (addr flags : Z) : Z := Z.lor addr flags.
Definition entry_addr (e : Z) : Z := Z.land e PT_PADDR_MASK.

Inductive Field :=
  Present | ReadWrite | UserSupervisor | WriteThrough | CacheDisable | Accessed | Avl0 | PageSizeField
  | Avl1 | Addr | Nx.
#[export] Instance Field_eq_dec : EqDecision Field.
Proof. solve_decision. Defined.

Definition get_field (e : Z) (field : Field) : Z :=
  match field with
  | Present => Z.land (Z.shiftr e 0) 1
  | ReadWrite => Z.land (Z.shiftr e 1) 1
  | UserSupervisor => Z.land (Z.shiftr e 2) 1
  | WriteThrough => Z.land (Z.shiftr e 3) 1
  | CacheDisable => Z.land (Z.shiftr e 4) 1
  | Accessed => Z.land (Z.shiftr e 5) 1
  | Avl0 => Z.land (Z.shiftr e 6) 1
  | PageSizeField => Z.land (Z.shiftr e 7) 1
  | Avl1 => Z.land (Z.shiftr e 8) 0xF
  | Addr => Z.land (Z.shiftr e 12) 0x000FFFFFFFFFFFFF
  | Nx => Z.land (Z.shiftr e 63) 1
  end.

Definition field_mask (field : Field) : Z :=
  match field with
  | Present => Z.shiftl 1 0
  | ReadWrite => Z.shiftl 1 1
  | UserSupervisor => Z.shiftl 1 2
  | WriteThrough => Z.shiftl 1 3
  | CacheDisable => Z.shiftl 1 4
  | Accessed => Z.shiftl 1 5
  | Avl0 => Z.shiftl 1 6
  | PageSizeField => Z.shiftl 1 7
  | Avl1 => Z.shiftl 0xF 8
  | Addr => u64 (Z.shiftl 0x000FFFFFFFFFFFFF 12)
  | Nx => Z.shiftl 1 63
  end.
Definition field_shift (field : Field) : Z :=
  match field with
  | Present => 0 | ReadWrite => 1 | UserSupervisor => 2 | WriteThrough => 3 | CacheDisable => 4
  | Accessed => 5 | Avl0 => 6 | PageSizeField => 7 | Avl1 => 8 | Addr => 12 | Nx => 63
  end.
Definition set_field (e : Z) (field : Field) (value : Z) : Z :=
  let mask := field_mask field in
  Z.lor (Z.land e (not64 mask)) (Z.land (u64 (Z.shiftl value (field_shift field))) mask).

Definition is_table (e : Z) : bool := Z.land e (Z.lor PT_FLAG_VALID PT_FLAG_LARGE) =? PT_FLAG_VALID.
Definition is_large (e : Z) : bool :=
  Z.land e (Z.lor PT_FLAG_VALID PT_FLAG_LARGE) =? Z.lor PT_FLAG_VALID PT_FLAG_LARGE.
Definition vmm_flags (e : Z) : Z := Z.land e (Z.lor PT_FLAG_WRITE PT_FLAG_NX).

Inductive PageSize := Size4KiB | Size2MiB | Size1GiB.
#[export] Instance PageSize_eq_dec : EqDecision PageSize.
Proof. solve_decision. Defined.
Definition size_usize (s : PageSize) : Z := match s with Size4KiB => 0 | Size2MiB => 1 | Size1GiB => 2 end.

Definition PAGE_SIZES : list Z := [0x1000; 0x200000; 0x40000000; 0x8000000000; 0x1000000000000].

(** What the boot loader's paging mode can be. *)
Inductive Mode := FOUR_LEVEL | FIVE_LEVEL.

(** ** Memory and frames *)

(** [pmm_alloc(1)], and 64-bit accesses to memory at virtual addresses. *)
Class Frames (S : Type) := {
  alloc_frame : prog S Z;
  read64 : S → Z → Z;
  write64 : Z → Z → S → S;
}.

Section vmm.
Context {S : Type} `{Frames S}.
(** The direct-map offset, the paging mode, and [edx] of CPUID leaf 0x80000001. *)
Context (hhdm : Z) (mode : Mode) (cpuid_edx : Z).

(** [page_directory.entries[entry]] *)
Definition entry_get (page_directory entry : Z) : prog S Z := gets (λ s, read64 s (page_directory + 8 * entry)).
Definition entry_set (page_directory entry v : Z) : prog S unit := modify (write64 (page_directory + 8 * entry) v).

(** The cell caches the answer of CPUID. *)
Definition is_1gib_page_supported : bool := Z.land cpuid_edx (Z.shiftl 1 26) =? Z.shiftl 1 26.

Definition pml_index (virtual_addr shift : Z) : Z :=
  Z.shiftr (Z.land virtual_addr (Z.shiftl 0x1ff shift)) shift.

(** [get_next_level]; [map] is [vmm_map], which it calls to refill a large page it
    replaces. *)
Definition get_next_level (map : Z → Z → Z → Z → PageSize → prog S unit)
    (page_directory virtual_addr : Z) (desired_size : PageSize) (level entry : Z) : prog S Z :=
  e ← entry_get page_directory entry;
  if is_table e then mret (entry_addr e)
  else if is_large e then
    lift (rassert ((level <=? 3) && negb (level =? 0))) ;;
    old_page_size ← lift (index PAGE_SIZES level);
    new_page_size ← lift (index PAGE_SIZES (size_usize desired_size));
    let old_flags := vmm_flags e in
    let old_phys := entry_addr e in
    let old_virt := Z.land virtual_addr (not64 (old_page_size - 1)) in
    lift (rassert (Z.land old_phys (old_page_size - 1) =? 0)) ;;
    ret ← alloc_frame;
    entry_set page_directory entry (PageTableEntry_new ret PT_TABLE_FLAGS) ;;
    for_each (seqZ 0 ((old_page_size + new_page_size - 1) / new_page_size)) (λ k,
      let i := k * new_page_size in
      map page_directory (u64 (old_virt + i)) (u64 (old_phys + i)) old_flags desired_size) ;;
    mret ret
  else
    ret ← alloc_frame;
    entry_set page_directory entry (PageTableEntry_new ret PT_TABLE_FLAGS) ;;
    mret ret.

(** [vmm_map]; the fuel is the depth of its recursion, through [get_next_level]
    and for 1 GiB pages without processor support. *)
Fixpoint vmm_map (fuel : nat) (page_directory virtual_addr physical_addr flags : Z)
    (page_size : PageSize) : prog S unit :=
  match fuel with
  | O => lift NoFuel
  | Datatypes.S fuel' =>
      let next := get_next_level (vmm_map fuel') in
      let pml5_entry := pml_index virtual_addr 48 in
      let pml4_entry := pml_index virtual_addr 39 in
      let pml3_entry := pml_index virtual_addr 30 in
      let pml2_entry := pml_index virtual_addr 21 in
      let pml1_entry := pml_index virtual_addr 12 in
      let flags := Z.lor flags 0x01 in
      pml4 ← (match mode with
        | FIVE_LEVEL =>
            ptr ← next page_directory virtual_addr page_size 4 pml5_entry;
            mret (to_higher_half hhdm ptr)
        | FOUR_LEVEL => mret page_directory
        end);
      ptr ← next pml4 virtual_addr page_size 3 pml4_entry;
      let pml3 := to_higher_half hhdm ptr in
      if decide (page_size = Size1GiB) then
        if is_1gib_page_supported then
          entry_set pml3 pml3_entry (Z.lor (Z.lor physical_addr flags) PT_FLAG_LARGE)
        else
          for_each (seqZ 0 512) (λ k,
            let i := k * 0x200000 in
            vmm_map fuel' page_directory (u64 (virtual_addr + i)) (u64 (physical_addr + i)) flags Size2MiB)
      else
        ptr ← next pml3 virtual_addr page_size 2 pml3_entry;
        let pml2 := to_higher_half hhdm ptr in
        if decide (page_size = Size2MiB) then
          entry_set pml2 pml2_entry (Z.lor (Z.lor physical_addr flags) PT_FLAG_LARGE)
        else
          ptr ← next pml2 virtual_addr page_size 1 pml2_entry;
          let pml1 := to_higher_half hhdm ptr in
          let flags :=
            if negb (Z.land flags (Z.shiftl 1 12) =? 0)
            then Z.lor (Z.land flags (not64 (Z.shiftl 1 12))) (Z.shiftl 1 7) else flags in
          entry_set pml1 pml1_entry (Z.lor physical_addr flags)
  end.
End vmm.

(** * What the tables say *)

(** What the mapper relies on.  [client s p] says that the frame at physical
    address [p] is the caller's to use, [left s] counts the free frames. *)
Class FramesSpec (S : Type) `{Frames S} (hhdm : Z) (good : S → Prop) (client : S → Z → Prop)
    (left : S → nat) := {
  fs_range : ∀ s p, good s → client s p → 0 < p ∧ p mod 2^12 = 0 ∧ p + 2^12 ≤ 2^48 ∧
    0 ≤ hhdm ∧ hhdm + p + 2^12 ≤ 2^64;
  (** A frame handed out was nobody's, holds zeros, and leaves the others alone. *)
  fs_alloc : ∀ s, good s → left s ≠ O → ∃ r s', alloc_frame s = (Ok r, s') ∧ good s' ∧
    left s' = pred (left s) ∧ ¬ client s r ∧ client s' r ∧ (∀ p, client s p → client s' p) ∧
    (∀ i, 0 ≤ i < 512 → read64 s' (hhdm + r + 8 * i) = 0) ∧
    (∀ p i, client s p → 0 ≤ i < 512 → read64 s' (hhdm + p + 8 * i) = read64 s (hhdm + p + 8 * i));
  (** A store to a client's frame changes that word. *)
  fs_write : ∀ s p i v, good s → client s p → 0 ≤ i < 512 → fits 64 v →
    let s' := write64 (hhdm + p + 8 * i) v s in
    good s' ∧ left s' = left s ∧ (∀ q, client s q → client s' q) ∧
    read64 s' (hhdm + p + 8 * i) = v ∧
    (∀ q j, client s q → 0 ≤ j < 512 → (q, j) ≠ (p, i) →
      read64 s' (hhdm + q + 8 * j) = read64 s (hhdm + q + 8 * j));
}.

Section walk.
Context {S : Type} `{HF : Frames S} (hhdm : Z) (mode : Mode).

(** Entry [i] of the table at physical address [t]. *)
Definition ent_at (s : S) (t i : Z) : Z := read64 s (hhdm + t + 8 * i).

(** The processor's walk: the leaf entry, and how many levels it is above the
    last. *)
Fixpoint walk_at (s : S) (t : Z) (indices : list Z) : option (Z * nat) :=
  match indices with
  | [] => None
  | i :: rest =>
      let e := ent_at s t i in
      if negb (Z.testbit e 0) then None
      else match rest with
           | [] => Some (e, O)
           | _ => if Z.testbit e 7 then Some (e, length rest) else walk_at s (entry_addr e) rest
           end
  end.

Definition va_indices (va : Z) : list Z :=
  match mode with FIVE_LEVEL => [va / 2^48 mod 512] | FOUR_LEVEL => [] end ++
  [va / 2^39 mod 512; va / 2^30 mod 512; va / 2^21 mod 512; va / 2^12 mod 512].

(** Writable, user, write-through, cache-disable, global, no-execute. *)
Definition ATTRIBUTES : Z := 2^1 + 2^2 + 2^3 + 2^4 + 2^8 + 2^63.

(** The physical address and the attributes of a virtual one; only the last three
    levels have leaves. *)
Definition translate (s : S) (root va : Z) : option (Z * Z) :=
  match walk_at s root (va_indices va) with
  | Some (e, k) =>
      if (k <=? 2)%nat then
        let shift := 12 + 9 * Z.of_nat k in
        Some (e mod 2^48 / 2^shift * 2^shift + va mod 2^shift, Z.land e ATTRIBUTES)
      else None
  | None => None
  end.

Definition depth : nat := match mode with FIVE_LEVEL => 5 | FOUR_LEVEL => 4 end.

(** Following tables only. *)
Fixpoint reaches_at (s : S) (t : Z) (indices : list Z) (t' : Z) : Prop :=
  match indices with
  | [] => t = t'
  | i :: rest => is_table (ent_at s t i) = true ∧ reaches_at s (entry_addr (ent_at s t i)) rest t'
  end.

(** No large page on the way. *)
Fixpoint clear_at (s : S) (t : Z) (indices : list Z) : Prop :=
  match indices with
  | [] => True
  | i :: rest => is_large (ent_at s t i) = false ∧
      (is_table (ent_at s t i) = true → clear_at s (entry_addr (ent_at s t i)) rest)
  end.

Definition in_range (i : Z) : Prop := 0 ≤ i < 512.

(** The tables are a tree: each has one path of indices from the root. *)
Record tree_at (client : S → Z → Prop) (own : gmap Z (list Z)) (root : Z) (s : S) : Prop := {
  tr_root : own !! root = Some [];
  tr_client : ∀ t p, own !! t = Some p → client s t;
  tr_table : ∀ t p i, own !! t = Some p → in_range i → (length p + 1 < depth)%nat →
    is_table (ent_at s t i) = true → own !! entry_addr (ent_at s t i) = Some (p ++ [i]);
}.
End walk.

Lemma flag_bits e : is_table e = Z.testbit e 0 && negb (Z.testbit e 7) ∧
  is_large e = Z.testbit e 0 && Z.testbit e 7.
Proof.
  unfold is_table, is_large. change (Z.lor PT_FLAG_VALID PT_FLAG_LARGE) with 0x81. change PT_FLAG_VALID with 1.
  assert (Z.land e 0x81 = Z.b2z (Z.testbit e 0) + 128 * Z.b2z (Z.testbit e 7)) as ->.
  { assert (0x81 = Z.lor (2^0) (2^7)) as -> by done. rewrite Z.land_lor_distr_r.
    assert (∀ k, 0 ≤ k → Z.land e (2^k) = if Z.testbit e k then 2^k else 0) as Hbit.
    { intros k Hk. apply Z.bits_inj'. intros i Hi. rewrite Z.land_spec.
      destruct (decide (i = k)) as [->|].
      - rewrite Z.pow2_bits_true, andb_true_r by done. destruct (Z.testbit e k); [by rewrite Z.pow2_bits_true|by rewrite Z.testbit_0_l].
      - rewrite Z.pow2_bits_false, andb_false_r by done. destruct (Z.testbit e k); [by rewrite Z.pow2_bits_false|by rewrite Z.testbit_0_l]. }
    rewrite !Hbit by lia. by destruct (Z.testbit e 0), (Z.testbit e 7). }
  by destruct (Z.testbit e 0), (Z.testbit e 7).
Qed.

Section tree.
Context {S : Type} `{HF : Frames S} {hhdm : Z} (mode : Mode) {good : S → Prop} {client : S → Z → Prop}
  {left : S → nat} `{!FramesSpec S hhdm good client left} (root : Z).
Implicit Types (s : S) (own : gmap Z (list Z)).

Local Notation ent := (ent_at hhdm).
Local Notation walk := (walk_at hhdm).
Local Notation reaches := (reaches_at hhdm).
Local Notation clear_path := (clear_at hhdm).
Local Notation tree := (tree_at hhdm mode client).
Local Notation depth := (depth mode).

Lemma depth_pos : (4 ≤ depth)%nat.
Proof using. unfold depth. destruct mode; lia. Qed.

(** A walk that stays off the path [q] sees the same entries. *)
Lemma walk_agree s s' own q t p ls : tree own root s → own !! t = Some p →
  (length p + length ls = depth)%nat → Forall in_range ls →
  (∀ t p i, own !! t = Some p → in_range i → p ++ [i] ≠ q → ent s' t i = ent s t i) →
  ¬ q `prefix_of` (p ++ ls) → walk s' t ls = walk s t ls.
Proof using.
  intros Ht Ho Hl Hr Hag Hq. revert t p Ho Hl Hq.
  induction Hr as [|i ls Hi _ IH]; intros t p Ho Hl Hq; [done|]. cbn [walk_at].
  assert (ent s' t i = ent s t i) as ->.
  { apply (Hag t p); [done|done|]. intros <-. apply Hq. exists ls. by rewrite <- app_assoc. }
  destruct (negb _) eqn:E0; [done|]. destruct ls as [|j ls]; [done|].
  destruct (Z.testbit _ 7) eqn:E7; [done|].
  apply (IH _ (p ++ [i])).
  - apply (tr_table _ _ _ _ _ _ Ht); [done|done|cbn in Hl; lia|].
    destruct (flag_bits (ent s t i)) as [-> _]. apply negb_false_iff in E0. by rewrite E0, E7.
  - rewrite length_app. cbn in *. lia.
  - by rewrite <- app_assoc.
Qed.

Lemma walk_reaches s t p t' ls : reaches s t p t' → ls ≠ [] → walk s t (p ++ ls) = walk s t' ls.
Proof using.
  revert t. induction p as [|i p IH]; intros t; [by intros ->|]. intros [Hi Hr] Hne. cbn [app walk_at].
  destruct (flag_bits (ent s t i)) as [E _]. rewrite E in Hi. apply andb_true_iff in Hi as [H0 H7%negb_true_iff].
  rewrite H0, H7. cbn [negb]. destruct (p ++ ls) as [|j l] eqn:El.
  - apply app_eq_nil in El as [_ ->]. done.
  - by apply IH.
Qed.

Lemma reaches_snoc s t p i t' : reaches s t p t' → is_table (ent s t' i) = true →
  reaches s t (p ++ [i]) (entry_addr (ent s t' i)).
Proof using.
  revert t. induction p as [|j p IH]; intros t; cbn; [by intros ->|].
  intros [H1 H2] H3. split; [done|]. by apply IH.
Qed.

(** The tables on the way down are where the path says. *)
Lemma reaches_agree s s' own q t p t' p0 : tree own root s → own !! t = Some p0 →
  (length p0 + length p < depth)%nat → Forall in_range p →
  (∀ t p i, own !! t = Some p → in_range i → p ++ [i] ≠ q → ent s' t i = ent s t i) →
  (length p0 + length p < length q)%nat → reaches s t p t' → reaches s' t p t'.
Proof using.
  intros Ht Ho Hl Hr Hag Hq. revert t p0 Ho Hl Hq.
  induction Hr as [|i p Hi _ IH]; intros t p0 Ho Hl Hq; [done|]. cbn [reaches_at length] in *. intros [H1 H2].
  assert (ent s' t i = ent s t i) as ->.
  { apply (Hag t p0); [done|done|]. intros <-. rewrite length_app in Hq. cbn in Hq. lia. }
  split; [done|]. apply (IH _ (p0 ++ [i])).
  - apply (tr_table _ _ _ _ _ _ Ht); [done|done|lia|done].
  - rewrite length_app. cbn. lia.
  - rewrite length_app. cbn. lia.
  - done.
Qed.

(** A fresh table's entry in its parent. *)
Lemma new_entry r : 0 < r → r mod 2^12 = 0 → r + 2^12 ≤ 2^48 →
  let e := PageTableEntry_new r PT_TABLE_FLAGS in
  entry_addr e = r ∧ is_table e = true ∧ fits 64 e.
Proof using.
  intros H0 Hm Hr e. assert (Z.lor r 7 = r + 7) as E.
  { pose proof (shiftl_or_add (r / 2^12) 7 12) as E. rewrite Z.shiftl_mul_pow2 in E by lia.
    assert (r / 2^12 * 2^12 = r) as Er by (pose proof (Z.div_mod r (2^12)); lia). rewrite Er in E.
    apply E; unfold fits; lia. }
  subst e. unfold PageTableEntry_new. change PT_TABLE_FLAGS with 7. rewrite E.
  split; [|split; [|unfold fits; lia]].
  - unfold entry_addr. change PT_PADDR_MASK with (2^48 - 1 - (2^12 - 1)).
    rewrite (land_lnot_low _ 12 48) by (unfold fits; lia).
    rewrite <- (Z_mod_plus_full 7 (r / 2^12) (2^12)) || idtac.
    assert ((r + 7) mod 2^12 = 7) as ->; [|lia]. rewrite Zplus_mod, Hm. done.
  - destruct (flag_bits (r + 7)) as [-> _]. assert ((r + 7) mod 2^12 = 7) as Em by (rewrite Zplus_mod, Hm; done).
    rewrite <- (Z.mod_pow2_bits_low (r + 7) 12 0), <- (Z.mod_pow2_bits_low (r + 7) 12 7), Em by lia. done.
Qed.

(** A fresh table at an entry: the frame was nobody's and is clear, and no other entry
    of the tables changes. *)
Lemma new_table s own t p i : good s → tree own root s → own !! t = Some p → in_range i → left s ≠ O →
  ∃ r s1, alloc_frame s = (Ok r, s1) ∧ let e := PageTableEntry_new r PT_TABLE_FLAGS in
    let s2 := write64 (hhdm + t + 8 * i) e s1 in
    entry_addr e = r ∧ is_table e = true ∧ good s2 ∧ (pred (left s) ≤ left s2)%nat ∧ r ∉ dom own ∧
    client s2 r ∧ (∀ q, client s q → client s2 q) ∧ ent s2 t i = e ∧ (∀ j, in_range j → ent s2 r j = 0) ∧
    (∀ t' p' j, own !! t' = Some p' → in_range j → (t', j) ≠ (t, i) → ent s2 t' j = ent s t' j).
Proof using FramesSpec0.
  intros Hg Ht Ho Hi Hleft. destruct (fs_alloc s Hg Hleft) as (r & s1 & E1 & G1 & L1 & Hnc & Hc1 & Hcs & Hz & Hk).
  exists r, s1. split; [done|]. intros e s2. destruct (fs_range s1 r G1 Hc1) as (R0 & Rm & Rt & Rh0 & Rh).
  destruct (new_entry r R0 Rm Rt) as (Ea & Ei & Ef). pose proof (tr_client _ _ _ _ _ _ Ht t p Ho) as Hct.
  destruct (fs_write s1 t i e G1 (Hcs t Hct) Hi Ef) as (G2 & L2 & C2 & W2 & O2).
  assert (r ∉ dom own) as Hrd.
  { intros [p' Hp']%elem_of_dom. apply Hnc. by apply (tr_client _ _ _ _ _ _ Ht _ p'). }
  split; [done|]. split; [done|]. split; [done|]. split; [unfold s2; lia|]. split; [done|]. split; [by apply C2|].
  split; [by auto|]. split; [exact W2|]. split.
  - intros j Hj. unfold ent_at. unfold s2. rewrite O2; [by apply Hz|done|done|]. intros [= <- _].
    apply Hrd, elem_of_dom. by exists p.
  - intros t' p' j Ho' Hj Hne. unfold ent_at, s2. pose proof (tr_client _ _ _ _ _ _ Ht t' p' Ho') as Hc'.
    rewrite O2; [by apply Hk|by apply Hcs|done|done].
Qed.

(** One level down: the next table exists or is made, and no translation changes. *)
Lemma next_level_Ok map va size lvl s own p t i rest : good s → tree own root s → own !! t = Some p →
  (length p + 1 < depth)%nat → Forall in_range p → in_range i → reaches s root p t →
  clear_path s t (i :: rest) → Forall in_range rest → left s ≠ O →
  ∃ r s' own', get_next_level map (hhdm + t) va size lvl i s = (Ok r, s') ∧ good s' ∧
    (pred (left s) ≤ left s')%nat ∧ tree own' root s' ∧ own' !! r = Some (p ++ [i]) ∧
    reaches s' root (p ++ [i]) r ∧ clear_path s' r rest ∧
    ∀ ls, length ls = depth → Forall in_range ls → walk s' root ls = walk s root ls.
Proof using FramesSpec0.
  intros Hg Ht Ho Hd Hp Hi Hr [Hnl Hcl] Hrest Hleft. unfold get_next_level, entry_get.
  change (read64 s (hhdm + t + 8 * i)) with (ent s t i). unfold mbind at 1, prog_bind at 1. cbn [gets].
  change (read64 s (hhdm + t + 8 * i)) with (ent s t i).
  destruct (is_table (ent s t i)) eqn:Et.
  { exists (entry_addr (ent s t i)), s, own. split; [done|]. split; [done|]. split; [lia|]. split; [done|].
    split; [by apply (tr_table _ _ _ _ _ _ Ht)|]. split; [by apply reaches_snoc|]. split; [by apply Hcl|done]. }
  rewrite Hnl. destruct (new_table s own t p i Hg Ht Ho Hi Hleft) as (r & s1 & E1 & Ea & Ei & G2 & L2 & Hrd & Cr & C2 & Hset & Hzero & Hag').
  rewrite (bind_Ok _ _ _ _ _ E1). set (e := PageTableEntry_new r PT_TABLE_FLAGS) in *.
  set (s2 := write64 (hhdm + t + 8 * i) e s1) in *.
  assert (∀ t' p' j, own !! t' = Some p' → in_range j → p' ++ [j] ≠ p ++ [i] → ent s2 t' j = ent s t' j) as Hag.
  { intros t' p' j Ho' Hj Hne. apply (Hag' t' p'); [done..|]. intros [= -> ->]. apply Hne. congruence. }
  assert (∀ ls, length ls = depth → Forall in_range ls → walk s2 root ls = walk s root ls) as Hwalk.
  { intros ls Hl Hls. destruct (decide ((p ++ [i]) `prefix_of` ls)) as [[rest' ->]|Hnp].
    - rewrite <- app_assoc in *. rewrite !length_app in Hl. cbn in Hl.
      rewrite (walk_reaches s root p t) by done.
      assert (reaches s2 root p t) as Hr2.
      { apply (reaches_agree s s2 own (p ++ [i]) root p t []); try done; [apply Ht|cbn; lia|rewrite length_app; cbn; lia]. }
      rewrite (walk_reaches s2 root p t) by done. cbn [walk_at app]. rewrite Hset.
      destruct (flag_bits (ent s t i)) as [F1 F2]. destruct (flag_bits e) as [F3 _].
      rewrite F1 in Et. rewrite F2 in Hnl. rewrite F3 in Ei. apply andb_true_iff in Ei as [Ei0 Ei7%negb_true_iff].
      rewrite Ei0, Ei7. destruct (Z.testbit (ent s t i) 0); [by destruct (Z.testbit (ent s t i) 7)|]. cbn [negb].
      destruct rest' as [|j rest']; [cbn in Hl; lia|]. cbn [walk_at]. rewrite Ea.
      apply Forall_app in Hls as [_ Hls]. cbn in Hls. apply Forall_cons in Hls as [_ Hls]. apply Forall_cons in Hls as [Hj _].
      by rewrite Hzero.
    - apply (walk_agree s s2 own (p ++ [i]) root []); try done. apply Ht. }
  exists r, s2, (<[r := p ++ [i]]> own). split; [done|]. split; [done|]. split; [lia|]. split; [|split; [|split; [|split]]].
  - constructor.
    + rewrite lookup_insert_ne; [apply Ht|]. intros ->. apply Hrd, elem_of_dom. exists []. apply Ht.
    + intros t' p' Hl. destruct (decide (t' = r)) as [->|Hn]; [done|].
      rewrite lookup_insert_ne in Hl by done. apply C2. by apply (tr_client _ _ _ _ _ _ Ht _ p').
    + intros t' p' j Hl Hj Hdj Htab. destruct (decide (t' = r)) as [->|Hn].
      { rewrite Hzero in Htab by done. done. }
      rewrite lookup_insert_ne in Hl by done.
      destruct (decide ((t', j) = (t, i))) as [[= -> ->]|Hne].
      * rewrite Hset, Ea. replace p' with p by congruence. by rewrite lookup_insert_eq.
      * rewrite (Hag' t' p' j) in * by done. pose proof (tr_table _ _ _ _ _ _ Ht t' p' j Hl Hj Hdj Htab) as Hnext.
        rewrite lookup_insert_ne; [done|]. intros E. rewrite <- E in Hnext. apply Hrd, elem_of_dom. by eexists.
  - by rewrite lookup_insert_eq.
  - rewrite <- Ea, <- Hset. apply reaches_snoc; [|by rewrite Hset].
    apply (reaches_agree s s2 own (p ++ [i]) root p t []); try done; [apply Ht|cbn; lia|rewrite length_app; cbn; lia].
  - destruct Hrest as [|j rest Hj _]; [done|]. cbn [clear_at]. rewrite Hzero by done. done.
  - done.
Qed.

(** A leaf stored in the table the path [p] leads to. *)
Lemma leaf_store_Ok s own p t i v : good s → tree own root s → own !! t = Some p → (length p < depth)%nat →
  Forall in_range p → in_range i → reaches s root p t → fits 64 v → Z.testbit v 0 = true →
  ((length p + 1 < depth)%nat → Z.testbit v 7 = true) →
  ∃ s', entry_set (hhdm + t) i v s = (Ok tt, s') ∧ good s' ∧ left s' = left s ∧ tree own root s' ∧
    reaches s' root p t ∧ ∀ ls, length ls = depth → Forall in_range ls → walk s' root ls =
      if decide ((p ++ [i]) `prefix_of` ls) then Some (v, (depth - length p - 1)%nat) else walk s root ls.
Proof using FramesSpec0.
  intros Hg Ht Ho Hd Hp Hi Hr Hv H0 H7. unfold entry_set. cbn [modify].
  pose proof (tr_client _ _ _ _ _ _ Ht t p Ho) as Hct.
  destruct (fs_write s t i v Hg Hct Hi Hv) as (G2 & L2 & C2 & W2 & O2).
  set (s2 := write64 (hhdm + t + 8 * i) v s) in *. exists s2.
  assert (∀ t' p' j, own !! t' = Some p' → in_range j → (t', j) ≠ (t, i) → ent s2 t' j = ent s t' j) as Hag'.
  { intros t' p' j Ho' Hj Hne. apply O2; [by apply (tr_client _ _ _ _ _ _ Ht t' p')|done|done]. }
  assert (∀ t' p' j, own !! t' = Some p' → in_range j → p' ++ [j] ≠ p ++ [i] → ent s2 t' j = ent s t' j) as Hag.
  { intros t' p' j Ho' Hj Hne. apply (Hag' t' p'); [done..|]. intros [= -> ->]. apply Hne. congruence. }
  assert (reaches s2 root p t) as Hr2.
  { apply (reaches_agree s s2 own (p ++ [i]) root p t []); try done; [apply Ht|rewrite length_app; cbn; lia]. }
  split; [done|]. split; [done|]. split; [done|]. split; [|split; [done|]].
  - constructor; [apply Ht| |].
    + intros t' p' Hl. by apply C2, (tr_client _ _ _ _ _ _ Ht t' p').
    + intros t' p' j Hl Hj Hdj Htab. destruct (decide ((t', j) = (t, i))) as [[= -> ->]|Hne].
      * exfalso. replace p' with p in Hdj by congruence. destruct (flag_bits (ent s2 t i)) as [F _].
        assert (ent s2 t i = v) as E2 by exact W2. rewrite F, E2, H7, andb_false_r in Htab by done. done.
      * rewrite (Hag' t' p' j) in * by done. by apply (tr_table _ _ _ _ _ _ Ht).
  - intros ls Hl Hls. case_decide as Hpre.
    + destruct Hpre as [rest ->]. rewrite <- app_assoc in *. rewrite !length_app in Hl. cbn in Hl.
      rewrite (walk_reaches s2 root p t) by done. cbn [walk_at app].
      assert (ent s2 t i = v) as -> by exact W2. rewrite H0. cbn [negb].
      destruct rest as [|j rest].
      * do 2 f_equal. cbn in Hl. lia.
      * rewrite H7 by (cbn in Hl; lia). do 2 f_equal. cbn in *. lia.
    + apply (walk_agree s s2 own (p ++ [i]) root []); try done. apply Ht.
Qed.

Lemma higher_half s r : good s → client s r → to_higher_half hhdm r = hhdm + r.
Proof using FramesSpec0.
  intros Hg Hc. destruct (fs_range s r Hg Hc) as (? & _ & ? & ? & ?).
  unfold to_higher_half. rewrite u64_small by lia. lia.
Qed.

Lemma pml_index_eq va shift : 0 ≤ shift → pml_index va shift = va / 2^shift mod 512.
Proof using.
  intros Hs. unfold pml_index. rewrite Z.shiftr_land, Z.shiftr_shiftl_l, Z.sub_diag, Z.shiftl_0_r by lia.
  rewrite Z.shiftr_div_pow2 by lia. change 0x1ff with (2^9 - 1). by rewrite land_ones_mod by lia.
Qed.

Lemma va_indices_ok va : length (va_indices mode va) = depth ∧ Forall in_range (va_indices mode va).
Proof using.
  unfold va_indices, depth. destruct mode; cbn; (split; [done|]); repeat constructor; apply Z.mod_pos_bound; lia.
Qed.

(** The state of the descent: [t] is where the path [p] leads, [n] frames are left
    and the translations are those of [s0]. *)
Definition descent (s0 : S) (n : nat) (s : S) (own : gmap Z (list Z)) (p : list Z) (t : Z) (rest : list Z) : Prop :=
  good s ∧ (n ≤ left s)%nat ∧ tree own root s ∧ own !! t = Some p ∧ reaches s root p t ∧ clear_path s t rest ∧
  Forall in_range p ∧ Forall in_range rest ∧
  ∀ ls, length ls = depth → Forall in_range ls → walk s root ls = walk s0 root ls.

Lemma down map va size lvl s0 n s own p t i rest :
  descent s0 (Datatypes.S n) s own p t (i :: rest) → (length p + 1 < depth)%nat →
  ∃ r s' own', get_next_level map (hhdm + t) va size lvl i s = (Ok r, s') ∧
    to_higher_half hhdm r = hhdm + r ∧ descent s0 n s' own' (p ++ [i]) r rest.
Proof using FramesSpec0.
  intros (Hg & Hl & Ht & Ho & Hr & Hc & Hp & Hrest & Hw) Hd. apply Forall_cons in Hrest as [Hi Hrest].
  destruct (next_level_Ok map va size lvl s own p t i rest) as (r & s' & own' & E & G' & L' & T' & O' & R' & C' & W');
    [done..|lia|].
  exists r, s', own'. split; [done|].
  split; [apply (higher_half s'); [done|by apply (tr_client _ _ _ _ _ _ T' r _ O')]|].
  unfold descent. split_and!; try done; [lia|apply Forall_app_2; [done|by apply Forall_singleton]|].
  intros ls Hls Hrg. by rewrite W', Hw.
Qed.

(** The leaf [vmm_map] writes. *)
Definition leaf_entry (physical_addr flags : Z) (size : PageSize) : Z :=
  let flags := Z.lor flags 0x01 in
  match size with
  | Size4KiB =>
      Z.lor physical_addr (if negb (Z.land flags (Z.shiftl 1 12) =? 0)
        then Z.lor (Z.land flags (not64 (Z.shiftl 1 12))) (Z.shiftl 1 7) else flags)
  | _ => Z.lor (Z.lor physical_addr flags) PT_FLAG_LARGE
  end.

(** How many levels above the last the leaf of a size is. *)
Definition size_level (size : PageSize) : nat := match size with Size4KiB => 0 | Size2MiB => 1 | Size1GiB => 2 end.

Lemma finish s0 n s own p t i v size : descent s0 n s own p t [] → in_range i → fits 64 v → Z.testbit v 0 = true →
  (length p + 1 + size_level size = depth)%nat → (size ≠ Size4KiB → Z.testbit v 7 = true) →
  ∃ s' own', entry_set (hhdm + t) i v s = (Ok tt, s') ∧ good s' ∧ (n ≤ left s')%nat ∧ tree own' root s' ∧
    ∀ ls, length ls = depth → Forall in_range ls → walk s' root ls =
      if decide ((p ++ [i]) `prefix_of` ls) then Some (v, size_level size) else walk s0 root ls.
Proof using FramesSpec0.
  intros (Hg & Hl & Ht & Ho & Hr & Hc & Hp & Hrest & Hw) Hi Hv H0 Hd H7.
  destruct (leaf_store_Ok s own p t i v) as (s' & E & G & L & T & R & W); try done; [lia| |].
  { intros Hlt. apply H7. intros ->. cbn in Hd. lia. }
  exists s', own. split; [done|]. split; [done|]. split; [lia|]. split; [done|]. intros ls Hls Hrg. rewrite W by done.
  case_decide; [|by apply Hw]. do 2 f_equal. lia.
Qed.

End tree.

Section mapping.
Context {S : Type} `{HF : Frames S} {hhdm : Z} {good : S → Prop} {client : S → Z → Prop}
  {left : S → nat} `{!FramesSpec S hhdm good client left}.

Section run.
Context {A B C : Type} (Q : outcome C * S → Prop).
Lemma run_ret (a : A) (f : A → prog S C) s : Q (f a s) → Q ((mret a ≫= f) s).
Proof. done. Qed.
Lemma run_bind (m : prog S A) (f : A → prog S C) s a s' : m s = (Ok a, s') → Q (f a s') → Q ((m ≫= f) s).
Proof. intros E. by rewrite (bind_Ok _ _ _ _ _ E). Qed.
Lemma run_bind2 (m : prog S A) (f : A → B) (g : B → prog S C) s a s' :
  m s = (Ok a, s') → Q (g (f a) s') → Q (((x ← m; mret (f x)) ≫= g) s).
Proof. intros E. rewrite bind_assoc. by rewrite (bind_Ok _ _ _ _ _ E). Qed.
End run.

(** One step of the descent, in a goal [Q (prog s)]. *)
Ltac step_down D :=
  let r := fresh "r" in let s' := fresh "s'" in let own := fresh "own'" in
  let E := fresh "E" in let H := fresh "Hh" in
  eapply down in D as (r & s' & own & E & H & D); [|try exact _; cbn; lia..];
  first [eapply run_bind; [exact E|] | eapply run_bind2; [exact E|]];
  cbv beta zeta; rewrite H; clear E H.

Local Opaque get_next_level seqZ entry_set for_each.
Lemma vmm_map_Ok mode cpuid_edx fuel root n s own va pa flags size : good s → tree_at hhdm mode client own root s →
  (size = Size1GiB → is_1gib_page_supported cpuid_edx = true) →
  let path := take (depth mode - 1 - size_level size) (va_indices mode va) in
  clear_at hhdm s root path → (length path + n ≤ left s)%nat →
  let v := leaf_entry pa flags size in
  fits 64 v → Z.testbit v 0 = true → (size ≠ Size4KiB → Z.testbit v 7 = true) →
  ∃ s' own', vmm_map hhdm mode cpuid_edx (Datatypes.S fuel) (hhdm + root) va pa flags size s = (Ok tt, s') ∧
    good s' ∧ (n ≤ left s')%nat ∧ tree_at hhdm mode client own' root s' ∧
    ∀ ls, length ls = depth mode → Forall in_range ls → walk_at hhdm s' root ls =
      if decide (take (depth mode - size_level size) (va_indices mode va) `prefix_of` ls)
      then Some (v, size_level size) else walk_at hhdm s root ls.
Proof.
  intros Hg Ht H1g path Hc Hl v Hv H0 H7. destruct (va_indices_ok mode va) as [Hlen Hrange].
  assert (descent (good:=good) (client:=client) (left:=left) (hhdm:=hhdm) mode root s (length path + n) s own [] root path) as D.
  { unfold descent. split_and!; try done; [apply Ht|by apply Forall_take]. }
  assert (∀ x, in_range ((va / 2^x) mod 512)) as Hr by (intros; by apply Z.mod_pos_bound).
  unfold path, va_indices in *. clear path Hc Hl.
  assert (size = Size1GiB → negb (is_1gib_page_supported cpuid_edx) = false) as H1n.
  { intros. by rewrite H1g. }
  match goal with |- ∃ s' own', ?m = (Ok tt, s') ∧ @?R s' own' =>
    pose (Q := λ r : outcome unit * S, ∃ s' own', r = (Ok tt, s') ∧ R s' own'); change (Q m) end.
  unfold vmm_map; fold (vmm_map hhdm mode cpuid_edx); cbv zeta. rewrite !pml_index_eq by lia.
  destruct mode; [apply run_ret|].
  all: destruct size; cbn [take depth size_level app length Nat.sub Nat.add] in D.
  all: step_down D.
  all: repeat first [rewrite decide_False by done | rewrite decide_True by done | rewrite H1g by done | step_down D].
  all: subst Q; cbv beta.
  all: match goal with |- context [entry_set _ ?i ?x _] => change x with v;
    match type of H7 with ?size ≠ _ → _ => eapply (finish _ _ _ _ _ _ _ _ i v size) in D; [|try exact _..] end end.
  all: cbn [app take depth size_level Nat.sub length] in D |- *; try exact D; done.
Qed.

(** Without processor support a 1 GiB page is 512 pages of 2 MiB, mapped after the
    upper levels exist. *)
Lemma vmm_map_1g_Ok mode cpuid_edx fuel root n s own va pa flags : good s → tree_at hhdm mode client own root s →
  is_1gib_page_supported cpuid_edx = false →
  let path := take (depth mode - 3) (va_indices mode va) in
  clear_at hhdm s root path → (length path + n ≤ left s)%nat →
  ∃ s1 own1, vmm_map hhdm mode cpuid_edx (Datatypes.S fuel) (hhdm + root) va pa flags Size1GiB s =
      for_each (seqZ 0 512) (λ k, vmm_map hhdm mode cpuid_edx fuel (hhdm + root) (u64 (va + k * 0x200000))
        (u64 (pa + k * 0x200000)) (Z.lor flags 1) Size2MiB) s1 ∧
    good s1 ∧ (n ≤ left s1)%nat ∧ tree_at hhdm mode client own1 root s1 ∧
    ∀ ls, length ls = depth mode → Forall in_range ls → walk_at hhdm s1 root ls = walk_at hhdm s root ls.
Proof.
  intros Hg Ht H1g path Hc Hl. destruct (va_indices_ok mode va) as [Hlen Hrange].
  assert (descent (good:=good) (client:=client) (left:=left) (hhdm:=hhdm) mode root s (length path + n) s own [] root path) as D.
  { unfold descent. split_and!; try done; [apply Ht|by apply Forall_take]. }
  unfold path, va_indices in *. clear path Hc Hl.
  match goal with |- ∃ s1 own1, ?m = ?f s1 ∧ @?R s1 own1 =>
    pose (Q := λ r : outcome unit * S, ∃ s1 own1, r = f s1 ∧ R s1 own1); change (Q m) end.
  unfold vmm_map; fold (vmm_map hhdm mode cpuid_edx); cbv zeta. rewrite !pml_index_eq by lia.
  destruct mode; [apply run_ret|]; cbn [take depth app length Nat.sub Nat.add] in D; repeat step_down D;
    rewrite decide_True, H1g by done; subst Q; cbv beta; destruct D as (? & ? & ? & _ & _ & _ & _ & _ & W); eauto 8.
Qed.
End mapping.

(** ** What [vmm_map] does to the translation *)

Definition size_shift (size : PageSize) : Z := 12 + 9 * Z.of_nat (size_level size).
Definition va_bits (mode : Mode) : Z := 12 + 9 * Z.of_nat (depth mode).

(** [w] and [va] are on one page, as far as the processor looks at them. *)
Definition same_page (mode : Mode) (size : PageSize) (w va : Z) : bool :=
  w / 2^size_shift size mod 2^(va_bits mode - size_shift size) =?
  va / 2^size_shift size mod 2^(va_bits mode - size_shift size).

(** No address bits among the flags; bit 12 asks for the frame buffer's caching. *)
Definition plain_flags (flags : Z) : Prop := fits 64 flags ∧ Z.land flags 0x0000FFFFFFFFE000 = 0.

Lemma plain_flags_bit flags i : plain_flags flags → 13 ≤ i < 48 → Z.testbit flags i = false.
Proof.
  intros [_ H] Hi. assert (Z.testbit (Z.land flags 0x0000FFFFFFFFE000) i = false) as E by (rewrite H; apply Z.testbit_0_l).
  rewrite Z.land_spec in E. change 0x0000FFFFFFFFE000 with (Z.shiftl (Z.ones 35) 13) in E.
  rewrite Z.shiftl_spec, Z.ones_spec_low, andb_true_r in E by lia. done.
Qed.

Lemma fits_bits w x : 0 ≤ w → 0 ≤ x → (∀ i, w ≤ i → Z.testbit x i = false) → fits w x.
Proof.
  intros Hw Hx Hb. split; [done|]. assert (x mod 2^w = x) as <-; [|by apply Z.mod_pos_bound; lia].
  apply Z.bits_inj'. intros i Hi. destruct (decide (i < w)); autorewrite with bits; [done|]. symmetry. apply Hb. lia.
Qed.

Lemma low_zero_bit x k i : 0 ≤ i < k → x mod 2^k = 0 → Z.testbit x i = false.
Proof. intros Hi H. rewrite <- (Z.mod_pow2_bits_low x k i), H by lia. apply Z.testbit_0_l. Qed.

(** The complement of a machine word. *)
Lemma not64_bit x i : fits 64 x → 0 ≤ i → Z.testbit (not64 x) i = (i <? 64) && negb (Z.testbit x i).
Proof.
  intros Hx Hi. assert (not64 x = Z.ldiff (Z.ones 64) x) as ->.
  { unfold not64, u64_max. rewrite <- Z.sub_nocarry_ldiff; [rewrite Z.ones_equiv; lia|].
    apply Z.bits_inj'. intros j Hj. autorewrite with bits. destruct (decide (j < 64)).
    - by rewrite Z.ones_spec_low, andb_false_r by lia.
    - by rewrite (testbit_above x 64) by (done || lia). }
  rewrite Z.ldiff_spec. destruct (Z.ltb_spec i 64); [by rewrite Z.ones_spec_low by lia|by rewrite Z.ones_spec_high by lia].
Qed.

(** The bits of a leaf. *)
Lemma leaf_entry_bit pa flags size i : fits 64 flags → 0 ≤ i → Z.testbit (leaf_entry pa flags size) i =
  Z.testbit pa i || (i =? 0) ||
  match size with
  | Size4KiB => (negb (i =? 12) && Z.testbit flags i) || ((i =? 7) && Z.testbit flags 12)
  | _ => Z.testbit flags i || (i =? 7)
  end.
Proof.
  intros Hf Hi. assert (∀ k, 0 ≤ k → Z.testbit (Z.shiftl 1 k) i = (i =? k)) as Hone.
  { intros k Hk. rewrite Z.shiftl_1_l, Z.pow2_bits_eqb, Z.eqb_sym by done. done. }
  assert (∀ x, negb (Z.land x (Z.shiftl 1 12) =? 0) = Z.testbit x 12) as H12.
  { intros x. rewrite Z.shiftl_1_l. destruct (Z.testbit x 12) eqn:E.
    - apply negb_true_iff, Z.eqb_neq. intros H. assert (Z.testbit (Z.land x (2^12)) 12 = false) as H' by (rewrite H; apply Z.testbit_0_l).
      rewrite Z.land_spec, E, Z.pow2_bits_true in H' by done. done.
    - apply negb_false_iff, Z.eqb_eq, Z.bits_inj'. intros j Hj. rewrite Z.land_spec, Z.testbit_0_l, Z.pow2_bits_eqb by done.
      destruct (Z.eqb_spec 12 j) as [<-|]; [by rewrite E|apply andb_false_r]. }
  unfold leaf_entry. change PT_FLAG_LARGE with (Z.shiftl 1 7).
  assert (Z.testbit 1 i = (i =? 0)) as Hbit0 by apply (Hone 0 ltac:(done)).
  destruct size; [|rewrite !Z.lor_spec, ?Hbit0, !Hone by lia; by destruct (Z.testbit pa i), (Z.testbit flags i), (i =? 0), (i =? 7)..].
  rewrite H12, Z.lor_spec. assert (Z.testbit 1 12 = false) as Z12 by done.
  rewrite (Z.lor_spec flags), Z12, orb_false_r.
  destruct (Z.testbit flags 12) eqn:E12; rewrite !Z.lor_spec, ?Z.land_spec, ?Z.lor_spec, ?Hbit0, ?Hone by lia.
  - rewrite not64_bit, ?Hone by (done || lia). destruct (Z.ltb_spec i 64).
    + destruct (Z.eqb_spec i 12) as [->|]; [rewrite E12; by destruct (Z.testbit pa 12)|].
      by destruct (Z.testbit pa i), (Z.testbit flags i), (i =? 0), (i =? 7).
    + assert ((i =? 0) = false) as -> by lia. assert ((i =? 7) = false) as -> by lia.
      rewrite (testbit_above flags 64) by done. by destruct (Z.testbit pa i), (i =? 12).
  - destruct (Z.eqb_spec i 12) as [->|]; [rewrite E12; by destruct (Z.testbit pa 12)|].
    by destruct (Z.testbit pa i), (Z.testbit flags i), (i =? 0), (i =? 7).
Qed.

(** What the processor makes of the leaf. *)
Lemma leaf_entry_Ok pa flags size : 0 ≤ pa < 2^48 → pa mod 2^size_shift size = 0 → plain_flags flags →
  let v := leaf_entry pa flags size in
  fits 64 v ∧ Z.testbit v 0 = true ∧ (size ≠ Size4KiB → Z.testbit v 7 = true) ∧
  v mod 2^48 / 2^size_shift size * 2^size_shift size = pa ∧ Z.land v ATTRIBUTES = Z.land flags ATTRIBUTES.
Proof.
  intros Hpa Hal Hfl v. pose proof Hfl as [Hf _].
  assert (12 ≤ size_shift size ≤ 30) as Hs by (destruct size; cbv; done).
  assert (∀ i, 48 ≤ i → Z.testbit pa i = false) as Hhi by (intros; by apply (testbit_above pa 48)).
  assert (∀ i, 0 ≤ i < 12 → Z.testbit pa i = false) as Hlo.
  { intros. apply (low_zero_bit pa (size_shift size)); [lia|done]. }
  assert (0 ≤ v) as Hv.
  { unfold v, leaf_entry. destruct Hf as [Hf _]. assert (0 ≤ PT_FLAG_LARGE) by done.
    destruct size; [case_match|..]; rewrite ?Z.lor_nonneg, ?Z.land_nonneg; split_and!; try done; try lia.
    all: left; apply Z.lor_nonneg; lia. }
  split; [|split; [|split; [|split]]].
  - apply fits_bits; [done|done|]. intros i Hi. unfold v. rewrite leaf_entry_bit, Hhi, (testbit_above flags 64) by (done || lia).
    assert ((i =? 0) = false) as -> by lia. assert ((i =? 7) = false) as -> by lia. by destruct size, (i =? 12).
  - unfold v. rewrite leaf_entry_bit, Hlo by (done || lia). done.
  - intros Hn. unfold v. rewrite leaf_entry_bit, Hlo by (done || lia). destruct size; [done|by rewrite orb_true_r..].
  - apply Z.bits_inj'. intros i Hi. rewrite <- Z.shiftl_mul_pow2, <- Z.shiftr_div_pow2 by lia.
    rewrite Z.shiftl_spec by done. destruct (decide (i < size_shift size)).
    { rewrite Z.testbit_neg_r, (low_zero_bit pa (size_shift size)) by (done || lia). done. }
    rewrite Z.shiftr_spec by lia. replace (i - size_shift size + size_shift size) with i by lia.
    destruct (decide (i < 48)); [|by rewrite Z.mod_pow2_bits_high, Hhi by lia].
    rewrite Z.mod_pow2_bits_low by lia. unfold v. rewrite leaf_entry_bit by done.
    assert ((i =? 0) = false) as -> by lia. assert ((i =? 7) = false) as -> by lia.
    destruct (decide (i = 12)) as [->|]; [|rewrite (plain_flags_bit flags) by (done || lia)].
    + destruct size; [by rewrite !orb_false_r|exfalso; by apply n..].
    + rewrite ?andb_false_r, !orb_false_r. destruct size; by rewrite ?andb_false_r, ?orb_false_r.
  - apply Z.bits_inj'. intros i Hi. rewrite !Z.land_spec. destruct (Z.testbit ATTRIBUTES i) eqn:E; [|by rewrite !andb_false_r].
    assert (i ∈ [1; 2; 3; 4; 8; 63]) as Hin.
    { destruct (decide (i < 64)); [|by rewrite (testbit_above ATTRIBUTES 64) in E by (done || lia)].
      assert (Forall (λ i, Z.testbit ATTRIBUTES i = true → i ∈ [1; 2; 3; 4; 8; 63]) (seqZ 0 64)) as Hall
        by (apply (bool_decide_unpack _); by vm_compute).
      rewrite Forall_forall in Hall. apply Hall; [|done]. apply elem_of_seqZ. lia. }
    rewrite !andb_true_r. unfold v. rewrite leaf_entry_bit by done.
    set_unfold in Hin.
    assert (Z.testbit pa i = false) as -> by (destruct (decide (i < 12)); [apply Hlo; lia|apply Hhi; lia]).
    destruct Hin as [->|[->|[->|[->|[->|[->|[]]]]]]]; destruct size; by rewrite ?orb_false_r.
Qed.

Lemma mod_split a b M : 0 < M →
  a mod (2^9 * M) = b mod (2^9 * M) ↔ (a / 2^9) mod M = (b / 2^9) mod M ∧ a mod 512 = b mod 512.
Proof.
  intros HM. rewrite !Z.rem_mul_r by lia. change (2^9) with 512.
  pose proof (Z.mod_pos_bound a 512) as ?. pose proof (Z.mod_pos_bound b 512) as ?. split; [|lia].
  intros. lia.
Qed.

Lemma same_page_take mode size w va :
  same_page mode size w va = true ↔
  take (depth mode - size_level size) (va_indices mode va) = take (depth mode - size_level size) (va_indices mode w).
Proof.
  unfold same_page. rewrite Z.eqb_eq. symmetry.
  assert (∀ k k' n n', 0 ≤ k → 0 ≤ n' → k' = k + 9 → n = 9 + n' → w / 2^k mod 2^n = va / 2^k mod 2^n ↔
    w / 2^k' mod 2^n' = va / 2^k' mod 2^n' ∧ w / 2^k mod 512 = va / 2^k mod 512) as Hstep.
  { intros k k' n n' Hk Hn -> ->. rewrite Z.pow_add_r, mod_split, !Z.div_div, <- Z.pow_add_r by lia. done. }
  pose proof (Hstep 12 21) as H12. pose proof (Hstep 21 30) as H21. pose proof (Hstep 30 39) as H30.
  pose proof (Hstep 39 48 18 9) as H39. clear Hstep. unfold va_indices.
  match goal with |- _ ↔ w / 2^?a mod 2^?b = _ => set (k := a); set (n := b) end.
  destruct mode, size; cbv in k, n; subst k n; cbn [depth size_level Nat.sub take app].
  - rewrite (H12 36 27), (H21 27 18), (H30 18 9) by done. change (2^9) with 512. intuition congruence.
  - rewrite (H21 27 18), (H30 18 9) by done. change (2^9) with 512. intuition congruence.
  - rewrite (H30 18 9) by done. change (2^9) with 512. intuition congruence.
  - rewrite (H12 45 36), (H21 36 27), (H30 27 18), H39 by done. change (2^9) with 512. intuition congruence.
  - rewrite (H21 36 27), (H30 27 18), H39 by done. change (2^9) with 512. intuition congruence.
  - rewrite (H30 27 18), H39 by done. change (2^9) with 512. intuition congruence.
Qed.

Lemma same_page_path mode size w va :
  take (depth mode - size_level size) (va_indices mode va) `prefix_of` va_indices mode w ↔
  same_page mode size w va = true.
Proof.
  rewrite same_page_take. split.
  - intros [rest E]. rewrite E, take_app_length'; [done|].
    rewrite length_take. destruct (va_indices_ok mode va) as [-> _]. lia.
  - intros ->. by eexists; rewrite take_drop.
Qed.

(** Addresses closer than half the address space share a page only if they share
    its number. *)
Lemma same_page_near mode size w va : - 2^(va_bits mode - 1) < w - va < 2^(va_bits mode - 1) →
  same_page mode size w va = true ↔ w / 2^size_shift size = va / 2^size_shift size.
Proof.
  intros Hd. unfold same_page. rewrite Z.eqb_eq. split; [|by intros ->]. intros E.
  set (m := size_shift size) in *. assert (12 ≤ m ≤ 30) as Hm by (destruct size; cbv; done).
  assert (48 ≤ va_bits mode) as Hb by (destruct mode; cbv; done). set (b := va_bits mode) in *.
  assert (2^(b - 1) = 2^m * 2^(b - m - 1)) as Hp by (rewrite <- Z.pow_add_r by lia; f_equal; lia).
  assert (2^(b - m) = 2 * 2^(b - m - 1)) as Hp2 by (rewrite <- Z.pow_succ_r by lia; f_equal; lia).
  assert (0 < 2^m) as H2m by lia. assert (1 < 2^(b - m - 1)) as HN by (apply Z.pow_gt_1; lia).
  rewrite Hp2 in E. rewrite Hp in Hd. clear Hp Hp2 Hm. clearbody m b.
  set (M := 2^m) in *. set (N := 2^(b - m - 1)) in *. clearbody M N.
  pose proof (Z.div_mod w M ltac:(lia)) as Dw. pose proof (Z.div_mod va M ltac:(lia)) as Dv.
  pose proof (Z.mod_pos_bound w M H2m) as Bw. pose proof (Z.mod_pos_bound va M H2m) as Bv.
  pose proof (Z.div_mod (w / M) (2 * N) ltac:(lia)) as Dw'. pose proof (Z.div_mod (va / M) (2 * N) ltac:(lia)) as Dv'.
  rewrite E in Dw'. set (qw := w / M / (2 * N)) in *. set (qv := va / M / (2 * N)) in *.
  assert (qw = qv) as Hq; [|rewrite Hq in Dw'; lia].
  assert (- (2 * N) < w / M - va / M < 2 * N) as Hn.
  { split; apply (Z.mul_lt_mono_pos_l M); nia. }
  nia.
Qed.

(** A zeroed frame is an empty tree. *)
Lemma fresh_tree {S} `{HF : Frames S} hhdm mode (client : S → Z → Prop) s r :
  client s r → (∀ i, in_range i → ent_at hhdm s r i = 0) →
  tree_at hhdm mode client {[r := []]} r s ∧
  ∀ ls, Forall in_range ls → walk_at hhdm s r ls = None.
Proof.
  intros Hc Hz. split.
  - constructor; [by rewrite lookup_singleton_eq|..].
    + by intros t p [<- _]%lookup_singleton_Some.
    + intros t p i [<- _]%lookup_singleton_Some Hi _. by rewrite Hz.
  - intros [|i ls]; [done|]. intros [Hi _]%Forall_cons. cbn [walk_at]. by rewrite Hz.
Qed.

(** When no walk along a path ends in a leaf before its end, there is no large page
    on it. *)
Lemma clear_walk {S} `{HF : Frames S} hhdm s t path r : (0 < r)%nat → Forall in_range path →
  (∀ rest e k, length rest = r → Forall in_range rest → walk_at hhdm s t (path ++ rest) = Some (e, k) → (k < r)%nat) →
  clear_at hhdm s t path.
Proof.
  intros Hr. revert t. induction path as [|i path IH]; intros t Hp H; [done|]. apply Forall_cons in Hp as [Hi Hp].
  destruct (flag_bits (ent_at hhdm s t i)) as [F1 F2]. cbn [clear_at]. rewrite F1, F2.
  cbn [walk_at app] in H.
  assert (∀ rest, length rest = r → ∃ j l, path ++ rest = j :: l) as Hne.
  { intros rest Hl. destruct (path ++ rest) as [|j l] eqn:E; [|eauto]. apply app_eq_nil in E as [_ ->]. cbn in Hl. lia. }
  split.
  - destruct (Z.testbit _ 0) eqn:E0; [|done]. destruct (Z.testbit _ 7) eqn:E7; [|done]. exfalso.
    set (rest := replicate r 0) in *. assert (length rest = r) as Hl by apply length_replicate.
    destruct (Hne rest Hl) as (j & l & E). specialize (H rest (ent_at hhdm s t i) (length (path ++ rest)) Hl).
    rewrite E in H. cbn [negb] in H. rewrite <- E, length_app in H.
    enough (length path + length rest < r)%nat by lia. apply H; [|done].
    apply Forall_replicate. done.
  - intros [E0 E7%negb_true_iff]%andb_true_iff. rewrite E0, E7 in H. cbn [negb] in H. apply IH; [done|].
    intros rest e k Hl Hrest W. destruct (Hne rest Hl) as (j & l & E). apply (H rest e k Hl Hrest). rewrite E in *. exact W.
Qed.

(** From walks to translations. *)
Lemma leaf_translate {S} `{HF : Frames S} hhdm mode root s s' va pa flags size :
  0 ≤ pa < 2^48 → pa mod 2^size_shift size = 0 → plain_flags flags →
  (∀ ls, length ls = depth mode → Forall in_range ls → walk_at hhdm s' root ls =
    if decide (take (depth mode - size_level size) (va_indices mode va) `prefix_of` ls)
    then Some (leaf_entry pa flags size, size_level size) else walk_at hhdm s root ls) →
  ∀ w, translate hhdm mode s' root w =
    if same_page mode size w va then Some (pa + w mod 2^size_shift size, Z.land flags ATTRIBUTES)
    else translate hhdm mode s root w.
Proof.
  intros Hpa Hal Hfl W w. destruct (leaf_entry_Ok pa flags size Hpa Hal Hfl) as (_ & _ & _ & Hb & Ha).
  unfold translate. destruct (va_indices_ok mode w) as [Hlw Hrw]. rewrite W by done.
  case_decide as Hpre; rewrite same_page_path in Hpre.
  - rewrite Hpre. unfold size_shift in *. rewrite Hb, Ha. by destruct size.
  - apply not_true_is_false in Hpre. by rewrite Hpre.
Qed.

(** C23: mapping a page: the call succeeds, the processor now finds the page's bytes at
    [physical_addr] with the flags' attributes, and finds everything else where it
    did. *)
Theorem vmm_map_spec {S} `{HF : Frames S} {hhdm good client left} `{!FramesSpec S hhdm good client left}
    mode cpuid_edx fuel root s own va pa flags size :
  good s → tree_at hhdm mode client own root s →
  (size = Size1GiB → is_1gib_page_supported cpuid_edx = true) →
  clear_at hhdm s root (take (depth mode - 1 - size_level size) (va_indices mode va)) →
  (depth mode - 1 - size_level size ≤ left s)%nat →
  0 ≤ pa < 2^48 → pa mod 2^size_shift size = 0 → plain_flags flags →
  ∃ s' own', vmm_map hhdm mode cpuid_edx (Datatypes.S fuel) (hhdm + root) va pa flags size s = (Ok tt, s') ∧
    good s' ∧ tree_at hhdm mode client own' root s' ∧
    ∀ w, translate hhdm mode s' root w =
      if same_page mode size w va then Some (pa + w mod 2^size_shift size, Z.land flags ATTRIBUTES)
      else translate hhdm mode s root w.
Proof.
  intros Hg Ht H1 Hc Hl Hpa Hal Hfl. destruct (leaf_entry_Ok pa flags size Hpa Hal Hfl) as (Hv & H0 & H7 & _ & _).
  destruct (vmm_map_Ok mode cpuid_edx fuel root O s own va pa flags size) as (s' & own' & E & G' & _ & T' & W); try done.
  { rewrite length_take. destruct (va_indices_ok mode va) as [-> _]. lia. }
  exists s', own'. split; [done|]. split; [done|]. split; [done|]. by apply leaf_translate.
Qed.

(** * Replacing a large page *)

(** Memory as words at their addresses, frames handed out upwards. *)
Record sim := mk_sim { sim_next : Z; sim_words : gmap Z Z }.
#[export] Instance sim_frames : Frames sim := {|
  alloc_frame s := (Ok (sim_next s), mk_sim (sim_next s + 0x1000) (sim_words s));
  read64 s a := default 0 (sim_words s !! a);
  write64 a v s := mk_sim (sim_next s) (<[a := v]> (sim_words s));
|}.

(** The root at 0x1000; a 2 MiB page at 0x200000, then a 4 KiB page inside it. *)
Definition sim_map (va pa : Z) (size : PageSize) : prog sim unit := vmm_map 0 FOUR_LEVEL 0 4 0x1000 va pa 2 size.
Definition before_split : sim := snd (sim_map 0x200000 0x40000000 Size2MiB (mk_sim 0x2000 ∅)).
Definition after_split : sim := snd (sim_map 0x201000 0x7000 Size4KiB before_split).

(** [get_next_level] refills the page it replaces by mapping from the directory that
    holds the entry, as if that were the root: the rest of the large page is lost,
    and address 0 leads into a page table. *)
Example split_loses_neighbours :
  translate 0 FOUR_LEVEL before_split 0x1000 0x202000 = Some (0x40002000, 2) ∧
  translate 0 FOUR_LEVEL after_split 0x1000 0x201000 = Some (0x7000, 2) ∧
  translate 0 FOUR_LEVEL after_split 0x1000 0x202000 = None ∧
  translate 0 FOUR_LEVEL before_split 0x1000 0 = None ∧
  translate 0 FOUR_LEVEL after_split 0x1000 0 = Some (0x6000, 6).
Proof. split_and!; vm_compute; reflexivity. Qed.

(** * Fields of an entry *)

Definition field_width (f : Field) : Z := match f with Avl1 => 4 | Addr => 52 | _ => 1 end.

Lemma field_masks f : field_mask f = Z.shiftl (Z.ones (field_width f)) (field_shift f).
Proof. by destruct f. Qed.

Lemma field_place f : 0 ≤ field_shift f ∧ 0 < field_width f ∧ field_shift f + field_width f ≤ 64.
Proof. destruct f; cbn; lia. Qed.

Lemma get_field_bit e f i : 0 ≤ i →
  Z.testbit (get_field e f) i = (i <? field_width f) && Z.testbit e (i + field_shift f).
Proof.
  intros Hi. assert (get_field e f = Z.land (Z.shiftr e (field_shift f)) (Z.ones (field_width f))) as -> by by destruct f.
  rewrite Z.land_spec, Z.shiftr_spec by done. destruct (field_place f) as (_ & ? & _).
  destruct (Z.ltb_spec i (field_width f)); [rewrite Z.ones_spec_low by lia; apply andb_true_r|].
  rewrite Z.ones_spec_high by lia. apply andb_false_r.
Qed.

Lemma field_mask_bit f j : 0 ≤ j →
  Z.testbit (field_mask f) j = (field_shift f <=? j) && (j <? field_shift f + field_width f).
Proof.
  intros Hj. rewrite field_masks, Z.shiftl_spec by done. destruct (field_place f) as (? & ? & _).
  destruct (Z.leb_spec (field_shift f) j); [|by rewrite Z.testbit_neg_r by lia]. cbn [andb].
  destruct (Z.ltb_spec j (field_shift f + field_width f)); [by rewrite Z.ones_spec_low by lia|by rewrite Z.ones_spec_high by lia].
Qed.

Lemma set_field_bit e f v j : fits 64 e → 0 ≤ j → Z.testbit (set_field e f v) j =
  if (field_shift f <=? j) && (j <? field_shift f + field_width f) then Z.testbit v (j - field_shift f) else Z.testbit e j.
Proof.
  intros He Hj. unfold set_field. destruct (field_place f) as (? & ? & ?).
  assert (fits 64 (field_mask f)) as Hm by (destruct f; done).
  rewrite Z.lor_spec, !Z.land_spec, not64_bit, field_mask_bit by done.
  destruct ((field_shift f <=? j) && (j <? field_shift f + field_width f)) eqn:E; cbn [negb].
  - apply andb_true_iff in E as [E1 E2]. rewrite !andb_false_r, andb_true_r, orb_false_l. unfold u64.
    rewrite Z.mod_pow2_bits_low, Z.shiftl_spec by lia. done.
  - rewrite andb_false_r, orb_false_r, andb_true_r. destruct (Z.ltb_spec j 64); [apply andb_true_r|].
    by rewrite (testbit_above e 64) by (done || lia).
Qed.

(** [set_field] stores the value's low bits in its field and keeps the other
    fields; only [Addr], whose mask reaches bit 63, and [Nx] share a bit. *)
Lemma get_set_field e f v g : fits 64 e → (f, g) ≠ (Addr, Nx) → (f, g) ≠ (Nx, Addr) →
  get_field (set_field e f v) g = if decide (g = f) then v mod 2^field_width f else get_field e g.
Proof.
  intros He H1 H2. apply Z.bits_inj'. intros i Hi. rewrite get_field_bit by done.
  destruct (field_place f) as (Pf & Pw & _). destruct (field_place g) as (Pg & _ & _).
  rewrite set_field_bit by (done || lia). case_decide as E.
  - subst g. destruct (Z.ltb_spec i (field_width f)).
    + rewrite Z.mod_pow2_bits_low by lia. assert ((field_shift f <=? i + field_shift f) = true) as -> by lia.
      assert ((i + field_shift f <? field_shift f + field_width f) = true) as -> by lia.
      cbn [andb]. f_equal. lia.
    + by rewrite Z.mod_pow2_bits_high by lia.
  - rewrite get_field_bit by done. destruct (Z.ltb_spec i (field_width g)); [|done]. cbn [andb].
    destruct ((field_shift f <=? i + field_shift g) && (i + field_shift g <? field_shift f + field_width f)) eqn:Eb; [|done].
    exfalso. apply andb_true_iff in Eb as [E1%Z.leb_le E2%Z.ltb_lt].
    destruct f, g; try done; cbn in *; lia.
Qed.

Lemma get_set_field_witness :
  get_field (set_field 7 Avl1 0x25) Avl1 = 5 ∧ get_field (set_field 7 Avl1 0x25) ReadWrite = 1.
Proof.
  split.
  - exact (get_set_field 7 Avl1 0x25 Avl1 ltac:(done) ltac:(done) ltac:(done)).
  - exact (get_set_field 7 Avl1 0x25 ReadWrite ltac:(done) ltac:(done) ltac:(done)).
Defined.

(** Storing an address clears the no-execute bit. *)
Example set_addr_clears_nx : get_field (set_field (Z.shiftl 1 63) Addr 1) Nx = 0.
Proof. reflexivity. Qed.
