(* ===== verification/Vmm.v ===== *)
(** src/src/mem/vmm.rs: the address space the kernel boots into.

    [vmm_init] maps the first 4 GiB and all memory above it at the direct-map
    offset, and the kernel's image at its link address.  [vmm_init_spec] reads the
    resulting tables with the processor's walk.  The page allocator of Pmm.v is
    shown to provide the frames. *)

From S2P Require Import Prelude Mem Pmm Paging.

Definition VMM_FLAG_WRITE : Z := Z.shiftl 1 1.
Definition VMM_FLAG_NOEXEC : Z := Z.shiftl 1 63.
Definition VMM_FLAG_FB : Z := Z.lor (Z.shiftl 1 3) (Z.shiftl 1 12).

(** The memory map entry types [vmm_init] tells apart. *)
Inductive EntryType := KERNEL_AND_MODULES | RESERVED | BAD_MEMORY | OTHER_MEMORY.
#[export] Instance EntryType_eq_dec : EqDecision EntryType.
Proof. solve_decision. Defined.
Record VmmEntry := mk_vmm_entry { ve_base : Z; ve_length : Z; ve_type : EntryType }.

(** [va_space_switch]: the value [cr3] is loaded with. *)
Definition va_space_switch (hhdm_offset kernel_virtual_base pd_ptr : Z) : Z :=
  if kernel_virtual_base <? pd_ptr then pd_ptr - kernel_virtual_base
  else if hhdm_offset <? pd_ptr then pd_ptr - hhdm_offset else pd_ptr.

Section vmm_init.
Context {S : Type} `{Frames S} (hhdm : Z) (mode : Mode) (cpuid_edx : Z) (fuel : nat).
(** The physical and virtual base of the kernel. *)
Context (physical_base virtual_base : Z).

Definition map_page (pd va pa flags : Z) (size : PageSize) : prog S unit :=
  vmm_map hhdm mode cpuid_edx fuel pd va pa flags size.

Definition map_kernel_entry (pd : Z) (entry : VmmEntry) : prog S unit :=
  if negb (bool_decide (ve_type entry = KERNEL_AND_MODULES)) then mret tt else
  for_each (seqZ 0 ((ve_length entry + 0xFFF) / 0x1000)) (λ k,
    let i := k * 0x1000 in
    map_page pd (u64 (virtual_base + i)) (u64 (physical_base + i)) 0x02 Size4KiB).

Definition map_memory_entry (pd : Z) (entry : VmmEntry) : prog S unit :=
  if bool_decide (ve_type entry = RESERVED) || bool_decide (ve_type entry = BAD_MEMORY) then mret tt else
  let top := u64 (ve_base entry + ve_length entry) in
  let base := if ve_base entry <? 0x100000000 then 0x100000000 else ve_base entry in
  if top <=? base then mret tt else
  aligned_base ← lift (align_down base 0x40000000);
  aligned_top ← lift (align_up top 0x40000000);
  let aligned_length := u64 (aligned_top - aligned_base) in
  for_each (seqZ 0 ((aligned_length + 0x3FFFFFFF) / 0x40000000)) (λ k,
    let page := u64 (aligned_base + k * 0x40000000) in
    map_page pd (u64 (page + hhdm)) page 0x02 Size1GiB).

(** Returns [KENREL_PAGE_DIRECTORY] and the new [cr3]. *)
Definition vmm_init (memmap : list VmmEntry) : prog S (Z * Z) :=
  r ← alloc_frame;
  let page_directory := to_higher_half hhdm r in
  for_each (seqZ 0 4) (λ k,
    let i := k * 0x40000000 in
    map_page page_directory (u64 (i + hhdm)) i VMM_FLAG_WRITE Size1GiB) ;;
  for_each memmap (map_kernel_entry page_directory) ;;
  for_each memmap (map_memory_entry page_directory) ;;
  mret (page_directory, va_space_switch hhdm virtual_base page_directory).
End vmm_init.

(** * The address space after [vmm_init] *)

(** Where the boot loader puts things: [limit] GiB of memory behind a direct map in
    the upper half, and the kernel's image in GiBs of its own above it. *)
Record layout_ok (mode : Mode) (hhdm limit physical_base virtual_base ksize : Z) : Prop := {
  lo_hhdm : hhdm mod 2^30 = 0;
  lo_upper : 2^64 - 2^(va_bits mode - 1) ≤ hhdm;
  lo_limit : 4 ≤ limit ∧ limit * 2^30 ≤ 2^48;
  lo_above : hhdm + limit * 2^30 ≤ virtual_base / 2^30 * 2^30;
  lo_top : virtual_base + ksize ≤ 2^64;
  lo_kernel : 0 ≤ ksize ∧ 0 ≤ physical_base ∧ physical_base + ksize ≤ 2^48;
  lo_aligned : virtual_base mod 2^12 = 0 ∧ physical_base mod 2^12 = 0 ∧ ksize mod 2^12 = 0;
}.

Record entry_ok (limit ksize : Z) (e : VmmEntry) : Prop := {
  eo_base : 0 ≤ ve_base e;
  eo_length : 0 ≤ ve_length e;
  eo_top : ve_base e + ve_length e ≤ limit * 2^30;
  eo_kernel : ve_type e = KERNEL_AND_MODULES → ve_length e ≤ ksize;
}.

Section boot.
Context {S : Type} `{HF : Frames S} {hhdm : Z} {good : S → Prop} {client : S → Z → Prop}
  {left : S → nat} {FS : FramesSpec S hhdm good client left}.
Context (mode : Mode) (cpuid_edx : Z) (limit physical_base virtual_base ksize : Z).
Context (Hlo : layout_ok mode hhdm limit physical_base virtual_base ksize).

Definition direct (w : Z) : Prop := hhdm ≤ w < hhdm + limit * 2^30.
Definition kernel (w : Z) : Prop := virtual_base ≤ w < virtual_base + ksize.

(** The translation [vmm_init] means to set up. *)
Definition want (w : Z) : option (Z * Z) :=
  if decide (hhdm ≤ w < hhdm + limit * 2^30) then Some (w - hhdm, VMM_FLAG_WRITE)
  else if decide (virtual_base ≤ w < virtual_base + ksize) then Some (w - virtual_base + physical_base, VMM_FLAG_WRITE)
  else None.

(** The size the direct map is made of. *)
Definition direct_size : PageSize := if is_1gib_page_supported cpuid_edx then Size1GiB else Size2MiB.

(** Only the direct map has large pages. *)
Definition in_direct (ls : list Z) : Prop := ∃ i, 0 ≤ i < limit ∧
  take (depth mode - 2) ls = take (depth mode - 2) (va_indices mode (hhdm + i * 2^30)).
Definition large_only_direct (root : Z) (s : S) : Prop := ∀ ls e k, length ls = depth mode → Forall in_range ls →
  walk_at hhdm s root ls = Some (e, k) → k = O ∨ (in_direct ls ∧ (k ≤ size_level direct_size)%nat).

Record booting (root : Z) (own : gmap Z (list Z)) (s : S) : Prop := {
  bo_good : good s;
  bo_tree : tree_at hhdm mode client own root s;
  bo_large : large_only_direct root s;
}.

(** A page of the direct map, or one of the kernel's. *)
Definition page_wanted (va pa : Z) (size : PageSize) : Prop :=
  (size = direct_size ∧ direct va ∧ pa = va - hhdm ∧ pa mod 2^size_shift size = 0) ∨
  (size = Size4KiB ∧ kernel va ∧ pa = va - virtual_base + physical_base ∧ va mod 2^12 = 0).

Lemma near w va : direct w ∨ kernel w → direct va ∨ kernel va → - 2^(va_bits mode - 1) < w - va < 2^(va_bits mode - 1).
Proof using Hlo.
  unfold direct, kernel. destruct Hlo. pose proof (Z.div_mod virtual_base (2^30)). pose proof (Z.mod_pos_bound virtual_base (2^30)). lia.
Qed.

Lemma direct_size_shift : size_shift direct_size = 30 ∨ size_shift direct_size = 21.
Proof using. unfold direct_size. destruct is_1gib_page_supported; [by left|by right]. Qed.

Lemma layout_bounds : 0 ≤ hhdm ∧ hhdm + limit * 2^30 ≤ virtual_base ∧ hhdm + limit * 2^30 ≤ 2^64.
Proof using Hlo.
  destruct Hlo as [_ Hu _ Ha Ht Hk _]. assert (2^(va_bits mode - 1) ≤ 2^64) by (destruct mode; cbv; done).
  clear Hlo. Z.to_euclidean_division_equations; lia.
Qed.

(** The page holds what is wanted at its addresses. *)
Lemma page_wanted_want va pa size w : page_wanted va pa size → direct w ∨ kernel w → same_page mode size w va = true →
  want w = Some (pa + w mod 2^size_shift size, VMM_FLAG_WRITE).
Proof using Hlo.
  intros Hp Hw Hs. apply same_page_near in Hs; [|apply near; [done|]]; last first.
  { destruct Hp as [(_ & ? & _)|(_ & ? & _)]; auto. }
  pose proof Hlo as [Hh Hu Hl Ha Ht Hk Hal].
  unfold want. destruct Hp as [(-> & Hd & -> & Hm)|(-> & Hkv & -> & Hm)]; unfold direct, kernel in *.
  - clear Hw Ha Ht Hk Hal Hu Hl.
    destruct direct_size_shift as [E|E]; rewrite E in *; clear E;
      (rewrite decide_True; [repeat f_equal|]; Z.to_euclidean_division_equations; lia).
  - clear Hw Hh Hu Hl. change (size_shift Size4KiB) with 12 in *.
    assert (w = va + w mod 2^12) as Ew by (Z.to_euclidean_division_equations; lia).
    assert (w - virtual_base + physical_base = va - virtual_base + physical_base + w mod 2^12) as Ev by lia.
    rewrite decide_False, decide_True; [by rewrite Ev|..]; Z.to_euclidean_division_equations; lia.
Qed.

Lemma take_in_direct (ls ls' : list Z) : take (depth mode - 2) ls = take (depth mode - 2) ls' → in_direct ls → in_direct ls'.
Proof using. intros E (i & Hi & H). exists i. by rewrite <- E. Qed.

Lemma in_direct_va va : direct va → in_direct (va_indices mode va).
Proof using Hlo.
  intros Hd. exists ((va - hhdm) / 2^30). pose proof Hlo as [Hh Hu Hl Ha Ht Hk Hal]. unfold direct in Hd.
  assert (0 ≤ (va - hhdm) / 2^30 < limit) as Hi by (Z.to_euclidean_division_equations; lia). split; [done|].
  symmetry. apply (same_page_take mode Size1GiB). apply same_page_near.
  - apply near; left; unfold direct; Z.to_euclidean_division_equations; lia.
  - change (size_shift Size1GiB) with 30. Z.to_euclidean_division_equations; lia.
Qed.

Lemma not_in_direct va : kernel va → ¬ in_direct (va_indices mode va).
Proof using Hlo.
  intros Hk' (i & Hi & E). symmetry in E. apply (same_page_take mode Size1GiB) in E. pose proof Hlo as [Hh Hu Hl Ha Ht Hk Hal].
  apply same_page_near in E; [|apply near; [by right|left; unfold direct; lia]].
  change (size_shift Size1GiB) with 30 in E. unfold kernel in Hk'. Z.to_euclidean_division_equations; lia.
Qed.

(** ** Steps of the boot code *)

(** [m] runs, needs at most [N] frames, and makes the addresses in [F] translate as
    wanted without spoiling others. *)
Definition boots (root : Z) (N : nat) (m : prog S unit) (F : Z → Prop) : Prop := ∀ n s own,
  booting root own s → (N + n ≤ left s)%nat → ∃ s' own', m s = (Ok tt, s') ∧ booting root own' s' ∧ (n ≤ left s')%nat ∧
    ∀ w, direct w ∨ kernel w → translate hhdm mode s' root w = want w ∨
      (¬ F w ∧ translate hhdm mode s' root w = translate hhdm mode s root w).

Lemma boots_ret root (F : Z → Prop) : (∀ w, direct w ∨ kernel w → ¬ F w) → boots root 0 (mret tt) F.
Proof using. intros HF' n s own Hb Hl. exists s, own. split; [done|]. split; [done|]. split; [done|]. intros w Hw. right. eauto. Qed.

Lemma boots_weaken root N N' m (F F' : Z → Prop) : (N ≤ N')%nat → (∀ w, direct w ∨ kernel w → F' w → F w) →
  boots root N m F → boots root N' m F'.
Proof using.
  intros HN HF' H n s own Hb Hl. destruct (H n s own Hb) as (s' & own' & E & B & L & T); [lia|].
  exists s', own'. split; [done|]. split; [done|]. split; [done|]. intros w Hw. destruct (T w Hw) as [?|[? ?]]; [by left|right]. eauto.
Qed.

Lemma boots_seq root N1 N2 m1 m2 (F1 F2 : Z → Prop) : boots root N1 m1 F1 → boots root N2 m2 F2 →
  boots root (N1 + N2) (m1 ;; m2) (λ w, F1 w ∨ F2 w).
Proof using.
  intros H1 H2 n s own Hb Hl. destruct (H1 (N2 + n)%nat s own Hb) as (s1 & own1 & E1 & B1 & L1 & T1); [lia|].
  destruct (H2 n s1 own1 B1) as (s2 & own2 & E2 & B2 & L2 & T2); [lia|].
  exists s2, own2. rewrite (bind_Ok _ _ _ _ _ E1). split; [done|]. split; [done|]. split; [done|].
  intros w Hw. destruct (T2 w Hw) as [?|[? ->]]; [by left|]. destruct (T1 w Hw) as [?|[? ?]]; [by left|right]. tauto.
Qed.

Lemma boots_for_each_sum {A} root (N : A → nat) (l : list A) (body : A → prog S unit) (F : A → Z → Prop) :
  (∀ x, x ∈ l → boots root (N x) (body x) (F x)) →
  boots root (sum_list (N <$> l)) (for_each l body) (λ w, ∃ x, x ∈ l ∧ F x w).
Proof using.
  induction l as [|x l IH]; intros H.
  - apply boots_ret. intros w _ (x & Hx & _). by apply elem_of_nil in Hx.
  - cbn [for_each fmap list_fmap sum_list]. eapply boots_weaken; [reflexivity| |
      apply boots_seq; [apply H; left|apply IH; intros; apply H; by right]].
    intros w _ (y & [->|Hy]%elem_of_cons & HF'); [by left|right; eauto].
Qed.

Lemma boots_for_each {A} root N (l : list A) (body : A → prog S unit) (F : A → Z → Prop) :
  (∀ x, x ∈ l → boots root N (body x) (F x)) →
  boots root (length l * N) (for_each l body) (λ w, ∃ x, x ∈ l ∧ F x w).
Proof using.
  intros H. refine (boots_weaken root _ _ _ _ _ _ (λ w _ Hw, Hw) (boots_for_each_sum root (λ _, N) l body F H)).
  clear H. induction l as [|x l IH]; cbn in *; [done|lia].
Qed.

(** One call of [vmm_map] for a wanted page. *)
Lemma map_page_boots root f va pa flags size : page_wanted va pa size → flags = 2 ∨ flags = 3 →
  boots root (depth mode) (vmm_map hhdm mode cpuid_edx (Datatypes.S f) (hhdm + root) va pa flags size)
    (λ w, same_page mode size w va = true).
Proof using Hlo FS.
  intros Hp Hfl n s own [Hg Ht Hbig] Hleft. destruct (va_indices_ok mode va) as [Hlen Hrange].
  assert (0 ≤ pa < 2^48 ∧ pa mod 2^size_shift size = 0) as [Hpa Hal].
  { pose proof Hlo as [Hh Hu Hl Ha Hto Hk Hal]. unfold page_wanted, direct, kernel in Hp.
    destruct Hp as [(_ & ? & -> & ?)|(-> & ? & -> & ?)]; [split; [lia|done]|].
    change (size_shift Size4KiB) with 12. Z.to_euclidean_division_equations; lia. }
  assert (plain_flags flags ∧ Z.land flags ATTRIBUTES = VMM_FLAG_WRITE) as [Hpf Hat] by (destruct Hfl as [->| ->]; done).
  destruct (leaf_entry_Ok pa flags size Hpa Hal Hpf) as (Hv & H0 & H7 & _ & _).
  assert (2 < depth mode)%nat as Hdep by (destruct mode; cbn; lia).
  assert (size_level size ≤ 2)%nat as Hsl by (destruct size; cbn; lia).
  destruct (vmm_map_Ok mode cpuid_edx f root n s own va pa flags size) as (s' & own' & E & G' & L' & T' & W); try done.
  { destruct Hp as [(-> & _)|(-> & _)]; [|done]. unfold direct_size. by destruct is_1gib_page_supported. }
  { apply (clear_walk _ _ _ _ (Datatypes.S (size_level size))); [lia|by apply Forall_take|].
    intros rest e k Hr Hrest Hw. 
    destruct (Hbig (take (depth mode - 1 - size_level size) (va_indices mode va) ++ rest) e k)
      as [->|[Hd Hk]]; try done; [| |lia|].
    - rewrite length_app, length_take, Hr, Hlen. lia.
    - apply Forall_app; split; [by apply Forall_take|done].
    - destruct Hp as [(-> & _)|(-> & Hkv & _)]; [lia|]. exfalso. apply (not_in_direct va Hkv).
      revert Hd. apply take_in_direct. cbn [size_level]. rewrite take_app_le, take_take by (rewrite length_take, Hlen; lia).
      f_equal. lia. }
  { rewrite length_take, Hlen. lia. }
  exists s', own'. split; [done|]. split; [|split; [done|]].
  - split; [done|done|]. intros ls e k Hll Hlr. rewrite W by done. case_decide as Hpre; [|by apply Hbig].
    intros [= _ <-]. destruct Hp as [(-> & Hd & _)|(-> & _)]; [right|by left]. split; [|done].
    apply (take_in_direct (va_indices mode va)); [|by apply in_direct_va]. destruct Hpre as [rest ->].
    rewrite take_app_le, take_take by (rewrite length_take, Hlen; lia). f_equal. lia.
  - intros w Hw. rewrite (leaf_translate hhdm mode root s s' va pa flags size Hpa Hal Hpf W), Hat.
    destruct (same_page mode size w va) eqn:Hs; [left|by right]. symmetry. by apply (page_wanted_want va).
Qed.

Lemma same_page_in va size w : direct w ∨ kernel w → direct va ∨ kernel va → va mod 2^size_shift size = 0 →
  va ≤ w < va + 2^size_shift size → same_page mode size w va = true.
Proof using Hlo.
  intros Hw Hva Hm Hin. apply same_page_near; [by apply near|].
  assert (0 < 2^size_shift size) as Hp by (destruct size; cbv; done).
  pose proof (Z.div_mod va (2^size_shift size) ltac:(lia)) as Hd. rewrite Hm in Hd.
  symmetry. apply Z.div_unique with (w - va); lia.
Qed.

(** The [k]th 2 MiB page of a GiB. *)
Lemma direct_2m_boots root f i k : 0 ≤ i < limit → 0 ≤ k < 512 → direct_size = Size2MiB →
  boots root (depth mode)
    (vmm_map hhdm mode cpuid_edx (Datatypes.S f) (hhdm + root) (u64 (hhdm + i * 2^30 + k * 0x200000))
      (u64 (i * 2^30 + k * 0x200000)) (Z.lor 2 1) Size2MiB)
    (λ w, hhdm + i * 2^30 + k * 2^21 ≤ w < hhdm + i * 2^30 + (k + 1) * 2^21).
Proof using Hlo FS.
  intros Hi Hk Eds. pose proof Hlo as [Hh _ Hl _ _ _ _].
  assert (direct (hhdm + i * 2^30 + k * 2^21)) as Hdk by (unfold direct; lia).
  pose proof layout_bounds. rewrite !u64_small by (unfold direct in Hdk; lia).
  assert ((hhdm + i * 2^30 + k * 2^21) mod 2^21 = 0) as Hm by (Z.to_euclidean_division_equations; lia).
  assert ((i * 2^30 + k * 2^21) mod 2^21 = 0) as Hm' by (Z.to_euclidean_division_equations; lia).
  eapply boots_weaken; [reflexivity| |apply map_page_boots].
  - intros w Hw Hin. apply same_page_in; [done|by left|done|]. change (size_shift Size2MiB) with 21. lia.
  - left. rewrite Eds. split_and!; [done|done|lia|done].
  - by right.
Qed.

(** How many frames a GiB of the direct map can take. *)
Definition direct_cost : nat :=
  if is_1gib_page_supported cpuid_edx then depth mode else (513 * depth mode)%nat.

Lemma direct_page_boots root f i : 0 ≤ i < limit →
  boots root direct_cost
    (vmm_map hhdm mode cpuid_edx (Datatypes.S (Datatypes.S f)) (hhdm + root) (hhdm + i * 2^30) (i * 2^30) 2 Size1GiB)
    (λ w, hhdm + i * 2^30 ≤ w < hhdm + (i + 1) * 2^30).
Proof using Hlo FS.
  intros Hi. pose proof Hlo as [Hh Hu Hl Ha Ht Hk Hal].
  assert (direct (hhdm + i * 2^30)) as Hd by (unfold direct; lia).
  destruct (is_1gib_page_supported cpuid_edx) eqn:E1.
  - assert (direct_size = Size1GiB) as Eds by (unfold direct_size; by rewrite E1).
    eapply boots_weaken; [| |apply map_page_boots].
    + unfold direct_cost. by rewrite E1.
    + intros w Hw Hin. apply same_page_in; [done|by left|..]; change (size_shift Size1GiB) with 30.
      * rewrite Z.mod_add by done. done.
      * lia.
    + left. rewrite Eds. change (size_shift Size1GiB) with 30. rewrite Z.mod_mul by done. split_and!; [done|done|lia|done].
    + by left.
  - assert (direct_size = Size2MiB) as Eds by (unfold direct_size; by rewrite E1).
    intros n s own [Hg Htr Hbig] Hleft. destruct (va_indices_ok mode (hhdm + i * 2^30)) as [Hlen Hrange].
    assert (2 < depth mode)%nat as Hdep by (destruct mode; cbn; lia).
    assert (length (take (depth mode - 3) (va_indices mode (hhdm + i * 2^30))) ≤ depth mode)%nat as Hpl
      by (rewrite length_take; lia).
    destruct (vmm_map_1g_Ok mode cpuid_edx (Datatypes.S f) root (512 * depth mode + n) s own (hhdm + i * 2^30) (i * 2^30) 2)
      as (s1 & own1 & E & G1 & L1 & T1 & W1); try done.
    { apply (clear_walk _ _ _ _ 3); [lia|by apply Forall_take|]. intros rest e k Hr Hrest Hw.
      destruct (Hbig (take (depth mode - 3) (va_indices mode (hhdm + i * 2^30)) ++ rest) e k) as [->|[_ Hk']]; try done; [| |lia|].
      - rewrite length_app, length_take, Hr, Hlen. lia.
      - apply Forall_app; split; [by apply Forall_take|done].
      - rewrite Eds in Hk'. cbn in Hk'. lia. }
    { unfold direct_cost in Hleft. rewrite E1 in Hleft. lia. }
    assert (booting root own1 s1) as B1.
    { split; [done|done|]. intros ls e k Hll Hlr. rewrite W1 by done. by apply Hbig. }
    assert (∀ w, translate hhdm mode s1 root w = translate hhdm mode s root w) as T.
    { intros w. unfold translate. destruct (va_indices_ok mode w). by rewrite W1. }
    rewrite E.
    destruct (boots_for_each root (depth mode) (seqZ 0 512) _ _
      (λ k Hk', direct_2m_boots root f i k Hi (proj1 (elem_of_seqZ 0 512 k) Hk') Eds) n s1 own1 B1) as (s' & own' & E' & B' & L' & T').
    { rewrite length_seqZ. change (Z.to_nat 512) with 512%nat. lia. }
    exists s', own'. split; [done|]. split; [done|]. split; [done|]. intros w Hw.
    destruct (T' w Hw) as [?|[Hn Hsame]]; [by left|right]. split; [|by rewrite Hsame]. intros Hin. apply Hn.
    exists ((w - hhdm - i * 2^30) / 2^21). split; [apply elem_of_seqZ|]; Z.to_euclidean_division_equations; lia.
Qed.

(** The pages of a memory map entry's kernel and memory above 4 GiB. *)
Definition kernel_pages (e : VmmEntry) : nat :=
  if bool_decide (ve_type e = KERNEL_AND_MODULES) then Z.to_nat ((ve_length e + 0xFFF) / 0x1000) else O.
Definition is_memory (e : VmmEntry) : bool := negb (bool_decide (ve_type e = RESERVED) || bool_decide (ve_type e = BAD_MEMORY)).
Definition memory_gibs (e : VmmEntry) : nat :=
  let base := Z.max (ve_base e) 0x100000000 in
  let top := ve_base e + ve_length e in
  if is_memory e && (base <? top) then Z.to_nat ((top + 0x3FFFFFFF) / 0x40000000 - base / 0x40000000) else O.

Lemma kernel_entry_boots root f e : entry_ok limit ksize e →
  boots root (kernel_pages e * depth mode)
    (map_kernel_entry hhdm mode cpuid_edx (Datatypes.S f) physical_base virtual_base (hhdm + root) e)
    (λ w, ve_type e = KERNEL_AND_MODULES ∧ virtual_base ≤ w < virtual_base + ve_length e).
Proof using Hlo FS.
  intros [Hb Hl Ht Hk]. unfold map_kernel_entry, kernel_pages.
  destruct (bool_decide_reflect (ve_type e = KERNEL_AND_MODULES)) as [Hty|Hty]; cbn [negb].
  2: { apply boots_ret. tauto. }
  specialize (Hk Hty). pose proof Hlo as [_ _ _ _ Hto [Hk0 [Hp0 Hpk]] [Hv [Hpa Hks]]]. pose proof layout_bounds as [Hb0 [Hb1 Hb2]].
  eapply boots_weaken; [| |apply (boots_for_each root (depth mode) _ _ (λ k w, virtual_base + k * 0x1000 ≤ w < virtual_base + (k + 1) * 0x1000))].
  - rewrite length_seqZ. done.
  - intros w _ [_ Hin]. exists ((w - virtual_base) / 0x1000). split; [apply elem_of_seqZ|]; Z.to_euclidean_division_equations; lia.
  - intros k Hin%elem_of_seqZ. cbv zeta.
    assert (kernel (virtual_base + k * 0x1000)) as Hkv by (unfold kernel; Z.to_euclidean_division_equations; lia).
    assert ((virtual_base + k * 0x1000) mod 2^12 = 0) as Hm by (Z.to_euclidean_division_equations; lia).
    unfold map_page. rewrite !u64_small by (unfold kernel in Hkv; lia).
    eapply boots_weaken; [reflexivity| |apply map_page_boots].
    + intros w Hw Hin'. apply same_page_in; [done|by right|done|]. change (size_shift Size4KiB) with 12. lia.
    + right. split_and!; [done|done|lia|done].
    + by left.
Qed.

(** The GiB [i] as [vmm_init] maps it. *)
Lemma gib_boots root f i va pa : 0 ≤ i < limit → va = hhdm + i * 2^30 → pa = i * 2^30 →
  boots root direct_cost (map_page hhdm mode cpuid_edx (Datatypes.S (Datatypes.S f)) (hhdm + root) (u64 va) pa 2 Size1GiB)
    (λ w, hhdm + i * 2^30 ≤ w < hhdm + (i + 1) * 2^30).
Proof using Hlo FS.
  intros Hi -> ->. pose proof layout_bounds. unfold map_page. rewrite u64_small by lia. by apply direct_page_boots.
Qed.

Lemma memory_entry_boots root f e : entry_ok limit ksize e →
  boots root (memory_gibs e * direct_cost)
    (map_memory_entry hhdm mode cpuid_edx (Datatypes.S (Datatypes.S f)) (hhdm + root) e)
    (λ w, is_memory e = true ∧ hhdm + Z.max (ve_base e) 0x100000000 ≤ w < hhdm + ve_base e + ve_length e).
Proof using Hlo FS.
  intros [Hb Hl Ht Hk]. unfold map_memory_entry, memory_gibs, is_memory.
  destruct (bool_decide _ || bool_decide _); cbn [negb andb]; [by apply boots_ret; intros w _ []|].
  pose proof Hlo as [_ _ [Hl4 Hl48] _ _ _ _]. rewrite (u64_small (ve_base e + _)) by lia.
  assert ((if ve_base e <? 0x100000000 then 0x100000000 else ve_base e) = Z.max (ve_base e) 0x100000000) as ->
    by (destruct (Z.ltb_spec (ve_base e) 0x100000000); lia).
  set (base := Z.max _ _). set (top := ve_base e + ve_length e) in *. cbv zeta.
  destruct (Z.leb_spec top base) as [Hle|Hlt].
  { assert ((base <? top) = false) as -> by lia. apply boots_ret. intros w _ [_ ?]. lia. }
  assert ((base <? top) = true) as -> by lia.
  assert (0x100000000 ≤ base) as Hbase by lia. clearbody base.
  change 0x40000000 with (2^30). change 0x3FFFFFFF with (2^30 - 1). rewrite align_down_Ok, align_up_Ok by (unfold fits; lia).
  match goal with |- boots _ _ (lift (Ok ?ab) ≫= _) _ => set (lo := ab) end.
  match goal with |- boots _ _ (_ ≫= λ _, lift (Ok ?at_) ≫= _) _ => set (hi := at_) end.
  match goal with |- boots ?r ?n (lift (Ok ?x) ≫= λ y, lift (Ok ?z) ≫= @?g y) ?F => change (boots r n (g x z) F) end. cbv beta.
  assert (lo = base / 2^30 * 2^30) as Elo by (subst lo; Z.to_euclidean_division_equations; lia).
  assert (hi = (top + 2^30 - 1) / 2^30 * 2^30) as Ehi by done. clearbody lo hi.
  set (p := base / 2^30) in *. set (q := (top + 2^30 - 1) / 2^30) in *.
  assert (4 ≤ p ∧ p * 2^30 ≤ base < top ∧ top ≤ q * 2^30 ∧ q ≤ limit) as (Hp4 & Hpb & Htq & Hq).
  { subst p q. Z.to_euclidean_division_equations; lia. }
  replace (top + (2^30 - 1)) with (top + 2^30 - 1) by lia. fold q. clearbody p q. subst lo hi.
  rewrite (u64_small (q * 2^30 - _)) by lia.
  assert ((q * 2^30 - p * 2^30 + (2^30 - 1)) / 2^30 = q - p) as -> by (Z.to_euclidean_division_equations; lia).
  eapply boots_weaken; [| |apply (boots_for_each root direct_cost _ _
    (λ k w, hhdm + (p + k) * 2^30 ≤ w < hhdm + (p + k + 1) * 2^30))].
  - by rewrite length_seqZ.
  - intros w _ [_ Hin]. exists ((w - hhdm) / 2^30 - p). split; [apply elem_of_seqZ|]; Z.to_euclidean_division_equations; lia.
  - intros k Hk'%elem_of_seqZ. cbv zeta. rewrite (u64_small (p * 2^30 + _)) by lia.
    apply gib_boots; lia.
Qed.

(** The frames [vmm_init] can need. *)
Definition entry_frames (e : VmmEntry) : nat := (kernel_pages e * depth mode + memory_gibs e * direct_cost)%nat.
Definition vmm_frames (memmap : list VmmEntry) : nat := (1 + 4 * direct_cost + sum_list (entry_frames <$> memmap))%nat.

(** The maps, once the root is there. *)
Lemma boot_maps root f memmap : Forall (entry_ok limit ksize) memmap →
  boots root (4 * direct_cost + sum_list (entry_frames <$> memmap))
    (for_each (seqZ 0 4) (λ k, map_page hhdm mode cpuid_edx (Datatypes.S (Datatypes.S f)) (hhdm + root)
       (u64 (k * 0x40000000 + hhdm)) (k * 0x40000000) VMM_FLAG_WRITE Size1GiB) ;;
     for_each memmap (map_kernel_entry hhdm mode cpuid_edx (Datatypes.S (Datatypes.S f)) physical_base virtual_base (hhdm + root)) ;;
     for_each memmap (map_memory_entry hhdm mode cpuid_edx (Datatypes.S (Datatypes.S f)) (hhdm + root)))
    (λ w, hhdm ≤ w < hhdm + 2^32 ∨
       (∃ e, e ∈ memmap ∧ ve_type e = KERNEL_AND_MODULES ∧ virtual_base ≤ w < virtual_base + ve_length e) ∨
       (∃ e, e ∈ memmap ∧ is_memory e = true ∧ hhdm + Z.max (ve_base e) 0x100000000 ≤ w < hhdm + ve_base e + ve_length e)).
Proof using Hlo FS.
  intros Hm. rewrite Forall_forall in Hm. pose proof (lo_limit _ _ _ _ _ _ Hlo) as [Hl4 _].
  eapply boots_weaken; [| |apply boots_seq; [apply (boots_for_each root direct_cost _ _ (λ k w, hhdm + k * 2^30 ≤ w < hhdm + (k + 1) * 2^30))|
    apply boots_seq; apply boots_for_each_sum; intros e He; [apply kernel_entry_boots|apply memory_entry_boots]; by apply Hm]].
  - rewrite length_seqZ. clear Hm. enough (sum_list ((λ e, (kernel_pages e * depth mode)%nat) <$> memmap) +
      sum_list ((λ e, (memory_gibs e * direct_cost)%nat) <$> memmap) = sum_list (entry_frames <$> memmap))%nat as E by (rewrite E; done).
    induction memmap as [|e l IH]; [done|]. cbn. rewrite <- IH. unfold entry_frames. lia.
  - intros w _ [?|[?|?]]; [left|right; by left|right; by right].
    exists ((w - hhdm) / 2^30). split; [apply elem_of_seqZ|]; Z.to_euclidean_division_equations; lia.
  - intros k Hk%elem_of_seqZ. apply gib_boots; lia.
Qed.
End boot.

(** [vmm_init] as its callers use it. *)
Lemma vmm_init_Ok {S} `{HF : Frames S} {hhdm good client left} `{FS : !FramesSpec S hhdm good client left}
    mode cpuid_edx f limit physical_base virtual_base ksize memmap s :
  layout_ok mode hhdm limit physical_base virtual_base ksize → Forall (entry_ok limit ksize) memmap →
  good s → (∀ t p, good t → client t p → hhdm + p ≤ virtual_base) → (vmm_frames mode cpuid_edx memmap ≤ left s)%nat →
  ∃ root s', vmm_init hhdm mode cpuid_edx (Datatypes.S (Datatypes.S f)) physical_base virtual_base memmap s =
      (Ok (hhdm + root, root), s') ∧ good s' ∧ ¬ client s root ∧
    (∀ a, 0 ≤ a < 2^32 → translate hhdm mode s' root (hhdm + a) = Some (a, VMM_FLAG_WRITE)) ∧
    (∀ e a, e ∈ memmap → is_memory e = true → ve_base e ≤ a < ve_base e + ve_length e →
      translate hhdm mode s' root (hhdm + a) = Some (a, VMM_FLAG_WRITE)) ∧
    (∀ e a, e ∈ memmap → ve_type e = KERNEL_AND_MODULES → 0 ≤ a < ve_length e →
      translate hhdm mode s' root (virtual_base + a) = Some (physical_base + a, VMM_FLAG_WRITE)).
Proof.
  intros Hlo Hm Hg Hbelow Hleft. unfold vmm_frames in Hleft.
  destruct (fs_alloc s Hg ltac:(lia)) as (root & s1 & E1 & G1 & L1 & Hnc & Hc1 & _ & Hz & _).
  destruct (fs_range s1 root G1 Hc1) as (R0 & _ & R1 & H0 & R2). destruct (fresh_tree hhdm mode client s1 root Hc1 Hz) as [T1 W1].
  assert (booting (good:=good) (client:=client) (hhdm:=hhdm) mode cpuid_edx limit root {[root := []]} s1) as B1.
  { split; [done|done|]. intros ls e k _ Hr Hw. by rewrite W1 in Hw. }
  destruct (boot_maps (FS:=FS) mode cpuid_edx limit physical_base virtual_base ksize Hlo root f memmap Hm O s1 _ B1)
    as (s' & own & E & B & _ & T); [lia|].
  assert (∀ w, direct (hhdm:=hhdm) limit w ∨ kernel virtual_base ksize w → translate hhdm mode s1 root w = None) as Tn.
  { intros w _. unfold translate. destruct (va_indices_ok mode w) as [_ Hr]. by rewrite W1. }
  assert (∀ w r, want (hhdm:=hhdm) limit physical_base virtual_base ksize w = Some r →
    (hhdm ≤ w < hhdm + 2^32 ∨
       (∃ e, e ∈ memmap ∧ ve_type e = KERNEL_AND_MODULES ∧ virtual_base ≤ w < virtual_base + ve_length e) ∨
       (∃ e, e ∈ memmap ∧ is_memory e = true ∧ hhdm + Z.max (ve_base e) 0x100000000 ≤ w < hhdm + ve_base e + ve_length e)) →
    translate hhdm mode s' root w = Some r) as Hget.
  { intros w r Hw HF'. destruct (T w) as [->|[[] _]]; [|done|done].
    unfold want in Hw. unfold direct, kernel. repeat case_decide; [by left|by right|done]. }
  clear T. pose proof (layout_bounds mode limit physical_base virtual_base ksize Hlo) as [Hb0 [Hb1 Hb2]].
  destruct (lo_limit _ _ _ _ _ _ Hlo) as [Hl4 _]. rewrite Forall_forall in Hm.
  assert (∀ a, 0 ≤ a < limit * 2^30 → want (hhdm:=hhdm) limit physical_base virtual_base ksize (hhdm + a) = Some (a, VMM_FLAG_WRITE)) as Hwd.
  { intros a Ha. unfold want. rewrite decide_True by lia. do 2 f_equal. lia. }
  exists root, s'. split; [|split; [apply B|split; [done|split; [|split]]]].
  - unfold vmm_init. rewrite (bind_Ok _ _ _ _ _ E1). unfold to_higher_half. rewrite u64_small by lia.
    rewrite (Z.add_comm root hhdm). cbv zeta. revert E. unfold mbind, prog_bind.
    destruct (for_each (seqZ 0 4) _ s1) as [[[]| | | |] s2]; [|done..].
    destruct (for_each memmap _ s2) as [[[]| | | |] s3]; [|done..]. intros ->.
    specialize (Hbelow s1 root G1 Hc1). unfold va_space_switch. cbn -[Z.add].
    assert ((virtual_base <? hhdm + root) = false) as -> by lia. assert ((hhdm <? hhdm + root) = true) as -> by lia.
    unfold mret, prog_ret. do 3 f_equal. lia.
  - intros a Ha. apply Hget; [apply Hwd; lia|left; lia].
  - intros e a He Hmem Ha. destruct (Hm e He) as [M1 M2 M3 _].
    apply Hget; [apply Hwd; lia|]. destruct (decide (a < 2^32)); [left; lia|right; right].
    exists e. split; [done|]. split; [done|lia].
  - intros e a He Hty Ha. destruct (Hm e He) as [M1 M2 M3 M4]. specialize (M4 Hty).
    apply Hget; [|right; left; exists e; split; [done|]; split; [done|lia]].
    unfold want. rewrite decide_False, decide_True by lia. do 2 f_equal. lia.
Qed.

(** C8: on a machine laid out as the boot protocol promises, with enough free frames,
    [vmm_init] ends without panic and loads [cr3] with a fresh root whose tables
    translate every address of the first 4 GiB and of every memory region behind the
    direct-map offset to itself, and every byte of the kernel's image to its place in
    physical memory, writable, whether or not the processor has 1 GiB pages. *)
Theorem vmm_init_spec {S} `{HF : Frames S} {hhdm good client left} `{FS : !FramesSpec S hhdm good client left}
    mode cpuid_edx f limit physical_base virtual_base ksize memmap s :
  layout_ok mode hhdm limit physical_base virtual_base ksize → Forall (entry_ok limit ksize) memmap →
  good s → (∀ t p, good t → client t p → hhdm + p ≤ virtual_base) → (vmm_frames mode cpuid_edx memmap ≤ left s)%nat →
  ∃ root s', vmm_init hhdm mode cpuid_edx (Datatypes.S (Datatypes.S f)) physical_base virtual_base memmap s =
      (Ok (hhdm + root, root), s') ∧ good s' ∧ ¬ client s root ∧
    (∀ a, 0 ≤ a < 2^32 → translate hhdm mode s' root (hhdm + a) = Some (a, VMM_FLAG_WRITE)) ∧
    (∀ e a, e ∈ memmap → is_memory e = true → ve_base e ≤ a < ve_base e + ve_length e →
      translate hhdm mode s' root (hhdm + a) = Some (a, VMM_FLAG_WRITE)) ∧
    (∀ e a, e ∈ memmap → ve_type e = KERNEL_AND_MODULES → 0 ≤ a < ve_length e →
      translate hhdm mode s' root (virtual_base + a) = Some (physical_base + a, VMM_FLAG_WRITE)).
Proof. apply vmm_init_Ok. Qed.

(** * The page allocator provides the frames *)

#[export] Instance pmm_frames (hhdm : Z) : Frames PhysicalMemoryManager := {|
  alloc_frame := pmm_alloc hhdm 1;
  read64 s a := le_value ((λ k, ram s (a + k)) <$> seqZ 0 8);
  write64 a v s := set_ram (λ x, if decide (a ≤ x < a + 8) then v / 2^(8 * (x - a)) mod 2^8 else ram s x) s;
|}.

(** The physical memory lies below [top], which is at most 2^48, and in the direct map. *)
Record pmm_good (hhdm n top : Z) (s : PhysicalMemoryManager) : Prop := {
  pg_inv : pmm_inv n s;
  pg_safe : bitmap_safe hhdm n s;
  pg_hhdm : 0 ≤ hhdm;
  pg_top : hhdm + highest_page_idx s * PAGE_SIZE ≤ 2^64;
  pg_high : highest_page_idx s * PAGE_SIZE ≤ top ∧ top ≤ 2^48;
}.

(** A page in use, other than the bitmap's own. *)
Definition pmm_client (hhdm n : Z) (s : PhysicalMemoryManager) (p : Z) : Prop := ∃ page, p = page * PAGE_SIZE ∧
  0 < page < highest_page_idx s ∧ page_free s page = false ∧
  (hhdm + (page + 1) * PAGE_SIZE ≤ bitmap s ∨ bitmap s + n ≤ hhdm + page * PAGE_SIZE).

Definition free_pages (s : PhysicalMemoryManager) : nat :=
  length (filter (λ i, page_free s i = true) (seqZ 0 (highest_page_idx s))).

Lemma read64_agree (hhdm : Z) s s' a : (∀ k, 0 ≤ k < 8 → ram s' (a + k) = ram s (a + k)) →
  read64 (Frames:=pmm_frames hhdm) s' a = read64 (Frames:=pmm_frames hhdm) s a.
Proof.
  intros H. cbn [read64 pmm_frames]. f_equal. apply list_fmap_ext. intros i k Hk.
  apply list_elem_of_lookup_2, elem_of_seqZ in Hk. apply H. lia.
Qed.

Lemma read64_write64 (hhdm : Z) a v s : fits 64 v →
  read64 (Frames:=pmm_frames hhdm) (write64 (Frames:=pmm_frames hhdm) a v s) a = v.
Proof.
  intros Hv. transitivity (le_value (le_bytes 8 v)); [|by apply le_value_le_bytes].
  cbn [read64 write64 pmm_frames]. f_equal. change (seqZ 0 8) with [0; 1; 2; 3; 4; 5; 6; 7].
  cbn [fmap list_fmap le_bytes ram set_ram]. rewrite !decide_True by lia.
  
  assert (∀ k, a + k - a = k) as Hk by lia. rewrite !Hk, !Z.div_div by lia.
  by rewrite (Z.div_1_r v : v / 2^(8 * 0) = v).
Qed.

(** A program that leaves the bitmap's bytes and the fields alone. *)
Lemma page_free_write64 hhdm n top s p i v j : pmm_good hhdm n top s → pmm_client hhdm n s p → 0 ≤ i < 512 →
  0 ≤ j < highest_page_idx s → page_free (write64 (Frames:=pmm_frames hhdm) (hhdm + p + 8 * i) v s) j = page_free s j.
Proof.
  intros Hg (page & -> & Hp & Hf & Hd) Hi Hj. unfold page_free. cbn [write64 pmm_frames ram set_ram bitmap].
  pose proof (inv_covers _ _ (pg_inv _ _ _ _ Hg)). pose proof (Z.div_pos j 8). pose proof (Z.div_lt_upper_bound j 8 n).
  rewrite decide_False; [done|]. unfold PAGE_SIZE in *. lia.
Qed.

Lemma filter_iff_in (P Q : Z → Prop) `{HP : ∀ x, Decision (P x)} `{HQ : ∀ x, Decision (Q x)} (l : list Z) :
  (∀ y, y ∈ l → P y ↔ Q y) → filter P l = filter Q l.
Proof.
  induction l as [|y l IH]; intros H; [done|]. rewrite !filter_cons, IH by (intros; apply H; by right).
  assert (P y ↔ Q y) by (apply H; left). repeat case_decide; (tauto || done).
Qed.

Lemma free_pages_ext s s' : highest_page_idx s' = highest_page_idx s →
  (∀ j, 0 ≤ j < highest_page_idx s → page_free s' j = page_free s j) → free_pages s' = free_pages s.
Proof.
  intros Hh H. unfold free_pages. rewrite Hh. f_equal. apply filter_iff_in. intros j Hj%elem_of_seqZ.
  rewrite H by lia. done.
Qed.

(** Taking one page. *)
Lemma filter_taken (P Q : Z → Prop) `{HP : ∀ x, Decision (P x)} `{HQ : ∀ x, Decision (Q x)} (x : Z) (l : list Z) : NoDup l → x ∈ l →
  P x → (∀ y, y ∈ l → Q y ↔ P y ∧ y ≠ x) → length (filter P l) = S (length (filter Q l)).
Proof.
  induction 1 as [|y l Hy Hnd IH]; [by intros ?%elem_of_nil|]. intros [->|Hx]%elem_of_cons Hp H.
  - rewrite !filter_cons, decide_True, decide_False by (done || (rewrite H by left; tauto)). cbn. do 2 f_equal.
    apply filter_iff_in. intros z Hz. rewrite H by (by right). split; [intros; split; [done|congruence]|tauto].
  - rewrite !filter_cons. assert (Q y ↔ P y) as HE.
    { rewrite H by left. split; [tauto|]. intros; split; [done|congruence]. }
    assert (length (filter P l) = S (length (filter Q l))) as E.
    { apply IH; [done|done|]. intros z Hz. apply H. by right. }
    repeat case_decide; cbn; [by rewrite E|tauto|tauto|done].
Qed.

Lemma free_pages_some s : free_pages s ≠ O → ∃ i, 0 ≤ i < highest_page_idx s ∧ page_free s i = true.
Proof.
  unfold free_pages. intros H. destruct (filter _ _) as [|i l] eqn:E; [done|]. exists i.
  assert (i ∈ filter (λ i, page_free s i = true) (seqZ 0 (highest_page_idx s))) as Hi by (rewrite E; left).
  apply list_elem_of_filter in Hi as [? Hi%elem_of_seqZ]. split; [lia|done].
Qed.

(** One page more in use. *)
Lemma pmm_alloc_frame hhdm n top s : pmm_good hhdm n top s → free_pages s ≠ O →
  ∃ page s', pmm_alloc hhdm 1 s = (Ok (page * PAGE_SIZE), s') ∧ pmm_good hhdm n top s' ∧
    free_pages s' = pred (free_pages s) ∧ allocated n page 1 s s' ∧
    (∀ a, 0 ≤ a < PAGE_SIZE → ram s' (hhdm + page * PAGE_SIZE + a) = 0) ∧
    ∀ a, ¬ (bitmap s ≤ a < bitmap s + n) → ¬ (hhdm + page * PAGE_SIZE ≤ a < hhdm + (page + 1) * PAGE_SIZE) →
      ram s' a = ram s a.
Proof.
  intros [Hi Hs Hh Ht Hp] Hf. destruct (free_pages_some s Hf) as (j & Hj & Hfj).
  destruct (pmm_alloc_Ok hhdm n s 1) as (r & s' & E & I' & S' & [(page & -> & A & Z0 & F)|[_ X]]); try done.
  2: { exfalso. apply (ex_no_run _ _ _ X j); [lia|lia|]. intros i Hi'. by replace i with j by lia. }
  destruct A as [B W P U H L]. pose proof (inv_covers _ _ Hi). exists page, s'. split; [done|].
  split; [constructor; by rewrite ?H|]. split; [|split; [by constructor|split]].
  - unfold free_pages. rewrite H.
    rewrite (filter_taken (λ i, page_free s i = true) (λ i, page_free s' i = true) page); [done|apply NoDup_seqZ| | |].
    + apply elem_of_seqZ. lia.
    + apply W. lia.
    + intros y Hy%elem_of_seqZ. rewrite P by lia. case_decide; [|intuition lia]. split; [done|lia].
  - intros a Ha. apply Z0. lia.
  - intros a H1 H2. apply F; [done|lia].
Qed.

(** The page allocator keeps the promises of [FramesSpec]. *)
#[export] Instance pmm_frames_spec hhdm n top :
  FramesSpec PhysicalMemoryManager (H:=pmm_frames hhdm) hhdm (pmm_good hhdm n top) (pmm_client hhdm n) free_pages.
Proof.
  split.
  - intros s p [Hi Hs Hh Ht Hp] (page & -> & Hb & _). pose proof (inv_highest _ _ Hi). unfold PAGE_SIZE in *.
    split_and!; try lia. by rewrite Z.mod_mul.
  - intros s Hg Hl. destruct (pmm_alloc_frame hhdm n top s Hg Hl) as (page & s' & E & G' & L' & A & Z0 & F).
    exists (page * PAGE_SIZE), s'. destruct A as [B W P U H L].
    assert (page_free s page = true) as Hfree by (apply W; lia). destruct Hg as [Hi Hs Hh Ht Hp].
    pose proof (inv_covers _ _ Hi).
    split; [exact E|]. split; [done|]. split; [done|]. split; [|split; [|split; [|split]]].
    + intros (p' & E' & _ & Hf' & _). unfold PAGE_SIZE in E'. replace p' with page in Hf' by lia. congruence.
    + exists page. rewrite H, L, P by lia. rewrite decide_True by lia. split_and!; try done; try lia.
      apply Hs; [lia|done].
    + intros p (p' & -> & Hb & Hf' & Hd). exists p'. rewrite H, L, P by lia. split_and!; try done; try lia.
      by case_decide.
    + intros i Hi'. transitivity (le_value (replicate 8 0)); [|done]. cbn [read64 pmm_frames]. f_equal.
      change (replicate 8 0) with ((λ _, 0) <$> seqZ 0 8). apply list_fmap_ext. intros ? k Hk.
      apply list_elem_of_lookup_2, elem_of_seqZ in Hk. rewrite <- Z.add_assoc. apply Z0. unfold PAGE_SIZE. lia.
    + intros p i (p' & -> & Hb & Hf' & Hd) Hi'. apply read64_agree. intros k Hk.
      assert (p' ≠ page) by congruence. unfold PAGE_SIZE in *. apply F; lia.
  - intros s p i v Hg Hc Hi Hv s'. pose proof Hg as [I Hs Hh Ht Hp]. pose proof (inv_highest _ _ I).
    assert (∀ j, 0 ≤ j < highest_page_idx s → page_free s' j = page_free s j) as Hfree.
    { intros j Hj. by apply (page_free_write64 hhdm n top). }
    split_and!.
    + constructor; [|intros j Hj; rewrite Hfree by done; by apply Hs|done..].
      destruct I as [I1 I2 I3 I4 I5]. constructor; [done..|]. rewrite Hfree; [done|].
      destruct Hc as (page & _ & Hb & _). lia.
    + by apply free_pages_ext.
    + intros q (page & -> & Hb & Hf & Hd). exists page. by rewrite Hfree by (change (highest_page_idx s') with (highest_page_idx s); lia).
    + by apply read64_write64.
    + intros q j (q' & -> & Hbq & _) Hj Hne. destruct Hc as (p' & -> & Hbp & _). apply read64_agree. intros k Hk.
      unfold s'. cbn [write64 pmm_frames ram set_ram]. apply decide_False.
      unfold PAGE_SIZE in *. intros Hin. apply Hne. f_equal; lia.
Qed.

(** A frame in use lies in the memory. *)
Lemma pmm_client_below hhdm n top s p : pmm_good hhdm n top s → pmm_client hhdm n s p → p < top.
Proof. intros [_ _ _ _ [Hh _]] (page & -> & Hp & _). unfold PAGE_SIZE in *. lia. Qed.

(** ** A small machine: 64 pages, the bitmap in page 1, page 2 a zeroed table *)

Definition demo_hhdm : Z := 0xFFFF800000000000.
Definition demo_virtual_base : Z := 0xFFFFFFFF80000000.
Definition demo_machine : PhysicalMemoryManager :=
  mk_pmm (demo_hhdm + 0x1000) 64 0 64 3 (λ a, if decide (a = demo_hhdm + 0x1000) then 7 else 0).

Lemma demo_machine_good : pmm_good demo_hhdm 8 (2^20) demo_machine.
Proof.
  constructor; [constructor; done || (cbn; lia)| |done..|by vm_compute].
  intros i Hi Hf. cbn in Hi. destruct (decide (i < 3)) as [Hlt|].
  - exfalso. assert (i = 0 ∨ i = 1 ∨ i = 2) as C by lia. by destruct_or! C; subst.
  - right. cbn [bitmap demo_machine]. unfold PAGE_SIZE. lia.
Qed.

Lemma demo_left : free_pages demo_machine = 61%nat.
Proof. by vm_compute. Qed.

Lemma vmm_map_spec_witness : ∃ s' own', 
  vmm_map (H:=pmm_frames demo_hhdm) demo_hhdm FOUR_LEVEL 0 1 (demo_hhdm + 0x2000) 0xFFFFFFFF80000000 0x200000 2 Size4KiB demo_machine = (Ok tt, s') ∧
  pmm_good demo_hhdm 8 (2^20) s' ∧
  translate (HF:=pmm_frames demo_hhdm) demo_hhdm FOUR_LEVEL s' 0x2000 0xFFFFFFFF80000123 = Some (0x200123, 2) ∧
  tree_at (HF:=pmm_frames demo_hhdm) demo_hhdm FOUR_LEVEL (pmm_client demo_hhdm 8) own' 0x2000 s'.
Proof.
  assert (∀ i, in_range i → ent_at (HF:=pmm_frames demo_hhdm) demo_hhdm demo_machine 0x2000 i = 0) as Hz.
  { intros i Hi. unfold in_range in Hi. unfold ent_at. transitivity (le_value (replicate 8 0)); [|done].
    cbn [read64 pmm_frames]. f_equal. change (replicate 8 0) with ((λ _, 0) <$> seqZ 0 8).
    apply list_fmap_ext. intros ? k Hk. apply list_elem_of_lookup_2, elem_of_seqZ in Hk. cbn [ram demo_machine].
    apply decide_False. lia. }
  assert (pmm_client demo_hhdm 8 demo_machine 0x2000) as Hc.
  { exists 2. split; [done|]. split; [cbn; lia|]. split; [done|]. right. by vm_compute. }
  destruct (fresh_tree (HF:=pmm_frames demo_hhdm) demo_hhdm FOUR_LEVEL _ demo_machine 0x2000 Hc Hz) as [Ht Hw].
  destruct (vmm_map_spec (HF:=pmm_frames demo_hhdm) FOUR_LEVEL 0 O 0x2000 demo_machine _ 0xFFFFFFFF80000000 0x200000 2 Size4KiB
    demo_machine_good Ht) as (s' & own' & E & G & T & W).
  - done.
  - split; [by rewrite Hz|]. by rewrite Hz.
  - rewrite demo_left. cbn. lia.
  - lia.
  - done.
  - done.
  - exists s', own'. split; [exact E|]. split; [exact G|]. split; [|exact T]. rewrite W. by vm_compute.
Defined.

(** Its memory map: the kernel, and a GiB above 4 GiB. *)
Definition demo_memory_map : list VmmEntry :=
  [mk_vmm_entry 0x200000 0x1800 KERNEL_AND_MODULES; mk_vmm_entry 0x100000000 0x40000000 OTHER_MEMORY].

Lemma demo_address_layout : layout_ok FOUR_LEVEL demo_hhdm 5 0x200000 demo_virtual_base 0x2000.
Proof. split; [done|by vm_compute|lia|by vm_compute..|lia|done]. Qed.

Lemma demo_entries : Forall (entry_ok 5 0x2000) demo_memory_map.
Proof. unfold demo_memory_map. repeat apply Forall_cons_2; [..|done]; constructor; cbn; try done; lia. Qed.

Lemma vmm_init_spec_witness : ∃ root s',
  vmm_init (H:=pmm_frames demo_hhdm) demo_hhdm FOUR_LEVEL (2^26) 2 0x200000 demo_virtual_base demo_memory_map demo_machine =
    (Ok (demo_hhdm + root, root), s') ∧
  translate (HF:=pmm_frames demo_hhdm) demo_hhdm FOUR_LEVEL s' root (demo_hhdm + 0x12345) = Some (0x12345, 2) ∧
  translate (HF:=pmm_frames demo_hhdm) demo_hhdm FOUR_LEVEL s' root (demo_hhdm + 0x100000042) = Some (0x100000042, 2) ∧
  translate (HF:=pmm_frames demo_hhdm) demo_hhdm FOUR_LEVEL s' root (demo_virtual_base + 0x1234) = Some (0x201234, 2).
Proof.
  destruct (vmm_init_spec (HF:=pmm_frames demo_hhdm) (hhdm:=demo_hhdm) FOUR_LEVEL (2^26) O 5 0x200000 demo_virtual_base 0x2000
    demo_memory_map demo_machine demo_address_layout demo_entries demo_machine_good)
    as (root & s' & E & _ & _ & T1 & T2 & T3).
  - intros t p Ht Hc. pose proof (pmm_client_below _ _ _ _ _ Ht Hc). unfold demo_hhdm, demo_virtual_base. lia.
  - rewrite demo_left. apply Nat.leb_le. by vm_compute.
  - exists root, s'. split; [exact E|]. split; [exact (T1 0x12345 ltac:(lia))|]. split.
    + apply (T2 (mk_vmm_entry 0x100000000 0x40000000 OTHER_MEMORY) 0x100000042); [right; left|done|cbn; lia].
    + apply (T3 (mk_vmm_entry 0x200000 0x1800 KERNEL_AND_MODULES) 0x1234); [left|done|cbn; lia].
Defined.
