(* ===== verification/Start.v ===== *)
(** src/src/main.rs [_start], the memory part: [pmm_init], [init_allocator] and
    [vmm_init] one after the other, over the memory map the first one leaves behind
    for the last.  The heap lives in pages of the page allocator and the page tables
    are made of others, so the theorem at the end is about all three at once. *)

From S2P Require Import Prelude Mem Pmm Heap Paging Vmm.

(** ** The machine *)

(** Limine's memory map entry: [Usable], or one of the types [vmm_init] tells apart. *)
Inductive Kind := Usable | Other (t : EntryType).
Record BootEntry := mk_boot { be_base : Z; be_length : Z; be_kind : Kind }.

Definition is_usable (e : BootEntry) : bool := match be_kind e with Usable => true | Other _ => false end.
Definition pmm_view (e : BootEntry) : MemmapEntry :=
  {| entry_base := be_base e; entry_length := be_length e; entry_usable := is_usable e |}.
Definition vmm_view (e : BootEntry) : VmmEntry :=
  mk_vmm_entry (be_base e) (be_length e) (match be_kind e with Usable => OTHER_MEMORY | Other t => t end).

(** [pmm_init] changes the response's entries in place. *)
Definition updated (memmap : list BootEntry) (left : list MemmapEntry) : list BootEntry :=
  zip_with (λ e e', mk_boot (entry_base e') (entry_length e') (be_kind e)) memmap left.

(** The statics [PHYSICAL_MEMORY_MANAGER] (and the memory) and [ALLOCATOR]. *)
Record Machine := mk_machine { m_pmm : PhysicalMemoryManager; m_heap : LinkedListAllocator }.

Definition on_pmm {A} (f : prog PhysicalMemoryManager A) : prog Machine A := λ s,
  let '(r, p) := f (m_pmm s) in (r, mk_machine p (m_heap s)).
Definition on_heap {A} (f : prog LinkedListAllocator A) : prog Machine A := λ s,
  let '(r, h) := f (m_heap s) in (r, mk_machine (m_pmm s) h).

Definition HEAP_PAGES : Z := 1024.

Section start.
Context (hhdm : Z) (mode : Mode) (cpuid_edx physical_base virtual_base : Z).

(** [LinkedListAllocator::init], with the allocation it starts with. *)
Definition heap_init (pages : Z) : prog Machine unit :=
  ptr ← on_pmm (pmm_alloc hhdm pages);
  on_heap (Heap.init (to_higher_half hhdm ptr) pages).

Definition init_allocator : prog Machine unit := heap_init HEAP_PAGES.

(** The fuel is the depth of [vmm_map]'s recursion. *)
Definition start_memory (memmap : list BootEntry) : prog Machine (Z * Z) :=
  left ← on_pmm (pmm_init hhdm (pmm_view <$> memmap));
  init_allocator ;;
  on_pmm (vmm_init (H:=pmm_frames hhdm) hhdm mode cpuid_edx 2 physical_base virtual_base (vmm_view <$> updated memmap left)).
End start.

Definition machine_new (memory : Z → Z) : Machine := mk_machine (pmm_new memory) LinkedListAllocator_new.

Lemma on_pmm_Ok {A} (f : prog PhysicalMemoryManager A) r p p' h : f p = (r, p') →
  on_pmm f (mk_machine p h) = (r, mk_machine p' h).
Proof. unfold on_pmm. cbn. by intros ->. Qed.
Lemma on_heap_Ok {A} (f : prog LinkedListAllocator A) r p h h' : f h = (r, h') →
  on_heap f (mk_machine p h) = (r, mk_machine p h').
Proof. unfold on_heap. cbn. by intros ->. Qed.

(** ** Counting the pages of a map *)

Definition entry_pages (e : BootEntry) : Z := if is_usable e then be_length e / PAGE_SIZE else 0.
Definition memmap_pages (m : list BootEntry) : Z := foldr (λ e k, entry_pages e + k) 0 m.

(** The usable pages, by number. *)
Definition usable_page (m : list BootEntry) (j : Z) : Prop := existsb (page_in j) (pmm_view <$> m) = true.
#[export] Instance usable_page_dec m j : Decision (usable_page m j).
Proof. unfold usable_page. apply _. Defined.

Lemma length_filter_or (P Q R : Z → Prop) `{∀ x, Decision (P x)} `{∀ x, Decision (Q x)} `{∀ x, Decision (R x)} (l : list Z) :
  (∀ x, x ∈ l → (R x ↔ P x ∨ Q x) ∧ ¬ (P x ∧ Q x)) →
  length (filter R l) = (length (filter P l) + length (filter Q l))%nat.
Proof.
  induction l as [|x l IH]; intros Hx; [done|]. rewrite !filter_cons.
  destruct (Hx x ltac:(left)) as [Hr Hd]. specialize (IH (λ y Hy, Hx y (list_elem_of_further _ _ _ Hy))).
  repeat case_decide; cbn; rewrite ?IH; (tauto || lia).
Qed.

Lemma filter_all (P : Z → Prop) `{∀ x, Decision (P x)} (l : list Z) : Forall P l → filter P l = l.
Proof. induction 1; [done|]. rewrite filter_cons, decide_True by done. by f_equal. Qed.
Lemma filter_none (P : Z → Prop) `{∀ x, Decision (P x)} (l : list Z) : Forall (λ x, ¬ P x) l → filter P l = [].
Proof. induction 1; [done|]. by rewrite filter_cons, decide_False. Qed.

Lemma length_filter_interval a k H : 0 ≤ a → 0 ≤ k → a + k ≤ H →
  length (filter (λ j, a ≤ j < a + k) (seqZ 0 H)) = Z.to_nat k.
Proof.
  intros. replace H with (a + (k + (H - a - k))) by lia.
  rewrite seqZ_app, seqZ_app, !filter_app, !length_app by lia.
  rewrite (filter_all _ (seqZ (0 + a) k)) by (apply Forall_forall; intros j Hj%elem_of_seqZ; lia).
  rewrite (filter_none _ (seqZ 0 a)), (filter_none _ (seqZ (0 + a + k) _))
    by (apply Forall_forall; intros j Hj%elem_of_seqZ; lia).
  cbn. rewrite length_seqZ. lia.
Qed.

(** A usable entry is a run of whole pages below [top]. *)
Record entry_pages_ok (top : Z) (e : BootEntry) : Prop := {
  ep_base : 0 ≤ be_base e; ep_length : 0 ≤ be_length e;
  ep_aligned : (PAGE_SIZE | be_base e) ∧ (PAGE_SIZE | be_length e);
  ep_top : be_base e + be_length e ≤ top * PAGE_SIZE;
}.
Definition views_apart (e1 e2 : BootEntry) : Prop := entries_apart (pmm_view e1) (pmm_view e2).

Lemma page_in_interval top e j : is_usable e = true → entry_pages_ok top e →
  page_in j (pmm_view e) = true ↔ be_base e / PAGE_SIZE ≤ j < be_base e / PAGE_SIZE + entry_pages e.
Proof.
  intros Hu [Hb Hl [[b Eb] [k Ek]] Ht]. unfold page_in, entry_pages. cbn. rewrite Hu, Eb, Ek. cbn [andb].
  unfold PAGE_SIZE in *. rewrite !Z.div_mul by done. rewrite andb_true_iff, !Z.leb_le. lia.
Qed.

(** Entries that do not overlap: the pages add up. *)
Lemma count_usable top m : Forall (λ e, is_usable e = true → entry_pages_ok top e) m → ForallOrdPairs views_apart m →
  length (filter (usable_page m) (seqZ 0 top)) = Z.to_nat (memmap_pages m) ∧ 0 ≤ memmap_pages m.
Proof.
  intros Hm. induction 1 as [|e m He Hap IH].
  { split; [|done]. by rewrite filter_none by (apply Forall_forall; intros ? ? [=]). }
  apply Forall_cons in Hm as [Hok Hm]. destruct (IH Hm) as [E Hp]. cbn [memmap_pages foldr]. fold (memmap_pages m).
  assert (∀ j, usable_page (e :: m) j ↔ page_in j (pmm_view e) = true ∨ usable_page m j) as Hcons.
  { intros j. unfold usable_page. cbn [existsb fmap list_fmap]. apply orb_true_iff. }
  destruct (is_usable e) eqn:Hu.
  2: { unfold entry_pages. rewrite Hu. split; [|lia]. rewrite Z.add_0_l, <- E. f_equal. apply filter_iff_in. intros j _.
       rewrite Hcons. unfold page_in. cbn. rewrite Hu. cbn. naive_solver. }
  specialize (Hok eq_refl). pose proof (λ j, page_in_interval top e j Hu Hok) as Hpi.
  destruct Hok as [Hb Hl [[b Eb] [k Ek]] Ht]. unfold entry_pages in *. rewrite Hu in *.
  rewrite Eb, Ek in *. unfold PAGE_SIZE in *. rewrite Z.div_mul in * by done. setoid_rewrite Z.div_mul in Hpi; [|done].
  split; [|lia]. rewrite Z2Nat.inj_add, <- E by lia. rewrite <- (length_filter_interval b k top) by lia.
  apply length_filter_or. intros j _. rewrite Hcons, Hpi. split; [done|]. intros [Hj Hjm].
  unfold usable_page in Hjm. apply existsb_exists in Hjm as (v & (x & -> & Hx)%list_elem_of_In%list_elem_of_fmap & Hin).
  rewrite Forall_forall in He. unfold page_in, PAGE_SIZE in Hin. cbn in Hin.
  destruct (is_usable x) eqn:Hux; [|done]. cbn in Hin. apply andb_true_iff in Hin as [?%Z.leb_le ?%Z.leb_le].
  destruct (He x Hx Hu Hux); cbn in *; lia.
Qed.

(** ** What [pmm_init] leaves *)

(** The entry the bitmap was taken from. *)
Definition carved (n : Z) (e : BootEntry) : BootEntry := mk_boot (be_base e + n) (be_length e - n) Usable.

Lemma updated_same m : updated m (pmm_view <$> m) = m.
Proof. induction m as [|[b l k] m IH]; [done|]. unfold updated in *. cbn. by rewrite IH. Qed.

Lemma updated_carve n m l1 e l2 : pmm_view <$> m = l1 ++ e :: l2 → entry_usable e = true →
  ∃ m1 b m2, m = m1 ++ b :: m2 ∧ l1 = pmm_view <$> m1 ∧ e = pmm_view b ∧ l2 = pmm_view <$> m2 ∧ is_usable b = true ∧
    updated m (l1 ++ carve n e :: l2) = m1 ++ carved n b :: m2.
Proof.
  intros (m1 & [|b m2] & E1 & [=E2 E3] & ->)%fmap_app_inv Hu. subst. change (is_usable b = true) in Hu.
  exists m1, b, m2. split_and!; try done. unfold updated. rewrite zip_with_app by by rewrite length_fmap.
  cbn [zip_with]. fold (updated m1 (pmm_view <$> m1)) (updated m2 (pmm_view <$> m2)). rewrite !updated_same.
  unfold carved, is_usable in *. do 2 f_equal. by destruct (be_kind b).
Qed.

Lemma pairs_replace (e e' : BootEntry) l1 l2 : (∀ x, views_apart e x → views_apart e' x) →
  (∀ x, views_apart x e → views_apart x e') → ForallOrdPairs views_apart (l1 ++ e :: l2) →
  ForallOrdPairs views_apart (l1 ++ e' :: l2).
Proof.
  intros Hl Hr. induction l1 as [|x l1 IH]; inversion_clear 1 as [|? ? Hx Ho]; constructor; auto.
  - eapply Forall_impl; [exact Hx|auto].
  - apply Forall_app in Hx as [? [? ?]%Forall_cons]. apply Forall_app. auto.
Qed.

Lemma apart_pairs m : (∀ l1 e l2, pmm_view <$> m = l1 ++ e :: l2 → Forall (entries_apart e) (l1 ++ l2)) →
  ForallOrdPairs views_apart m.
Proof.
  induction m as [|e m IH]; intros Ha; constructor.
  - exact (proj1 (Forall_fmap _ _ _) (Ha [] _ _ eq_refl)).
  - apply IH. intros l1 x l2 E. specialize (Ha (pmm_view e :: l1) x l2). cbn in Ha. rewrite E in Ha.
    by specialize (Ha eq_refl) as [_ ?]%Forall_cons.
Qed.

Lemma memmap_pages_app m1 m2 : memmap_pages (m1 ++ m2) = memmap_pages m1 + memmap_pages m2.
Proof. induction m1 as [|e m IH]; [done|]. cbn. fold (memmap_pages (m ++ m2)) (memmap_pages m). lia. Qed.

(** The bitmap takes its pages from the total. *)
Lemma carved_pages n m1 e m2 : is_usable e = true → (PAGE_SIZE | n) →
  memmap_pages (m1 ++ carved n e :: m2) = memmap_pages (m1 ++ e :: m2) - n / PAGE_SIZE.
Proof.
  intros Hu [k ->]. rewrite !memmap_pages_app. cbn. unfold entry_pages. rewrite Hu. cbn.
  rewrite Z.div_mul by done. replace (be_length e - k * PAGE_SIZE) with (be_length e + - k * PAGE_SIZE) by lia.
  rewrite Z.div_add by done. lia.
Qed.

(** The page tables of a carved map need no more frames. *)
Lemma carved_frames mode cpuid_edx n m1 e m2 : is_usable e = true → 0 ≤ n →
  (vmm_frames mode cpuid_edx (vmm_view <$> m1 ++ carved n e :: m2) ≤ vmm_frames mode cpuid_edx (vmm_view <$> m1 ++ e :: m2))%nat.
Proof.
  intros Hu Hn. unfold vmm_frames. rewrite !fmap_app, !sum_list_with_app. cbn.
  assert (entry_frames mode cpuid_edx (vmm_view (carved n e)) ≤ entry_frames mode cpuid_edx (vmm_view e))%nat; [|lia].
  unfold entry_frames. apply Nat.add_le_mono.
  - unfold kernel_pages, vmm_view. cbn. apply Nat.le_0_l.
  - apply Nat.mul_le_mono_r. unfold memory_gibs, vmm_view. cbn -[Z.max]. unfold is_usable in Hu. destruct (be_kind e); [|done].
    cbn -[Z.max Z.sub Z.add]. replace (be_base e + n + (be_length e - n)) with (be_base e + be_length e) by lia.
    repeat change (is_memory _) with true. cbn [andb].
    destruct (Z.ltb_spec (Z.max (be_base e + n) 0x100000000) (be_base e + be_length e)) as [Hlt|]; [|apply Nat.le_0_l].
    assert ((Z.max (be_base e) 0x100000000 <? be_base e + be_length e) = true) as -> by lia.
    pose proof (Z.div_le_mono (Z.max (be_base e) 0x100000000) (Z.max (be_base e + n) 0x100000000) 0x40000000). lia.
Qed.

(** ** Frames that keep a region *)

Section kept.
Context {hhdm n top first count : Z} {avail : Z → Prop} {saved : Z → Z}.

(** Pages [first] to [first + count - 1] are in use, and hold [saved]; only pages of
    [avail] are free. *)
Record kept_good (s : PhysicalMemoryManager) : Prop := {
  kg_pmm : pmm_good hhdm n top s;
  kg_used : ∀ j, first ≤ j < first + count → page_free s j = false;
  kg_bounds : 0 < first ∧ first + count ≤ highest_page_idx s;
  kg_bitmap : hhdm + (first + count) * PAGE_SIZE ≤ bitmap s ∨ bitmap s + n ≤ hhdm + first * PAGE_SIZE;
  kg_ram : ∀ a, hhdm + first * PAGE_SIZE ≤ a < hhdm + (first + count) * PAGE_SIZE → ram s a = saved a;
  kg_free : ∀ j, 0 ≤ j < highest_page_idx s → page_free s j = true → avail j;
}.

(** The frames of everyone else. *)
Definition kept_client (s : PhysicalMemoryManager) (p : Z) : Prop := pmm_client hhdm n s p ∧
  (p + PAGE_SIZE ≤ first * PAGE_SIZE ∨ (first + count) * PAGE_SIZE ≤ p).

(** The page allocator serves them and leaves the region alone. *)
#[export] Instance kept_frames_spec : FramesSpec PhysicalMemoryManager (H:=pmm_frames hhdm) hhdm kept_good kept_client free_pages.
Proof.
  split.
  - intros s p [Hg _ _ _ _ _] [Hc _]. exact (fs_range (FramesSpec:=pmm_frames_spec hhdm n top) s p Hg Hc).
  - intros s [Hg Hu Hb Hbm Hr Hv] Hl.
    destruct (fs_alloc (FramesSpec:=pmm_frames_spec hhdm n top) s Hg Hl) as (r & s' & E & G' & L' & Nc & C' & Cs & Z0 & Rd).
    destruct (pmm_alloc_frame hhdm n top s Hg Hl) as (page & t & E' & _ & _ & A & _ & F).
    cbn [alloc_frame pmm_frames] in E. rewrite E' in E. injection E as <- ->. rename s' into t.
    destruct A as [B W P U H L]. pose proof (inv_covers _ _ (pg_inv _ _ _ _ Hg)).
    assert (page + 1 ≤ first ∨ first + count ≤ page) as Hout.
    { destruct (decide (first ≤ page < first + count)) as [Hin|]; [|lia].
      pose proof (W page ltac:(lia)). pose proof (Hu page Hin). congruence. }
    exists (page * PAGE_SIZE), t. split; [exact E'|]. split; [|split; [done|split; [|split; [|split; [|split; [done|]]]]]].
    + split; [done| |by rewrite H|by rewrite L| |].
      * intros j Hj. rewrite P by lia. case_decide; [done|by apply Hu].
      * intros a Ha. rewrite F; [by apply Hr| |unfold PAGE_SIZE in *; lia]. lia.
      * intros j. rewrite H. intros Hj. rewrite P by lia. case_decide; [done|by apply Hv].
    + intros [? _]. done.
    + split; [done|]. unfold PAGE_SIZE. lia.
    + intros p [Hp ?]. split; [by apply Cs|done].
    + intros p i [Hp _] Hi. by apply Rd.
  - intros s p i v [Hg Hu Hb Hbm Hr Ha] [Hc Ho] Hi Hv s'.
    destruct (fs_write (FramesSpec:=pmm_frames_spec hhdm n top) s p i v Hg Hc Hi Hv) as (G' & L' & Cs & Rw & Ro).
    split_and!; [|done| |done|].
    + split; [done| |done|done| |].
      * intros j Hj. unfold s'. rewrite (page_free_write64 hhdm n top) by (done || lia). by apply Hu.
      * intros a Hin. unfold s'. cbn [write64 pmm_frames ram set_ram]. rewrite decide_False; [by apply Hr|].
        unfold PAGE_SIZE in *. lia.
      * intros j. change (highest_page_idx s') with (highest_page_idx s). intros Hj. unfold s'.
        rewrite (page_free_write64 hhdm n top) by done. by apply Ha.
    + intros q [Hq ?]. split; [by apply Cs|done].
    + intros q j [Hq _] Hj Hne. by apply Ro.
Qed.
End kept.
Arguments kept_good : clear implicits.

Lemma kept_good_weaken hhdm n top first count (P Q : Z → Prop) saved s : (∀ j, P j → Q j) →
  kept_good hhdm n top first count P saved s → kept_good hhdm n top first count Q saved s.
Proof. intros H []. constructor; auto. Qed.

Arguments kept_client : clear implicits.

(** ** The heap's pages *)

Lemma free_pages_taken n page pages s s' : pmm_inv n s → 0 ≤ pages → allocated n page pages s s' →
  free_pages s = (free_pages s' + Z.to_nat pages)%nat.
Proof.
  intros Hi Hp [B W P U H L]. pose proof (inv_covers _ _ Hi). unfold free_pages. rewrite H.
  rewrite <- (length_filter_interval page pages (highest_page_idx s)) by lia. apply length_filter_or.
  intros j Hj%elem_of_seqZ. rewrite P by lia. case_decide as Hin; [|naive_solver].
  rewrite (W j Hin). naive_solver.
Qed.

(** [heap_init] takes zeroed pages nobody else has, when there are enough in a row.
    The null pointer of a failed allocation is not checked: the heap then starts at
    the direct map's first byte, over whatever is there. *)
Lemma heap_init_spec hhdm n top head_addr avail pages s : pmm_good hhdm n top s →
  (∀ j, 0 ≤ j < highest_page_idx s → page_free s j = true → avail j) → 0 < hhdm → (NODE_ALIGN | hhdm) →
  1 ≤ pages < 2^36 → hhdm + Z.max top (pages * PAGE_SIZE) ≤ head_addr < 2^64 →
  ∃ s' h', heap_init hhdm pages (mk_machine s LinkedListAllocator_new) = (Ok tt, mk_machine s' h') ∧
    ((∃ page, let lo := hhdm + page * PAGE_SIZE in allocated n page pages s s' ∧
        kept_good hhdm n top page pages avail (λ _, 0) s' ∧
        heap_inv head_addr lo (lo + pages * PAGE_SIZE) h' [(lo, pages * PAGE_SIZE)]) ∨
     (exhausted pages s s' ∧ heap_inv head_addr hhdm (hhdm + pages * PAGE_SIZE) h' [(hhdm, pages * PAGE_SIZE)])).
Proof.
  intros [Hi Hs Hh Ht Hp] Hav Hh0 [d Hd] Hpg Hhead. pose proof (inv_highest _ _ Hi).
  destruct (pmm_alloc_Ok hhdm n s pages) as (r & s' & E & I' & S' & R); [done..|lia|].
  assert (∃ page, r = page * PAGE_SIZE ∧ 0 ≤ page ∧ r + pages * PAGE_SIZE ≤ Z.max top (pages * PAGE_SIZE)) as (page & Er & Hp0 & Hr).
  { destruct R as [(page & -> & A & _)|[-> _]]; [|exists 0; lia].
    pose proof (al_bounds _ _ _ _ _ A). exists page. unfold PAGE_SIZE in *. lia. }
  destruct (init_spec head_addr (hhdm + r) pages) as (h' & Eh & Ih).
  1-6: unfold PAGE_SIZE, NODE_ALIGN in *; try lia; exists (d + page * 512); lia.
  exists s', h'. split.
  { unfold heap_init. rewrite (bind_Ok _ _ _ _ _ (on_pmm_Ok _ _ _ _ _ E)). unfold to_higher_half.
    rewrite u64_small by (unfold PAGE_SIZE in *; lia). rewrite Z.add_comm. by apply on_heap_Ok. }
  rewrite (Z.mul_comm PAGE_SIZE) in Ih. destruct R as [(page' & -> & A & Z0 & _)|[-> X]].
  - left. exists page'. cbn. split; [done|]. split; [|done]. pose proof A as [B W P U Hhi L].
    pose proof (inv_covers _ _ Hi). split.
    + by split; rewrite ?Hhi.
    + intros j Hj. rewrite P by lia. by rewrite decide_True.
    + rewrite Hhi. lia.
    + rewrite L. pose proof (zeroing_keeps_bitmap hhdm n s page' pages) as Hz.
      pose proof (Hz 0 Hs ltac:(lia) ltac:(lia) W ltac:(lia)).
      destruct (decide (bitmap s < hhdm + page' * PAGE_SIZE)) as [Hlt|]; [|unfold PAGE_SIZE in *; lia].
      right. destruct (decide (bitmap s + n ≤ hhdm + page' * PAGE_SIZE)); [done|].
      destruct (Hz (hhdm + page' * PAGE_SIZE - bitmap s) Hs ltac:(lia) ltac:(lia) W ltac:(lia)). unfold PAGE_SIZE in *. lia.
    + intros a Ha. replace a with (hhdm + page' * PAGE_SIZE + (a - hhdm - page' * PAGE_SIZE)) by lia.
      apply Z0. unfold PAGE_SIZE in *. lia.
    + intros j. rewrite Hhi. intros Hj. rewrite P by lia. case_decide; [done|by apply Hav].
  - right. rewrite Z.add_0_r in Ih. by split.
Qed.

(** ** The three together *)

Definition bitmap_size (m : list BootEntry) : Z := bitmap_bytes (top_address 0 (pmm_view <$> m) / PAGE_SIZE).

(** What the boot loader provides: a layout of the address space and a memory map
    with a run of pages for the bitmap and the heap, and frames for the tables. *)
Record start_ok (hhdm : Z) (mode : Mode) (cpuid_edx limit physical_base virtual_base ksize : Z) (m : list BootEntry) : Prop := {
  so_layout : Vmm.layout_ok mode hhdm limit physical_base virtual_base ksize;
  so_map : memmap_wf hhdm (bitmap_size m) (pmm_view <$> m);
  so_covers : top_address 0 (pmm_view <$> m) / PAGE_SIZE ≤ 8 * bitmap_size m;
  so_entries : Forall (entry_ok limit ksize) (vmm_view <$> m);
  so_heap : Exists (λ e, is_usable e = true ∧ bitmap_size m + HEAP_PAGES * PAGE_SIZE ≤ be_length e) m;
  so_frames : bitmap_size m / PAGE_SIZE + HEAP_PAGES + Z.of_nat (vmm_frames mode cpuid_edx (vmm_view <$> m)) ≤ memmap_pages m;
}.

Lemma top_address_bound h m B : h ≤ B → Forall (λ e, entry_usable e = true → entry_base e + entry_length e ≤ B) m →
  top_address h m ≤ B.
Proof.
  intros Hh Hm. revert h Hh. induction Hm as [|e m He _ IH]; intros h Hh; cbn; [done|].
  apply IH. destruct (entry_usable e); [|done]. specialize (He eq_refl). lia.
Qed.

Section boot_memory.
Context {hhdm : Z} {mode : Mode} {cpuid_edx limit physical_base virtual_base ksize : Z} {m : list BootEntry}.
Context (Hok : start_ok hhdm mode cpuid_edx limit physical_base virtual_base ksize m).

Lemma start_entries : Forall (λ e, is_usable e = true → entry_pages_ok (top_address 0 (pmm_view <$> m) / PAGE_SIZE) e) m.
Proof using Hok.
  destruct Hok as [_ [Hh Hwf _ _] _ _ _ _]. apply Forall_forall. intros e He Hu. rewrite Forall_fmap, Forall_forall in Hwf.
  destruct (Hwf e He Hu) as (Hb & Hl & Hdb & Hdl & _). cbn in *.
  destruct (top_address_le (pmm_view <$> m) 0) as [_ Ht]. specialize (Ht (pmm_view e) (list_elem_of_fmap_2 _ _ _ He) Hu). cbn in Ht.
  split; [unfold PAGE_SIZE in *; lia|done|done|]. destruct Hdb as [b Eb], Hdl as [k Ek].
  assert (b + k ≤ top_address 0 (pmm_view <$> m) / PAGE_SIZE); [|unfold PAGE_SIZE in *; lia].
  apply Z.div_le_lower_bound; unfold PAGE_SIZE in *; lia.
Qed.

(** The map after [pmm_init]: one usable entry lost the bitmap's pages. *)
Lemma start_map l1 e l2 : pmm_view <$> m = l1 ++ e :: l2 → entry_usable e = true → bitmap_size m ≤ entry_length e →
  0 ≤ bitmap_size m → (PAGE_SIZE | bitmap_size m) →
  let m' := updated m (l1 ++ carve (bitmap_size m) e :: l2) in
  pmm_view <$> m' = l1 ++ carve (bitmap_size m) e :: l2 ∧ Forall (entry_ok limit ksize) (vmm_view <$> m') ∧
  Exists (λ e, is_usable e = true ∧ HEAP_PAGES * PAGE_SIZE ≤ be_length e) m' ∧
  HEAP_PAGES + Z.of_nat (vmm_frames mode cpuid_edx (vmm_view <$> m')) ≤ memmap_pages m' ∧
  ForallOrdPairs views_apart m' ∧ (∀ j, usable_page m' j → usable_page m j) ∧
  Forall (λ e, is_usable e = true → entry_pages_ok (top_address 0 (pmm_view <$> m) / PAGE_SIZE) e) m'.
Proof using Hok.
  intros Em Hu Hle Hn Hdiv m'. destruct Hok as [Hlo [Hh Hwf Hap _] _ Hent Hheap Hfr].
  destruct (updated_carve (bitmap_size m) m l1 e l2 Em Hu) as (m1 & b & m2 & Emm & -> & -> & -> & Hub & Eup).
  unfold m'. rewrite Eup. clear m' Eup Em. pose proof start_entries as Hpok.
  generalize dependent (bitmap_size m). generalize dependent (top_address 0 (pmm_view <$> m) / PAGE_SIZE). intros top Hpok n Hle Hn Hd Hheap Hfr.
  change (entry_length (pmm_view b)) with (be_length b) in Hle. apply apart_pairs in Hap. rewrite Emm in *. clear m Emm Hok Hwf.
  rewrite Forall_fmap in Hent |- *. apply Forall_app in Hent as [Hent1 [Hentb Hent2]%Forall_cons].
  apply Forall_app in Hpok as [Hpok1 [Hpokb Hpok2]%Forall_cons]. specialize (Hpokb Hub).
  split; [by rewrite fmap_app|]. split; [|split; [|split; [|split; [|split]]]].
  - apply Forall_app. split; [done|]. constructor; [|done]. destruct Hentb. cbn in *. split; cbn; (lia || done).
  - rewrite Exists_app, Exists_cons. apply Exists_app in Hheap as [Hheap|[Hheap|Hheap]%Exists_cons].
    + left. eapply Exists_impl; [exact Hheap|]. cbn. intros x [? ?]. split; [done|lia].
    + right. left. cbn. split; [done|lia].
    + right. right. eapply Exists_impl; [exact Hheap|]. cbn. intros x [? ?]. split; [done|lia].
  - rewrite carved_pages by done. pose proof (carved_frames mode cpuid_edx n m1 b m2 Hub Hn). lia.
  - revert Hap. apply pairs_replace; unfold views_apart, entries_apart; cbn; intros x Hx ? ?;
      destruct (Hx ltac:(done) ltac:(done)); lia.
  - intros j. unfold usable_page. rewrite !fmap_app, !existsb_app, !orb_true_iff. cbn [fmap list_fmap existsb].
    rewrite !orb_true_iff. unfold page_in. cbn. rewrite Hub. cbn. rewrite !andb_true_iff, !Z.leb_le. intuition lia.
  - apply Forall_app. split; [done|]. constructor; [|done]. intros _. destruct Hpokb as [? ? [? ?] ?]. split; cbn; try lia.
    split; [by apply Z.divide_add_r|by apply Z.divide_sub_r].
Qed.

(** The page allocator after [pmm_init], and how many pages it has. *)
Lemma start_pmm memory : ∃ left s', pmm_init hhdm (pmm_view <$> m) (pmm_new memory) = (Ok left, s') ∧
  let m' := updated m left in
  pmm_good hhdm (bitmap_size m) (limit * 2^30) s' ∧
  HEAP_PAGES + Z.of_nat (vmm_frames mode cpuid_edx (vmm_view <$> m')) ≤ Z.of_nat (free_pages s') ∧
  Forall (entry_ok limit ksize) (vmm_view <$> m') ∧
  (∃ first, 0 ≤ first ∧ first + HEAP_PAGES ≤ highest_page_idx s' ∧ free_run s' first HEAP_PAGES) ∧
  (∀ j, 0 ≤ j < highest_page_idx s' → page_free s' j = true → usable_page m' j ∧ usable_page m j).
Proof using Hok.
  pose proof Hok as [Hlo Hmap Hcov Hent Hheap Hfr].
  destruct (pmm_init_Ok hhdm memory (pmm_view <$> m) Hmap Hcov) as (l1 & e & l2 & s' & Em & Hu & Hle & E & Hh & Hi & Hs & Hp & _).
  pose proof Hmap as [Hh0 Hwf _ _]. destruct (init_sizes hhdm (pmm_view <$> m) Hh0 Hwf) as (Hb & Hn & Hdiv).
  fold (bitmap_size m) in *. destruct (start_map l1 e l2 Em Hu Hle Hn Hdiv) as (Ev & Ho & Hx & Hf & Ha & Hsub & Hpo).
  exists (l1 ++ carve (bitmap_size m) e :: l2), s'. split; [done|]. intros m'. fold m' in Ev, Ho, Hx, Hf, Ha, Hsub, Hpo.
  set (top := top_address 0 (pmm_view <$> m) / PAGE_SIZE) in *. rewrite <- Ev in Hp. clearbody m'. clear l1 e l2 Em Hu Hle E Ev Hmap Hdiv.
  assert (∀ j, 0 ≤ j < top → page_free s' j = true ↔ usable_page m' j) as Hfree by (intros j Hj; by rewrite Hp by lia).
  split; [|split; [|split; [done|split]]].
  - pose proof (layout_bounds _ _ _ _ _ Hlo) as (_ & _ & Ht). destruct (lo_limit _ _ _ _ _ _ Hlo) as [Hl4 Hl48].
    assert (top_address 0 (pmm_view <$> m) ≤ limit * 2^30) as Hta.
    { apply top_address_bound; [lia|]. apply Forall_fmap. rewrite Forall_fmap in Hent.
      eapply Forall_impl; [exact Hent|]. by intros x [_ _ ? _] _. }
    pose proof (Z.mul_div_le (top_address 0 (pmm_view <$> m)) PAGE_SIZE eq_refl). fold top in H.
    split; [done|done|done|rewrite Hh..]; lia.
  - unfold free_pages. rewrite Hh. destruct (count_usable top m' Hpo Ha) as [Ec Hc].
    rewrite (filter_iff_in _ (usable_page m')); [lia|]. intros j Hj%elem_of_seqZ. apply Hfree. lia.
  - apply Exists_exists in Hx as (x & Hxm & Hux & Hlx). rewrite Forall_forall in Hpo. pose proof (Hpo x Hxm Hux) as Hxo.
    exists (be_base x / PAGE_SIZE). destruct (Hxo) as [Hb0 Hl0 [[b Eb] [k Ek]] Ht]. rewrite Eb, Z.div_mul, Hh by done.
    unfold HEAP_PAGES, PAGE_SIZE in *. split; [lia|]. split; [lia|]. intros j Hj. apply Hfree; [lia|].
    apply existsb_exists. exists (pmm_view x). split; [by apply list_elem_of_In, list_elem_of_fmap_2|].
    apply (page_in_interval top); [done|done|]. unfold entry_pages. rewrite Hux, Eb, Ek. unfold PAGE_SIZE. rewrite !Z.div_mul by done. lia.
  - intros j Hj Hf'. rewrite Hh in Hj. apply Hfree in Hf'; auto.
Qed.

(** C2: The memory side of [_start] composes.  On a memory map with room for the
    bitmap, a 4 MiB run and the frames of the tables, the three initialisations
    return; the heap is one free region of 4 MiB, in zeroed pages that
    belong to it alone: building the page tables took other frames and changed no
    byte of it; and under the tables [cr3] ends up with, every address the heap
    manages and every page the allocator still has free is mapped,
    read-write, to the memory it names.  The page allocator's invariant holds. *)
Theorem start_memory_spec memory head_addr :
  virtual_base ≤ head_addr < 2^64 →
  ∃ root first s' h',
    start_memory hhdm mode cpuid_edx physical_base virtual_base m (machine_new memory) =
      (Ok (hhdm + root, root), mk_machine s' h') ∧
    let lo := hhdm + first * PAGE_SIZE in
    let size := HEAP_PAGES * PAGE_SIZE in
    heap_inv head_addr lo (lo + size) h' [(lo, size)] ∧
    kept_good hhdm (bitmap_size m) (limit * 2^30) first HEAP_PAGES (usable_page m) (λ _, 0) s' ∧
    (∀ a, lo ≤ a < lo + size → translate (HF:=pmm_frames hhdm) hhdm mode s' root a = Some (a - hhdm, VMM_FLAG_WRITE)) ∧
    (∀ j, 0 ≤ j < highest_page_idx s' → page_free s' j = true → ∀ a, 0 ≤ a < PAGE_SIZE →
      translate (HF:=pmm_frames hhdm) hhdm mode s' root (hhdm + j * PAGE_SIZE + a) = Some (j * PAGE_SIZE + a, VMM_FLAG_WRITE)).
Proof using Hok.
  intros Hhead. destruct (start_pmm memory) as (left & s1 & E1 & G1 & Hfr & Hent & (f0 & Hf0 & Hf1 & Hrun) & Hav).
  cbv zeta in *. set (m' := updated m left) in *. pose proof (so_layout _ _ _ _ _ _ _ _ Hok) as Hlo.
  pose proof (layout_bounds _ _ _ _ _ Hlo) as (Hh0 & Hhv & _). pose proof (lo_limit _ _ _ _ _ _ Hlo) as [Hl4 _].
  assert (0 < hhdm ∧ (NODE_ALIGN | hhdm)) as [Hpos Hal].
  { destruct Hlo as [Hm Hup _ _ _ _ _]. assert (2^(va_bits mode - 1) ≤ 2^63) by (destruct mode; by vm_compute).
    split; [lia|].
    apply Z.mod_divide in Hm as [d ->]; [|done]. exists (d * 2^27). unfold NODE_ALIGN. lia. }
  destruct (heap_init_spec hhdm _ _ head_addr (λ j, usable_page m' j ∧ usable_page m j) HEAP_PAGES s1 G1 Hav Hpos Hal)
    as (s2 & h & E2 & [(first & A & K & Ih)|[X _]]); [done|unfold HEAP_PAGES, PAGE_SIZE; lia| |].
  2: { by destruct (ex_no_run _ _ _ X f0 Hf0 Hf1). }
  pose proof (free_pages_taken _ first HEAP_PAGES s1 s2 (pg_inv _ _ _ _ G1) ltac:(done) A) as Hleft.
  destruct (vmm_init_Ok (FS:=kept_frames_spec) mode cpuid_edx O limit physical_base virtual_base ksize (vmm_view <$> m') s2
    Hlo Hent K) as (root & s3 & E3 & K3 & _ & _ & T & _).
  { intros t p [Hg _ _ _ _ _] [Hc _]. pose proof (pmm_client_below _ _ _ _ _ Hg Hc). lia. }
  { unfold HEAP_PAGES in *. lia. }
  assert (∀ j a, usable_page m' j → 0 ≤ a < PAGE_SIZE → translate (HF:=pmm_frames hhdm) hhdm mode s3 root (hhdm + j * PAGE_SIZE + a) =
    Some (j * PAGE_SIZE + a, VMM_FLAG_WRITE)) as Hmap.
  { intros j a (v & (e & -> & He)%list_elem_of_In%list_elem_of_fmap & Hin)%existsb_exists Ha. rewrite <- Z.add_assoc.
    unfold page_in in Hin. cbn in Hin. destruct (is_usable e) eqn:Hu; [|done]. cbn in Hin.
    apply andb_true_iff in Hin as [?%Z.leb_le ?%Z.leb_le].
    apply (T (vmm_view e)); [by apply list_elem_of_fmap_2| |cbn; lia].
    unfold is_usable in Hu. unfold vmm_view, is_memory. by destruct (be_kind e). }
  exists root, first, s3, h. split; [|split; [exact Ih|split; [|split]]].
  - unfold start_memory, machine_new. rewrite (bind_Ok _ _ _ _ _ (on_pmm_Ok _ _ _ _ _ E1)). unfold init_allocator.
    rewrite (bind_Ok _ _ _ _ _ E2). by apply on_pmm_Ok.
  - eapply kept_good_weaken; [|exact K3]. by intros j [].
  - intros a Ha. destruct A as [B W _ _ _ _]. set (j := (a - hhdm) / PAGE_SIZE).
    assert (first ≤ j < first + HEAP_PAGES ∧ j * PAGE_SIZE ≤ a - hhdm < j * PAGE_SIZE + PAGE_SIZE) as [Hj ?]
      by (unfold j, HEAP_PAGES, PAGE_SIZE in *; Z.to_euclidean_division_equations; lia).
    destruct (Hav j ltac:(lia) (W j Hj)) as [Hm' _].
    replace a with (hhdm + j * PAGE_SIZE + (a - hhdm - j * PAGE_SIZE)) by lia. rewrite Hmap by (done || lia). do 2 f_equal. lia.
  - intros j Hj Hf a Ha. apply Hmap; [|done]. by destruct (kg_free _ K3 j Hj Hf).
Qed.
End boot_memory.

(** A machine with 20 MiB of memory and a device above 4 GiB. *)
Definition demo_boot_map : list BootEntry :=
  [mk_boot 0x1000 0x9E000 Usable; mk_boot 0x200000 0x1800 (Other KERNEL_AND_MODULES);
   mk_boot 0x400000 0x1000000 Usable; mk_boot 0x100000000 0x40000000 (Other OTHER_MEMORY)].

Lemma demo_start : start_ok demo_hhdm FOUR_LEVEL (2^26) 5 0x200000 demo_virtual_base 0x2000 demo_boot_map.
Proof.
  split.
  - exact demo_address_layout.
  - split; [by vm_compute| | |].
    + repeat apply Forall_cons_2; [..|by apply Forall_nil]; intros Hu; try (vm_compute in Hu; done);
        (split_and!; [by vm_compute|by vm_compute|by apply Z.mod_divide|by apply Z.mod_divide|by vm_compute]).
    + intros l1 e l2 E. destruct l1 as [|x1 [|x2 [|x3 [|x4 [|]]]]]; inversion E; subst;
        cbn [app]; repeat apply Forall_cons_2; try (by apply Forall_nil); intros Hu Hu';
        try (by vm_compute in Hu); try (by vm_compute in Hu'); cbn; lia.
    + left. split; by vm_compute.
  - by vm_compute.
  - repeat apply Forall_cons_2; [..|by apply Forall_nil]; constructor; try (by vm_compute); intros Hk; by vm_compute in Hk.
  - right. right. left. split; by vm_compute.
  - by vm_compute.
Qed.

Lemma start_memory_spec_witness : ∃ root first s' h',
  start_memory demo_hhdm FOUR_LEVEL (2^26) 0x200000 demo_virtual_base demo_boot_map (machine_new (λ _, 0)) =
    (Ok (demo_hhdm + root, root), mk_machine s' h') ∧
  let lo := demo_hhdm + first * PAGE_SIZE in
  heap_inv (demo_virtual_base + 0x1000) lo (lo + 0x400000) h' [(lo, 0x400000)].
Proof.
  destruct (start_memory_spec demo_start (λ _, 0) (demo_virtual_base + 0x1000)) as (root & first & s' & h' & E & I & _).
  - by vm_compute.
  - exists root, first, s', h'. exact (conj E I).
Defined.
(** The bitmap's pages leave the memory map, so [vmm_init] maps them only when they lie
    below 4 GiB or in the same GiB as the rest of their entry.  Here the bitmap of a
    machine whose memory starts just below 5 GiB is at an address the new tables do
    not translate: the next allocation would fault. *)
Definition high_boot_map : list BootEntry := [mk_boot 0x13FFD0000 0x40030000 Usable].

Definition high_left : outcome (list MemmapEntry) :=
  fst (place_bitmap demo_hhdm (pmm_view <$> high_boot_map) (bitmap_size high_boot_map) (pmm_new (λ _, 0))).

Definition high_tables : outcome (Z * Z) * PhysicalMemoryManager :=
  vmm_init (H:=pmm_frames demo_hhdm) demo_hhdm FOUR_LEVEL (2^26) 2 0x200000 demo_virtual_base
    (vmm_view <$> match high_left with Ok memmap => updated high_boot_map memmap | _ => [] end) demo_machine.

Lemma bitmap_unmapped :
  bitmap (snd (place_bitmap demo_hhdm (pmm_view <$> high_boot_map) (bitmap_size high_boot_map) (pmm_new (λ _, 0)))) =
    demo_hhdm + 0x13FFD0000 ∧
  fst high_tables = Ok (demo_hhdm + 0x3000, 0x3000) ∧
  translate (HF:=pmm_frames demo_hhdm) demo_hhdm FOUR_LEVEL (snd high_tables) 0x3000 (demo_hhdm + 0x140000000) =
    Some (0x140000000, VMM_FLAG_WRITE) ∧
  translate (HF:=pmm_frames demo_hhdm) demo_hhdm FOUR_LEVEL (snd high_tables) 0x3000 (demo_hhdm + 0x13FFD0000) = None.
Proof. split_and!; vm_compute; reflexivity. Qed.
